(** * Knuth's elevator simulator (TAOCP 1, section 2.2.5) in Go:
      a shallow embedding of [knuthElevator.go] and its properties.

    The embedding follows the complete program of the repository (the one
    with steps U1-U6, E1-E9 and the DECISION subroutine).

    Representation choices.
    - Go [int] is [Z]; every quantity of a run stays far below 2^63, the
      clock being cut at [maxTime].
    - A circular doubly linked list with a list head is the Rocq list of its
      nodes read from [head.rlink] rightwards.  [head.insertRight] is then
      [cons], [head.insertLeft] appends at the end, following [llink] from the
      head reads the list backwards, and [x.delete()] removes the node [x]
      from the list it is on (it leaves a node that is on no list alone,
      since such a node has [llink = rlink = x]).
    - A [*node] is the number handed out by the allocation counter [alloc];
      nodes made for the WAIT list carry a [waitElement], nodes made by
      [newNode(u)] carry a user.  The program links the first kind only into
      [s.wait] and the second kind only into a queue or the stack.
    - A [*user] is the record of the four fields fixed by [newUser]; the two
      fields written later ([listNode], [giveUp]) live in maps keyed by the
      user's [id], which [s.userID++] makes unique.
    - The closures handed to [newWaitFunc] are the constructors of
      [listener].
    - [math/rand] is an input: each U1 consumes four raw draws, reduced by
      [Int31n].
    - [s.print] only writes the trace and is left out.
    - A function returns [None] where the Go code panics (index out of
      range) or never returns ([sortIn] circling the list). *)

From stdpp Require Import base option list gmap strings.
From Stdlib Require Import ZArith Lia Sorted.

Local Open Scope Z_scope.

(** * Constants *)

Definition floorSubbasement : Z := 0.
Definition floorBasement : Z := 1.
Definition floorFirst : Z := 2.
Definition floorSecond : Z := 3.
Definition floorThird : Z := 4.
Definition floorHome : Z := floorFirst.
Definition floors : Z := 5.

Inductive direction := stateGoingUp | stateGoingDown | stateNeutral.

Inductive stepId :=
| stepWaitForCall | stepChangeOfState | stepOpenDoors | stepLetPeopleOutIn
| stepCloseDoors | stepPrepareToMove | stepGoUpAFloor | stepGoDownAFloor
| stepSetInactionIndicator.

Definition minGiveUpTime : Z := 30 * 10.
Definition maxGiveUpTime : Z := 2 * 60 * 10.
Definition minInterTime : Z := 1 * 10.
Definition maxInterTime : Z := 90 * 10.
Definition maxTime : Z := 1000 * 10.

#[global] Instance direction_eq_dec : EqDecision direction.
Proof. solve_decision. Defined.

#[global] Instance stepId_eq_dec : EqDecision stepId.
Proof. solve_decision. Defined.

(** * Data *)

(** The address of a list node. *)
Abbreviation node := nat.

Record user := newUser {
  id_ : Z;
  in_ : Z;
  out : Z;
  giveUpTime : Z
}.

(** The functions given to [newWaitFunc]. *)
Inductive listener :=
| wf_userEnterPrepareForSuccessor
| wf_userSignalAndWait (u : user)
| wf_userEnterQueue (u : user)
| wf_userGiveUp (u : user)
| wf_userGetIn (u : user)
| wf_userGetOut (u : user)
| wf_executeWaitForCall
| wf_executeChangeOfState
| wf_executeOpenDoors
| wf_executeLetPeopleOutIn
| wf_executeCloseDoors
| wf_executePrepareToMove
| wf_executeGoUpAFloor
| wf_executeGoUpAFloor2
| wf_executeGoDownAFloor
| wf_executeGoDownAFloor2
| wf_executeSetInactionIndicator.

Record waitElement := newWaitElement {
  nextTime : Z;
  nextInst : listener
}.

(** A node of the WAIT list and a node of a queue or of the stack. *)
Definition wnode : Type := node * waitElement.
Definition unode : Type := node * user.

Record elevator := mkElevator {
  callUp : list bool;
  callDown : list bool;
  callCar : list bool;
  floor : Z;
  d1 : bool;
  d2 : bool;
  d3 : bool;
  state : direction;
  step : stepId;
  elev1 : option node;
  elev2 : option node;
  elev3 : option node;
  stack : list unode;
  queue : list (list unode)
}.

Record simulator := mkSimulator {
  time : Z;
  userID : Z;
  ele : elevator;
  wait : list wnode;
  alloc : node;
  listNode : gmap Z node;
  giveUp : gmap Z node
}.

Definition newElevator : elevator :=
  {| callUp := replicate (Z.to_nat floors) false;
     callDown := replicate (Z.to_nat floors) false;
     callCar := replicate (Z.to_nat floors) false;
     floor := floorHome;
     d1 := false; d2 := false; d3 := false;
     state := stateNeutral;
     step := stepWaitForCall;
     elev1 := None; elev2 := None; elev3 := None;
     stack := [];
     queue := replicate (Z.to_nat floors) [] |}.

Definition newSimulator : simulator :=
  {| time := 0; userID := 0; ele := newElevator; wait := [];
     alloc := O; listNode := ∅; giveUp := ∅ |}.

(** ** Field updates *)

Definition upd_ele (f : elevator -> elevator) (s : simulator) : simulator :=
  {| time := time s; userID := userID s; ele := f (ele s); wait := wait s;
     alloc := alloc s; listNode := listNode s; giveUp := giveUp s |}.

Definition set_wait (w : list wnode) (s : simulator) : simulator :=
  {| time := time s; userID := userID s; ele := ele s; wait := w;
     alloc := alloc s; listNode := listNode s; giveUp := giveUp s |}.

Definition set_time (t : Z) (s : simulator) : simulator :=
  {| time := t; userID := userID s; ele := ele s; wait := wait s;
     alloc := alloc s; listNode := listNode s; giveUp := giveUp s |}.

Definition set_userID (i : Z) (s : simulator) : simulator :=
  {| time := time s; userID := i; ele := ele s; wait := wait s;
     alloc := alloc s; listNode := listNode s; giveUp := giveUp s |}.

Definition set_alloc (n : node) (s : simulator) : simulator :=
  {| time := time s; userID := userID s; ele := ele s; wait := wait s;
     alloc := n; listNode := listNode s; giveUp := giveUp s |}.

Definition set_listNode (m : gmap Z node) (s : simulator) : simulator :=
  {| time := time s; userID := userID s; ele := ele s; wait := wait s;
     alloc := alloc s; listNode := m; giveUp := giveUp s |}.

Definition set_giveUp (m : gmap Z node) (s : simulator) : simulator :=
  {| time := time s; userID := userID s; ele := ele s; wait := wait s;
     alloc := alloc s; listNode := listNode s; giveUp := m |}.

Definition e_callUp (v : list bool) (e : elevator) : elevator :=
  {| callUp := v; callDown := callDown e; callCar := callCar e; floor := floor e;
     d1 := d1 e; d2 := d2 e; d3 := d3 e; state := state e; step := step e;
     elev1 := elev1 e; elev2 := elev2 e; elev3 := elev3 e;
     stack := stack e; queue := queue e |}.

Definition e_callDown (v : list bool) (e : elevator) : elevator :=
  {| callUp := callUp e; callDown := v; callCar := callCar e; floor := floor e;
     d1 := d1 e; d2 := d2 e; d3 := d3 e; state := state e; step := step e;
     elev1 := elev1 e; elev2 := elev2 e; elev3 := elev3 e;
     stack := stack e; queue := queue e |}.

Definition e_callCar (v : list bool) (e : elevator) : elevator :=
  {| callUp := callUp e; callDown := callDown e; callCar := v; floor := floor e;
     d1 := d1 e; d2 := d2 e; d3 := d3 e; state := state e; step := step e;
     elev1 := elev1 e; elev2 := elev2 e; elev3 := elev3 e;
     stack := stack e; queue := queue e |}.

Definition e_floor (v : Z) (e : elevator) : elevator :=
  {| callUp := callUp e; callDown := callDown e; callCar := callCar e; floor := v;
     d1 := d1 e; d2 := d2 e; d3 := d3 e; state := state e; step := step e;
     elev1 := elev1 e; elev2 := elev2 e; elev3 := elev3 e;
     stack := stack e; queue := queue e |}.

Definition e_d1 (v : bool) (e : elevator) : elevator :=
  {| callUp := callUp e; callDown := callDown e; callCar := callCar e; floor := floor e;
     d1 := v; d2 := d2 e; d3 := d3 e; state := state e; step := step e;
     elev1 := elev1 e; elev2 := elev2 e; elev3 := elev3 e;
     stack := stack e; queue := queue e |}.

Definition e_d2 (v : bool) (e : elevator) : elevator :=
  {| callUp := callUp e; callDown := callDown e; callCar := callCar e; floor := floor e;
     d1 := d1 e; d2 := v; d3 := d3 e; state := state e; step := step e;
     elev1 := elev1 e; elev2 := elev2 e; elev3 := elev3 e;
     stack := stack e; queue := queue e |}.

Definition e_d3 (v : bool) (e : elevator) : elevator :=
  {| callUp := callUp e; callDown := callDown e; callCar := callCar e; floor := floor e;
     d1 := d1 e; d2 := d2 e; d3 := v; state := state e; step := step e;
     elev1 := elev1 e; elev2 := elev2 e; elev3 := elev3 e;
     stack := stack e; queue := queue e |}.

Definition e_state (v : direction) (e : elevator) : elevator :=
  {| callUp := callUp e; callDown := callDown e; callCar := callCar e; floor := floor e;
     d1 := d1 e; d2 := d2 e; d3 := d3 e; state := v; step := step e;
     elev1 := elev1 e; elev2 := elev2 e; elev3 := elev3 e;
     stack := stack e; queue := queue e |}.

Definition e_step (v : stepId) (e : elevator) : elevator :=
  {| callUp := callUp e; callDown := callDown e; callCar := callCar e; floor := floor e;
     d1 := d1 e; d2 := d2 e; d3 := d3 e; state := state e; step := v;
     elev1 := elev1 e; elev2 := elev2 e; elev3 := elev3 e;
     stack := stack e; queue := queue e |}.

Definition e_elev1 (v : option node) (e : elevator) : elevator :=
  {| callUp := callUp e; callDown := callDown e; callCar := callCar e; floor := floor e;
     d1 := d1 e; d2 := d2 e; d3 := d3 e; state := state e; step := step e;
     elev1 := v; elev2 := elev2 e; elev3 := elev3 e;
     stack := stack e; queue := queue e |}.

Definition e_elev2 (v : option node) (e : elevator) : elevator :=
  {| callUp := callUp e; callDown := callDown e; callCar := callCar e; floor := floor e;
     d1 := d1 e; d2 := d2 e; d3 := d3 e; state := state e; step := step e;
     elev1 := elev1 e; elev2 := v; elev3 := elev3 e;
     stack := stack e; queue := queue e |}.

Definition e_elev3 (v : option node) (e : elevator) : elevator :=
  {| callUp := callUp e; callDown := callDown e; callCar := callCar e; floor := floor e;
     d1 := d1 e; d2 := d2 e; d3 := d3 e; state := state e; step := step e;
     elev1 := elev1 e; elev2 := elev2 e; elev3 := v;
     stack := stack e; queue := queue e |}.

Definition e_stack (v : list unode) (e : elevator) : elevator :=
  {| callUp := callUp e; callDown := callDown e; callCar := callCar e; floor := floor e;
     d1 := d1 e; d2 := d2 e; d3 := d3 e; state := state e; step := step e;
     elev1 := elev1 e; elev2 := elev2 e; elev3 := elev3 e;
     stack := v; queue := queue e |}.

Definition e_queue (v : list (list unode)) (e : elevator) : elevator :=
  {| callUp := callUp e; callDown := callDown e; callCar := callCar e; floor := floor e;
     d1 := d1 e; d2 := d2 e; d3 := d3 e; state := state e; step := step e;
     elev1 := elev1 e; elev2 := elev2 e; elev3 := elev3 e;
     stack := stack e; queue := v |}.

(** * The error monad of the embedding *)

Notation "'let?' x ':=' m 'in' k" :=
  (match m with Some x => k | None => None end)
  (at level 10, x pattern, m at level 200, k at level 200, only parsing).

(** ** Slices indexed by a Go [int] *)

(** [a[j]]: panics when [j] is negative or beyond the slice. *)
Definition index {A} (a : list A) (j : Z) : option A :=
  if j <? 0 then None else a !! Z.to_nat j.

(** [a[j] = v]. *)
Definition assign {A} (a : list A) (j : Z) (v : A) : option (list A) :=
  let? _ := index a j in Some (<[Z.to_nat j := v]> a).

(** [rand.Int31n(n)] on a raw draw [r]: a value of [0, n). *)
Definition Int31n (r n : Z) : Z := r mod n.

(** * Doubly linked lists *)

(** [x.delete()] on a list of nodes; [x == nil] does nothing. *)
Definition unlink {A} (x : node) (l : list (node * A)) : list (node * A) :=
  List.filter (fun p => negb (Nat.eqb (fst p) x)) l.

Definition delete {A} (x : option node) (l : list (node * A)) : list (node * A) :=
  match x with
  | None => l
  | Some n => unlink n l
  end.

(** [head.insertLeft(p)]: [p] becomes the last node. *)
Definition insertLeft {A} (l : list (node * A)) (p : node * A) : list (node * A) :=
  l ++ [p].

(** [head.insertRight(p)]: [p] becomes the first node. *)
Definition insertRight {A} (l : list (node * A)) (p : node * A) : list (node * A) :=
  p :: l.

(** * The WAIT list *)

(** The loop of [sortIn], on the nodes as [llink] visits them from the head:
    [back] is the list reversed.  The result is again in [llink] order.  When
    [back] is used up, [x] is the list head, whose [nextTime] is 0; if the
    test fails there too the walk goes round for ever. *)
Fixpoint sortInWalk (p : wnode) (back : list wnode) : option (list wnode) :=
  match back with
  | [] => if nextTime (snd p) >=? 0 then Some [p] else None
  | x :: back' =>
      if nextTime (snd p) >=? nextTime (snd x) then Some (p :: x :: back')
      else let? r := sortInWalk p back' in Some (x :: r)
  end.

(** [x.sortIn(w)] with [n] the address of the node it allocates. *)
Definition sortIn (l : list wnode) (n : node) (w : waitElement) : option (list wnode) :=
  let? r := sortInWalk (n, w) (rev l) in Some (rev r).

(** [x.immed(w)]. *)
Definition immed (l : list wnode) (n : node) (w : waitElement) : list wnode :=
  insertRight l (n, w).

(** [s.wait.sortIn(w)]: the new node's address and the new state. *)
Definition waitSortIn (w : waitElement) (s : simulator) : option (node * simulator) :=
  let? l := sortIn (wait s) (alloc s) w in
  Some (alloc s, set_alloc (S (alloc s)) (set_wait l s)).

(** [s.wait.immed(w)]. *)
Definition waitImmed (w : waitElement) (s : simulator) : node * simulator :=
  (alloc s, set_alloc (S (alloc s)) (set_wait (immed (wait s) (alloc s) w) s)).

(** * Scheduling handles *)

Inductive slot := Elev1 | Elev2 | Elev3.

Definition getSlot (sl : slot) (e : elevator) : option node :=
  match sl with
  | Elev1 => elev1 e
  | Elev2 => elev2 e
  | Elev3 => elev3 e
  end.

Definition setSlot (sl : slot) (v : option node) : elevator -> elevator :=
  match sl with
  | Elev1 => e_elev1 v
  | Elev2 => e_elev2 v
  | Elev3 => e_elev3 v
  end.

(** The [delete()] of a handle, whose node is a node of the WAIT list. *)
Definition waitDelete (x : option node) (s : simulator) : simulator :=
  set_wait (delete x (wait s)) s.

Definition scheduleElevator (elev : slot) (delay : Z) (l : listener)
    (s : simulator) : option simulator :=
  let s1 := waitDelete (getSlot elev (ele s)) s in
  let? (n, s2) := waitSortIn (newWaitElement (time s1 + delay) l) s1 in
  Some (upd_ele (setSlot elev (Some n)) s2).

Definition scheduleElevatorImmediately (elev : slot) (l : listener)
    (s : simulator) : simulator :=
  let s1 := waitDelete (getSlot elev (ele s)) s in
  let '(n, s2) := waitImmed (newWaitElement (time s1) l) s1 in
  upd_ele (setSlot elev (Some n)) s2.

(** * Reading the call buttons *)

(** Go's [||] and [&&] on operands that may panic: the right operand is
    evaluated only when the left one does not decide. *)
Definition orM (a b : option bool) : option bool :=
  let? x := a in if x then Some true else b.

Definition andM (a b : option bool) : option bool :=
  let? x := a in if x then b else Some false.

Infix "|||" := orM (at level 50, left associativity).
Infix "&&&" := andM (at level 40, left associativity).

Definition s_callUp (s : simulator) (j : Z) : option bool := index (callUp (ele s)) j.
Definition s_callDown (s : simulator) (j : Z) : option bool := index (callDown (ele s)) j.
Definition s_callCar (s : simulator) (j : Z) : option bool := index (callCar (ele s)) j.

(** The body of both loops: [callUp[j] || callDown[j] || callCar[j]]. *)
Definition anyCallAt (s : simulator) (j : Z) : option bool :=
  s_callUp s j ||| s_callDown s j ||| s_callCar s j.

(** [for j := ...; j < floors; j++] with [n] iterations left. *)
Fixpoint allCallsFalseUpward (n : nat) (j : Z) (s : simulator) : option bool :=
  match n with
  | O => Some true
  | S n' =>
      let? c := anyCallAt s j in
      if c then Some false else allCallsFalseUpward n' (j + 1) s
  end.

(** [for j := ...; j >= 0; j--] with [n] iterations left. *)
Fixpoint allCallsFalseDownward (n : nat) (j : Z) (s : simulator) : option bool :=
  match n with
  | O => Some true
  | S n' =>
      let? c := anyCallAt s j in
      if c then Some false else allCallsFalseDownward n' (j - 1) s
  end.

Definition isAllCallsAboveFalse (s : simulator) : option bool :=
  let j := floor (ele s) + 1 in
  allCallsFalseUpward (Z.to_nat (floors - j)) j s.

Definition isAllCallsBelowFalse (s : simulator) : option bool :=
  let j := floor (ele s) - 1 in
  allCallsFalseDownward (Z.to_nat (j + 1)) j s.

(** * Subroutine D (DECISION) *)

(** Step D3's loop, [n] iterations left: the first [j] at or after the
    current one with [j != floor] and a call, if any. *)
Fixpoint decisionScan (n : nat) (j : Z) (s : simulator) : option (option Z) :=
  match n with
  | O => Some None
  | S n' =>
      let? c := Some (negb (j =? floor (ele s)))
                &&& (s_callUp s j ||| s_callCar s j ||| s_callDown s j) in
      if c then Some (Some j) else decisionScan n' (j + 1) s
  end.

(** Steps D4 and D5. *)
Definition decisionD4 (j : Z) (s : simulator) : option simulator :=
  let s :=
    if floor (ele s) >? j then upd_ele (e_state stateGoingDown) s
    else if floor (ele s) <? j then upd_ele (e_state stateGoingUp) s
    else s in
  if bool_decide (step (ele s) = stepWaitForCall) && negb (j =? 2)
  then scheduleElevator Elev1 20 wf_executePrepareToMove s
  else Some s.

Definition decision (s : simulator) : option simulator :=
  if negb (bool_decide (state (ele s) = stateNeutral)) then Some s
  else
    let? c := Some (bool_decide (step (ele s) = stepWaitForCall))
              &&& (s_callUp s floorHome ||| s_callCar s floorHome
                   ||| s_callDown s floorHome) in
    if c then scheduleElevator Elev1 20 wf_executeOpenDoors s
    else
      let? r := decisionScan (Z.to_nat floors) 0 s in
      match r with
      | Some j => decisionD4 j s
      | None =>
          if bool_decide (step (ele s) = stepPrepareToMove)
          then decisionD4 2 s
          else Some s
      end.

(** * The users, U1-U6 *)

(** The four values drawn by one U1. *)
Record draws := mkDraws {
  r_in : Z;
  r_out : Z;
  r_giveUp : Z;
  r_inter : Z
}.

Definition userEnterPrepareForSuccessor (r : draws) (s : simulator)
    : option simulator :=
  let s := set_userID (userID s + 1) s in
  let i := Int31n (r_in r) floors in
  let o := Int31n (r_out r) (floors - 1) in
  let o := if o >=? i then o + 1 else o in
  let u := newUser (userID s) i o
             (minGiveUpTime + Int31n (r_giveUp r) (maxGiveUpTime - minGiveUpTime)) in
  let? (_, s) :=
    waitSortIn
      (newWaitElement
         (time s + (minInterTime + Int31n (r_inter r) (maxInterTime - minInterTime)))
         wf_userEnterPrepareForSuccessor) s in
  let '(_, s) := waitImmed (newWaitElement (time s) (wf_userSignalAndWait u)) s in
  Some s.

Definition userSignalAndWait (u : user) (s : simulator) : option simulator :=
  let? s :=
    if (floor (ele s) =? in_ u) && bool_decide (step (ele s) = stepCloseDoors)
    then Some (scheduleElevatorImmediately Elev1 wf_executeOpenDoors s)
    else if (floor (ele s) =? in_ u) && d3 (ele s)
    then
      let s := upd_ele (e_d3 false) s in
      let s := upd_ele (e_d1 true) s in
      Some (scheduleElevatorImmediately Elev1 wf_executeLetPeopleOutIn s)
    else
      let? s :=
        if out u >? in_ u
        then let? a := assign (callUp (ele s)) (in_ u) true in
             Some (upd_ele (e_callUp a) s)
        else let? a := assign (callDown (ele s)) (in_ u) true in
             Some (upd_ele (e_callDown a) s) in
      if negb (d2 (ele s)) || bool_decide (step (ele s) = stepWaitForCall)
      then decision s
      else Some s in
  let '(_, s) := waitImmed (newWaitElement (time s) (wf_userEnterQueue u)) s in
  Some s.

(** [u.listNode.delete()]: the node is on a queue, on the stack, or on no
    list. *)
Definition listDelete (x : option node) (s : simulator) : simulator :=
  upd_ele (fun e => e_queue (map (delete x) (queue e)) (e_stack (delete x (stack e)) e)) s.

Definition userEnterQueue (u : user) (s : simulator) : option simulator :=
  let n := alloc s in
  let s := set_listNode (<[id_ u := n]> (listNode s)) (set_alloc (S n) s) in
  let? q := index (queue (ele s)) (in_ u) in
  let? qs := assign (queue (ele s)) (in_ u) (insertLeft q (n, u)) in
  let s := upd_ele (e_queue qs) s in
  let? (g, s) :=
    waitSortIn (newWaitElement (time s + giveUpTime u) (wf_userGiveUp u)) s in
  Some (set_giveUp (<[id_ u := g]> (giveUp s)) s).

Definition userGiveUp (u : user) (s : simulator) : option simulator :=
  if negb (floor (ele s) =? in_ u) || negb (d1 (ele s))
  then Some (listDelete (listNode s !! id_ u) s)
  else Some s.

Definition userGetIn (u : user) (s : simulator) : option simulator :=
  let s := listDelete (listNode s !! id_ u) s in
  let s := waitDelete (giveUp s !! id_ u) s in
  let s :=
    match listNode s !! id_ u with
    | Some n => upd_ele (fun e => e_stack (insertLeft (stack e) (n, u)) e) s
    | None => s
    end in
  let? a := assign (callCar (ele s)) (out u) true in
  let s := upd_ele (e_callCar a) s in
  if bool_decide (state (ele s) = stateNeutral)
  then
    let s :=
      if out u >? in_ u then upd_ele (e_state stateGoingUp) s
      else upd_ele (e_state stateGoingDown) s in
    scheduleElevator Elev2 25 wf_executeCloseDoors s
  else Some s.

Definition userGetOut (u : user) (s : simulator) : option simulator :=
  Some (listDelete (listNode s !! id_ u) s).

(** * The elevator, E1-E9 *)

Definition executeWaitForCall (s : simulator) : option simulator :=
  Some (upd_ele (e_step stepWaitForCall) s).

(** The three assignments that clear the calls of the current floor. *)
Definition clearCallsHere (s : simulator) : option simulator :=
  let? a := assign (callUp (ele s)) (floor (ele s)) false in
  let s := upd_ele (e_callUp a) s in
  let? a := assign (callDown (ele s)) (floor (ele s)) false in
  let s := upd_ele (e_callDown a) s in
  let? a := assign (callCar (ele s)) (floor (ele s)) false in
  Some (upd_ele (e_callCar a) s).

(** The [if ... else if ...] of E2. *)
Definition changeOfState (s : simulator) : option simulator :=
  let? up := Some (bool_decide (state (ele s) = stateGoingUp)) &&& isAllCallsAboveFalse s in
  if up then
    let? b := isAllCallsBelowFalse s in
    let s := if b then upd_ele (e_state stateNeutral) s
             else upd_ele (e_state stateGoingDown) s in
    clearCallsHere s
  else
    let? down := Some (bool_decide (state (ele s) = stateGoingDown))
                 &&& isAllCallsBelowFalse s in
    if down then
      let? b := isAllCallsAboveFalse s in
      let s := if b then upd_ele (e_state stateNeutral) s
               else upd_ele (e_state stateGoingUp) s in
      clearCallsHere s
    else Some s.

Definition executeChangeOfState (s : simulator) : option simulator :=
  let s := upd_ele (e_step stepChangeOfState) s in
  let? s := changeOfState s in
  Some (scheduleElevatorImmediately Elev1 wf_executeOpenDoors s).

Definition executeOpenDoors (s : simulator) : option simulator :=
  let s := upd_ele (e_step stepOpenDoors) s in
  let s := upd_ele (e_d1 true) s in
  let s := upd_ele (e_d2 true) s in
  let? s := scheduleElevator Elev3 300 wf_executeSetInactionIndicator s in
  let? s := scheduleElevator Elev2 76 wf_executeCloseDoors s in
  scheduleElevator Elev1 20 wf_executeLetPeopleOutIn s.

Definition executeLetPeopleOutIn (s : simulator) : option simulator :=
  let s := upd_ele (e_step stepLetPeopleOutIn) s in
  match List.find (fun p : unode => out (snd p) =? floor (ele s)) (rev (stack (ele s))) with
  | Some (_, u) =>
      let '(_, s) := waitImmed (newWaitElement (time s) (wf_userGetOut u)) s in
      scheduleElevator Elev1 25 wf_executeLetPeopleOutIn s
  | None =>
      let? q := index (queue (ele s)) (floor (ele s)) in
      match q with
      | (_, u) :: _ =>
          let '(_, s) := waitImmed (newWaitElement (time s) (wf_userGetIn u)) s in
          scheduleElevator Elev1 25 wf_executeLetPeopleOutIn s
      | [] =>
          let s := upd_ele (e_d1 false) s in
          Some (upd_ele (e_d3 true) s)
      end
  end.

Definition executeCloseDoors (s : simulator) : option simulator :=
  let s := upd_ele (e_step stepCloseDoors) s in
  if d1 (ele s)
  then scheduleElevator Elev2 40 wf_executeCloseDoors s
  else
    let s := upd_ele (e_d3 false) s in
    scheduleElevator Elev1 20 wf_executePrepareToMove s.

(** The assignments of E6 to the calls of the current floor. *)
Definition clearCallsOnLeaving (s : simulator) : option simulator :=
  let? a := assign (callCar (ele s)) (floor (ele s)) false in
  let s := upd_ele (e_callCar a) s in
  let? s :=
    if negb (bool_decide (state (ele s) = stateGoingDown))
    then let? a := assign (callUp (ele s)) (floor (ele s)) false in
         Some (upd_ele (e_callUp a) s)
    else Some s in
  if negb (bool_decide (state (ele s) = stateGoingUp))
  then let? a := assign (callDown (ele s)) (floor (ele s)) false in
       Some (upd_ele (e_callDown a) s)
  else Some s.

Definition executePrepareToMove (s : simulator) : option simulator :=
  let s := upd_ele (e_step stepPrepareToMove) s in
  let? s := clearCallsOnLeaving s in
  let? s := decision s in
  if bool_decide (state (ele s) = stateNeutral)
  then Some (scheduleElevatorImmediately Elev1 wf_executeWaitForCall s)
  else
    let s := if d2 (ele s) then waitDelete (elev3 (ele s)) s else s in
    if bool_decide (state (ele s) = stateGoingUp)
    then scheduleElevator Elev1 15 wf_executeGoUpAFloor s
    else scheduleElevator Elev1 15 wf_executeGoDownAFloor s.

Definition executeGoUpAFloor (s : simulator) : option simulator :=
  let s := upd_ele (e_step stepGoUpAFloor) s in
  let s := upd_ele (e_floor (floor (ele s) + 1)) s in
  scheduleElevator Elev1 51 wf_executeGoUpAFloor2 s.

Definition executeGoUpAFloor2 (s : simulator) : option simulator :=
  let f := floor (ele s) in
  let? c := s_callCar s f ||| s_callUp s f
            ||| ((Some (f =? 2) ||| s_callDown s f) &&& isAllCallsAboveFalse s) in
  if c then scheduleElevator Elev1 14 wf_executeChangeOfState s
  else Some (scheduleElevatorImmediately Elev1 wf_executeGoUpAFloor s).

Definition executeGoDownAFloor (s : simulator) : option simulator :=
  let s := upd_ele (e_step stepGoDownAFloor) s in
  let s := upd_ele (e_floor (floor (ele s) - 1)) s in
  scheduleElevator Elev1 61 wf_executeGoDownAFloor2 s.

Definition executeGoDownAFloor2 (s : simulator) : option simulator :=
  let f := floor (ele s) in
  let? c := s_callCar s f ||| s_callDown s f
            ||| ((Some (f =? 2) ||| s_callUp s f) &&& isAllCallsBelowFalse s) in
  if c then scheduleElevator Elev1 23 wf_executeChangeOfState s
  else Some (scheduleElevatorImmediately Elev1 wf_executeGoDownAFloor s).

Definition executeSetInactionIndicator (s : simulator) : option simulator :=
  let s := upd_ele (e_d2 false) s in
  decision s.

(** * The main loop *)

(** [w.nextInst.execute()]. *)
Definition execute (l : listener) (r : draws) (s : simulator) : option simulator :=
  match l with
  | wf_userEnterPrepareForSuccessor => userEnterPrepareForSuccessor r s
  | wf_userSignalAndWait u => userSignalAndWait u s
  | wf_userEnterQueue u => userEnterQueue u s
  | wf_userGiveUp u => userGiveUp u s
  | wf_userGetIn u => userGetIn u s
  | wf_userGetOut u => userGetOut u s
  | wf_executeWaitForCall => executeWaitForCall s
  | wf_executeChangeOfState => executeChangeOfState s
  | wf_executeOpenDoors => executeOpenDoors s
  | wf_executeLetPeopleOutIn => executeLetPeopleOutIn s
  | wf_executeCloseDoors => executeCloseDoors s
  | wf_executePrepareToMove => executePrepareToMove s
  | wf_executeGoUpAFloor => executeGoUpAFloor s
  | wf_executeGoUpAFloor2 => executeGoUpAFloor2 s
  | wf_executeGoDownAFloor => executeGoDownAFloor s
  | wf_executeGoDownAFloor2 => executeGoDownAFloor2 s
  | wf_executeSetInactionIndicator => executeSetInactionIndicator s
  end.

(** What one turn of the [for] loop of [main] comes to. *)
Inductive outcome :=
| Continue (s : simulator)      (* the action ran; the loop goes on *)
| WaitQueueEmpty (msg : string)(* the message printed before [break] *)
| TimeIsUp (s : simulator)      (* [s.time >= maxTime]: [break] *)
| Failed (s : simulator).       (* the action panicked or did not return *)

(** [n.delete(); w := n.info; s.time = w.nextTime] for the first node. *)
Definition popFirst (w : waitElement) (rest : list wnode) (s : simulator) : simulator :=
  set_time (nextTime w) (set_wait rest s).

Definition mainIteration (r : draws) (s : simulator) : outcome :=
  match wait s with
  | [] => WaitQueueEmpty "ERROR: Wait queue is empty."%string
  | (_, w) :: rest =>
      let s := popFirst w rest s in
      if time s >=? maxTime then TimeIsUp s
      else match execute (nextInst w) r s with
           | Some s' => Continue s'
           | None => Failed s
           end
  end.

(** The loop of [main], cut after [fuel] turns; [rnd k] holds the draws
    offered to the [k]-th turn. *)
Fixpoint mainLoop (fuel : nat) (rnd : nat -> draws) (k : nat) (s : simulator)
    : outcome :=
  match fuel with
  | O => Continue s
  | S fuel' =>
      match mainIteration (rnd k) s with
      | Continue s' => mainLoop fuel' rnd (S k) s'
      | o => o
      end
  end.

(** [main] up to the loop: the first user enters at time 0. *)
Definition mainStart (r : draws) : option simulator :=
  userEnterPrepareForSuccessor r newSimulator.

(** The states in which [main] can stand at the top of its loop. *)
Inductive reachable : simulator -> Prop :=
| reachable_start r s :
    mainStart r = Some s -> reachable s
| reachable_turn r s s' :
    reachable s -> mainIteration r s = Continue s' -> reachable s'.

(** * Vocabulary of the specification *)

Definition timeOf (p : wnode) : Z := nextTime (snd p).
Definition instOf (p : wnode) : listener := nextInst (snd p).

(** The WAIT list is in order of [nextTime]. *)
Definition timeLe (p q : wnode) : Prop := timeOf p <= timeOf q.
Definition ordered (l : list wnode) : Prop := StronglySorted timeLe l.

(** [a] is scheduled: some node of the WAIT list will execute it. *)
Definition pendIn (l : list wnode) (a : listener) : Prop :=
  In a (map instOf l).

Definition pend (s : simulator) : listener -> Prop := pendIn (wait s).

(** The handle through which the program schedules a listener: [elev1]
    for the steps of the elevator coroutine, [elev2] for E5, [elev3] for E9;
    the actions of the users are inserted without a handle. *)
Definition slotOf (a : listener) : option slot :=
  match a with
  | wf_executeWaitForCall | wf_executeChangeOfState | wf_executeOpenDoors
  | wf_executeLetPeopleOutIn | wf_executePrepareToMove
  | wf_executeGoUpAFloor | wf_executeGoUpAFloor2
  | wf_executeGoDownAFloor | wf_executeGoDownAFloor2 => Some Elev1
  | wf_executeCloseDoors => Some Elev2
  | wf_executeSetInactionIndicator => Some Elev3
  | _ => None
  end.

(** Reading a button where a missing entry counts as not pressed. *)
Definition pressed (a : list bool) (j : Z) : bool :=
  match index a j with Some b => b | None => false end.

Definition hasCall (e : elevator) (j : Z) : bool :=
  pressed (callUp e) j || pressed (callDown e) j || pressed (callCar e) j.

Definition callAbove (e : elevator) : Prop :=
  exists j, floor e < j < floors /\ hasCall e j = true.

Definition callBelow (e : elevator) : Prop :=
  exists j, 0 <= j < floor e /\ hasCall e j = true.

(** A user as U1 makes them. *)
Definition validUser (u : user) : Prop :=
  0 <= in_ u < floors /\ 0 <= out u < floors /\ out u <> in_ u /\
  0 <= giveUpTime u.

(** ** Well-formedness of the WAIT list and of the handles *)

(** At clock [t], with [a] the next address to be allocated and [h] the
    three handles: the list is in order, nothing in it is due before [t],
    its nodes are distinct and already allocated, a listener that belongs
    to a handle sits in the node this handle refers to, and a handle refers
    to a node already allocated. *)
Record agendaOK (t : Z) (l : list wnode) (a : node)
    (h : slot -> option node) : Prop := {
  w_time : 0 <= t;
  w_ordered : ordered l;
  w_future : Forall (fun p => t <= timeOf p) l;
  w_nodup : NoDup (map fst l);
  w_fresh : Forall (fun p => (fst p < a)%nat) l;
  w_handle : forall p sl, In p l -> slotOf (instOf p) = Some sl ->
               h sl = Some (fst p);
  w_alloc : forall sl n, h sl = Some n -> (n < a)%nat
}.

(** The handles after [sl] has been given the node [n]. *)
Definition setHandle (sl : slot) (n : node) (h : slot -> option node)
    : slot -> option node :=
  fun k => match sl, k with
           | Elev1, Elev1 | Elev2, Elev2 | Elev3, Elev3 => Some n
           | _, _ => h k
           end.

Definition waitOK (s : simulator) : Prop :=
  agendaOK (time s) (wait s) (alloc s) (fun sl => getSlot sl (ele s)).

(** ** The state of the elevator against what is scheduled *)

(** Steps of the elevator coroutine during which the doors are shut. *)
Definition doorsShut (a : listener) : bool :=
  match a with
  | wf_executePrepareToMove | wf_executeWaitForCall | wf_executeChangeOfState
  | wf_executeGoUpAFloor | wf_executeGoUpAFloor2
  | wf_executeGoDownAFloor | wf_executeGoDownAFloor2 => true
  | _ => false
  end.

(** Steps between leaving a floor and the change of state on arrival. *)
Definition inFlight (a : listener) : bool :=
  match a with
  | wf_executeChangeOfState
  | wf_executeGoUpAFloor | wf_executeGoUpAFloor2
  | wf_executeGoDownAFloor | wf_executeGoDownAFloor2 => true
  | _ => false
  end.

(** The direction shown has a reason: a call further on, or the way home. *)
Definition dirOK (e : elevator) : Prop :=
  (state e = stateGoingUp -> callAbove e \/ floor e < floorHome) /\
  (state e = stateGoingDown -> callBelow e \/ floorHome < floor e).

Definition isGetIn (a : listener) : bool :=
  match a with wf_userGetIn _ => true | _ => false end.

(** The doors are shut and nobody is about to walk in: D3 is off, no E5 and
    no U5 is scheduled.  [P a] says that [a] is scheduled (or is the listener
    being executed). *)
Definition quiet (P : listener -> Prop) (e : elevator) : Prop :=
  d3 e = false /\ ~ P wf_executeCloseDoors /\ forall u, ~ P (wf_userGetIn u).

Definition moving (e : elevator) : Prop :=
  step e = stepPrepareToMove \/ step e = stepGoUpAFloor \/
  step e = stepGoDownAFloor.

Record stateOK (P : listener -> Prop) (e : elevator) : Prop := {
  l_callUp : length (callUp e) = Z.to_nat floors;
  l_callDown : length (callDown e) = Z.to_nat floors;
  l_callCar : length (callCar e) = Z.to_nat floors;
  l_queues : length (queue e) = Z.to_nat floors;
  l_floor : 0 <= floor e < floors;
  l_step : step e <> stepSetInactionIndicator;
  l_queue : forall f q p, index (queue e) f = Some q -> In p q ->
      validUser (snd p) /\ in_ (snd p) = f;
  l_signal : forall u, P (wf_userSignalAndWait u) -> validUser u;
  l_enter : forall u, P (wf_userEnterQueue u) -> validUser u;
  l_getin : forall u, P (wf_userGetIn u) -> validUser u /\ in_ u = floor e;
  l_shut : forall a, P a -> doorsShut a = true -> quiet P e;
  l_dormant : step e = stepWaitForCall -> quiet P e;
  l_flight : forall a, P a -> inFlight a = true -> moving e;
  l_up : P wf_executeGoUpAFloor -> callAbove e \/ floor e < floorHome;
  l_up2 : P wf_executeGoUpAFloor2 ->
      callAbove e \/ hasCall e (floor e) = true \/ floor e <= floorHome;
  l_down : P wf_executeGoDownAFloor -> callBelow e \/ floorHome < floor e;
  l_down2 : P wf_executeGoDownAFloor2 ->
      callBelow e \/ hasCall e (floor e) = true \/ floorHome <= floor e
}.

Definition elevatorOK (P : listener -> Prop) (e : elevator) : Prop :=
  stateOK P e /\ (dirOK e \/ exists a, P a /\ inFlight a = true).

(** Only the first node of the WAIT list may send a user into the car. *)
Definition front (l : list wnode) : Prop :=
  Forall (fun p => isGetIn (instOf p) = false) (tail l).

(** The invariant of the loop of [main]. *)
Definition Inv (s : simulator) : Prop :=
  waitOK s /\ elevatorOK (pend s) (ele s) /\ front (wait s).

(** What holds when the first node has been taken off and its listener
    [a] is about to run. *)
Definition Mid (a : listener) (s : simulator) : Prop :=
  waitOK s /\
  elevatorOK (fun x => x = a \/ pend s x) (ele s) /\
  (forall u, ~ pend s (wf_userGetIn u)) /\
  (forall sl x, slotOf a = Some sl -> pend s x -> slotOf x <> Some sl).

(** * Further vocabulary *)

(** * The linked lists as the program has them *)

(** The nodes with their two links; a key that is missing is a link that is
    [nil].  The functions below follow the statements of the Go methods one
    by one, each read looking at the links as the statements before it have
    left them; they return [None] where the Go code panics on a [nil]
    link. *)
Module DLL.

Record links := mkLinks {
  llink : gmap node node;
  rlink : gmap node node
}.

(** [x.llink = v] and [x.rlink = v]. *)
Definition setL (x v : node) (h : links) : links :=
  mkLinks (<[x := v]> (llink h)) (rlink h).

Definition setR (x v : node) (h : links) : links :=
  mkLinks (llink h) (<[x := v]> (rlink h)).

(** [newDoublyLinkedList()], [n] being the address of the new node. *)
Definition newDoublyLinkedList (n : node) (h : links) : links :=
  setR n n (setL n n h).

(** [x.insertRight(p)]; a pointer that is [nil] is given as [None], and the
    method then returns at once.  When [x.rlink] is [nil] the third
    statement panics. *)
Definition insertRight (x p : option node) (h : links) : option links :=
  match x, p with
  | Some x, Some p =>
      let h := setL p x h in
      let? r := rlink h !! x in
      let h := setR p r h in
      let? r := rlink h !! x in
      let h := setL r p h in
      Some (setR x p h)
  | _, _ => Some h
  end.

(** [x.insertLeft(p)]. *)
Definition insertLeft (x p : option node) (h : links) : option links :=
  match x, p with
  | Some x, Some p =>
      let h := setR p x h in
      let? l := llink h !! x in
      let h := setL p l h in
      let? l := llink h !! x in
      let h := setR l p h in
      Some (setL x p h)
  | _, _ => Some h
  end.

(** [x.delete()]. *)
Definition delete (x : option node) (h : links) : option links :=
  match x with
  | None => Some h
  | Some x =>
      let? l := llink h !! x in
      let? r := rlink h !! x in
      let h := setR l r h in
      let? r := rlink h !! x in
      let? l := llink h !! x in
      let h := setL r l h in
      let h := setL x x h in
      Some (setR x x h)
  end.

(** The loop of [x.sortIn(w)]: [x] is the node the walk stands on, [t] is
    [w.nextTime], [n] the new node, [times] the [nextTime] of the nodes
    (that of the list head is 0), and [fuel] bounds the number of turns of
    a loop the Go code does not bound. *)
Fixpoint sortIn (fuel : nat) (times : gmap node Z) (x : node) (t : Z) (n : node)
    (h : links) : option links :=
  match fuel with
  | O => None
  | S fuel' =>
      let? x' := llink h !! x in
      let? tx := times !! x' in
      if t >=? tx then insertRight (Some x') (Some n) h
      else sortIn fuel' times x' t n h
  end.

(** [x.immed(w)]. *)
Definition immed (x n : node) (h : links) : option links :=
  insertRight (Some x) (Some n) h.

(** From [a], following [rlink], the nodes [l] come in this order and then
    [b]; the [llink]s lead back. *)
Fixpoint chain (h : links) (a : node) (l : list node) (b : node) : Prop :=
  match l with
  | [] => rlink h !! a = Some b /\ llink h !! b = Some a
  | x :: l' => rlink h !! a = Some x /\ llink h !! x = Some a /\ chain h x l' b
  end.

(** [hd] heads a circular list whose nodes are [l], in [rlink] order. *)
Definition ring (h : links) (hd : node) (l : list node) : Prop :=
  NoDup (hd :: l) /\ chain h hd l hd.

(** The last of [a :: l] and the first of [l ++ [b]]. *)
Definition lastOf (a : node) (l : list node) : node := List.last l a.
Definition firstOf (l : list node) (b : node) : node := List.hd b l.

End DLL.

(** The three slices have one entry per floor. *)
Definition callsSized (e : elevator) : Prop :=
  length (callUp e) = Z.to_nat floors /\
  length (callDown e) = Z.to_nat floors /\
  length (callCar e) = Z.to_nat floors.

(** Step D3: the smallest floor other than the current one with a call. *)
Definition firstCall (e : elevator) (r : option Z) : Prop :=
  match r with
  | Some j => 0 <= j < floors /\ j <> floor e /\ hasCall e j = true /\
              forall k, 0 <= k < j -> k <> floor e -> hasCall e k = false
  | None => forall k, 0 <= k < floors -> k <> floor e -> hasCall e k = false
  end.

(** What a call to DECISION leaves as it was. *)
Definition decided (s s' : simulator) : Prop :=
  (exists st h, ele s' = e_elev1 h (e_state st (ele s))) /\
  time s' = time s /\ listNode s' = listNode s /\ giveUp s' = giveUp s /\
  (forall x, pend s' x ->
     x = wf_executeOpenDoors \/ x = wf_executePrepareToMove \/ pend s x).

(** What [Mid] gives at once. *)
Record midFacts (a : listener) (s : simulator) : Prop := {
  m_wait : waitOK s;
  m_time : 0 <= time s;
  m_all : stateOK (fun x => x = a \/ pend s x) (ele s);
  m_old : stateOK (pend s) (ele s);
  m_dir : dirOK (ele s) \/ inFlight a = true \/
          exists x, pend s x /\ inFlight x = true;
  m_nogetin : forall u, ~ pend s (wf_userGetIn u);
  m_single : forall sl x, slotOf a = Some sl -> pend s x -> slotOf x <> Some sl
}.

(** [e'] has the calls of [e] but for those of the floor [f]. *)
Definition sameCallsBut (f : Z) (e e' : elevator) : Prop :=
  forall j, j <> f -> hasCall e' j = hasCall e j.

(** What E6 does to the calls leaves the rest of the elevator alone. *)
Definition onlyCalls (g : elevator -> elevator) (e : elevator) : Prop :=
  callsSized (g e) /\ queue (g e) = queue e /\ stack (g e) = stack e /\
  floor (g e) = floor e /\ step (g e) = step e /\ state (g e) = state e /\
  d1 (g e) = d1 e /\ d2 (g e) = d2 e /\ d3 (g e) = d3 e /\
  (forall k, getSlot k (g e) = getSlot k e).

(** [l'] is [l] with [p] put behind every node due no later than [p] and
    before every node due later. *)
Definition inserted (p : wnode) (l l' : list wnode) : Prop :=
  exists l1 l2, l = l1 ++ l2 /\ l' = l1 ++ p :: l2 /\
    Forall (fun q => timeOf q <= timeOf p) l1 /\
    Forall (fun q => timeOf p < timeOf q) l2.

(** The state after a handle has been given the node just allocated, the
    WAIT list being [r]. *)
Definition placed (sl : slot) (r : list wnode) (s : simulator) : simulator :=
  upd_ele (setSlot sl (Some (alloc s))) (set_alloc (S (alloc s)) (set_wait r s)).

(** The first user goes from the subbasement to the basement and would
    give up after 300 units; the next one comes 899 units later. *)
Definition sampleDraws : draws := mkDraws 0 0 0 889.

Definition sampleStart : simulator := default newSimulator (mainStart sampleDraws).

Definition sampleRun (n : nat) : outcome :=
  mainLoop n (fun _ => sampleDraws) 0 sampleStart.

Definition stateOf (o : outcome) : simulator :=
  match o with
  | Continue s | TimeIsUp s | Failed s => s
  | WaitQueueEmpty _ => newSimulator
  end.

(** The state in which the listener of the first node runs. *)
Definition popped (s : simulator) : simulator :=
  match wait s with
  | [] => s
  | (_, w) :: rest => popFirst w rest s
  end.

Definition nextListener (s : simulator) : option listener :=
  match wait s with
  | [] => None
  | (_, w) :: _ => Some (nextInst w)
  end.

Definition isContinue (o : outcome) : bool :=
  match o with Continue _ => true | _ => false end.

(** The direction step D4 leaves when the car is at [f], the floor aimed at
    is [j] and the direction was [d]. *)
Definition heading (f j : Z) (d : direction) : direction :=
  if f >? j then stateGoingDown else if f <? j then stateGoingUp else d.

(** The floor step D3 hands to D4, if any: the first call found, else the
    home floor when DECISION was called by E6. *)
Definition target (e : elevator) (o : option Z) : option Z :=
  match o with
  | Some j => Some j
  | None => if bool_decide (step e = stepPrepareToMove) then Some floorHome else None
  end.

(** The state in which U2 calls [decision] at time 0 of the sample run: the
    car is dormant at floor 2 in NEUTRAL state and the user has just pressed
    the up button of floor 0. *)
Definition sampleCall : simulator :=
  upd_ele (e_callUp (<[0%nat := true]> (callUp (ele (popped sampleStart)))))
    (popped sampleStart).

Definition emptyMessage : string := "ERROR: Wait queue is empty.".

(** The links with one circular list, empty, headed by node 0. *)
Definition emptyList : DLL.links :=
  DLL.newDoublyLinkedList 0 (DLL.mkLinks ∅ ∅).

(** The links with one circular list headed by node 0 whose nodes are 1 and
    2, in this order. *)
Definition twoList : DLL.links :=
  DLL.mkLinks {[ 0%nat := 2%nat; 1%nat := 0%nat; 2%nat := 1%nat ]}
              {[ 0%nat := 1%nat; 1%nat := 2%nat; 2%nat := 0%nat ]}.

(** The WAIT list of two nodes, due at 10 and at 20, and the times of its
    nodes with time 0 for the head. *)
Definition twoWait : list wnode :=
  [(1%nat, newWaitElement 10 wf_executeLetPeopleOutIn);
   (2%nat, newWaitElement 20 wf_executeCloseDoors)].

Definition twoTimes : gmap node Z :=
  {[ 0%nat := 0; 1%nat := 10; 2%nat := 20 ]}.

(** The nodes in the queues and in the car are older than the next one to
    be allocated. *)
Definition usersFresh (s : simulator) : Prop :=
  Forall (fun p : unode => (fst p < alloc s)%nat) (stack (ele s)) /\
  Forall (Forall (fun p : unode => (fst p < alloc s)%nat)) (queue (ele s)).

(** The direction U5 gives to a car in NEUTRAL state. *)
Definition wayOf (u : user) : direction :=
  if out u >? in_ u then stateGoingUp else stateGoingDown.

(** An update of the elevator that leaves the handles and the lists of
    users alone. *)
Definition plain (f : elevator -> elevator) : Prop :=
  forall e, elev1 (f e) = elev1 e /\ elev2 (f e) = elev2 e /\ elev3 (f e) = elev3 e /\
            stack (f e) = stack e /\ queue (f e) = queue e.

(** The handles refer to nodes already allocated. *)
Definition handlesFresh (s : simulator) : Prop :=
  (forall sl m, getSlot sl (ele s) = Some m -> (m < alloc s)%nat) /\
  (forall i m, giveUp s !! i = Some m -> (m < alloc s)%nat).

(** The node [p] is on the WAIT list and no handle refers to it. *)
Definition kept (p : wnode) (s : simulator) : Prop :=
  In p (wait s) /\ (fst p < alloc s)%nat /\
  (forall sl, getSlot sl (ele s) <> Some (fst p)) /\
  (forall i, giveUp s !! i <> Some (fst p)).

Definition keeps (o : option wnode) (s : simulator) : Prop :=
  handlesFresh s /\ match o with Some p => kept p s | None => True end.

(** The nodes of the ELEVATOR list and of the queues. *)
Definition userNodes (e : elevator) : list node :=
  map fst (stack e) ++ concat (map (fun q : list unode => map fst q) (queue e)).

(** No node is on two lists or twice on a list, and the nodes on the lists
    and those the users refer to are allocated. *)
Definition usersOK (s : simulator) : Prop :=
  NoDup (userNodes (ele s)) /\
  Forall (fun n => (n < alloc s)%nat) (userNodes (ele s)) /\
  (forall i m, listNode s !! i = Some m -> (m < alloc s)%nat).

(** From [s0] to [s] the floor has not changed, the step has not become E1
    and E1 has not been scheduled. *)
Definition still (s0 s : simulator) : Prop :=
  floor (ele s) = floor (ele s0) /\
  (step (ele s) = stepWaitForCall -> step (ele s0) = stepWaitForCall) /\
  (pend s wf_executeWaitForCall -> pend s0 wf_executeWaitForCall).

(** Updates that leave the floor alone and do not set the step to E1. *)
Definition steady (f : elevator -> elevator) : Prop :=
  forall e, floor (f e) = floor e /\
            (step (f e) = stepWaitForCall -> step e = stepWaitForCall).

(** * Slices *)

Lemma index_Some {A} (a : list A) (j : Z) :
  0 <= j < Z.of_nat (length a) -> exists x, index a j = Some x.
Proof.
  intros Hj. unfold index.
  destruct (j <? 0) eqn:E; [lia|].
  destruct (a !! Z.to_nat j) eqn:El; [eauto|].
  apply lookup_ge_None in El. lia.
Qed.

Lemma index_range {A} (a : list A) (j : Z) x :
  index a j = Some x -> 0 <= j < Z.of_nat (length a).
Proof.
  unfold index. destruct (j <? 0) eqn:E; [discriminate|].
  intros H. apply lookup_lt_Some in H. lia.
Qed.

Lemma index_assign_eq {A} (a b : list A) (j : Z) v :
  assign a j v = Some b -> index b j = Some v.
Proof.
  unfold assign. destruct (index a j) eqn:E; [|discriminate].
  intros [= <-]. apply index_range in E. unfold index.
  destruct (j <? 0) eqn:E'; [lia|].
  apply list_lookup_insert_eq. lia.
Qed.

Lemma index_assign_ne {A} (a b : list A) (j k : Z) v :
  assign a j v = Some b -> k <> j -> index b k = index a k.
Proof.
  unfold assign. destruct (index a j) eqn:E; [|discriminate].
  intros [= <-] Hk. apply index_range in E. unfold index.
  destruct (k <? 0) eqn:E'; [done|].
  apply list_lookup_insert_ne. lia.
Qed.

Lemma assign_length {A} (a b : list A) (j : Z) v :
  assign a j v = Some b -> length b = length a.
Proof.
  unfold assign. destruct (index a j); [|discriminate].
  intros [= <-]. apply length_insert.
Qed.

Lemma assign_Some {A} (a : list A) (j : Z) v :
  0 <= j < Z.of_nat (length a) -> exists b, assign a j v = Some b.
Proof.
  intros H. destruct (index_Some a j H) as [x Hx].
  unfold assign. rewrite Hx. eauto.
Qed.

(** * Lists of nodes *)

Lemma in_unlink {A} (x : node) (l : list (node * A)) p :
  In p (unlink x l) <-> In p l /\ fst p <> x.
Proof.
  unfold unlink. rewrite filter_In, negb_true_iff, Nat.eqb_neq. tauto.
Qed.

Lemma in_delete {A} (x : option node) (l : list (node * A)) p :
  In p (delete x l) -> In p l.
Proof. destruct x; simpl; [|done]. rewrite in_unlink. tauto. Qed.

Lemma unlink_absent {A} (x : node) (l : list (node * A)) :
  ~ In x (map fst l) -> unlink x l = l.
Proof.
  induction l as [|p l IH]; [done|].
  unfold unlink in *. simpl.
  intros H. destruct (negb _) eqn:E.
  - f_equal. apply IH. tauto.
  - apply negb_false_iff, Nat.eqb_eq in E. tauto.
Qed.

Lemma unlink_sublist {A} (x : node) (l : list (node * A)) :
  sublist (unlink x l) l.
Proof.
  induction l as [|p l IH]; [constructor|].
  unfold unlink in *. simpl.
  destruct (negb _); by constructor.
Qed.

Lemma delete_sublist {A} (x : option node) (l : list (node * A)) :
  sublist (delete x l) l.
Proof. destruct x; simpl; [apply unlink_sublist|done]. Qed.

(** * The order of the WAIT list *)

Lemma ordered_cons p l :
  ordered (p :: l) <-> ordered l /\ Forall (timeLe p) l.
Proof.
  split.
  - intros H. by inversion H.
  - intros [H1 H2]. by constructor.
Qed.

Lemma ordered_app l1 l2 :
  ordered (l1 ++ l2) <->
  ordered l1 /\ ordered l2 /\ Forall (fun x => Forall (timeLe x) l2) l1.
Proof.
  induction l1 as [|p l1 IH]; simpl.
  - split; [intros H; repeat split; [constructor|done|constructor] | tauto].
  - rewrite !ordered_cons, IH, Forall_app, Forall_cons. tauto.
Qed.

Lemma ordered_sublist l1 l2 : sublist l1 l2 -> ordered l2 -> ordered l1.
Proof.
  induction 1 as [|p l1 l2 Hs IH|p l1 l2 Hs IH]; [done|..].
  - rewrite !ordered_cons. intros [H1 H2]. split; [auto|].
    apply List.Forall_forall. intros y Hy. rewrite List.Forall_forall in H2.
    apply H2. apply list_elem_of_In. eapply elem_of_sublist; eauto.
    by apply list_elem_of_In.
  - rewrite ordered_cons. tauto.
Qed.

Lemma ordered_last_le l x :
  ordered l -> last l = Some x -> Forall (fun y => timeOf y <= timeOf x) l.
Proof.
  induction l as [|p l IH]; [done|].
  rewrite ordered_cons. intros [H1 H2] Hl.
  destruct l as [|q l].
  - simpl in Hl. injection Hl as <-. repeat constructor. lia.
  - rewrite last_cons_cons in Hl. constructor; [|auto].
    rewrite List.Forall_forall in H2. 
    assert (Hx : In x (q :: l)) by by apply list_elem_of_In, last_Some_elem_of.
    specialize (H2 x Hx). specialize (IH H1 Hl).
    rewrite List.Forall_forall in IH. unfold timeLe in H2. 
    pose proof (IH q (or_introl eq_refl)). inversion H1; subst.
    unfold timeLe in *. lia.
Qed.

(** * [sortIn] *)

Lemma sortInWalk_spec p back r :
  sortInWalk p back = Some r ->
  exists b1 b2, back = b1 ++ b2 /\ r = b1 ++ p :: b2 /\
    Forall (fun x => timeOf p < timeOf x) b1 /\
    match b2 with
    | [] => 0 <= timeOf p
    | x :: _ => timeOf x <= timeOf p
    end.
Proof.
  revert r. induction back as [|x back IH]; simpl; intros r.
  - destruct (Z.geb_spec (nextTime p.2) 0); [|discriminate].
    intros [= <-]. exists [], []. repeat split; [constructor|done].
  - destruct (Z.geb_spec (nextTime p.2) (nextTime x.2)).
    + intros [= <-]. exists [], (x :: back). repeat split; [constructor|done].
    + destruct (sortInWalk p back) as [r'|]; [|discriminate].
      intros [= <-]. destruct (IH r' eq_refl) as (b1 & b2 & -> & -> & H1 & H2).
      exists (x :: b1), b2. repeat split; [|done].
      constructor; [unfold timeOf; lia|done].
Qed.

Lemma sortInWalk_Some p back :
  0 <= timeOf p -> exists r, sortInWalk p back = Some r.
Proof.
  intros Hp. induction back as [|x back [r IH]]; simpl.
  - destruct (Z.geb_spec (nextTime p.2) 0); [eauto|]. unfold timeOf in Hp. lia.
  - destruct (_ >=? _); [eauto|]. rewrite IH. eauto.
Qed.

Lemma sortIn_spec l n w r :
  sortIn l n w = Some r ->
  exists l1 l2, l = l1 ++ l2 /\ r = l1 ++ (n, w) :: l2 /\
    Forall (fun x => nextTime w < timeOf x) l2 /\
    match last l1 with
    | None => 0 <= nextTime w
    | Some x => timeOf x <= nextTime w
    end.
Proof.
  unfold sortIn. destruct (sortInWalk _ _) as [r'|] eqn:E; [|discriminate].
  intros [= <-]. apply sortInWalk_spec in E as (b1 & b2 & Hl & -> & H1 & H2).
  exists (rev b2), (rev b1). repeat split.
  - rewrite <- rev_app_distr, <- Hl. by rewrite rev_involutive.
  - rewrite rev_app_distr. simpl. by rewrite <- app_assoc.
  - apply List.Forall_forall. intros x Hx. apply in_rev in Hx.
    rewrite List.Forall_forall in H1. by apply H1.
  - destruct b2 as [|x b2]; simpl; [done|]. by rewrite last_snoc.
Qed.

Lemma sortIn_Some l n w :
  0 <= nextTime w -> exists r, sortIn l n w = Some r.
Proof.
  intros H. unfold sortIn.
  destruct (sortInWalk_Some (n, w) (rev l) H) as [r ->]. eauto.
Qed.

Lemma sortIn_In l n w r p :
  sortIn l n w = Some r -> In p r <-> p = (n, w) \/ In p l.
Proof.
  intros H. apply sortIn_spec in H as (l1 & l2 & -> & -> & _).
  rewrite !in_app_iff. simpl. intuition.
Qed.

Lemma sortIn_ordered l n w r :
  ordered l -> sortIn l n w = Some r -> ordered r.
Proof.
  intros Ho H. apply sortIn_spec in H as (l1 & l2 & -> & -> & H2 & H1).
  apply ordered_app in Ho as (Ho1 & Ho2 & Ho12).
  apply ordered_app. split; [done|]. split.
  - apply ordered_cons. split; [done|].
    eapply Forall_impl; [exact H2|]. unfold timeLe, timeOf. simpl. intros; lia.
  - destruct (last l1) as [x|] eqn:El.
    + pose proof (ordered_last_le _ _ Ho1 El) as Hle.
      rewrite List.Forall_forall in Ho12, Hle. apply List.Forall_forall. intros y Hy.
      constructor; [|auto].
      specialize (Hle y Hy). unfold timeLe, timeOf in *. simpl. lia.
    + apply last_None in El. subst l1. constructor.
Qed.

Lemma sortInWalk_snoc p back x :
  0 <= timeOf p -> timeOf x <= timeOf p ->
  sortInWalk p (back ++ [x]) =
  (let? q := sortInWalk p back in Some (q ++ [x])).
Proof.
  intros H0 Hx. induction back as [|y back IH]; simpl.
  - destruct (Z.geb_spec (nextTime p.2) (nextTime x.2)); [|unfold timeOf in Hx; lia].
    destruct (Z.geb_spec (nextTime p.2) 0); [done|unfold timeOf in H0; lia].
  - destruct (_ >=? _); [done|]. rewrite IH.
    by destruct (sortInWalk p back).
Qed.

Lemma sortIn_cons x l n w r :
  sortIn (x :: l) n w = Some r -> 0 <= nextTime w -> timeOf x <= nextTime w ->
  exists r', r = x :: r' /\ sortIn l n w = Some r'.
Proof.
  unfold sortIn. simpl. intros H H0 Hx.
  rewrite sortInWalk_snoc in H by done.
  destruct (sortInWalk (n, w) (rev l)) as [q|]; [|discriminate].
  injection H as <-. exists (rev q). split; [|done].
  by rewrite rev_app_distr.
Qed.

Lemma sortIn_perm l n w r :
  sortIn l n w = Some r -> Permutation r ((n, w) :: l).
Proof.
  intros H. apply sortIn_spec in H as (l1 & l2 & -> & -> & _).
  symmetry. apply Permutation_middle.
Qed.

(** * [agendaOK] under the operations on the WAIT list *)

Lemma sublist_map {A B} (f : A -> B) (l1 l2 : list A) :
  sublist l1 l2 -> sublist (map f l1) (map f l2).
Proof. induction 1; simpl; by constructor. Qed.

Lemma agendaOK_sublist t l l' a h :
  sublist l' l -> agendaOK t l a h -> agendaOK t l' a h.
Proof.
  intros Hs [H1 H2 H3 H4 H5 H6 H7].
  assert (Hin : forall p, In p l' -> In p l).
  { intros p Hp. apply list_elem_of_In. eapply elem_of_sublist; eauto.
    by apply list_elem_of_In. }
  split; [done|by eapply ordered_sublist| | | | |done].
  - rewrite List.Forall_forall in *. auto.
  - eapply sublist_NoDup; [exact H4|by apply sublist_map].
  - rewrite List.Forall_forall in *. auto.
  - auto.
Qed.

Lemma agendaOK_delete t l x a h :
  agendaOK t l a h -> agendaOK t (delete x l) a h.
Proof. apply agendaOK_sublist, delete_sublist. Qed.

Lemma agendaOK_tail t p l a h :
  agendaOK t (p :: l) a h -> agendaOK (timeOf p) l a h.
Proof.
  intros [H1 H2 H3 H4 H5 H6 H7].
  apply ordered_cons in H2 as [H2 H2'].
  inversion H3; subst. inversion H4; subst. inversion H5; subst.
  split; try done.
  - lia.
  - intros q sl Hq. apply H6. by right.
Qed.

Lemma agendaOK_add t l a h h' w r :
  agendaOK t l a h -> ordered r -> Permutation r ((a, w) :: l) ->
  t <= nextTime w ->
  (forall q sl, In q r -> slotOf (instOf q) = Some sl -> h' sl = Some (fst q)) ->
  (forall sl n, h' sl = Some n -> (n < S a)%nat) ->
  agendaOK t r (S a) h'.
Proof.
  intros [H1 H2 H3 H4 H5 H6 H7] Ho Hp Ht Hh Ha.
  split; try done.
  - eapply Permutation_Forall; [symmetry; exact Hp|]. by constructor.
  - assert (Hp' : map fst r ≡ₚ map fst ((a, w) :: l)) by by apply Permutation_map.
    rewrite Hp'. simpl. apply NoDup_cons. split; [|done].
    intros Hin%list_elem_of_In. apply in_map_iff in Hin as (q & Hq1 & Hq2).
    rewrite List.Forall_forall in H5. specialize (H5 q Hq2). simpl in *. lia.
  - eapply Permutation_Forall; [symmetry; exact Hp|].
    constructor; [simpl; lia|].
    eapply Forall_impl; [exact H5|]. simpl. intros; lia.
Qed.

Lemma agendaOK_ext t l a h h' :
  (forall sl, h sl = h' sl) -> agendaOK t l a h -> agendaOK t l a h'.
Proof.
  intros He [H1 H2 H3 H4 H5 H6 H7]. split; try done.
  - intros p sl Hp Hs. rewrite <- He. eauto.
  - intros sl n. rewrite <- He. eauto.
Qed.

(** An insertion of a listener that has no handle. *)
Lemma agendaOK_sortIn t l a h w r :
  agendaOK t l a h -> t <= nextTime w -> slotOf (nextInst w) = None ->
  sortIn l a w = Some r -> agendaOK t r (S a) h.
Proof.
  intros Hok Ht Hs Hr.
  apply (agendaOK_add t l a h _ w); [done| |by eapply sortIn_perm|done| |].
  - eapply sortIn_ordered; [apply Hok|done].
  - intros q sl [->|Hq]%(sortIn_In _ _ _ _ _ Hr).
    + unfold instOf. simpl. congruence.
    + by apply Hok.
  - intros sl n Hn. pose proof (w_alloc _ _ _ _ Hok sl n Hn). lia.
Qed.

Lemma ordered_immed t l n w :
  ordered l -> Forall (fun p => t <= timeOf p) l -> nextTime w = t ->
  ordered (immed l n w).
Proof.
  intros H1 H2 H3. apply ordered_cons. split; [done|].
  eapply Forall_impl; [exact H2|]. unfold timeLe, timeOf. simpl. intros; lia.
Qed.

Lemma agendaOK_immed t l a h w :
  agendaOK t l a h -> nextTime w = t -> slotOf (nextInst w) = None ->
  agendaOK t (immed l a w) (S a) h.
Proof.
  intros Hok Ht Hs.
  apply (agendaOK_add t l a h h w); [done| |done|lia| |].
  - eapply ordered_immed; eauto; apply Hok.
  - intros q sl [<-|Hq].
    + unfold instOf. simpl. congruence.
    + by apply Hok.
  - intros sl n Hn. pose proof (w_alloc _ _ _ _ Hok sl n Hn). lia.
Qed.

Lemma handle_deleted t l a h p sl :
  agendaOK t l a h -> In p (delete (h sl) l) ->
  slotOf (instOf p) <> Some sl.
Proof.
  intros Hok Hp Hs.
  assert (Hin : In p l) by by eapply in_delete.
  pose proof (w_handle _ _ _ _ Hok p sl Hin Hs) as E.
  rewrite E in Hp. simpl in Hp. apply in_unlink in Hp. tauto.
Qed.

Lemma setHandle_alloc sl n h a :
  (forall k m, h k = Some m -> (m < a)%nat) ->
  (n < S a)%nat ->
  forall k m, setHandle sl n h k = Some m -> (m < S a)%nat.
Proof.
  intros Hh Hn k m. destruct sl, k; simpl; intros E;
    try (injection E as <-; exact Hn); apply Hh in E; lia.
Qed.

Lemma setHandle_other sl k n h : k <> sl -> setHandle sl n h k = h k.
Proof. by destruct sl, k. Qed.

Lemma setHandle_same sl n h : setHandle sl n h sl = Some n.
Proof. by destruct sl. Qed.

(** A scheduling through the handle [sl]. *)
Lemma agendaOK_schedule t l a h sl w r :
  agendaOK t l a h -> t <= nextTime w -> slotOf (nextInst w) = Some sl ->
  sortIn (delete (h sl) l) a w = Some r ->
  agendaOK t r (S a) (setHandle sl a h).
Proof.
  intros Hok Ht Hs Hr.
  pose proof (agendaOK_delete _ _ (h sl) _ _ Hok) as Hd.
  apply (agendaOK_add t (delete (h sl) l) a h _ w);
    [done| |by eapply sortIn_perm|done| |].
  - eapply sortIn_ordered; [apply Hd|done].
  - intros q k [->|Hq]%(sortIn_In _ _ _ _ _ Hr) Hk.
    + unfold instOf in Hk. simpl in *.
      assert (k = sl) as -> by congruence. apply setHandle_same.
    + rewrite setHandle_other.
      * eapply (w_handle _ _ _ _ Hok); [by eapply in_delete|done].
      * intros ->. exact (handle_deleted _ _ _ _ _ _ Hok Hq Hk).
  - apply setHandle_alloc; [apply Hok|lia].
Qed.

Lemma agendaOK_scheduleImmediately t l a h sl w :
  agendaOK t l a h -> nextTime w = t -> slotOf (nextInst w) = Some sl ->
  agendaOK t (immed (delete (h sl) l) a w) (S a) (setHandle sl a h).
Proof.
  intros Hok Ht Hs.
  pose proof (agendaOK_delete _ _ (h sl) _ _ Hok) as Hd.
  apply (agendaOK_add t (delete (h sl) l) a h _ w); [done| |done|lia| |].
  - eapply ordered_immed; eauto; apply Hd.
  - intros q k [<-|Hq] Hk.
    + unfold instOf in Hk. simpl in *.
      assert (k = sl) as -> by congruence. apply setHandle_same.
    + rewrite setHandle_other.
      * eapply (w_handle _ _ _ _ Hok); [by eapply in_delete|done].
      * intros ->. exact (handle_deleted _ _ _ _ _ _ Hok Hq Hk).
  - apply setHandle_alloc; [apply Hok|lia].
Qed.

(** * Membership of listeners *)

Lemma pendIn_cons p l x : pendIn (p :: l) x <-> x = instOf p \/ pendIn l x.
Proof. unfold pendIn. simpl. intuition. Qed.

Lemma pendIn_nil x : ~ pendIn [] x.
Proof. intros []. Qed.

Lemma pendIn_In l x : pendIn l x <-> exists p, In p l /\ instOf p = x.
Proof.
  unfold pendIn. rewrite in_map_iff. split; intros (p & H1 & H2); eauto.
Qed.

Lemma pendIn_immed l n w x :
  pendIn (immed l n w) x <-> x = nextInst w \/ pendIn l x.
Proof. apply pendIn_cons. Qed.

Lemma pendIn_sortIn l n w r x :
  sortIn l n w = Some r -> pendIn r x <-> x = nextInst w \/ pendIn l x.
Proof.
  intros Hr. rewrite !pendIn_In. split.
  - intros (p & [->|Hp]%(sortIn_In _ _ _ _ _ Hr) & <-); [by left|right; eauto].
  - intros [->|(p & Hp & <-)].
    + exists (n, w). split; [|done]. apply (sortIn_In _ _ _ _ _ Hr). by left.
    + exists p. split; [|done]. apply (sortIn_In _ _ _ _ _ Hr). by right.
Qed.

Lemma pendIn_delete x l a : pendIn (delete x l) a -> pendIn l a.
Proof.
  rewrite !pendIn_In. intros (p & Hp & <-). eauto using in_delete.
Qed.

(** After [delete] of a handle nothing scheduled belongs to it. *)
Lemma pendIn_handle_deleted t l a h sl x :
  agendaOK t l a h -> pendIn (delete (h sl) l) x ->
  pendIn l x /\ slotOf x <> Some sl.
Proof.
  intros Hok Hx. split; [by eapply pendIn_delete|].
  apply pendIn_In in Hx as (p & Hp & <-). by eapply handle_deleted.
Qed.

(** Taking the first node off leaves no other node of its handle. *)
Lemma pendIn_handle_popped t p l a h sl x :
  agendaOK t (p :: l) a h -> slotOf (instOf p) = Some sl -> pendIn l x ->
  slotOf x <> Some sl.
Proof.
  intros Hok Hs (q & Hq & <-)%pendIn_In Hx.
  pose proof (w_handle _ _ _ _ Hok p sl (or_introl eq_refl) Hs) as E1.
  pose proof (w_handle _ _ _ _ Hok q sl (or_intror Hq) Hx) as E2.
  pose proof (w_nodup _ _ _ _ Hok) as Hn. simpl in Hn.
  apply NoDup_cons in Hn as [Hn _]. apply Hn.
  apply list_elem_of_In, in_map_iff. exists q. split; [congruence|done].
Qed.

(** * The schedulers in closed form *)

Lemma waitSortIn_eq w s r :
  sortIn (wait s) (alloc s) w = Some r ->
  waitSortIn w s = Some (alloc s, set_alloc (S (alloc s)) (set_wait r s)).
Proof. unfold waitSortIn. by intros ->. Qed.

Lemma scheduleElevator_eq sl d a s r :
  sortIn (delete (getSlot sl (ele s)) (wait s)) (alloc s)
         (newWaitElement (time s + d) a) = Some r ->
  scheduleElevator sl d a s =
  Some (upd_ele (setSlot sl (Some (alloc s)))
          (set_alloc (S (alloc s)) (set_wait r s))).
Proof.
  intros Hr. unfold scheduleElevator, waitSortIn. simpl. by rewrite Hr.
Qed.

Lemma scheduleElevatorImmediately_eq sl a s :
  scheduleElevatorImmediately sl a s =
  upd_ele (setSlot sl (Some (alloc s)))
    (set_alloc (S (alloc s))
       (set_wait (immed (delete (getSlot sl (ele s)) (wait s)) (alloc s)
                    (newWaitElement (time s) a)) s)).
Proof. reflexivity. Qed.

Lemma getSlot_setSlot sl n e k :
  getSlot k (setSlot sl (Some n) e) = setHandle sl n (fun k => getSlot k e) k.
Proof. by destruct sl, k. Qed.

Ltac flia := unfold floors, floorHome, floorFirst in *; simpl in *; lia.

(** * Reading the buttons *)

Lemma orM_Some a b : Some a ||| Some b = Some (a || b).
Proof. by destruct a. Qed.

Lemma andM_Some a b : Some a &&& Some b = Some (a && b).
Proof. by destruct a. Qed.

Ltac boolM := repeat (rewrite orM_Some || rewrite andM_Some).

Lemma index_pressed a j :
  0 <= j < Z.of_nat (length a) -> index a j = Some (pressed a j).
Proof.
  intros H. destruct (index_Some a j H) as [b Hb].
  unfold pressed. by rewrite Hb.
Qed.

Lemma s_callUp_eq s j :
  callsSized (ele s) -> 0 <= j < floors -> s_callUp s j = Some (pressed (callUp (ele s)) j).
Proof. intros (H & _ & _) Hj. apply index_pressed. rewrite H. flia. Qed.

Lemma s_callDown_eq s j :
  callsSized (ele s) -> 0 <= j < floors -> s_callDown s j = Some (pressed (callDown (ele s)) j).
Proof. intros (_ & H & _) Hj. apply index_pressed. rewrite H. flia. Qed.

Lemma s_callCar_eq s j :
  callsSized (ele s) -> 0 <= j < floors -> s_callCar s j = Some (pressed (callCar (ele s)) j).
Proof. intros (_ & _ & H) Hj. apply index_pressed. rewrite H. flia. Qed.

Lemma anyCallAt_eq s j :
  callsSized (ele s) -> 0 <= j < floors -> anyCallAt s j = Some (hasCall (ele s) j).
Proof.
  intros Hs Hj. unfold anyCallAt, hasCall.
  rewrite s_callUp_eq, s_callDown_eq, s_callCar_eq by done. simpl.
  by destruct (pressed (callUp _) j), (pressed (callDown _) j).
Qed.

(** The order in which DECISION reads the three buttons. *)
Lemma anyCallAt_decision s j :
  callsSized (ele s) -> 0 <= j < floors ->
  s_callUp s j ||| s_callCar s j ||| s_callDown s j = Some (hasCall (ele s) j).
Proof.
  intros Hs Hj. unfold hasCall.
  rewrite s_callUp_eq, s_callDown_eq, s_callCar_eq by done. simpl.
  by destruct (pressed (callUp _) j), (pressed (callDown _) j),
       (pressed (callCar _) j).
Qed.

Lemma allCallsFalseUpward_eq s n j :
  callsSized (ele s) -> 0 <= j -> j + Z.of_nat n <= floors ->
  exists b, allCallsFalseUpward n j s = Some b /\
    if b then forall k, j <= k < j + Z.of_nat n -> hasCall (ele s) k = false
    else exists k, j <= k < j + Z.of_nat n /\ hasCall (ele s) k = true.
Proof.
  intros Hs. revert j. induction n as [|n IH]; intros j Hj Hn; simpl.
  - exists true. split; [done|]. intros k Hk; lia.
  - rewrite anyCallAt_eq by (done || lia).
    destruct (hasCall (ele s) j) eqn:E.
    + exists false. split; [done|]. exists j. split; [lia|done].
    + destruct (IH (j + 1)) as (b & Hb & Hspec); [lia|lia|].
      exists b. split; [done|]. destruct b.
      * intros k Hk. destruct (decide (k = j)) as [->|]; [done|]. apply Hspec. lia.
      * destruct Hspec as (k & Hk & Hc). exists k. split; [lia|done].
Qed.

Lemma allCallsFalseDownward_eq s n j :
  callsSized (ele s) -> j < floors -> Z.of_nat n = j + 1 ->
  exists b, allCallsFalseDownward n j s = Some b /\
    if b then forall k, 0 <= k <= j -> hasCall (ele s) k = false
    else exists k, 0 <= k <= j /\ hasCall (ele s) k = true.
Proof.
  intros Hs. revert j. induction n as [|n IH]; intros j Hj Hn; simpl.
  - exists true. split; [done|]. intros k Hk; lia.
  - rewrite anyCallAt_eq by (done || lia).
    destruct (hasCall (ele s) j) eqn:E.
    + exists false. split; [done|]. exists j. split; [lia|done].
    + destruct (IH (j - 1)) as (b & Hb & Hspec); [lia|lia|].
      exists b. split; [done|]. destruct b.
      * intros k Hk. destruct (decide (k = j)) as [->|]; [done|]. apply Hspec. lia.
      * destruct Hspec as (k & Hk & Hc). exists k. split; [lia|done].
Qed.

Lemma isAllCallsAboveFalse_eq s :
  callsSized (ele s) -> 0 <= floor (ele s) < floors ->
  exists b, isAllCallsAboveFalse s = Some b /\
    if b then ~ callAbove (ele s) else callAbove (ele s).
Proof.
  intros Hs Hf. unfold isAllCallsAboveFalse.
  destruct (allCallsFalseUpward_eq s (Z.to_nat (floors - (floor (ele s) + 1)))
              (floor (ele s) + 1) Hs) as (b & Hb & Hspec); [lia|lia|].
  exists b. split; [done|]. unfold callAbove. destruct b.
  - intros (j & Hj & Hc). rewrite Hspec in Hc by lia. done.
  - destruct Hspec as (k & Hk & Hc). exists k. split; [lia|done].
Qed.

Lemma isAllCallsBelowFalse_eq s :
  callsSized (ele s) -> 0 <= floor (ele s) < floors ->
  exists b, isAllCallsBelowFalse s = Some b /\
    if b then ~ callBelow (ele s) else callBelow (ele s).
Proof.
  intros Hs Hf. unfold isAllCallsBelowFalse.
  destruct (allCallsFalseDownward_eq s (Z.to_nat (floor (ele s) - 1 + 1))
              (floor (ele s) - 1) Hs) as (b & Hb & Hspec); [lia|lia|].
  exists b. split; [done|]. unfold callBelow. destruct b.
  - intros (j & Hj & Hc). rewrite Hspec in Hc by lia. done.
  - destruct Hspec as (k & Hk & Hc). exists k. split; [lia|done].
Qed.

Lemma decisionScan_eq s n j :
  callsSized (ele s) -> 0 <= j -> j + Z.of_nat n = floors ->
  exists r, decisionScan n j s = Some r /\
    match r with
    | Some i => j <= i < floors /\ i <> floor (ele s) /\ hasCall (ele s) i = true /\
                forall k, j <= k < i -> k <> floor (ele s) -> hasCall (ele s) k = false
    | None => forall k, j <= k < floors -> k <> floor (ele s) -> hasCall (ele s) k = false
    end.
Proof.
  intros Hs. revert j. induction n as [|n IH]; intros j Hj Hn; simpl.
  - exists None. split; [done|]. intros k Hk. lia.
  - rewrite anyCallAt_decision by (done || lia).
    destruct (Z.eqb_spec j (floor (ele s))) as [E|E]; simpl.
    + destruct (IH (j + 1)) as (r & Hr & Hspec); [lia|lia|].
      exists r. split; [done|]. destruct r as [i|].
      * destruct Hspec as (H1 & H2 & H3 & H4). repeat split; [lia|lia|done|done|].
        intros k Hk Hkf. apply H4; lia.
      * intros k Hk Hkf. apply Hspec; lia.
    + destruct (hasCall (ele s) j) eqn:Ec.
      * exists (Some j). split; [done|]. repeat split; [lia|lia|done|done|].
        intros k Hk. lia.
      * destruct (IH (j + 1)) as (r & Hr & Hspec); [lia|lia|].
        exists r. split; [done|]. destruct r as [i|].
        -- destruct Hspec as (H1 & H2 & H3 & H4). repeat split; [lia|lia|done|done|].
           intros k Hk Hkf. destruct (decide (k = j)) as [->|]; [done|]. apply H4; lia.
        -- intros k Hk Hkf. destruct (decide (k = j)) as [->|]; [done|]. apply Hspec; lia.
Qed.

Lemma decisionScan_firstCall s :
  callsSized (ele s) ->
  exists r, decisionScan (Z.to_nat floors) 0 s = Some r /\ firstCall (ele s) r.
Proof.
  intros Hs. destruct (decisionScan_eq s (Z.to_nat floors) 0 Hs) as (r & Hr & H);
    [lia|done|].
  exists r. split; [done|]. destruct r; simpl; [|done].
  destruct H as (H1 & H2 & H3 & H4). repeat split; try done; lia.
Qed.

(** * The schedulers on well-formed states *)

Lemma waitOK_upd f s :
  (forall k, getSlot k (f (ele s)) = getSlot k (ele s)) ->
  waitOK s -> waitOK (upd_ele f s).
Proof.
  intros Hf Hw. unfold waitOK in *. simpl.
  eapply agendaOK_ext; [|exact Hw]. intros k. by rewrite Hf.
Qed.

Lemma waitOK_waitDelete x s : waitOK s -> waitOK (waitDelete x s).
Proof. unfold waitOK. simpl. apply agendaOK_delete. Qed.

Lemma pend_waitDelete x s a : pend (waitDelete x s) a -> pend s a.
Proof. unfold pend. simpl. apply pendIn_delete. Qed.

Lemma scheduleElevator_spec sl d a s :
  waitOK s -> 0 <= d -> slotOf a = Some sl ->
  exists s', scheduleElevator sl d a s = Some s' /\ waitOK s' /\
    ele s' = setSlot sl (Some (alloc s)) (ele s) /\
    time s' = time s /\ listNode s' = listNode s /\ giveUp s' = giveUp s /\
    pend s' a /\
    (forall x, pend s' x -> x = a \/ (pend s x /\ slotOf x <> Some sl)).
Proof.
  intros Hw Hd Hs.
  destruct (sortIn_Some (delete (getSlot sl (ele s)) (wait s)) (alloc s)
              (newWaitElement (time s + d) a)) as [r Hr].
  { simpl. pose proof (w_time _ _ _ _ Hw). lia. }
  rewrite (scheduleElevator_eq _ _ _ _ _ Hr). eexists. split; [reflexivity|].
  split_and!; try reflexivity.
  - unfold waitOK in *. simpl.
    eapply agendaOK_ext; [intros k; symmetry; apply getSlot_setSlot|].
    apply (agendaOK_schedule (time s) (wait s) (alloc s)
             (fun k => getSlot k (ele s)) sl (newWaitElement (time s + d) a));
      [exact Hw|simpl; lia|done|exact Hr].
  - unfold pend. simpl. apply (pendIn_sortIn _ _ _ _ _ Hr). by left.
  - unfold pend. simpl. intros x Hx.
    apply (pendIn_sortIn _ _ _ _ _ Hr) in Hx as [->|Hx]; [by left|]. right.
    by eapply (pendIn_handle_deleted _ _ _ (fun k => getSlot k (ele s))).
Qed.

Lemma scheduleElevatorImmediately_spec sl a s :
  waitOK s -> slotOf a = Some sl ->
  exists s', scheduleElevatorImmediately sl a s = s' /\ waitOK s' /\
    ele s' = setSlot sl (Some (alloc s)) (ele s) /\
    time s' = time s /\ listNode s' = listNode s /\ giveUp s' = giveUp s /\
    pend s' a /\
    (forall x, pend s' x -> x = a \/ (pend s x /\ slotOf x <> Some sl)).
Proof.
  intros Hw Hs. eexists. split; [reflexivity|].
  rewrite scheduleElevatorImmediately_eq. split_and!; try reflexivity.
  - unfold waitOK in *. simpl.
    eapply agendaOK_ext; [intros k; symmetry; apply getSlot_setSlot|].
    by apply (agendaOK_scheduleImmediately (time s) (wait s) (alloc s)
                (fun k => getSlot k (ele s)) sl (newWaitElement (time s) a)).
  - unfold pend. simpl. apply pendIn_immed. by left.
  - unfold pend. simpl. intros x [->|Hx]%pendIn_immed; [by left|]. right.
    by eapply (pendIn_handle_deleted _ _ _ (fun k => getSlot k (ele s))).
Qed.

(** Insertions without a handle. *)
Lemma waitImmed_spec a s :
  waitOK s -> slotOf a = None ->
  exists s', waitImmed (newWaitElement (time s) a) s = (alloc s, s') /\
    waitOK s' /\ ele s' = ele s /\ time s' = time s /\
    listNode s' = listNode s /\ giveUp s' = giveUp s /\
    wait s' = (alloc s, newWaitElement (time s) a) :: wait s /\
    (forall x, pend s' x <-> x = a \/ pend s x).
Proof.
  intros Hw Hs. eexists. split; [reflexivity|]. split_and!; try reflexivity.
  - unfold waitOK in *. simpl. by apply agendaOK_immed.
  - intros x. unfold pend. simpl. apply pendIn_immed.
Qed.

Lemma waitSortIn_spec d a s :
  waitOK s -> 0 <= d -> slotOf a = None ->
  exists s', waitSortIn (newWaitElement (time s + d) a) s = Some (alloc s, s') /\
    waitOK s' /\ ele s' = ele s /\ time s' = time s /\
    listNode s' = listNode s /\ giveUp s' = giveUp s /\
    (forall x, pend s' x <-> x = a \/ pend s x).
Proof.
  intros Hw Hd Hs.
  destruct (sortIn_Some (wait s) (alloc s) (newWaitElement (time s + d) a)) as [r Hr].
  { simpl. pose proof (w_time _ _ _ _ Hw). lia. }
  rewrite (waitSortIn_eq _ _ _ Hr). eexists. split; [reflexivity|]. split_and!; try reflexivity.
  - unfold waitOK in *. simpl.
    eapply (agendaOK_sortIn _ _ _ _ (newWaitElement (time s + d) a));
      [exact Hw|simpl; lia|done|exact Hr].
  - intros x. unfold pend. simpl. apply (pendIn_sortIn _ _ _ _ _ Hr).
Qed.

Arguments sortIn : simpl never.
Arguments delete : simpl never.
Arguments index : simpl never.
Arguments assign : simpl never.
Arguments pendIn : simpl never.
Arguments pressed : simpl never.
Arguments Z.add : simpl never.
Arguments Z.sub : simpl never.

(** * Facts on the classes of listeners *)

Lemma doorsShut_slot a : doorsShut a = true -> slotOf a = Some Elev1.
Proof. by destruct a. Qed.

Lemma inFlight_slot a : inFlight a = true -> slotOf a = Some Elev1.
Proof. by destruct a. Qed.

Lemma inFlight_doorsShut a : inFlight a = true -> doorsShut a = true.
Proof. by destruct a. Qed.

Lemma stateOK_mono (P P' : listener -> Prop) e :
  (forall x, P' x -> P x) -> stateOK P e -> stateOK P' e.
Proof.
  intros HP [].
  assert (Hq : quiet P e -> quiet P' e).
  { intros (H1 & H2 & H3). split; [done|]. split; [auto|]. intros u Hu. eapply H3; eauto. }
  split; eauto.
Qed.

Lemma quiet_mono (P P' : listener -> Prop) e e' :
  (forall x, P' x -> P x) -> d3 e' = d3 e -> quiet P e -> quiet P' e'.
Proof.
  intros HP Hd (H1 & H2 & H3). split; [congruence|]. split; [auto|].
  intros u Hu. eapply H3; eauto.
Qed.

Lemma quiet_transfer (P P' : listener -> Prop) e e' :
  quiet P e -> d3 e' = d3 e ->
  (P' wf_executeCloseDoors -> P wf_executeCloseDoors) ->
  (forall u, P' (wf_userGetIn u) -> P (wf_userGetIn u)) ->
  quiet P' e'.
Proof.
  intros (H1 & H2 & H3) Hd H5 Hu. split; [congruence|]. split; [auto|].
  intros u Hu'. eapply H3; eauto.
Qed.

Lemma stateOK_callsSized P e : stateOK P e -> callsSized e.
Proof. intros []. by split_and!. Qed.

Lemma front_none l :
  (forall u, ~ pendIn l (wf_userGetIn u)) -> front l.
Proof.
  intros H. unfold front. apply List.Forall_forall. intros p Hp.
  destruct (instOf p) eqn:E; try done. exfalso.
  apply (H u). apply pendIn_In. exists p. split; [|done].
  destruct l; [done|]. by right.
Qed.

(** The elevator coroutine is rescheduled to [a]: what is left to check. *)
Lemma stateOK_elev1 (P' : listener -> Prop) e' a :
  (forall x, P' x -> slotOf x = Some Elev1 -> x = a) ->
  length (callUp e') = Z.to_nat floors ->
  length (callDown e') = Z.to_nat floors ->
  length (callCar e') = Z.to_nat floors ->
  length (queue e') = Z.to_nat floors ->
  (forall f q p, index (queue e') f = Some q -> In p q ->
     validUser (snd p) /\ in_ (snd p) = f) ->
  0 <= floor e' < floors ->
  step e' <> stepSetInactionIndicator ->
  (forall u, P' (wf_userSignalAndWait u) -> validUser u) ->
  (forall u, P' (wf_userEnterQueue u) -> validUser u) ->
  (forall u, P' (wf_userGetIn u) -> validUser u /\ in_ u = floor e') ->
  (doorsShut a = true \/ step e' = stepWaitForCall -> quiet P' e') ->
  (inFlight a = true -> moving e') ->
  (a = wf_executeGoUpAFloor -> callAbove e' \/ floor e' < floorHome) ->
  (a = wf_executeGoUpAFloor2 ->
     callAbove e' \/ hasCall e' (floor e') = true \/ floor e' <= floorHome) ->
  (a = wf_executeGoDownAFloor -> callBelow e' \/ floorHome < floor e') ->
  (a = wf_executeGoDownAFloor2 ->
     callBelow e' \/ hasCall e' (floor e') = true \/ floorHome <= floor e') ->
  stateOK P' e'.
Proof.
  intros K H1 H2 H3 H4 H5 H6 H7 U1 U2 U3 H8 H9 H10 H11 H12 H13.
  split; try done.
  - intros x Hx Hd. apply H8. left.
    by rewrite <- (K x Hx (doorsShut_slot _ Hd)).
  - auto.
  - intros x Hx Hd. apply H9.
    by rewrite <- (K x Hx (inFlight_slot _ Hd)).
  - intros Hx. apply H10. symmetry. by apply K.
  - intros Hx. apply H11. symmetry. by apply K.
  - intros Hx. apply H12. symmetry. by apply K.
  - intros Hx. apply H13. symmetry. by apply K.
Qed.

(** No step of the elevator coroutine is scheduled. *)
Lemma stateOK_idle (P' : listener -> Prop) e' :
  (forall x, P' x -> slotOf x <> Some Elev1) ->
  length (callUp e') = Z.to_nat floors ->
  length (callDown e') = Z.to_nat floors ->
  length (callCar e') = Z.to_nat floors ->
  length (queue e') = Z.to_nat floors ->
  (forall f q p, index (queue e') f = Some q -> In p q ->
     validUser (snd p) /\ in_ (snd p) = f) ->
  0 <= floor e' < floors ->
  step e' <> stepSetInactionIndicator ->
  (forall u, P' (wf_userSignalAndWait u) -> validUser u) ->
  (forall u, P' (wf_userEnterQueue u) -> validUser u) ->
  (forall u, P' (wf_userGetIn u) -> validUser u /\ in_ u = floor e') ->
  (step e' = stepWaitForCall -> quiet P' e') ->
  stateOK P' e'.
Proof.
  intros K H1 H2 H3 H4 H5 H6 H7 U1 U2 U3 H8.
  apply (stateOK_elev1 P' e' wf_executeOpenDoors); try done.
  - intros x Hx Hs. by destruct (K x Hx).
  - intros [?|?]; [done|auto].
Qed.

(** The elevator coroutine is not rescheduled and stays on its floor;
    calls are only added. *)
Lemma stateOK_keep (P P' : listener -> Prop) e e' :
  stateOK P e ->
  (forall x, P' x -> slotOf x = Some Elev1 -> P x) ->
  (forall u, P' (wf_userSignalAndWait u) -> validUser u) ->
  (forall u, P' (wf_userEnterQueue u) -> validUser u) ->
  (forall u, P' (wf_userGetIn u) -> validUser u /\ in_ u = floor e') ->
  length (callUp e') = Z.to_nat floors ->
  length (callDown e') = Z.to_nat floors ->
  length (callCar e') = Z.to_nat floors ->
  length (queue e') = Z.to_nat floors ->
  (forall f q p, index (queue e') f = Some q -> In p q ->
     validUser (snd p) /\ in_ (snd p) = f) ->
  floor e' = floor e ->
  step e' <> stepSetInactionIndicator ->
  (forall j, hasCall e j = true -> hasCall e' j = true) ->
  (forall x, P' x -> doorsShut x = true -> quiet P' e') ->
  (step e' = stepWaitForCall -> quiet P' e') ->
  (forall x, P' x -> inFlight x = true -> moving e') ->
  stateOK P' e'.
Proof.
  intros [o1 o2 o3 o4 o5 o6 o7 o8 o9 o10 o11 o12 o13 Hup Hup2 Hdown Hdown2]
    K Hu1 Hu2 Hu3 H1 H2 H3 H4 H5 Hf Hs Hc Hq1 Hq2 Hm.
  assert (Ha : callAbove e -> callAbove e').
  { intros (j & Hj & Hj'). exists j. rewrite Hf. auto. }
  assert (Hb : callBelow e -> callBelow e').
  { intros (j & Hj & Hj'). exists j. rewrite Hf. auto. }
  split; try done.
  - by rewrite Hf.
  - intros Hx%K; [|done]. rewrite Hf. destruct (Hup Hx); auto.
  - intros Hx%K; [|done]. rewrite Hf.
    destruct (Hup2 Hx) as [|[|]]; auto.
  - intros Hx%K; [|done]. rewrite Hf. destruct (Hdown Hx); auto.
  - intros Hx%K; [|done]. rewrite Hf.
    destruct (Hdown2 Hx) as [|[|]]; auto.
Qed.

(** The same when the step stays too. *)
Lemma stateOK_keep_step (P P' : listener -> Prop) e e' :
  stateOK P e ->
  (forall x, P' x -> slotOf x = Some Elev1 -> P x) ->
  (forall u, P' (wf_userSignalAndWait u) -> validUser u) ->
  (forall u, P' (wf_userEnterQueue u) -> validUser u) ->
  (forall u, P' (wf_userGetIn u) -> validUser u /\ in_ u = floor e') ->
  length (callUp e') = Z.to_nat floors ->
  length (callDown e') = Z.to_nat floors ->
  length (callCar e') = Z.to_nat floors ->
  length (queue e') = Z.to_nat floors ->
  (forall f q p, index (queue e') f = Some q -> In p q ->
     validUser (snd p) /\ in_ (snd p) = f) ->
  floor e' = floor e -> step e' = step e ->
  (forall j, hasCall e j = true -> hasCall e' j = true) ->
  (quiet P e -> quiet P' e') ->
  stateOK P' e'.
Proof.
  intros He K Hu1 Hu2 Hu3 H1 H2 H3 H4 H5 Hf Hs Hc Hq.
  eapply stateOK_keep; eauto.
  - rewrite Hs. apply He.
  - intros x Hx Hd. apply Hq. eapply (l_shut _ _ He); [|exact Hd].
    apply K; [done|by apply doorsShut_slot].
  - rewrite Hs. intros E. apply Hq. by apply (l_dormant _ _ He).
  - intros x Hx Hd. unfold moving. rewrite Hs. eapply (l_flight _ _ He); [|exact Hd].
    apply K; [done|by apply inFlight_slot].
Qed.

Arguments scheduleElevator : simpl never.
Arguments scheduleElevatorImmediately : simpl never.
Arguments waitImmed : simpl never.
Arguments waitSortIn : simpl never.
Arguments decision : simpl never.
Arguments decisionScan : simpl never.
Arguments isAllCallsAboveFalse : simpl never.
Arguments isAllCallsBelowFalse : simpl never.

Lemma ele_same e : e = e_elev1 (elev1 e) (e_state (state e) e).
Proof. by destruct e. Qed.

Lemma decided_refl s : decided s s.
Proof.
  split; [exists (state (ele s)), (elev1 (ele s)); apply ele_same|].
  split_and!; auto.
Qed.

Lemma dirOK_neutral e : state e = stateNeutral -> dirOK e.
Proof. intros H. split; rewrite H; done. Qed.

Lemma decisionD4_ok j s :
  waitOK s -> elevatorOK (pend s) (ele s) -> state (ele s) = stateNeutral ->
  (0 <= j < floors /\ j <> floor (ele s) /\ hasCall (ele s) j = true) \/
  (j = 2 /\ step (ele s) = stepPrepareToMove) ->
  exists s', decisionD4 j s = Some s' /\ waitOK s' /\
    elevatorOK (pend s') (ele s') /\ decided s s'.
Proof.
  intros Hw [He Hd] Hn Hj. unfold decisionD4.
  set (s1 := if floor (ele s) >? j then upd_ele (e_state stateGoingDown) s
             else if floor (ele s) <? j then upd_ele (e_state stateGoingUp) s
             else s).
  assert (H1 : exists st, s1 = upd_ele (e_state st) s /\
            dirOK (e_state st (ele s))).
  { unfold s1. destruct (Z.gtb_spec (floor (ele s)) j) as [G|G];
      [|destruct (Z.ltb_spec (floor (ele s)) j) as [L|L]].
    - exists stateGoingDown. split; [done|]. split; [done|]. intros _.
      destruct Hj as [(Hj1 & Hj2 & Hj3)|[-> _]]; [left|right; flia].
      exists j. split; [simpl; lia|done].
    - exists stateGoingUp. split; [done|]. split; [|done]. intros _.
      destruct Hj as [(Hj1 & Hj2 & Hj3)|[-> _]]; [left|right; flia].
      exists j. split; [simpl; lia|done].
    - exists stateNeutral. split; [|by apply dirOK_neutral].
      rewrite <- Hn. destruct s as [? ? []]; reflexivity. }
  clearbody s1. destruct H1 as (st & -> & Hdir).
  assert (Hw1 : waitOK (upd_ele (e_state st) s)).
  { apply waitOK_upd; [by intros []|done]. }
  assert (He1 : stateOK (pend s) (e_state st (ele s))).
  { destruct He. eapply stateOK_keep_step with (P := pend s) (e := ele s); eauto.
    split; done. }
  simpl. destruct (bool_decide (step (ele s) = stepWaitForCall) && negb (j =? 2)) eqn:Ec.
  - apply andb_true_iff in Ec as [Ec _]. apply bool_decide_eq_true in Ec.
    destruct (scheduleElevator_spec Elev1 20 wf_executePrepareToMove _ Hw1)
      as (s' & -> & Hw' & Hele & Ht & Hl & Hg & HN & HP); [lia|done|].
    exists s'. split; [done|]. split; [done|]. split; [split|].
    + rewrite Hele. simpl.
      apply (stateOK_elev1 (pend s') _ wf_executePrepareToMove);
        try done; try apply He1.
      1-4: intros x Hx; apply HP in Hx as [E|[Hx Hs]]; try done.
      1: by eapply (l_signal _ _ He1).
      1: by eapply (l_enter _ _ He1).
      1: by eapply (l_getin _ _ He1).
      intros _. eapply quiet_transfer with (P := pend s) (e := ele s).
      * by apply (l_dormant _ _ He).
      * done.
      * by intros [?|[Hx _]]%HP.
      * by intros u [?|[Hx _]]%HP.
    + left. rewrite Hele. exact Hdir.
    + split; [by exists st, (Some (alloc s))|]. split_and!; try done.
      intros x [->|[Hx _]]%HP; auto.
  - exists (upd_ele (e_state st) s). split; [done|]. split; [done|].
    split; [split; [done|by left]|].
    split; [exists st, (elev1 (ele s)); by destruct s as [? ? []]|].
    split_and!; auto.
Qed.

Lemma decision_ok s :
  waitOK s -> elevatorOK (pend s) (ele s) ->
  exists s', decision s = Some s' /\ waitOK s' /\
    elevatorOK (pend s') (ele s') /\ decided s s'.
Proof.
  intros Hw He. pose proof He as [Hs Hd].
  pose proof (stateOK_callsSized _ _ Hs) as Hc.
  unfold decision.
  destruct (bool_decide (state (ele s) = stateNeutral)) eqn:En; simpl.
  2:{ exists s. split; [done|]. split; [done|]. split; [done|]. apply decided_refl. }
  apply bool_decide_eq_true in En.
  rewrite anyCallAt_decision by (done || flia). simpl.
  destruct (bool_decide (step (ele s) = stepWaitForCall)) eqn:E1; simpl.
  - apply bool_decide_eq_true in E1.
    destruct (hasCall (ele s) floorHome) eqn:Eh.
    + destruct (scheduleElevator_spec Elev1 20 wf_executeOpenDoors _ Hw)
        as (s' & -> & Hw' & Hele & Ht & Hl & Hg & HN & HP); [lia|done|].
      exists s'. split; [done|]. split; [done|]. split; [split|].
      * rewrite Hele. simpl.
        apply (stateOK_elev1 (pend s') _ wf_executeOpenDoors);
          try done; try apply Hs.
        1-4: intros x Hx; apply HP in Hx as [E|[Hx Hs']]; try done.
        1: by eapply (l_signal _ _ Hs).
        1: by eapply (l_enter _ _ Hs).
        1: by eapply (l_getin _ _ Hs).
        intros [?|_]; [done|]. eapply quiet_transfer with (P := pend s) (e := ele s).
        -- by apply (l_dormant _ _ Hs).
        -- done.
        -- by intros [?|[Hx _]]%HP.
        -- by intros u [?|[Hx _]]%HP.
      * left. rewrite Hele. simpl. by apply dirOK_neutral.
      * split; [exists stateNeutral, (Some (alloc s)); rewrite Hele; simpl;
                 rewrite <- En; by destruct (ele s)|].
        split_and!; try done. intros x [->|[Hx _]]%HP; auto.
    + destruct (decisionScan_firstCall s Hc) as (r & -> & Hr).
      destruct r as [j|].
      * destruct Hr as (Hj1 & Hj2 & Hj3 & _). apply decisionD4_ok; auto.
      * rewrite bool_decide_eq_false_2 by congruence.
        exists s. split; [done|]. split; [done|]. split; [done|]. apply decided_refl.
  - destruct (decisionScan_firstCall s Hc) as (r & -> & Hr).
    destruct r as [j|].
    + destruct Hr as (Hj1 & Hj2 & Hj3 & _). apply decisionD4_ok; auto.
    + destruct (bool_decide (step (ele s) = stepPrepareToMove)) eqn:E6.
      * apply bool_decide_eq_true in E6. apply decisionD4_ok; auto.
      * exists s. split; [done|]. split; [done|]. split; [done|]. apply decided_refl.
Qed.

(** * Each listener keeps the invariant *)

Lemma Mid_facts a s : Mid a s -> midFacts a s.
Proof.
  intros (Hw & [He Hd] & Hu & Hq). split; try done.
  - apply (w_time _ _ _ _ Hw).
  - eapply stateOK_mono; [|exact He]. intros x Hx. by right.
  - destruct Hd as [?|(x & [->|Hx] & Hf)]; eauto.
Qed.

(** When a step of the elevator coroutine runs, none is scheduled. *)
Lemma mid_noElev1 a s x :
  midFacts a s -> slotOf a = Some Elev1 -> pend s x -> slotOf x <> Some Elev1.
Proof. intros M Ha Hx. by apply (m_single _ _ M Elev1). Qed.

Lemma mid_dirOK a s :
  midFacts a s -> slotOf a = Some Elev1 -> inFlight a = false -> dirOK (ele s).
Proof.
  intros M Ha Hf. destruct (m_dir _ _ M) as [?|[?|(x & Hx & Hfx)]]; [done|congruence|].
  destruct (mid_noElev1 _ _ _ M Ha Hx). by apply inFlight_slot.
Qed.

Lemma mid_quiet a s :
  midFacts a s -> doorsShut a = true -> quiet (pend s) (ele s).
Proof.
  intros M Ha.
  eapply quiet_transfer;
    [exact (l_shut _ _ (m_all _ _ M) a (or_introl eq_refl) Ha)|done|..].
  - intros H. by right.
  - intros u H. by right.
Qed.

Ltac mid M :=
  intros M%Mid_facts;
  pose proof M as [m_wait0 m_time0 m_all0 m_old0 m_dir0 m_nogetin0 m_single0].

Ltac pinv1 H :=
  match type of H with
  | pend (upd_ele _ ?s) ?x => change (pend s x) in H
  | pend (set_listNode _ ?s) ?x => change (pend s x) in H
  | pend (set_giveUp _ ?s) ?x => change (pend s x) in H
  | pend (set_userID _ ?s) ?x => change (pend s x) in H
  | pend (set_alloc _ ?s) ?x => change (pend s x) in H
  | pend (waitDelete _ _) _ => apply pend_waitDelete in H
  | pend ?s _ =>
      match goal with
      | HP : forall y, pend s y -> _ \/ _ |- _ => apply HP in H
      | HP : forall y, pend s y -> pend _ y |- _ => apply HP in H
      | HP : forall y, pend s y <-> _ \/ _ |- _ => apply HP in H
      end
  | _ \/ _ => destruct H as [H|H]
  | _ /\ _ => let H' := fresh "Hc" in destruct H as [H H']
  end.

Ltac pinv H := repeat pinv1 H.

(** Closes a goal about a scheduled listener by going back to where it was
    scheduled. *)
Ltac absurd_pend :=
  match goal with
  | Hn : forall u, ~ pend ?s (wf_userGetIn u), H : pend ?s (wf_userGetIn ?u) |- _ =>
      destruct (Hn u H)
  | Hn : ~ pend ?s ?a, H : pend ?s ?a |- _ => destruct (Hn H)
  | Hn : ?x <> ?x |- _ => destruct (Hn eq_refl)
  end.

Ltac pold H :=
  pinv H; try discriminate H; try (subst; done); try absurd_pend;
  try (by eauto).

(** Runs the next [scheduleElevator] of the goal. *)
Ltac sched s' Hw' Hele HN HP :=
  match goal with |- context [scheduleElevator ?sl ?d ?a ?S] =>
    let Ht := fresh "Ht" in
    let Hl := fresh "Hl" in
    let Hg := fresh "Hg" in
    destruct (scheduleElevator_spec sl d a S)
      as (s' & -> & Hw' & Hele & Ht & Hl & Hg & HN & HP);
      [repeat first [apply waitOK_upd; [by intros []|] | apply waitOK_waitDelete];
       try done
      |lia|done|simpl in Hele, Ht, Hl, Hg; cbv beta iota]
  end.

Lemma step_E1 s :
  Mid wf_executeWaitForCall s ->
  exists s', executeWaitForCall s = Some s' /\ Inv s'.
Proof.
  mid M.
  eexists. split; [reflexivity|]. split; [|split; [split|]].
  - apply waitOK_upd; [by intros []|done].
  - change (pend (upd_ele (e_step stepWaitForCall) s)) with (pend s). simpl.
    apply stateOK_idle; try done; try apply m_old0.
    + intros x Hx. by apply (mid_noElev1 _ _ _ M).
    + intros _. by apply (mid_quiet _ _ M).
  - left. by apply (mid_dirOK _ _ M).
  - by apply front_none.
Qed.

Lemma callAbove_next e e' :
  callAbove e \/ floor e < floorHome -> floor e' = floor e + 1 ->
  (forall j, hasCall e' j = hasCall e j) -> 0 <= floor e ->
  0 <= floor e' < floors /\
  (callAbove e' \/ hasCall e' (floor e') = true \/ floor e' <= floorHome).
Proof.
  intros [(j & Hj & Hc)|Hf] Hn He H0.
  - split; [lia|].
    destruct (decide (j = floor e')) as [->|]; [right; left; by rewrite He|].
    left. exists j. rewrite He. split; [lia|done].
  - split; [flia|]. right. right. flia.
Qed.

Lemma callBelow_next e e' :
  callBelow e \/ floorHome < floor e -> floor e' = floor e - 1 ->
  (forall j, hasCall e' j = hasCall e j) -> floor e < floors ->
  0 <= floor e' < floors /\
  (callBelow e' \/ hasCall e' (floor e') = true \/ floorHome <= floor e').
Proof.
  intros [(j & Hj & Hc)|Hf] Hn He H0.
  - split; [lia|].
    destruct (decide (j = floor e')) as [->|]; [right; left; by rewrite He|].
    left. exists j. rewrite He. split; [lia|done].
  - split; [flia|]. right. right. flia.
Qed.

Lemma step_E7 s :
  Mid wf_executeGoUpAFloor s ->
  exists s', executeGoUpAFloor s = Some s' /\ Inv s'.
Proof.
  mid M.
  unfold executeGoUpAFloor. cbv zeta.
  sched s' Hw' Hele HN HP.
  destruct (mid_quiet _ _ M) as (Q1 & Q2 & Q3); [done|].
  destruct (callAbove_next (ele s) (ele s')) as [Hf Hup];
    [by apply (l_up _ _ m_all0); left|by rewrite Hele|by rewrite Hele|apply m_old0|].
  exists s'. split; [done|]. split; [done|]. split; [split|].
  - apply (stateOK_elev1 _ _ wf_executeGoUpAFloor2); try done; 
      rewrite ?Hele; simpl; try apply m_old0; try done.
    + intros x Hx Hs. pold Hx.
    + intros u Hu. pold Hu. by apply (l_signal _ _ m_old0).
    + intros u Hu. pold Hu. by apply (l_enter _ _ m_old0).
    + intros u Hu. pold Hu.
    + intros _. split; [done|]. split.
      * intros H. pold H.
      * intros u H. pold H.
    + intros _. right. by left.
  - right. by exists wf_executeGoUpAFloor2.
  - apply front_none. intros u H. change (pend s' (wf_userGetIn u)) in H.
    pold H.
Qed.

(** Runs the next [scheduleElevatorImmediately] of the goal. *)
Ltac schedI s' Hw' Hele HN HP :=
  match goal with |- context [scheduleElevatorImmediately ?sl ?a ?S] =>
    let Ht := fresh "Ht" in
    let Hl := fresh "Hl" in
    let Hg := fresh "Hg" in
    destruct (scheduleElevatorImmediately_spec sl a S)
      as (s' & -> & Hw' & Hele & Ht & Hl & Hg & HN & HP);
      [repeat first [apply waitOK_upd; [by intros []|] | apply waitOK_waitDelete];
       try done
      |done|simpl in Hele, Ht, Hl, Hg]
  end.

(** The three clauses on the users, when nothing concerning them changed. *)
Ltac users M :=
  let u := fresh "u" in
  let Hu := fresh "Hu" in
  intros u Hu; pold Hu;
  first [ by apply (l_signal _ _ (m_old _ _ M))
        | by apply (l_enter _ _ (m_old _ _ M))
        | by apply (l_getin _ _ (m_old _ _ M)) ].

Ltac quiet_by Q :=
  let Q1 := fresh "Q" in
  let Q2 := fresh "Q" in
  let Q3 := fresh "Q" in
  let Hq := fresh "Hq" in
  let u := fresh "u" in
  destruct Q as (Q1 & Q2 & Q3);
  split; [done|]; split; [intros Hq; pold Hq|intros u Hq; pold Hq].

Ltac front_by :=
  let u := fresh "u" in
  let H := fresh "H" in
  apply front_none; intros u H;
  match type of H with pendIn (wait ?s) ?x => change (pend s x) in H end;
  pold H.

Lemma step_E8 s :
  Mid wf_executeGoDownAFloor s ->
  exists s', executeGoDownAFloor s = Some s' /\ Inv s'.
Proof.
  mid M.
  unfold executeGoDownAFloor. cbv zeta.
  sched s' Hw' Hele HN HP.
  pose proof (mid_quiet _ _ M eq_refl) as Q.
  destruct (callBelow_next (ele s) (ele s')) as [Hf Hup];
    [by apply (l_down _ _ m_all0); left|by rewrite Hele|by rewrite Hele|apply m_old0|].
  exists s'. split; [done|]. split; [done|]. split; [split|].
  - apply (stateOK_elev1 _ _ wf_executeGoDownAFloor2); try done;
      rewrite ?Hele; simpl; try apply m_old0; try done.
    + intros x Hx Hs. pold Hx.
    + users M.
    + users M.
    + users M.
    + intros _. quiet_by Q.
    + intros _. right. by right.
  - right. by exists wf_executeGoDownAFloor2.
  - front_by.
Qed.

Lemma hasCall_false e j :
  hasCall e j = false ->
  pressed (callUp e) j = false /\ pressed (callDown e) j = false /\
  pressed (callCar e) j = false.
Proof.
  unfold hasCall. by destruct (pressed (callUp e) j), (pressed (callDown e) j),
    (pressed (callCar e) j).
Qed.

Lemma step_E7b s :
  Mid wf_executeGoUpAFloor2 s ->
  exists s', executeGoUpAFloor2 s = Some s' /\ Inv s'.
Proof.
  mid M.
  pose proof (stateOK_callsSized _ _ m_old0) as Hc.
  pose proof (l_floor _ _ m_old0) as Hf.
  pose proof (mid_quiet _ _ M eq_refl) as Q.
  pose proof (l_flight _ _ m_all0 _ (or_introl eq_refl) eq_refl) as Hm.
  pose proof (l_up2 _ _ m_all0 (or_introl eq_refl)) as Hup.
  unfold executeGoUpAFloor2. cbv zeta.
  rewrite s_callCar_eq, s_callUp_eq, s_callDown_eq by done.
  destruct (isAllCallsAboveFalse_eq s Hc Hf) as (b & -> & Hb). boolM.
  match goal with |- context [if ?c then _ else _] => destruct c eqn:Ec end.
  - sched s' Hw' Hele HN HP.
    exists s'. split; [done|]. split; [done|]. split; [split|].
    + apply (stateOK_elev1 _ _ wf_executeChangeOfState); try done;
        rewrite ?Hele; simpl; try apply m_old0; try done.
      * intros x Hx Hs. pold Hx.
      * users M.
      * users M.
      * users M.
      * intros _. quiet_by Q.
    + right. by exists wf_executeChangeOfState.
    + front_by.
  - schedI s' Hw' Hele HN HP.
    exists s'. split; [done|]. split; [done|]. split; [split|].
    + apply (stateOK_elev1 _ _ wf_executeGoUpAFloor); try done;
        rewrite ?Hele; simpl; try apply m_old0; try done.
      * intros x Hx Hs. pold Hx.
      * users M.
      * users M.
      * users M.
      * intros _. quiet_by Q.
      * intros _.
        apply orb_false_iff in Ec as [Ec1 Ec2].
        apply orb_false_iff in Ec1 as [Ec0 Ec1].
        assert (Hh : hasCall (ele s) (floor (ele s)) = pressed (callDown (ele s)) (floor (ele s))).
        { unfold hasCall. rewrite Ec0, Ec1. simpl. by rewrite orb_false_r. }
        destruct b; [|by left].
        rewrite andb_true_r in Ec2. apply orb_false_iff in Ec2 as [E2 Ed].
        rewrite Hh, Ed in Hup. apply Z.eqb_neq in E2.
        destruct Hup as [?|[?|?]]; [by left|done|right; flia].
    + right. by exists wf_executeGoUpAFloor.
    + front_by.
Qed.

Lemma step_E8b s :
  Mid wf_executeGoDownAFloor2 s ->
  exists s', executeGoDownAFloor2 s = Some s' /\ Inv s'.
Proof.
  mid M.
  pose proof (stateOK_callsSized _ _ m_old0) as Hc.
  pose proof (l_floor _ _ m_old0) as Hf.
  pose proof (mid_quiet _ _ M eq_refl) as Q.
  pose proof (l_flight _ _ m_all0 _ (or_introl eq_refl) eq_refl) as Hm.
  pose proof (l_down2 _ _ m_all0 (or_introl eq_refl)) as Hup.
  unfold executeGoDownAFloor2. cbv zeta.
  rewrite s_callCar_eq, s_callUp_eq, s_callDown_eq by done.
  destruct (isAllCallsBelowFalse_eq s Hc Hf) as (b & -> & Hb). boolM.
  match goal with |- context [if ?c then _ else _] => destruct c eqn:Ec end.
  - sched s' Hw' Hele HN HP.
    exists s'. split; [done|]. split; [done|]. split; [split|].
    + apply (stateOK_elev1 _ _ wf_executeChangeOfState); try done;
        rewrite ?Hele; simpl; try apply m_old0; try done.
      * intros x Hx Hs. pold Hx.
      * users M.
      * users M.
      * users M.
      * intros _. quiet_by Q.
    + right. by exists wf_executeChangeOfState.
    + front_by.
  - schedI s' Hw' Hele HN HP.
    exists s'. split; [done|]. split; [done|]. split; [split|].
    + apply (stateOK_elev1 _ _ wf_executeGoDownAFloor); try done;
        rewrite ?Hele; simpl; try apply m_old0; try done.
      * intros x Hx Hs. pold Hx.
      * users M.
      * users M.
      * users M.
      * intros _. quiet_by Q.
      * intros _.
        apply orb_false_iff in Ec as [Ec1 Ec2].
        apply orb_false_iff in Ec1 as [Ec0 Ec1].
        assert (Hh : hasCall (ele s) (floor (ele s)) = pressed (callUp (ele s)) (floor (ele s))).
        { unfold hasCall. rewrite Ec0, Ec1. simpl. by rewrite !orb_false_r. }
        destruct b; [|by left].
        rewrite andb_true_r in Ec2. apply orb_false_iff in Ec2 as [E2 Ed].
        rewrite Hh, Ed in Hup. apply Z.eqb_neq in E2.
        destruct Hup as [?|[?|?]]; [by left|done|right; flia].
    + right. by exists wf_executeGoDownAFloor.
    + front_by.
Qed.

Lemma dirOK_ext e e' :
  state e' = state e -> floor e' = floor e ->
  (forall j, hasCall e j = true -> hasCall e' j = true) ->
  dirOK e -> dirOK e'.
Proof.
  intros Hs Hf Hc [H1 H2]. unfold dirOK, callAbove, callBelow in *.
  rewrite Hs, Hf. split.
  - intros E. destruct (H1 E) as [(j & Hj & Hj')|]; [left|by right].
    exists j. auto.
  - intros E. destruct (H2 E) as [(j & Hj & Hj')|]; [left|by right].
    exists j. auto.
Qed.

Lemma step_E3 s :
  Mid wf_executeOpenDoors s ->
  exists s', executeOpenDoors s = Some s' /\ Inv s'.
Proof.
  mid M.
  unfold executeOpenDoors. cbv zeta.
  sched s2 Hw2 Hele2 HN2 HP2.
  sched s3 Hw3 Hele3 HN3 HP3.
  sched s4 Hw4 Hele4 HN4 HP4.
  exists s4. split; [done|]. split; [done|]. split; [split|].
  - apply (stateOK_elev1 _ _ wf_executeLetPeopleOutIn); try done;
      rewrite ?Hele4, ?Hele3, ?Hele2; simpl; try apply m_old0; try done.
    + intros x Hx Hs. pold Hx.
    + users M.
    + users M.
    + users M.
    + by intros [?|?].
  - left. rewrite Hele4, Hele3, Hele2.
    eapply dirOK_ext; [..|by apply (mid_dirOK _ _ M)]; done.
  - front_by.
Qed.

(** When E5 runs the elevator is neither dormant nor on its way. *)
Lemma mid_doorsOpen s x :
  midFacts wf_executeCloseDoors s ->
  step (ele s) <> stepWaitForCall /\
  (pend s x -> doorsShut x = false) /\ ~ pend s wf_executeCloseDoors.
Proof.
  intros M. split; [|split].
  - intros E. destruct (l_dormant _ _ (m_all _ _ M) E) as (_ & H & _).
    apply H. by left.
  - intros Hx. destruct (doorsShut x) eqn:E; [|done].
    destruct (l_shut _ _ (m_all _ _ M) x (or_intror Hx) E) as (_ & H & _).
    destruct H. by left.
  - intros Hx. by apply (m_single _ _ M Elev2 _ eq_refl Hx).
Qed.

Lemma doorsShut_false_inFlight x : doorsShut x = false -> inFlight x = false.
Proof. by destruct x. Qed.

Lemma step_E5 s :
  Mid wf_executeCloseDoors s ->
  exists s', executeCloseDoors s = Some s' /\ Inv s'.
Proof.
  mid M.
  assert (Hopen := fun x => mid_doorsOpen s x M).
  destruct (Hopen wf_executeCloseDoors) as (Hs1 & _ & Hn5).
  assert (Hdir : dirOK (ele s)).
  { destruct m_dir0 as [?|[?|(x & Hx & Hf)]]; [done|done|].
    destruct (Hopen x) as (_ & Hd & _).
    rewrite (doorsShut_false_inFlight _ (Hd Hx)) in Hf. done. }
  unfold executeCloseDoors. cbv zeta. simpl.
  destruct (d1 (ele s)) eqn:Ed1.
  - sched s' Hw' Hele HN HP.
    exists s'. split; [done|]. split; [done|]. split; [split|].
    + apply (stateOK_keep (pend s) _ (ele s)); rewrite ?Hele; simpl;
        try apply m_old0; try done.
      * intros x Hx Hs. pold Hx.
      * users M.
      * users M.
      * users M.
      * intros x Hx Hd. pold Hx. destruct (Hopen x) as (_ & Hd' & _).
        rewrite Hd' in Hd; done.
      * intros x Hx Hf. pold Hx. destruct (Hopen x) as (_ & Hd' & _).
        rewrite (doorsShut_false_inFlight _ (Hd' Hx)) in Hf. done.
    + left. rewrite Hele. eapply dirOK_ext; [..|exact Hdir]; done.
    + front_by.
  - sched s' Hw' Hele HN HP.
    exists s'. split; [done|]. split; [done|]. split; [split|].
    + apply (stateOK_elev1 _ _ wf_executePrepareToMove); try done;
        rewrite ?Hele; simpl; try apply m_old0; try done.
      * intros x Hx Hs. pold Hx.
      * users M.
      * users M.
      * users M.
      * intros _. split; [done|]. split.
        -- intros H. pold H.
        -- intros u H. pold H.
    + left. rewrite Hele. eapply dirOK_ext; [..|exact Hdir]; done.
    + front_by.
Qed.

Lemma front_decided s s' :
  decided s s' -> (forall u, ~ pend s (wf_userGetIn u)) -> front (wait s').
Proof.
  intros (_ & _ & _ & _ & HP) Hn. apply front_none. intros u Hu.
  destruct (HP _ Hu) as [?|[?|?]]; [done|done|]. by eapply Hn.
Qed.

Lemma step_E9 s :
  Mid wf_executeSetInactionIndicator s ->
  exists s', executeSetInactionIndicator s = Some s' /\ Inv s'.
Proof.
  mid M.
  unfold executeSetInactionIndicator. cbv zeta.
  destruct (decision_ok (upd_ele (e_d2 false) s)) as (s' & -> & Hw' & He' & Hd).
  - apply waitOK_upd; [by intros []|done].
  - split.
    + apply (stateOK_keep_step (pend s) _ (ele s)); try apply m_old0; try done.
    + destruct m_dir0 as [?|[?|?]]; [left|done|by right].
      eapply dirOK_ext; [..|eassumption]; done.
  - exists s'. split; [done|]. split; [done|]. split; [done|].
    eapply front_decided; [exact Hd|]. exact m_nogetin0.
Qed.

(** * Pressing and clearing buttons *)

Lemma pressed_assign_eq a a' j v :
  assign a j v = Some a' -> pressed a' j = v.
Proof. intros H. unfold pressed. by rewrite (index_assign_eq _ _ _ _ H). Qed.

Lemma pressed_assign_ne a a' j k v :
  assign a j v = Some a' -> k <> j -> pressed a' k = pressed a k.
Proof. intros H Hk. unfold pressed. by rewrite (index_assign_ne _ _ _ _ _ H Hk). Qed.

Lemma pressed_assign_true a a' j k :
  assign a j true = Some a' -> pressed a k = true -> pressed a' k = true.
Proof.
  intros H Hk. destruct (decide (k = j)) as [->|].
  - by rewrite (pressed_assign_eq _ _ _ _ H).
  - by rewrite (pressed_assign_ne _ _ _ _ _ H).
Qed.

Lemma dirOK_clear e e' :
  state e' = state e -> floor e' = floor e -> sameCallsBut (floor e) e e' ->
  dirOK e -> dirOK e'.
Proof.
  intros Hs Hf Hc [H1 H2]. unfold dirOK, callAbove, callBelow in *.
  rewrite Hs, Hf. split.
  - intros E. destruct (H1 E) as [(j & Hj & Hj')|]; [left|by right].
    exists j. rewrite Hc by lia. auto.
  - intros E. destruct (H2 E) as [(j & Hj & Hj')|]; [left|by right].
    exists j. rewrite Hc by lia. auto.
Qed.

Lemma callAbove_clear e e' :
  floor e' = floor e -> sameCallsBut (floor e) e e' -> callAbove e -> callAbove e'.
Proof.
  intros Hf Hc (j & Hj & Hj'). exists j. rewrite Hf, Hc by lia. auto.
Qed.

Lemma callBelow_clear e e' :
  floor e' = floor e -> sameCallsBut (floor e) e e' -> callBelow e -> callBelow e'.
Proof.
  intros Hf Hc (j & Hj & Hj'). exists j. rewrite Hf, Hc by lia. auto.
Qed.

Lemma clearCallsHere_spec s :
  callsSized (ele s) -> 0 <= floor (ele s) < floors ->
  exists u d c, clearCallsHere s =
      Some (upd_ele (e_callCar c) (upd_ele (e_callDown d) (upd_ele (e_callUp u) s))) /\
    length u = Z.to_nat floors /\ length d = Z.to_nat floors /\
    length c = Z.to_nat floors /\
    sameCallsBut (floor (ele s)) (ele s)
      (e_callCar c (e_callDown d (e_callUp u (ele s)))).
Proof.
  intros (H1 & H2 & H3) Hf. unfold clearCallsHere.
  destruct (assign_Some (callUp (ele s)) (floor (ele s)) false) as [u Hu];
    [rewrite H1; flia|].
  destruct (assign_Some (callDown (ele s)) (floor (ele s)) false) as [d Hd];
    [rewrite H2; flia|].
  destruct (assign_Some (callCar (ele s)) (floor (ele s)) false) as [c Hc];
    [rewrite H3; flia|].
  exists u, d, c. rewrite Hu. simpl. rewrite Hd. simpl. rewrite Hc.
  split; [done|].
  rewrite (assign_length _ _ _ _ Hu), (assign_length _ _ _ _ Hd),
          (assign_length _ _ _ _ Hc).
  split_and!; try done.
  intros j Hj. unfold hasCall. simpl.
  by rewrite (pressed_assign_ne _ _ _ _ _ Hu), (pressed_assign_ne _ _ _ _ _ Hd),
             (pressed_assign_ne _ _ _ _ _ Hc).
Qed.

Lemma step_E2 s :
  Mid wf_executeChangeOfState s ->
  exists s', executeChangeOfState s = Some s' /\ Inv s'.
Proof.
  mid M.
  pose proof (stateOK_callsSized _ _ m_old0) as Hc.
  pose proof (l_floor _ _ m_old0) as Hf.
  pose proof (mid_quiet _ _ M eq_refl) as Q.
  (* the state before E3 is scheduled *)
  assert (Hmid : exists g,
    changeOfState (upd_ele (e_step stepChangeOfState) s) = Some (upd_ele g s) /\
    callsSized (g (ele s)) /\ queue (g (ele s)) = queue (ele s) /\
    floor (g (ele s)) = floor (ele s) /\ step (g (ele s)) = stepChangeOfState /\
    d3 (g (ele s)) = d3 (ele s) /\
    (forall k, getSlot k (g (ele s)) = getSlot k (ele s)) /\
    dirOK (g (ele s))).
  { unfold changeOfState.
    destruct (isAllCallsAboveFalse_eq (upd_ele (e_step stepChangeOfState) s) Hc Hf)
      as (ba & Ea & Ha).
    destruct (isAllCallsBelowFalse_eq (upd_ele (e_step stepChangeOfState) s) Hc Hf)
      as (bb & Eb & Hb).
    simpl in Ha, Hb. simpl.
    destruct (state (ele s)) eqn:Est; simpl; rewrite ?Ea, ?Eb; simpl.
    - (* going up *)
      destruct ba; simpl.
      + rewrite ?Eb. simpl.
        match goal with |- context [clearCallsHere ?S] =>
          destruct (clearCallsHere_spec S) as (u & d & c & -> & Lu & Ld & Lc & Hsame);
            [by destruct bb|by destruct bb|] end.
        destruct bb; simpl in *.
        * eexists (fun e => e_callCar c (e_callDown d (e_callUp u
                     (e_state stateNeutral (e_step stepChangeOfState e))))).
          split; [done|]. split_and!; try done; try (by apply dirOK_neutral).
        * eexists (fun e => e_callCar c (e_callDown d (e_callUp u
                     (e_state stateGoingDown (e_step stepChangeOfState e))))).
          split; [done|]. split_and!; try done. split; [done|]. intros _. left.
          eapply (callBelow_clear (e_state stateGoingDown (e_step stepChangeOfState (ele s)))); try done.
      + exists (e_step stepChangeOfState). split; [done|]. split_and!; try done.
        split; simpl; rewrite Est; [|done]. intros _. by left.
    - (* going down *)
      destruct bb; simpl.
      + rewrite ?Ea. simpl.
        match goal with |- context [clearCallsHere ?S] =>
          destruct (clearCallsHere_spec S) as (u & d & c & -> & Lu & Ld & Lc & Hsame);
            [by destruct ba|by destruct ba|] end.
        destruct ba; simpl in *.
        * eexists (fun e => e_callCar c (e_callDown d (e_callUp u
                     (e_state stateNeutral (e_step stepChangeOfState e))))).
          split; [done|]. split_and!; try done; try (by apply dirOK_neutral).
        * eexists (fun e => e_callCar c (e_callDown d (e_callUp u
                     (e_state stateGoingUp (e_step stepChangeOfState e))))).
          split; [done|]. split_and!; try done. split; [|done]. intros _. left.
          eapply (callAbove_clear (e_state stateGoingUp (e_step stepChangeOfState (ele s)))); try done.
      + exists (e_step stepChangeOfState). split; [done|]. split_and!; try done.
        split; simpl; rewrite Est; [done|]. intros _. by left.
    - exists (e_step stepChangeOfState). split; [done|].
      split_and!; try done; try (by apply dirOK_neutral). }
  destruct Hmid as (g & Eg & Hcs & Hq & Hfl & Hst & Hd3 & Hsl & Hdir).
  unfold executeChangeOfState. rewrite Eg. cbv beta iota.
  schedI s' Hw' Hele HN HP.
  exists s'. split; [done|]. split; [done|]. split; [split|].
  - destruct Hcs as (L1 & L2 & L3).
    apply (stateOK_elev1 _ _ wf_executeOpenDoors); try done;
      rewrite ?Hele; simpl; rewrite ?Hq, ?Hfl, ?Hst; try apply m_old0; try done.
    + intros x Hx Hs. pold Hx.
    + users M.
    + users M.
    + users M.
    + by intros [?|?].
  - left. rewrite Hele. eapply dirOK_ext; [..|exact Hdir]; done.
  - front_by.
Qed.

Lemma callAbove_ext e e' :
  floor e' = floor e -> (forall j, hasCall e j = true -> hasCall e' j = true) ->
  callAbove e -> callAbove e'.
Proof. intros Hf Hc (j & Hj & Hj'). exists j. rewrite Hf. auto. Qed.

Lemma callBelow_ext e e' :
  floor e' = floor e -> (forall j, hasCall e j = true -> hasCall e' j = true) ->
  callBelow e -> callBelow e'.
Proof. intros Hf Hc (j & Hj & Hj'). exists j. rewrite Hf. auto. Qed.

Lemma clearCallsOnLeaving_spec s :
  callsSized (ele s) -> 0 <= floor (ele s) < floors ->
  exists g, clearCallsOnLeaving s = Some (upd_ele g s) /\
    onlyCalls g (ele s) /\ sameCallsBut (floor (ele s)) (ele s) (g (ele s)).
Proof.
  intros (H1 & H2 & H3) Hf. unfold clearCallsOnLeaving.
  destruct (assign_Some (callUp (ele s)) (floor (ele s)) false) as [u Hu];
    [rewrite H1; flia|].
  destruct (assign_Some (callDown (ele s)) (floor (ele s)) false) as [d Hd];
    [rewrite H2; flia|].
  destruct (assign_Some (callCar (ele s)) (floor (ele s)) false) as [c Hc];
    [rewrite H3; flia|].
  pose proof (assign_length _ _ _ _ Hu) as Lu.
  pose proof (assign_length _ _ _ _ Hd) as Ld.
  pose proof (assign_length _ _ _ _ Hc) as Lc.
  rewrite Hc. simpl.
  destruct (state (ele s)) eqn:Est; simpl;
    repeat (progress (rewrite ?Est, ?Hu, ?Hd; simpl)).
  - exists (fun e => e_callUp u (e_callCar c e)). split; [done|]. split.
    + unfold onlyCalls, callsSized. simpl. split_and!; try done; congruence.
    + intros j Hj. unfold hasCall. simpl.
      by rewrite (pressed_assign_ne _ _ _ _ _ Hu), (pressed_assign_ne _ _ _ _ _ Hc).
  - exists (fun e => e_callDown d (e_callCar c e)). split; [done|]. split.
    + unfold onlyCalls, callsSized. simpl. split_and!; try done; congruence.
    + intros j Hj. unfold hasCall. simpl.
      by rewrite (pressed_assign_ne _ _ _ _ _ Hd), (pressed_assign_ne _ _ _ _ _ Hc).
  - exists (fun e => e_callDown d (e_callUp u (e_callCar c e))). split; [done|]. split.
    + unfold onlyCalls, callsSized. simpl. split_and!; try done; congruence.
    + intros j Hj. unfold hasCall. simpl.
      by rewrite (pressed_assign_ne _ _ _ _ _ Hu), (pressed_assign_ne _ _ _ _ _ Hd),
                 (pressed_assign_ne _ _ _ _ _ Hc).
Qed.

Lemma step_E6 s :
  Mid wf_executePrepareToMove s ->
  exists s', executePrepareToMove s = Some s' /\ Inv s'.
Proof.
  mid M.
  pose proof (stateOK_callsSized _ _ m_old0) as Hc.
  pose proof (l_floor _ _ m_old0) as Hf.
  pose proof (mid_quiet _ _ M eq_refl) as Q.
  pose proof (mid_dirOK _ _ M eq_refl eq_refl) as Hdir.
  assert (HK := fun x => mid_noElev1 _ _ x M eq_refl).
  unfold executePrepareToMove. cbv zeta.
  destruct (clearCallsOnLeaving_spec (upd_ele (e_step stepPrepareToMove) s) Hc Hf)
    as (g & -> & Hg & Hsame).
  simpl in Hg, Hsame. cbv beta iota.
  destruct Hg as ((L1 & L2 & L3) & Gq & Gs & Gf & Gst & Gsta & Gd1 & Gd2 & Gd3 & Gsl).
  simpl in Gq, Gs, Gf, Gst, Gsta, Gd1, Gd2, Gd3, Gsl.
  destruct (decision_ok (upd_ele g (upd_ele (e_step stepPrepareToMove) s)))
    as (sd & -> & Hwd & [Hsd Hdd] & (st & h & Hed) & _ & _ & _ & HPd).
  { repeat (apply waitOK_upd; [by intros []|]). done. }
  { split.
    - apply stateOK_idle; simpl; rewrite ?Gq, ?Gf, ?Gst; try apply m_old0; try done;
        try (intros x Hx; by eapply m_old0).
    - left. apply (dirOK_clear (ele s)); simpl; try done. }
  simpl in Hed, HPd. cbv beta iota.
  assert (Hdird : dirOK (ele sd)).
  { destruct Hdd as [?|(x & Hx & Hfx)]; [done|]. pold Hx.
    destruct (HK _ Hx). by apply inFlight_slot. }
  assert (Hst : state (ele sd) = st) by by rewrite Hed.
  rewrite Hst.
  assert (Hq' : forall s', (forall x, pend s' x -> slotOf x = Some Elev1 \/ pend sd x) ->
            d3 (ele s') = d3 (ele sd) -> quiet (pend s') (ele s')).
  { intros s' HP' Hd'. destruct Q as (Q1 & Q2 & Q3).
    split; [rewrite Hd', Hed; simpl; congruence|]. split.
    - intros H. apply HP' in H as [?|H]; [done|]. pold H.
    - intros u H. apply HP' in H as [?|H]; [done|]. pold H. }
  assert (Hu' : forall s', (forall x, pend s' x -> slotOf x = Some Elev1 \/ pend sd x) ->
            (forall u, pend s' (wf_userSignalAndWait u) -> validUser u) /\
            (forall u, pend s' (wf_userEnterQueue u) -> validUser u) /\
            (forall u, pend s' (wf_userGetIn u) -> validUser u /\ in_ u = floor (ele s)) /\
            (forall u, ~ pend s' (wf_userGetIn u))).
  { intros s' HP'. split_and!; intros u H; apply HP' in H as [?|H]; try done; pold H.
    - by apply (l_signal _ _ m_old0).
    - by apply (l_enter _ _ m_old0). }
  destruct st; simpl.
  - (* going up *)
    set (sd' := if d2 (ele sd) then waitDelete (elev3 (ele sd)) sd else sd).
    assert (Hsd' : waitOK sd' /\ ele sd' = ele sd /\ forall x, pend sd' x -> pend sd x).
    { unfold sd'. destruct (d2 (ele sd)); [|done].
      split; [by apply waitOK_waitDelete|]. split; [done|].
      intros x. apply pend_waitDelete. }
    clearbody sd'. destruct Hsd' as (Hw1 & He1 & HP1).
    rewrite He1, Hst. simpl.
    sched s' Hw' Hele HN HP.
    assert (HP' : forall x, pend s' x -> slotOf x = Some Elev1 \/ pend sd x).
    { intros x Hx. apply HP in Hx as [->|[Hx _]]; [by left|right; auto]. }
    destruct (Hu' s' HP') as (U1 & U2 & U3 & U4).
    exists s'. split; [done|]. split; [done|]. split; [split|].
    + apply (stateOK_elev1 _ _ wf_executeGoUpAFloor); try done;
        rewrite ?Hele, ?He1, ?Hed; simpl; rewrite ?Gq, ?Gf, ?Gst; try apply m_old0; try done.
      * intros x Hx Hs. apply HP in Hx as [?|[_ ?]]; done.
      * intros _. rewrite <- Hed, <- He1, <- Hele. apply Hq'; [done|].
        by rewrite Hele, He1.
      * intros _. by left.
      * intros _. destruct Hdird as [H1 _]. rewrite Hed in H1. simpl in H1.
        rewrite Gf in H1. destruct (H1 eq_refl) as [Ha|]; [left|by right].
        revert Ha. apply callAbove_ext; done.
    + right. by exists wf_executeGoUpAFloor.
    + apply front_none. apply U4.
  - (* going down *)
    set (sd' := if d2 (ele sd) then waitDelete (elev3 (ele sd)) sd else sd).
    assert (Hsd' : waitOK sd' /\ ele sd' = ele sd /\ forall x, pend sd' x -> pend sd x).
    { unfold sd'. destruct (d2 (ele sd)); [|done].
      split; [by apply waitOK_waitDelete|]. split; [done|].
      intros x. apply pend_waitDelete. }
    clearbody sd'. destruct Hsd' as (Hw1 & He1 & HP1).
    rewrite He1, Hst. simpl.
    sched s' Hw' Hele HN HP.
    assert (HP' : forall x, pend s' x -> slotOf x = Some Elev1 \/ pend sd x).
    { intros x Hx. apply HP in Hx as [->|[Hx _]]; [by left|right; auto]. }
    destruct (Hu' s' HP') as (U1 & U2 & U3 & U4).
    exists s'. split; [done|]. split; [done|]. split; [split|].
    + apply (stateOK_elev1 _ _ wf_executeGoDownAFloor); try done;
        rewrite ?Hele, ?He1, ?Hed; simpl; rewrite ?Gq, ?Gf, ?Gst; try apply m_old0; try done.
      * intros x Hx Hs. apply HP in Hx as [?|[_ ?]]; done.
      * intros _. rewrite <- Hed, <- He1, <- Hele. apply Hq'; [done|].
        by rewrite Hele, He1.
      * intros _. by left.
      * intros _. destruct Hdird as [_ H1]. rewrite Hed in H1. simpl in H1.
        rewrite Gf in H1. destruct (H1 eq_refl) as [Ha|]; [left|by right].
        revert Ha. apply callBelow_ext; done.
    + right. by exists wf_executeGoDownAFloor.
    + apply front_none. apply U4.
  - (* neutral *)
    schedI s' Hw' Hele HN HP.
    assert (HP' : forall x, pend s' x -> slotOf x = Some Elev1 \/ pend sd x).
    { intros x Hx. apply HP in Hx as [->|[Hx _]]; [by left|right; auto]. }
    destruct (Hu' s' HP') as (U1 & U2 & U3 & U4).
    exists s'. split; [done|]. split; [done|]. split; [split|].
    + apply (stateOK_elev1 _ _ wf_executeWaitForCall); try done;
        rewrite ?Hele, ?Hed; simpl; rewrite ?Gq, ?Gf, ?Gst; try apply m_old0; try done.
      * intros x Hx Hs. apply HP in Hx as [?|[_ ?]]; done.
      * intros _. rewrite <- Hed, <- Hele. apply Hq'; [done|]. by rewrite Hele.
    + left. apply dirOK_neutral. by rewrite Hele, Hed.
    + apply front_none. apply U4.
Qed.

(** * Queues and the stack *)

Lemma index_map {A B} (g : A -> B) (l : list A) (j : Z) :
  index (map g l) j = option_map g (index l j).
Proof.
  unfold index. destruct (j <? 0); [done|].
  change (map g l) with (g <$> l). by rewrite list_lookup_fmap.
Qed.

Lemma queue_delete (R : Z -> unode -> Prop) qs x :
  (forall f q p, index qs f = Some q -> In p q -> R f p) ->
  forall f q p, index (map (delete x) qs) f = Some q -> In p q -> R f p.
Proof.
  intros H f q p Hq Hp. rewrite index_map in Hq.
  unfold option_map in Hq.
  match type of Hq with match ?t with _ => _ end = _ =>
    destruct t as [q0|] eqn:E end; [|done].
  injection Hq as <-.
  eapply H; [exact E|]. by eapply in_delete.
Qed.

Lemma agendaOK_alloc t l a a' h :
  (a <= a')%nat -> agendaOK t l a h -> agendaOK t l a' h.
Proof.
  intros Ha [H1 H2 H3 H4 H5 H6 H7]. split; try done.
  - eapply Forall_impl; [exact H5|]. simpl. intros; lia.
  - intros sl n Hn. apply H7 in Hn. lia.
Qed.

Lemma waitOK_set_alloc s :
  waitOK s -> waitOK (set_alloc (S (alloc s)) s).
Proof. unfold waitOK. simpl. apply agendaOK_alloc. lia. Qed.

(** Runs the next [waitImmed] of the goal. *)
Ltac immedU s' Hw' Hele HP :=
  match goal with |- context [waitImmed (newWaitElement _ ?a) ?S] =>
    let E := fresh "E" in
    let Ht := fresh "Ht" in
    let Hl := fresh "Hl" in
    let Hg := fresh "Hg" in
    let Hwt := fresh "Hwt" in
    destruct (waitImmed_spec a S)
      as (s' & E & Hw' & Hele & Ht & Hl & Hg & Hwt & HP);
      [repeat first [apply waitOK_upd; [by intros []|] | apply waitOK_waitDelete];
       try done
      |done|rewrite E; clear E; simpl in Hele, Ht, Hl, Hg; cbv beta iota]
  end.

Lemma step_U6 u s :
  Mid (wf_userGetOut u) s ->
  exists s', userGetOut u s = Some s' /\ Inv s'.
Proof.
  mid M. unfold userGetOut.
  eexists. split; [reflexivity|]. split; [|split; [split|]].
  - apply waitOK_upd; [by intros []|done].
  - apply (stateOK_keep_step (pend s) _ (ele s)); simpl; try apply m_old0; try done.
    + by rewrite length_map; apply m_old0.
    + apply queue_delete, m_old0.
  - destruct m_dir0 as [?|[?|?]]; [left|done|by right].
    eapply dirOK_ext; [..|eassumption]; done.
  - by apply front_none.
Qed.

Lemma step_U4 u s :
  Mid (wf_userGiveUp u) s ->
  exists s', userGiveUp u s = Some s' /\ Inv s'.
Proof.
  mid M. unfold userGiveUp.
  destruct (_ || _).
  - eexists. split; [reflexivity|]. split; [|split; [split|]].
    + apply waitOK_upd; [by intros []|done].
    + apply (stateOK_keep_step (pend s) _ (ele s)); simpl; try apply m_old0; try done.
      * by rewrite length_map; apply m_old0.
      * apply queue_delete, m_old0.
    + destruct m_dir0 as [?|[?|?]]; [left|done|by right].
      eapply dirOK_ext; [..|eassumption]; done.
    + by apply front_none.
  - exists s. split; [done|]. split; [done|]. split; [split; [done|]|].
    + destruct m_dir0 as [?|[?|?]]; [by left|done|by right].
    + by apply front_none.
Qed.

Lemma Int31n_range r n : 0 < n -> 0 <= Int31n r n < n.
Proof. intros. unfold Int31n. by apply Z.mod_pos_bound. Qed.

(** U1 makes a user as [validUser] wants them. *)
Lemma newUser_valid r i :
  validUser
    (newUser i (Int31n (r_in r) floors)
       (if Int31n (r_out r) (floors - 1) >=? Int31n (r_in r) floors
        then Int31n (r_out r) (floors - 1) + 1
        else Int31n (r_out r) (floors - 1))
       (minGiveUpTime + Int31n (r_giveUp r) (maxGiveUpTime - minGiveUpTime))).
Proof.
  pose proof (Int31n_range (r_in r) floors eq_refl).
  pose proof (Int31n_range (r_out r) (floors - 1) eq_refl).
  pose proof (Int31n_range (r_giveUp r) (maxGiveUpTime - minGiveUpTime) eq_refl).
  unfold validUser. simpl.
  destruct (Z.geb_spec (Int31n (r_out r) (floors - 1)) (Int31n (r_in r) floors));
    unfold minGiveUpTime, maxGiveUpTime in *; flia.
Qed.

(** Runs the next [waitSortIn] of the goal. *)
Ltac sortU s' Hw' Hele HP :=
  match goal with |- context [waitSortIn (newWaitElement (?t + ?d) ?a) ?S] =>
    let E := fresh "E" in
    let Ht := fresh "Ht" in
    let Hl := fresh "Hl" in
    let Hg := fresh "Hg" in
    destruct (waitSortIn_spec d a S)
      as (s' & E & Hw' & Hele & Ht & Hl & Hg & HP);
      [repeat first [apply waitOK_upd; [by intros []|] | apply waitOK_waitDelete
                    | apply waitOK_set_alloc];
       try done
      | |done
      |replace (waitSortIn (newWaitElement (t + d) a) S) with (Some (alloc S, s'))
         by (symmetry; exact E);
       clear E; simpl in Hele, Ht, Hl, Hg; cbv beta iota]
  end.

Lemma step_U1 r s :
  Mid wf_userEnterPrepareForSuccessor s ->
  exists s', userEnterPrepareForSuccessor r s = Some s' /\ Inv s'.
Proof.
  mid M. unfold userEnterPrepareForSuccessor. cbv zeta.
  sortU s2 Hw2 Hele2 HP2.
  { pose proof (Int31n_range (r_inter r) (maxInterTime - minInterTime) eq_refl).
    unfold minInterTime in *. lia. }
  immedU s3 Hw3 Hele3 HP3.
  exists s3. split; [done|]. split; [done|]. split; [split|].
  - rewrite Hele3, Hele2. simpl.
    apply (stateOK_keep_step (pend s) _ (ele s)); simpl; try apply m_old0; try done.
    + intros x Hx Hs. pold Hx.
    + intros u Hu. pinv Hu.
      * injection Hu as ->. apply newUser_valid.
      * done.
      * by apply (l_signal _ _ m_old0).
    + intros u Hu. pold Hu. by apply (l_enter _ _ m_old0).
    + intros u Hu. pold Hu.
    + intros Q. quiet_by Q.
  - destruct m_dir0 as [?|[?|(x & Hx & Hf)]]; [left|done|right].
    + by rewrite Hele3, Hele2.
    + exists x. split; [|done]. apply HP3. right. apply HP2. by right.
  - front_by.
Qed.

Lemma queue_insert (R : Z -> unode -> Prop) qs qs' q f0 p0 :
  (forall f q p, index qs f = Some q -> In p q -> R f p) ->
  index qs f0 = Some q -> assign qs f0 (insertLeft q p0) = Some qs' ->
  R f0 p0 ->
  forall f q p, index qs' f = Some q -> In p q -> R f p.
Proof.
  intros H Hq Ha Hr f q' p Hq' Hp.
  destruct (decide (f = f0)) as [->|Hf].
  - rewrite (index_assign_eq _ _ _ _ Ha) in Hq'. injection Hq' as <-.
    apply in_app_iff in Hp as [Hp|[<-|[]]]; [|done]. by eapply H.
  - rewrite (index_assign_ne _ _ _ _ _ Ha Hf) in Hq'. by eapply H.
Qed.

Lemma step_U3 u s :
  Mid (wf_userEnterQueue u) s ->
  exists s', userEnterQueue u s = Some s' /\ Inv s'.
Proof.
  mid M.
  pose proof (l_enter _ _ m_all0 u (or_introl eq_refl)) as Hv.
  pose proof Hv as (Hv1 & Hv2 & Hv3 & Hv4).
  unfold userEnterQueue. cbv zeta. simpl.
  destruct (index_Some (queue (ele s)) (in_ u)) as [q Hq].
  { rewrite (l_queues _ _ m_old0). flia. }
  rewrite Hq.
  destruct (assign_Some (queue (ele s)) (in_ u) (insertLeft q (alloc s, u))) as [qs Hqs].
  { rewrite (l_queues _ _ m_old0). flia. }
  rewrite Hqs.
  sortU s2 Hw2 Hele2 HP2; [exact Hv4|].
  exists (set_giveUp (<[id_ u:=alloc (upd_ele (e_queue qs)
            (set_listNode (<[id_ u:=alloc s]> (listNode s)) (set_alloc (S (alloc s)) s)))]>
            (giveUp s2)) s2).
  split; [done|]. split; [done|]. split; [split|].
  - simpl. rewrite Hele2.
    apply (stateOK_keep_step (pend s) _ (ele s)); simpl; try apply m_old0; try done.
    + intros x Hx Hs. pold Hx.
    + intros u' Hu. pold Hu. by apply (l_signal _ _ m_old0).
    + intros u' Hu. pold Hu. by apply (l_enter _ _ m_old0).
    + intros u' Hu. pold Hu.
    + rewrite (assign_length _ _ _ _ Hqs). apply m_old0.
    + eapply (queue_insert (fun f p => validUser p.2 /\ in_ p.2 = f));
        [apply m_old0|exact Hq|exact Hqs|done].
    + intros Q. quiet_by Q.
  - simpl. destruct m_dir0 as [?|[?|(x & Hx & Hf)]]; [left|done|right].
    + rewrite Hele2. eapply dirOK_ext; [..|eassumption]; done.
    + exists x. split; [|done]. apply HP2. by right.
  - apply front_none. intros u' H. simpl in H. change (pend s2 (wf_userGetIn u')) in H.
    pold H.
Qed.

(** When U5 runs the doors are open: the elevator is neither dormant nor on
    its way. *)
Lemma mid_boarding u s x :
  midFacts (wf_userGetIn u) s ->
  step (ele s) <> stepWaitForCall /\ (pend s x -> doorsShut x = false).
Proof.
  intros M. split.
  - intros E. destruct (l_dormant _ _ (m_all _ _ M) E) as (_ & _ & H).
    apply (H u). by left.
  - intros Hx. destruct (doorsShut x) eqn:E; [|done].
    destruct (l_shut _ _ (m_all _ _ M) x (or_intror Hx) E) as (_ & _ & H).
    destruct (H u). by left.
Qed.

Lemma hasCall_callCar e a j k :
  assign (callCar e) j true = Some a ->
  hasCall e k = true -> hasCall (e_callCar a e) k = true.
Proof.
  intros Ha. unfold hasCall. simpl. intros H.
  apply orb_true_iff in H as [H|H]; [by rewrite H|].
  rewrite (pressed_assign_true _ _ _ _ Ha H). apply orb_true_r.
Qed.

Lemma hasCall_callCar_eq e a j :
  assign (callCar e) j true = Some a -> hasCall (e_callCar a e) j = true.
Proof.
  intros Ha. unfold hasCall. simpl.
  rewrite (pressed_assign_eq _ _ _ _ Ha). apply orb_true_r.
Qed.

Lemma step_U5 u s :
  Mid (wf_userGetIn u) s ->
  exists s', userGetIn u s = Some s' /\ Inv s'.
Proof.
  mid M.
  destruct (l_getin _ _ m_all0 u (or_introl eq_refl)) as [Hv Hin].
  pose proof Hv as (Hv1 & Hv2 & Hv3 & Hv4).
  assert (Hopen := fun x => mid_boarding u s x M).
  destruct (Hopen wf_executeCloseDoors) as (Hs1 & _).
  assert (Hdir : dirOK (ele s)).
  { destruct m_dir0 as [?|[?|(x & Hx & Hf)]]; [done|done|].
    destruct (Hopen x) as (_ & Hd).
    rewrite (doorsShut_false_inFlight _ (Hd Hx)) in Hf. done. }
  unfold userGetIn. cbv zeta. simpl.
  set (e1 := match listNode s !! id_ u with
             | Some n => _ | None => _ end).
  assert (He1 : ele e1 =
    e_stack (stack (ele e1))
      (e_queue (map (delete (listNode s !! id_ u)) (queue (ele s))) (ele s)) /\
    waitOK e1 /\ time e1 = time s /\ forall x, pend e1 x -> pend s x).
  { unfold e1. destruct (listNode s !! id_ u).
    - split; [by destruct s as [? ? []]|]. split; [|split; [done|]].
      + repeat first [apply waitOK_upd; [by intros []|] | apply waitOK_waitDelete]. done.
      + intros x Hx. pold Hx.
    - split; [by destruct s as [? ? []]|]. split; [|split; [done|]].
      + repeat first [apply waitOK_upd; [by intros []|] | apply waitOK_waitDelete]. done.
      + intros x Hx. pold Hx. }
  clearbody e1. destruct He1 as (He1 & Hw1 & Ht1 & HP1).
  set (st := stack (ele e1)) in He1. clearbody st.
  destruct (assign_Some (callCar (ele e1)) (out u) true) as [a Ha].
  { rewrite He1. simpl. rewrite (l_callCar _ _ m_old0). flia. }
  rewrite Ha. rewrite He1 in Ha. simpl in Ha.
  assert (Hcalls : forall j, hasCall (ele s) j = true ->
            hasCall (e_callCar a (ele e1)) j = true).
  { intros j Hj. rewrite He1. by apply (hasCall_callCar (ele s) a (out u)). }
  assert (Hcall : hasCall (e_callCar a (ele e1)) (out u) = true).
  { rewrite He1. by apply (hasCall_callCar_eq (ele s) a (out u)). }
  assert (Hst : state (ele e1) = state (ele s)) by by rewrite He1.
  assert (Hfl : floor (ele e1) = floor (ele s)) by by rewrite He1.
  rewrite Hst.
  destruct (bool_decide (state (ele s) = stateNeutral)) eqn:En.
  - apply bool_decide_eq_true in En.
    match goal with |- context [scheduleElevator _ _ _ ?S] =>
      assert (HS : exists d, S = upd_ele (e_state d) (upd_ele (e_callCar a) e1) /\
                dirOK (e_state d (e_callCar a (ele e1)))) end.
    { destruct (Z.gtb_spec (out u) (in_ u)).
      - exists stateGoingUp. split; [done|]. split; [|done]. intros _. left.
        exists (out u). simpl. rewrite Hfl. split; [lia|done].
      - exists stateGoingDown. split; [done|]. split; [done|]. intros _. left.
        exists (out u). simpl. rewrite Hfl. split; [lia|done]. }
    destruct HS as (d & -> & Hdir').
    sched s' Hw' Hele HN HP.
    exists s'. split; [done|]. split; [done|]. split; [split|].
    + rewrite Hele, He1. simpl.
      apply (stateOK_keep (pend s) _ (ele s)); simpl; try apply m_old0; try done.
      * intros x Hx Hs. pold Hx.
      * intros u' Hu. pold Hu. by apply (l_signal _ _ m_old0).
      * intros u' Hu. pold Hu. by apply (l_enter _ _ m_old0).
      * intros u' Hu. pold Hu.
      * rewrite (assign_length _ _ _ _ Ha). apply m_old0.
      * rewrite length_map. apply m_old0.
      * apply queue_delete, m_old0.
      * intros j Hj. specialize (Hcalls j Hj). by rewrite He1 in Hcalls.
      * intros x Hx Hd. pold Hx. destruct (Hopen x) as (_ & Hd').
        rewrite Hd' in Hd; done.
      * intros x Hx Hf. pold Hx. destruct (Hopen x) as (_ & Hd').
        rewrite (doorsShut_false_inFlight _ (Hd' Hx)) in Hf. done.
    + left. rewrite Hele. eapply dirOK_ext; [..|exact Hdir']; done.
    + front_by.
  - exists (upd_ele (e_callCar a) e1). split; [done|]. split; [|split; [split|]].
    + apply waitOK_upd; [by intros []|done].
    + simpl. rewrite He1. simpl.
      apply (stateOK_keep_step (pend s) _ (ele s)); simpl; try apply m_old0; try done.
      * intros x Hx Hs. pold Hx.
      * intros u' Hu. pold Hu. by apply (l_signal _ _ m_old0).
      * intros u' Hu. pold Hu. by apply (l_enter _ _ m_old0).
      * intros u' Hu. pold Hu.
      * rewrite (assign_length _ _ _ _ Ha). apply m_old0.
      * rewrite length_map. apply m_old0.
      * apply queue_delete, m_old0.
      * intros j Hj. specialize (Hcalls j Hj). by rewrite He1 in Hcalls.
      * intros Q. quiet_by Q.
    + left. simpl. eapply dirOK_ext; [..|exact Hdir]; simpl; try done.
    + front_by.
Qed.

(** * The first node of the WAIT list when E4 sends a user in *)

Lemma front_all l :
  Forall (fun p => isGetIn (instOf p) = false) l -> front l.
Proof. intros H. unfold front. destruct l; [done|]. by inversion H. Qed.

Lemma front_sortIn_delete p l x n w r :
  front (p :: l) -> timeOf p <= nextTime w -> 0 <= nextTime w ->
  isGetIn (nextInst w) = false ->
  sortIn (delete x (p :: l)) n w = Some r -> front r.
Proof.
  unfold front at 1. simpl. intros Hl Hp H0 Hw Hr.
  assert (Hd : Forall (fun p => isGetIn (instOf p) = false) (delete x l)).
  { apply List.Forall_forall. intros q Hq%in_delete.
    rewrite List.Forall_forall in Hl. auto. }
  destruct x as [x|]; unfold delete in Hr; simpl in Hr.
  - unfold unlink in Hr. simpl in Hr.
    destruct (negb (fst p =? x)%nat).
    + apply sortIn_cons in Hr as (r' & -> & Hr'); [|done|done].
      unfold front. simpl. apply List.Forall_forall.
      intros q [->|Hq]%(sortIn_In _ _ _ _ _ Hr'); [done|].
      unfold delete in Hd. simpl in Hd. rewrite List.Forall_forall in Hd. auto.
    + apply front_all, List.Forall_forall.
      intros q [->|Hq]%(sortIn_In _ _ _ _ _ Hr); [done|].
      unfold delete in Hd. simpl in Hd. rewrite List.Forall_forall in Hd. auto.
  - apply sortIn_cons in Hr as (r' & -> & Hr'); [|done|done].
    unfold front. simpl. apply List.Forall_forall.
    intros q [->|Hq]%(sortIn_In _ _ _ _ _ Hr'); [done|].
    rewrite List.Forall_forall in Hl. auto.
Qed.

Lemma scheduleElevator_front sl d a s s' p l :
  scheduleElevator sl d a s = Some s' -> wait s = p :: l ->
  front (wait s) -> timeOf p <= time s -> 0 <= time s -> 0 <= d ->
  isGetIn a = false -> front (wait s').
Proof.
  intros E Hwt Hf Hp Ht Hd Ha. unfold scheduleElevator, waitSortIn in E. simpl in E.
  destruct (sortIn _ _ _) as [r|] eqn:Er; [|done]. injection E as <-. simpl.
  rewrite Hwt in Er, Hf.
  eapply front_sortIn_delete; [exact Hf| | | |exact Er]; simpl; try done; lia.
Qed.

Lemma find_some_in {A} (f : A -> bool) l x :
  List.find f l = Some x -> In x l /\ f x = true.
Proof. apply find_some. Qed.

Lemma step_E4 s :
  Mid wf_executeLetPeopleOutIn s ->
  exists s', executeLetPeopleOutIn s = Some s' /\ Inv s'.
Proof.
  mid M.
  pose proof (mid_dirOK _ _ M eq_refl eq_refl) as Hdir.
  assert (HK := fun x => mid_noElev1 _ _ x M eq_refl).
  unfold executeLetPeopleOutIn. cbv zeta.
  destruct (List.find _ _) as [[n u]|] eqn:Efind.
  - (* somebody gets out *)
    immedU s2 Hw2 Hele2 HP2.
    sched s' Hw' Hele HN HP.
    exists s'. split; [done|]. split; [done|]. split; [split|].
    + apply (stateOK_elev1 _ _ wf_executeLetPeopleOutIn); try done;
        rewrite ?Hele, ?Hele2; simpl; try apply m_old0; try done.
      * intros x Hx Hs. apply HP in Hx as [?|[_ ?]]; done.
      * users M.
      * users M.
      * users M.
      * by intros [?|?].
    + left. rewrite Hele, Hele2. eapply dirOK_ext; [..|exact Hdir]; done.
    + front_by.
  - destruct (index_Some (queue (ele s)) (floor (ele s))) as [q Hq].
    { rewrite (l_queues _ _ m_old0). pose proof (l_floor _ _ m_old0). flia. }
    change (index (queue (ele (upd_ele (e_step stepLetPeopleOutIn) s)))
              (floor (ele (upd_ele (e_step stepLetPeopleOutIn) s))))
      with (index (queue (ele s)) (floor (ele s))).
    rewrite Hq. destruct q as [|[n u] q].
    + (* nobody gets out or in *)
      eexists. split; [reflexivity|]. split; [|split; [split|]].
      * repeat (apply waitOK_upd; [by intros []|]). done.
      * apply stateOK_idle; simpl; try apply m_old0; try done.
      * left. eapply dirOK_ext; [..|exact Hdir]; done.
      * by apply front_none.
    + (* somebody gets in *)
      destruct (l_queue _ _ m_old0 _ _ (n, u) Hq (or_introl eq_refl)) as [Hv Hin].
      simpl in Hv, Hin.
      match goal with |- context [waitImmed (newWaitElement _ ?a) ?S] =>
        destruct (waitImmed_spec a S)
          as (s2 & E2 & Hw2 & Hele2 & Ht2 & Hl2 & Hg2 & Hwt2 & HP2);
          [by apply waitOK_upd; [intros []|]|done|rewrite E2; clear E2] end.
      simpl in Hele2, Ht2, Hwt2. cbv beta iota.
      destruct (scheduleElevator_spec Elev1 25 wf_executeLetPeopleOutIn s2 Hw2)
        as (s' & E & Hw' & Hele & Ht & Hl & Hg & HN & HP); [lia|done|].
      rewrite E. simpl in Hele.
      exists s'. split; [done|]. split; [done|]. split; [split|].
      * apply (stateOK_elev1 _ _ wf_executeLetPeopleOutIn); try done;
          rewrite ?Hele, ?Hele2; simpl; try apply m_old0; try done.
        -- intros x Hx Hs. apply HP in Hx as [?|[_ ?]]; done.
        -- users M.
        -- users M.
        -- intros u' Hu. pinv Hu; try done;
             [injection Hu as ->; by split|absurd_pend].
        -- by intros [?|?].
      * left. rewrite Hele, Hele2. eapply dirOK_ext; [..|exact Hdir]; done.
      * eapply (scheduleElevator_front _ _ _ _ _ _ _ E Hwt2); try done.
        -- rewrite Hwt2. unfold front. simpl. apply List.Forall_forall.
           intros p Hp. destruct (isGetIn (instOf p)) eqn:Eg; [|done].
           destruct (instOf p) eqn:Ei; try done.
           destruct (m_nogetin0 u0). apply pendIn_In. eauto.
        -- unfold timeOf. simpl. lia.
        -- lia.
Qed.

Lemma hasCall_callUp e a j k :
  assign (callUp e) j true = Some a ->
  hasCall e k = true -> hasCall (e_callUp a e) k = true.
Proof.
  intros Ha. unfold hasCall. simpl. intros H.
  apply orb_true_iff in H as [H|H]; [|by rewrite H, orb_true_r].
  apply orb_true_iff in H as [H|H]; [|by rewrite H, orb_true_r].
  by rewrite (pressed_assign_true _ _ _ _ Ha H).
Qed.

Lemma hasCall_callDown e a j k :
  assign (callDown e) j true = Some a ->
  hasCall e k = true -> hasCall (e_callDown a e) k = true.
Proof.
  intros Ha. unfold hasCall. simpl. intros H.
  apply orb_true_iff in H as [H|H]; [|by rewrite H, orb_true_r].
  apply orb_true_iff in H as [H|H]; [by rewrite H|].
  by rewrite (pressed_assign_true _ _ _ _ Ha H), orb_true_r.
Qed.

(** The user's button: one more call, nothing else. *)
Lemma pressButton_spec u s :
  callsSized (ele s) -> 0 <= in_ u < floors ->
  exists g,
    (if out u >? in_ u
     then let? a := assign (callUp (ele s)) (in_ u) true in
          Some (upd_ele (e_callUp a) s)
     else let? a := assign (callDown (ele s)) (in_ u) true in
          Some (upd_ele (e_callDown a) s)) = Some (upd_ele g s) /\
    onlyCalls g (ele s) /\
    (forall j, hasCall (ele s) j = true -> hasCall (g (ele s)) j = true).
Proof.
  intros (H1 & H2 & H3) Hu.
  destruct (assign_Some (callUp (ele s)) (in_ u) true) as [a Ha]; [rewrite H1; flia|].
  destruct (assign_Some (callDown (ele s)) (in_ u) true) as [b Hb]; [rewrite H2; flia|].
  pose proof (assign_length _ _ _ _ Ha) as La.
  pose proof (assign_length _ _ _ _ Hb) as Lb.
  destruct (out u >? in_ u).
  - exists (e_callUp a). rewrite Ha. split; [done|]. split.
    + unfold onlyCalls, callsSized. simpl. split_and!; try done; congruence.
    + intros j. by apply (hasCall_callUp _ _ (in_ u)).
  - exists (e_callDown b). rewrite Hb. split; [done|]. split.
    + unfold onlyCalls, callsSized. simpl. split_and!; try done; congruence.
    + intros j. by apply (hasCall_callDown _ _ (in_ u)).
Qed.

(** With D3 on, the elevator is neither dormant nor on its way. *)
Lemma d3_doorsOpen P e x :
  stateOK P e -> d3 e = true ->
  step e <> stepWaitForCall /\ (P x -> doorsShut x = false).
Proof.
  intros He Hd. split.
  - intros E. destruct (l_dormant _ _ He E) as (H & _). congruence.
  - intros Hx. destruct (doorsShut x) eqn:E; [|done].
    destruct (l_shut _ _ He x Hx E) as (H & _). congruence.
Qed.

Lemma step_U2 u s :
  Mid (wf_userSignalAndWait u) s ->
  exists s', userSignalAndWait u s = Some s' /\ Inv s'.
Proof.
  mid M.
  pose proof (l_signal _ _ m_all0 u (or_introl eq_refl)) as Hv.
  pose proof Hv as (Hv1 & Hv2 & Hv3 & Hv4).
  pose proof (stateOK_callsSized _ _ m_old0) as Hc.
  unfold userSignalAndWait.
  destruct ((floor (ele s) =? in_ u) && bool_decide (step (ele s) = stepCloseDoors)) eqn:E1.
  - (* the doors are closing *)
    apply andb_true_iff in E1 as [_ E1]. apply bool_decide_eq_true in E1.
    assert (Hdir : dirOK (ele s)).
    { destruct m_dir0 as [?|[?|(x & Hx & Hf)]]; [done|done|].
      destruct (l_flight _ _ m_old0 x Hx Hf) as [?|[?|?]]; congruence. }
    schedI s2 Hw2 Hele2 HN2 HP2.
    immedU s3 Hw3 Hele3 HP3.
    exists s3. split; [done|]. split; [done|]. split; [split|].
    + apply (stateOK_elev1 _ _ wf_executeOpenDoors); try done;
        rewrite ?Hele3, ?Hele2; simpl; try apply m_old0; try done.
      * intros x Hx Hs. pold Hx.
      * intros u' Hu. pold Hu. by apply (l_signal _ _ m_old0).
      * intros u' Hu. pinv Hu; try done.
        -- by injection Hu as ->.
        -- by apply (l_enter _ _ m_old0).
      * intros u' Hu. pold Hu.
      * intros [?|?]; [done|congruence].
    + left. rewrite Hele3, Hele2. eapply dirOK_ext; [..|exact Hdir]; done.
    + front_by.
  - destruct ((floor (ele s) =? in_ u) && d3 (ele s)) eqn:E2.
    + (* the doors are open and idle *)
      apply andb_true_iff in E2 as [_ E2].
      assert (Hopen := fun x => d3_doorsOpen _ _ x m_old0 E2).
      destruct (Hopen wf_executeCloseDoors) as (Hs1 & _).
      assert (Hdir : dirOK (ele s)).
      { destruct m_dir0 as [?|[?|(x & Hx & Hf)]]; [done|done|].
        destruct (Hopen x) as (_ & Hd).
        rewrite (doorsShut_false_inFlight _ (Hd Hx)) in Hf. done. }
      cbv zeta.
      schedI s2 Hw2 Hele2 HN2 HP2.
      immedU s3 Hw3 Hele3 HP3.
      exists s3. split; [done|]. split; [done|]. split; [split|].
      * apply (stateOK_elev1 _ _ wf_executeLetPeopleOutIn); try done;
          rewrite ?Hele3, ?Hele2; simpl; try apply m_old0; try done.
        -- intros x Hx Hs. pold Hx.
        -- intros u' Hu. pold Hu. by apply (l_signal _ _ m_old0).
        -- intros u' Hu. pinv Hu; try done.
           ++ by injection Hu as ->.
           ++ by apply (l_enter _ _ m_old0).
        -- intros u' Hu. pold Hu.
        -- intros [?|?]; [done|congruence].
      * left. rewrite Hele3, Hele2. eapply dirOK_ext; [..|exact Hdir]; done.
      * front_by.
    + (* the user presses a button *)
      destruct (pressButton_spec u s Hc Hv1) as (g & -> & Hg & Hcalls).
      destruct Hg as ((L1 & L2 & L3) & Gq & Gs & Gf & Gst & Gsta & Gd1 & Gd2 & Gd3 & Gsl).
      cbv beta iota.
      assert (Hwg : waitOK (upd_ele g s)) by by apply waitOK_upd.
      assert (Heg : elevatorOK (pend s) (g (ele s))).
      { split.
        - apply (stateOK_keep_step (pend s) _ (ele s)); try apply m_old0; try done.
          + by rewrite Gf; apply m_old0.
          + rewrite Gq. apply m_old0.
          + rewrite Gq. apply m_old0.
          + intros (Q1 & Q2 & Q3). split; [congruence|done].
        - destruct m_dir0 as [?|[?|?]]; [left|done|by right].
          eapply dirOK_ext; [..|eassumption]; done. }
      assert (Hdec : exists sd,
        (if negb (d2 (ele (upd_ele g s))) || bool_decide (step (ele (upd_ele g s)) = stepWaitForCall)
         then decision (upd_ele g s) else Some (upd_ele g s)) = Some sd /\
        waitOK sd /\ elevatorOK (pend sd) (ele sd) /\ decided (upd_ele g s) sd).
      { destruct (_ || _).
        - by apply decision_ok.
        - exists (upd_ele g s). split; [done|]. split; [done|]. split; [done|].
          apply decided_refl. }
      destruct Hdec as (sd & -> & Hwd & [Hsd Hdd] & (st & h & Hed) & Htd & _ & _ & HPd).
      immedU s3 Hw3 Hele3 HP3.
      exists s3. split; [done|]. split; [done|]. split; [split|].
      * rewrite Hele3.
        apply (stateOK_keep_step (pend sd) _ (ele sd)); try done; try apply Hsd.
        -- intros x Hx Hs. apply HP3 in Hx as [->|Hx]; done.
        -- intros u' Hu. apply HP3 in Hu as [?|Hu]; [done|]. by apply (l_signal _ _ Hsd).
        -- intros u' Hu. apply HP3 in Hu as [Hu|Hu]; [by injection Hu as ->|].
           by apply (l_enter _ _ Hsd).
        -- intros u' Hu. apply HP3 in Hu as [?|Hu]; [done|]. by apply (l_getin _ _ Hsd).
        -- intros (Q1 & Q2 & Q3). split; [done|]. split.
           ++ intros H. apply HP3 in H as [?|H]; [done|]. done.
           ++ intros u' H. apply HP3 in H as [?|H]; [done|]. by apply (Q3 u').
      * rewrite Hele3. destruct Hdd as [?|(x & Hx & Hf)]; [by left|right].
        exists x. split; [|done]. apply HP3. by right.
      * apply front_none. intros u' H. change (pend s3 (wf_userGetIn u')) in H.
        apply HP3 in H as [?|H]; [done|].
        apply HPd in H as [?|[?|H]]; [done|done|]. by apply (m_nogetin0 u').
Qed.

(** * The invariant along a run *)

Lemma pop_Mid s n w rest :
  Inv s -> wait s = (n, w) :: rest -> Mid (nextInst w) (popFirst w rest s).
Proof.
  intros (Hw & [He Hd] & Hf) Hwt. unfold waitOK in Hw. rewrite Hwt in Hw, Hf.
  assert (HP : forall x, nextInst w = x \/ pendIn rest x <-> pend s x).
  { intros x. unfold pend. rewrite Hwt, pendIn_cons. unfold instOf. simpl.
    split; (intros [?|?]; [by left|by right]). }
  split; [|split; [split|split]].
  - apply (agendaOK_tail _ _ _ _ _ Hw).
  - eapply stateOK_mono; [|exact He]. simpl. intros x [->|Hx]; apply HP; auto.
  - destruct Hd as [?|(x & Hx & Hfx)]; [by left|right].
    exists x. split; [|done]. apply HP in Hx as [<-|?]; [by left|by right].
  - intros u (p & Hp & Hi)%pendIn_In. unfold front in Hf. simpl in Hf.
    rewrite List.Forall_forall in Hf. specialize (Hf p Hp). by rewrite Hi in Hf.
  - intros sl x Ha Hx. by apply (pendIn_handle_popped _ _ _ _ _ _ _ Hw Ha Hx).
Qed.

Lemma execute_ok a r s :
  Mid a s -> exists s', execute a r s = Some s' /\ Inv s'.
Proof.
  destruct a; simpl.
  - apply step_U1.
  - apply step_U2.
  - apply step_U3.
  - apply step_U4.
  - apply step_U5.
  - apply step_U6.
  - apply step_E1.
  - apply step_E2.
  - apply step_E3.
  - apply step_E4.
  - apply step_E5.
  - apply step_E6.
  - apply step_E7.
  - apply step_E7b.
  - apply step_E8.
  - apply step_E8b.
  - apply step_E9.
Qed.

Lemma index_replicate {A} (n : nat) (x y : A) j :
  index (replicate n x) j = Some y -> y = x.
Proof.
  unfold index. destruct (j <? 0); [done|].
  intros H. apply lookup_replicate in H. tauto.
Qed.

Lemma Mid_newSimulator : Mid wf_userEnterPrepareForSuccessor newSimulator.
Proof.
  split; [|split; [split|split]].
  - split; simpl; try done; try by constructor. by intros [].
  - apply stateOK_idle; simpl; try done.
    + intros x [->|[]]; done.
    + intros f q p Hq Hp. apply (index_replicate 5 [] q f) in Hq. by subst.
    + intros u [?|[]]; done.
    + intros u [?|[]]; done.
    + intros u [?|[]]; done.
    + intros _. split; [done|]. split; [by intros [?|[]]|]. by intros u [?|[]].
  - left. by apply dirOK_neutral.
  - intros u [].
  - intros sl x _ [].
Qed.

Lemma Inv_start r s : mainStart r = Some s -> Inv s.
Proof.
  intros H. destruct (step_U1 r _ Mid_newSimulator) as (s' & E & Hs').
  unfold mainStart in H. congruence.
Qed.

(** A turn of the loop of [main] from a state of the invariant executes
    its listener to the end and restores the invariant. *)
Lemma mainIteration_Inv r s :
  Inv s ->
  match mainIteration r s with
  | Continue s' => Inv s'
  | WaitQueueEmpty _ => wait s = []
  | TimeIsUp s' => maxTime <= time s'
  | Failed _ => False
  end.
Proof.
  intros Hs. unfold mainIteration.
  destruct (wait s) as [|[n w] rest] eqn:Hwt; [done|].
  destruct (Z.geb_spec (time (popFirst w rest s)) maxTime); [done|].
  destruct (execute_ok (nextInst w) r _ (pop_Mid _ _ _ _ Hs Hwt)) as (s' & -> & Hs').
  done.
Qed.

Theorem reachable_Inv s : reachable s -> Inv s.
Proof.
  induction 1 as [r s H|r s s' _ IH H].
  - by eapply Inv_start.
  - pose proof (mainIteration_Inv r s IH) as H'. by rewrite H in H'.
Qed.

(** * The contracts of the two insertions *)

Lemma sortIn_inserted l n w :
  ordered l -> 0 <= nextTime w ->
  exists r, sortIn l n w = Some r /\ inserted (n, w) l r /\ ordered r.
Proof.
  intros Ho Hw. destruct (sortIn_Some l n w Hw) as [r Hr]. exists r.
  split; [done|]. split; [|by eapply sortIn_ordered].
  destruct (sortIn_spec _ _ _ _ Hr) as (l1 & l2 & -> & -> & H2 & H1).
  exists l1, l2. split_and!; try done.
  apply ordered_app in Ho as (Ho1 & _ & _).
  destruct (last l1) as [x|] eqn:El.
  - eapply Forall_impl; [exact (ordered_last_le _ _ Ho1 El)|].
    unfold timeOf in *. simpl. intros; lia.
  - apply last_None in El. by subst.
Qed.

Lemma inserted_In p l l' q : inserted p l l' -> In q l' <-> q = p \/ In q l.
Proof.
  intros (l1 & l2 & -> & -> & _). rewrite !in_app_iff. simpl. intuition.
Qed.

Lemma scheduleElevator_inserted sl d a s :
  waitOK s -> 0 <= d ->
  exists r, scheduleElevator sl d a s = Some (placed sl r s) /\
    inserted (alloc s, newWaitElement (time s + d) a)
      (delete (getSlot sl (ele s)) (wait s)) r /\ ordered r.
Proof.
  intros Hw Hd.
  destruct (sortIn_inserted (delete (getSlot sl (ele s)) (wait s)) (alloc s)
              (newWaitElement (time s + d) a)) as (r & Hr & Hi & Ho).
  - apply (agendaOK_delete _ _ _ _ _ Hw).
  - simpl. pose proof (w_time _ _ _ _ Hw). lia.
  - exists r. split; [|done]. by rewrite (scheduleElevator_eq _ _ _ _ _ Hr).
Qed.

Lemma in_delete_iff {A} (x : option node) (l : list (node * A)) p :
  In p (delete x l) <-> In p l /\ Some (fst p) <> x.
Proof.
  destruct x as [n|]; unfold delete.
  - rewrite in_unlink. split; intros [H1 H2]; (split; [done|congruence]).
  - split; [by intros H|tauto].
Qed.

Lemma delete_absent {A} (x : option node) (l : list (node * A)) :
  (forall p, In p l -> Some (fst p) <> x) -> delete x l = l.
Proof.
  intros H. destruct x as [n|]; [|done]. apply unlink_absent.
  intros (p & <- & Hp)%in_map_iff. by apply (H p Hp).
Qed.

(** Only the node just allocated answers to a handle that refers to it. *)
Lemma filter_fresh (a : node) (w : waitElement) l1 l2 :
  Forall (fun p => (fst p < a)%nat) (l1 ++ l2) ->
  List.filter (fun p : wnode => bool_decide (Some a = Some (fst p)))
    (l1 ++ (a, w) :: l2) = [(a, w)].
Proof.
  intros H. apply Forall_app in H as [H1 H2].
  assert (Hn : forall l, Forall (fun p : wnode => (fst p < a)%nat) l ->
            List.filter (fun p : wnode => bool_decide (Some a = Some (fst p))) l = []).
  { induction 1 as [|p l Hp _ IH]; [done|]. simpl.
    rewrite bool_decide_false; [done|]. intros [=]. lia. }
  unfold wnode in *. rewrite List.filter_app, (Hn _ H1).
  change (List.filter ?f ((a, w) :: l2))
    with (if f (a, w) then (a, w) :: List.filter f l2 else List.filter f l2).
  cbv beta. rewrite (Hn _ H2). by rewrite bool_decide_true.
Qed.

Lemma getSlot_placed sl r s : getSlot sl (ele (placed sl r s)) = Some (alloc s).
Proof. by destruct sl. Qed.

Lemma getSlot_placed_other sl k r s :
  k <> sl -> getSlot k (ele (placed sl r s)) = getSlot k (ele s).
Proof. by destruct sl, k. Qed.

(** * A sample run *)

(** * Runs *)

Lemma mainLoop_reachable fuel rnd k s s' :
  reachable s -> mainLoop fuel rnd k s = Continue s' -> reachable s'.
Proof.
  revert k s. induction fuel as [|fuel IH]; intros k s Hs; simpl.
  - by intros [= <-].
  - destruct (mainIteration (rnd k) s) as [s1| | |] eqn:E; try done.
    apply IH. by apply (reachable_turn (rnd k) s).
Qed.

Lemma mainLoop_Inv fuel rnd k s :
  Inv s ->
  match mainLoop fuel rnd k s with
  | Continue s' => Inv s'
  | WaitQueueEmpty _ => True
  | TimeIsUp s' => maxTime <= time s'
  | Failed _ => False
  end.
Proof.
  revert k s. induction fuel as [|fuel IH]; intros k s Hs; simpl; [done|].
  pose proof (mainIteration_Inv (rnd k) s Hs) as H.
  destruct (mainIteration (rnd k) s); try done. by apply IH.
Qed.

Lemma sampleStart_reachable : reachable sampleStart.
Proof. by apply (reachable_start sampleDraws). Qed.

Lemma sampleRun_reachable n s : sampleRun n = Continue s -> reachable s.
Proof. apply mainLoop_reachable, sampleStart_reachable. Qed.

Lemma reachable_waitOK s : reachable s -> waitOK s.
Proof. intros H. apply (reachable_Inv s H). Qed.

Lemma reachable_stateOK s : reachable s -> stateOK (pend s) (ele s).
Proof. intros H. apply (reachable_Inv s H). Qed.


Lemma popped_waitOK s : reachable s -> waitOK (popped s).
Proof.
  intros H. pose proof (reachable_Inv s H) as Hs. unfold popped.
  destruct (wait s) as [|[n w] rest] eqn:E; [apply Hs|].
  apply (pop_Mid s n w rest Hs E).
Qed.

Lemma popped_ele s : ele (popped s) = ele s.
Proof. unfold popped. by destruct (wait s) as [|[n w] rest]. Qed.

Lemma sampleRun_state n :
  isContinue (sampleRun n) = true -> reachable (stateOf (sampleRun n)).
Proof.
  intros H. apply (sampleRun_reachable n).
  by destruct (sampleRun n).
Qed.

Lemma popped_callsSized s : reachable s -> callsSized (ele (popped s)).
Proof.
  intros H. rewrite popped_ele.
  apply (stateOK_callsSized (pend s)), reachable_stateOK, H.
Qed.

Lemma popped_floor s : reachable s -> 0 <= floor (ele (popped s)) < floors.
Proof.
  intros H. rewrite popped_ele. apply (l_floor (pend s)), reachable_stateOK, H.
Qed.

(** * DECISION, case by case *)

Lemma upd_state_same s :
  upd_ele (e_state (state (ele s))) s = s.
Proof. by destruct s as [? ? []]. Qed.

Lemma scheduleElevator_Some sl d a s s' :
  scheduleElevator sl d a s = Some s' -> exists r, s' = placed sl r s.
Proof.
  unfold scheduleElevator, waitSortIn. simpl.
  destruct (sortIn _ _ _) as [r|]; [|done]. intros [= <-]. by exists r.
Qed.

Lemma decision_moving s : state (ele s) <> stateNeutral -> decision s = Some s.
Proof. intros H. unfold decision. by rewrite bool_decide_eq_false_2. Qed.

Lemma decision_home s :
  callsSized (ele s) -> state (ele s) = stateNeutral ->
  step (ele s) = stepWaitForCall -> hasCall (ele s) floorHome = true ->
  decision s = scheduleElevator Elev1 20 wf_executeOpenDoors s.
Proof.
  intros Hc Hn H1 Hh. unfold decision.
  rewrite bool_decide_eq_true_2 by done. simpl.
  rewrite anyCallAt_decision by (done || flia).
  rewrite bool_decide_eq_true_2 by done. simpl. by rewrite Hh.
Qed.

Lemma decisionD4_eq j s :
  decisionD4 j s =
  if bool_decide (step (ele s) = stepWaitForCall) && negb (j =? 2)
  then scheduleElevator Elev1 20 wf_executePrepareToMove
         (upd_ele (e_state (heading (floor (ele s)) j (state (ele s)))) s)
  else Some (upd_ele (e_state (heading (floor (ele s)) j (state (ele s)))) s).
Proof.
  unfold decisionD4, heading.
  destruct (floor (ele s) >? j); [done|].
  destruct (floor (ele s) <? j); [done|].
  by rewrite upd_state_same.
Qed.

Lemma decision_scan s :
  callsSized (ele s) -> state (ele s) = stateNeutral ->
  ~ (step (ele s) = stepWaitForCall /\ hasCall (ele s) floorHome = true) ->
  exists o, firstCall (ele s) o /\
    decision s = match target (ele s) o with
                 | Some j => decisionD4 j s
                 | None => Some s
                 end.
Proof.
  intros Hc Hn H1. unfold decision.
  rewrite (bool_decide_eq_true_2 (state (ele s) = stateNeutral)) by done.
  cbn [negb].
  rewrite anyCallAt_decision by (done || flia).
  destruct (decisionScan_firstCall s Hc) as (o & Eo & Ho).
  exists o. split; [done|].
  assert (E : Some (bool_decide (step (ele s) = stepWaitForCall))
              &&& Some (hasCall (ele s) floorHome) = Some false).
  { rewrite andM_Some. f_equal. apply andb_false_iff.
    destruct (decide (step (ele s) = stepWaitForCall)) as [E|E].
    - right. destruct (hasCall (ele s) floorHome); [|done]. by destruct H1.
    - left. by apply bool_decide_eq_false_2. }
  rewrite E, Eo. destruct o as [j|]; [done|]. simpl.
  by destruct (bool_decide (step (ele s) = stepPrepareToMove)).
Qed.

Lemma decision_total s :
  waitOK s -> callsSized (ele s) ->
  exists s', decision s = Some s' /\ time s' = time s /\
    exists st r, s' = s \/ s' = upd_ele (e_state st) s \/
                 s' = placed Elev1 r (upd_ele (e_state st) s).
Proof.
  intros Hw Hc.
  destruct (decide (state (ele s) = stateNeutral)) as [Hn|Hn].
  2:{ exists s. rewrite decision_moving by done. split_and!; try done.
      exists stateNeutral, []. by left. }
  destruct (decide (step (ele s) = stepWaitForCall /\ hasCall (ele s) floorHome = true))
    as [[H1 Hh]|H1].
  - rewrite decision_home by done.
    destruct (scheduleElevator_inserted Elev1 20 wf_executeOpenDoors s Hw) as (r & -> & _);
      [lia|].
    eexists. split_and!; try done. exists (state (ele s)), r. right. right.
    by rewrite upd_state_same.
  - destruct (decision_scan s Hc Hn H1) as (o & _ & ->).
    destruct (target (ele s) o) as [j|].
    2:{ exists s. split_and!; try done. exists stateNeutral, []. by left. }
    rewrite decisionD4_eq.
    set (st := heading (floor (ele s)) j (state (ele s))).
    destruct (_ && _).
    + destruct (scheduleElevator_inserted Elev1 20 wf_executePrepareToMove
                  (upd_ele (e_state st) s)) as (r & -> & _);
        [apply waitOK_upd; [by intros []|done]|lia|].
      eexists. split_and!; try done. exists st, r. by right; right.
    + eexists. split_and!; try done. exists st, []. by right; left.
Qed.


(** * The WAIT list is in order *)

(** C1. At every turn of the loop of [main] the WAIT list is in ascending
    order of [nextTime] and nothing in it is due before the clock.  [sortIn]
    returns, and puts the new node behind every node due at the same time
    or earlier and before every node due later, so nodes due at the same
    time run in the order of their insertion; [immed] puts the new node
    first whatever the times are.  Each of the operations on the list keeps
    the order: [sortIn] always, [immed] of an entry due no later than the
    nodes of the list (the program passes the clock), [delete], and taking
    the first node off. *)
Theorem wait_list_ordered s :
  reachable s ->
  ordered (wait s) /\
  Forall (fun p => time s <= timeOf p) (wait s) /\
  (forall l n w, ordered l -> 0 <= nextTime w ->
     exists r, sortIn l n w = Some r /\ inserted (n, w) l r /\ ordered r) /\
  (forall l n w, immed l n w = (n, w) :: l) /\
  (forall l n w, ordered l -> Forall (fun p => nextTime w <= timeOf p) l ->
     ordered (immed l n w)) /\
  (forall l x, ordered l -> ordered (delete x l)) /\
  (forall p l, ordered (p :: l) ->
     ordered l /\ Forall (fun q => timeOf p <= timeOf q) l).
Proof.
  intros Hs. pose proof (reachable_waitOK s Hs) as Hw.
  split_and!.
  - apply Hw.
  - apply Hw.
  - apply sortIn_inserted.
  - done.
  - intros l n w Ho Hl. by apply (ordered_immed (nextTime w)).
  - intros l x Ho. eapply ordered_sublist; [apply delete_sublist|done].
  - intros p l Ho. by apply ordered_cons in Ho.
Qed.

Lemma wait_list_ordered_sample :
  ordered (wait (stateOf (sampleRun 23))) /\
  Forall (fun p => time (stateOf (sampleRun 23)) <= timeOf p)
    (wait (stateOf (sampleRun 23))).
Proof.
  pose proof (wait_list_ordered (stateOf (sampleRun 23)) (sampleRun_state 23 ltac:(vm_compute; reflexivity))) as H.
  split; [exact (proj1 H)|exact (proj1 (proj2 H))].
Defined.

(** * Scheduling through a handle *)

(** C2. On a well-formed state, [scheduleElevator] and
    [scheduleElevatorImmediately] first take the node of the handle off the
    WAIT list, which leaves the list as it is when no node of the list is
    the handle's; then [scheduleElevator] returns, having put one new node,
    due at [time + delay], in its place by time (behind the nodes due no
    later), and [scheduleElevatorImmediately] puts one new node, due now, at
    the front; the handle then refers to the new node, the other handles are
    as before, and the new node is the only node of the list the handle
    refers to. *)
Theorem reschedule_through_handle sl d a s :
  waitOK s -> 0 <= d ->
  let old := getSlot sl (ele s) in
  let rest := delete old (wait s) in
  (forall p, In p rest <-> In p (wait s) /\ Some (fst p) <> old) /\
  sublist rest (wait s) /\
  ((forall p, In p (wait s) -> Some (fst p) <> old) -> rest = wait s) /\
  (exists r,
     scheduleElevator sl d a s = Some (placed sl r s) /\
     inserted (alloc s, newWaitElement (time s + d) a) rest r /\
     List.filter
       (fun p : wnode => bool_decide (getSlot sl (ele (placed sl r s)) = Some (fst p))) r
     = [(alloc s, newWaitElement (time s + d) a)]) /\
  (let r := (alloc s, newWaitElement (time s) a) :: rest in
   scheduleElevatorImmediately sl a s = placed sl r s /\
   List.filter
     (fun p : wnode => bool_decide (getSlot sl (ele (placed sl r s)) = Some (fst p))) r
   = [(alloc s, newWaitElement (time s) a)]) /\
  (forall r, wait (placed sl r s) = r /\ time (placed sl r s) = time s /\
     getSlot sl (ele (placed sl r s)) = Some (alloc s) /\
     forall k, k <> sl -> getSlot k (ele (placed sl r s)) = getSlot k (ele s)).
Proof.
  intros Hw Hd old rest.
  assert (Hfresh : Forall (fun p : wnode => (fst p < alloc s)%nat) rest).
  { apply (w_fresh _ _ _ _ (agendaOK_delete _ _ old _ _ Hw)). }
  split_and!.
  - intros p. apply in_delete_iff.
  - apply delete_sublist.
  - apply delete_absent.
  - destruct (scheduleElevator_inserted sl d a s Hw Hd) as (r & E & Hi & _).
    exists r. split; [done|]. split; [done|].
    destruct Hi as (l1 & l2 & E1 & -> & _).
    fold old in E1. fold rest in E1. rewrite E1 in Hfresh.
    rewrite <- (filter_fresh (alloc s) (newWaitElement (time s + d) a) l1 l2 Hfresh).
    apply List.filter_ext. intros p. by rewrite getSlot_placed.
  - split; [apply scheduleElevatorImmediately_eq|].
    rewrite <- (filter_fresh (alloc s) (newWaitElement (time s) a) [] rest Hfresh).
    apply List.filter_ext. intros p. by rewrite getSlot_placed.
  - intros r. split_and!; try done.
    + apply getSlot_placed.
    + intros k Hk. by apply getSlot_placed_other.
Qed.

Lemma reschedule_through_handle_sample :
  waitOK (popped (stateOf (sampleRun 10))) /\
  scheduleElevatorImmediately Elev1 wf_executeOpenDoors (popped (stateOf (sampleRun 10)))
  = placed Elev1
      ((alloc (popped (stateOf (sampleRun 10))),
        newWaitElement (time (popped (stateOf (sampleRun 10)))) wf_executeOpenDoors)
       :: delete (getSlot Elev1 (ele (popped (stateOf (sampleRun 10)))))
            (wait (popped (stateOf (sampleRun 10)))))
      (popped (stateOf (sampleRun 10))).
Proof.
  pose proof (popped_waitOK _ (sampleRun_state 10 ltac:(vm_compute; reflexivity))) as Hw.
  split; [exact Hw|].
  pose proof (reschedule_through_handle Elev1 0 wf_executeOpenDoors _ Hw (Z.le_refl 0)) as H.
  exact (proj1 (proj1 (proj2 (proj2 (proj2 (proj2 H)))))).
Defined.

(** * Subroutine D *)

(** C4. On a well-formed state whose three call slices have one entry per
    floor, [decision] returns, and: with a direction other than NEUTRAL it
    changes nothing; in NEUTRAL, at step E1 with a call on the home floor, it
    schedules E3 through ELEV1 at [time + 20] and leaves the direction; else,
    with [o] the smallest floor other than the current one that has a call
    (if there is one) and the home floor standing in exactly when there is
    none and the step is E6, it changes nothing if there is no floor to aim
    at, and otherwise sets the direction to GOINGDOWN if the floor is above
    it and to GOINGUP if the floor is below it, and then schedules E6
    through ELEV1 at [time + 20] exactly when the step is E1 and the floor
    aimed at is not the home floor. *)
Theorem decision_cases s :
  waitOK s -> callsSized (ele s) ->
  (state (ele s) <> stateNeutral -> decision s = Some s) /\
  (state (ele s) = stateNeutral -> step (ele s) = stepWaitForCall ->
   hasCall (ele s) floorHome = true ->
   exists r, decision s = Some (placed Elev1 r s) /\
     inserted (alloc s, newWaitElement (time s + 20) wf_executeOpenDoors)
       (delete (elev1 (ele s)) (wait s)) r) /\
  (state (ele s) = stateNeutral ->
   ~ (step (ele s) = stepWaitForCall /\ hasCall (ele s) floorHome = true) ->
   exists o, firstCall (ele s) o /\
     match target (ele s) o with
     | None => decision s = Some s
     | Some j =>
         let s1 := upd_ele (e_state (heading (floor (ele s)) j stateNeutral)) s in
         (step (ele s) = stepWaitForCall -> j <> floorHome ->
          exists r, decision s = Some (placed Elev1 r s1) /\
            inserted (alloc s, newWaitElement (time s + 20) wf_executePrepareToMove)
              (delete (elev1 (ele s)) (wait s)) r) /\
         (~ (step (ele s) = stepWaitForCall /\ j <> floorHome) ->
          decision s = Some s1)
     end).
Proof.
  intros Hw Hc. split_and!.
  - apply decision_moving.
  - intros Hn H1 Hh. rewrite decision_home by done.
    destruct (scheduleElevator_inserted Elev1 20 wf_executeOpenDoors s Hw)
      as (r & E & Hi & _); [lia|]. by exists r.
  - intros Hn H1. destruct (decision_scan s Hc Hn H1) as (o & Ho & E).
    exists o. split; [done|]. rewrite E.
    destruct (target (ele s) o) as [j|]; [|done].
    rewrite decisionD4_eq, Hn. cbv zeta. split.
    + intros E1 Hj. rewrite bool_decide_eq_true_2 by done.
      replace (negb (j =? 2)) with true
        by (symmetry; apply negb_true_iff, Z.eqb_neq; exact Hj).
      cbn [andb].
      destruct (scheduleElevator_inserted Elev1 20 wf_executePrepareToMove
                  (upd_ele (e_state (heading (floor (ele s)) j stateNeutral)) s))
        as (r & Er & Hi & _); [apply waitOK_upd; [by intros []|done]|lia|].
      by exists r.
    + intros Hno.
      destruct (decide (step (ele s) = stepWaitForCall)) as [E1|E1].
      * rewrite bool_decide_eq_true_2 by done.
        destruct (Z.eqb_spec j 2) as [->|Hj]; [done|]. by destruct Hno.
      * by rewrite bool_decide_eq_false_2.
Qed.

(** The floor found by step D3 is the lowest one, other than the current
    floor, with a call. *)
Lemma firstCall_lowest e o j :
  firstCall e o -> 0 <= j < floors -> j <> floor e -> hasCall e j = true ->
  (forall k, 0 <= k < j -> k <> floor e -> hasCall e k = false) ->
  o = Some j.
Proof.
  intros Ho Hj Hne Hc Hlow. destruct o as [i|]; simpl in Ho.
  - destruct Ho as (Hi & Hif & Hci & Hlowi). f_equal.
    destruct (Z.lt_trichotomy i j) as [Hlt|[->|Hgt]]; [|done|].
    + rewrite Hlow in Hci by (done || lia). done.
    + rewrite Hlowi in Hc by (done || lia). done.
  - rewrite Ho in Hc by done. done.
Qed.

Lemma decision_cases_sample :
  waitOK sampleCall /\ callsSized (ele sampleCall) /\
  state (ele sampleCall) = stateNeutral /\ step (ele sampleCall) = stepWaitForCall /\
  hasCall (ele sampleCall) floorHome = false /\ hasCall (ele sampleCall) 0 = true /\
  exists r,
    decision sampleCall
    = Some (placed Elev1 r
              (upd_ele (e_state (heading (floor (ele sampleCall)) 0 stateNeutral))
                 sampleCall)) /\
    inserted (alloc sampleCall, newWaitElement (time sampleCall + 20) wf_executePrepareToMove)
      (delete (elev1 (ele sampleCall)) (wait sampleCall)) r.
Proof.
  assert (Hw : waitOK sampleCall).
  { apply waitOK_upd; [by intros []|]. apply (popped_waitOK _ sampleStart_reachable). }
  assert (Hc : callsSized (ele sampleCall)) by (by vm_compute).
  assert (Hn : state (ele sampleCall) = stateNeutral) by (vm_compute; reflexivity).
  assert (H1 : step (ele sampleCall) = stepWaitForCall) by (vm_compute; reflexivity).
  assert (Hh : hasCall (ele sampleCall) floorHome = false) by (vm_compute; reflexivity).
  assert (H0 : hasCall (ele sampleCall) 0 = true) by (vm_compute; reflexivity).
  assert (Hf : 0 <> floor (ele sampleCall)) by (vm_compute; discriminate).
  split; [exact Hw|]. split; [exact Hc|]. split; [exact Hn|]. split; [exact H1|].
  split; [exact Hh|]. split; [exact H0|].
  destruct (proj2 (proj2 (decision_cases sampleCall Hw Hc)) Hn) as (o & Ho & Hm).
  { intros [_ Hx]. rewrite Hh in Hx. discriminate Hx. }
  assert (Eo : o = Some 0).
  { apply (firstCall_lowest _ _ _ Ho); [unfold floors; lia|exact Hf|exact H0|].
    intros k Hk. lia. }
  rewrite Eo in Hm. cbn [target] in Hm. cbv zeta in Hm.
  destruct (proj1 Hm H1) as (r & E & Hi); [discriminate|].
  exists r. split; [exact E|exact Hi].
Defined.

(** * U2 *)

Lemma assign_insert {A} (a : list A) j v :
  0 <= j < Z.of_nat (length a) -> assign a j v = Some (<[Z.to_nat j := v]> a).
Proof.
  intros H. unfold assign. by destruct (index_Some a j H) as [x ->].
Qed.

(** The last branch of U2: a button is pressed and DECISION may run. *)
Lemma pressButton_cases u s :
  waitOK s -> callsSized (ele s) -> 0 <= in_ u < floors ->
  let e := ele s in
  let s0 :=
    if out u >? in_ u
    then upd_ele (e_callUp (<[Z.to_nat (in_ u) := true]> (callUp e))) s
    else upd_ele (e_callDown (<[Z.to_nat (in_ u) := true]> (callDown e))) s in
  exists s1,
    (let? s :=
       if out u >? in_ u
       then let? a := assign (callUp (ele s)) (in_ u) true in
            Some (upd_ele (e_callUp a) s)
       else let? a := assign (callDown (ele s)) (in_ u) true in
            Some (upd_ele (e_callDown a) s) in
     if negb (d2 (ele s)) || bool_decide (step (ele s) = stepWaitForCall)
     then decision s
     else Some s) = Some s1 /\
    time s1 = time s /\
    (d2 e = false \/ step e = stepWaitForCall -> decision s0 = Some s1) /\
    (~ (d2 e = false \/ step e = stepWaitForCall) -> s1 = s0).
Proof.
  intros Hw (L1 & L2 & L3) Hin e s0.
  assert (E0 : (if out u >? in_ u
                then let? a := assign (callUp (ele s)) (in_ u) true in
                     Some (upd_ele (e_callUp a) s)
                else let? a := assign (callDown (ele s)) (in_ u) true in
                     Some (upd_ele (e_callDown a) s)) = Some s0).
  { unfold s0, e. destruct (out u >? in_ u).
    - rewrite assign_insert; [done|]. rewrite L1. flia.
    - rewrite assign_insert; [done|]. rewrite L2. flia. }
  rewrite E0.
  assert (Hw0 : waitOK s0).
  { unfold s0. destruct (out u >? in_ u); (apply waitOK_upd; [by intros []|done]). }
  assert (Hc0 : callsSized (ele s0)).
  { unfold s0, callsSized, e.
    destruct (out u >? in_ u); simpl; rewrite ?length_insert; done. }
  assert (Hd : d2 (ele s0) = d2 e /\ step (ele s0) = step e /\ time s0 = time s).
  { unfold s0. by destruct (out u >? in_ u). }
  destruct Hd as (-> & -> & Ht).
  destruct (decision_total s0 Hw0 Hc0) as (s1 & E1 & Ht1 & _).
  destruct (d2 e) eqn:H2; cbn [negb orb].
  - destruct (decide (step e = stepWaitForCall)) as [H1|H1].
    + rewrite bool_decide_eq_true_2 by done. exists s1.
      split_and!; try done; [congruence|]. intros H. destruct H. by right.
    + rewrite bool_decide_eq_false_2 by done. exists s0.
      split_and!; try done. by intros [?|?].
  - exists s1. split_and!; try done; [congruence|]. intros H. destruct H. by left.
Qed.

(** C3. On a well-formed state with one call entry per floor, for a user
    whose floor [in] is a floor of the building, [userSignalAndWait] returns
    and its last act puts U3 of this user, due now, first on the WAIT list.
    Before that: if the car is at [in] and the step is E5, E3 is scheduled
    immediately through ELEV1 (which takes whatever else ELEV1 had scheduled
    off the list); else if the car is at [in] and D3 is set, D3 is cleared,
    D1 is set and E4 is scheduled immediately through ELEV1; otherwise
    [callUp[in]] is set if [out > in] and [callDown[in]] if not, and
    [decision] runs on the result exactly when D2 is off or the step is
    E1. *)
Theorem userSignalAndWait_cases u s :
  waitOK s -> callsSized (ele s) -> 0 <= in_ u < floors ->
  let e := ele s in
  exists s1,
    userSignalAndWait u s
    = Some (set_alloc (S (alloc s1))
              (set_wait ((alloc s1, newWaitElement (time s) (wf_userEnterQueue u))
                         :: wait s1) s1)) /\
    time s1 = time s /\
    (floor e = in_ u -> step e = stepCloseDoors ->
     s1 = placed Elev1
            ((alloc s, newWaitElement (time s) wf_executeOpenDoors)
             :: delete (elev1 e) (wait s)) s) /\
    (floor e = in_ u -> step e <> stepCloseDoors -> d3 e = true ->
     s1 = placed Elev1
            ((alloc s, newWaitElement (time s) wf_executeLetPeopleOutIn)
             :: delete (elev1 e) (wait s))
            (upd_ele (e_d1 true) (upd_ele (e_d3 false) s))) /\
    (~ (floor e = in_ u /\ (step e = stepCloseDoors \/ d3 e = true)) ->
     let s0 :=
       if out u >? in_ u
       then upd_ele (e_callUp (<[Z.to_nat (in_ u) := true]> (callUp e))) s
       else upd_ele (e_callDown (<[Z.to_nat (in_ u) := true]> (callDown e))) s in
     (d2 e = false \/ step e = stepWaitForCall -> decision s0 = Some s1) /\
     (~ (d2 e = false \/ step e = stepWaitForCall) -> s1 = s0)) /\
    (forall x, pendIn (delete (elev1 e) (wait s)) x -> slotOf x <> Some Elev1).
Proof.
  intros Hw Hc Hin. cbv zeta.
  assert (Hlast : forall x, pendIn (delete (elev1 (ele s)) (wait s)) x -> slotOf x <> Some Elev1).
  { intros x Hx.
    by apply (pendIn_handle_deleted (time s) (wait s) (alloc s)
                (fun k => getSlot k (ele s)) Elev1 x Hw). }
  unfold userSignalAndWait.
  destruct (Z.eqb_spec (floor (ele s)) (in_ u)) as [Hf|Hf]; cbn [andb].
  - destruct (decide (step (ele s) = stepCloseDoors)) as [H5|H5].
    + rewrite bool_decide_eq_true_2 by done.
      rewrite scheduleElevatorImmediately_eq.
      eexists. split; [reflexivity|]. split_and!; try done.
      intros H. destruct H. split; [done|by left].
    + rewrite bool_decide_eq_false_2 by done.
      destruct (d3 (ele s)) eqn:H3.
      * rewrite scheduleElevatorImmediately_eq.
        eexists. split; [reflexivity|]. split_and!; try done.
        intros H. destruct H. split; [done|by right].
      * destruct (pressButton_cases u s Hw Hc Hin) as (s1 & -> & Ht & Hd & Hn).
        exists s1. split; [by rewrite Ht|]. split_and!; try done.
  - destruct (pressButton_cases u s Hw Hc Hin) as (s1 & -> & Ht & Hd & Hn).
    exists s1. split; [by rewrite Ht|]. split_and!; try done.
Qed.

Lemma userSignalAndWait_cases_sample :
  waitOK (popped sampleStart) /\ callsSized (ele (popped sampleStart)) /\
  0 <= 0 < floors /\
  exists s', userSignalAndWait (newUser 1 0 1 300) (popped sampleStart) = Some s'.
Proof.
  pose proof (popped_waitOK _ sampleStart_reachable) as Hw.
  assert (Hc : callsSized (ele (popped sampleStart))).
  { rewrite popped_ele. apply (stateOK_callsSized (pend sampleStart)).
    apply reachable_stateOK, sampleStart_reachable. }
  split; [exact Hw|]. split; [exact Hc|]. split; [done|].
  pose proof (userSignalAndWait_cases (newUser 1 0 1 300) _ Hw Hc
                ltac:(simpl; unfold floors; lia)) as H.
  destruct H as (s1 & E & _). eexists. exact E.
Defined.

(** * E2 *)

Lemma clearCallsHere_eq s :
  callsSized (ele s) -> 0 <= floor (ele s) < floors ->
  clearCallsHere s =
  Some (upd_ele (fun e =>
          e_callCar (<[Z.to_nat (floor e) := false]> (callCar e))
            (e_callDown (<[Z.to_nat (floor e) := false]> (callDown e))
               (e_callUp (<[Z.to_nat (floor e) := false]> (callUp e)) e))) s).
Proof.
  intros (L1 & L2 & L3) Hf. unfold clearCallsHere.
  rewrite assign_insert by (rewrite L1; flia). cbn [ele upd_ele e_callUp callDown floor].
  rewrite assign_insert by (rewrite L2; flia). cbn [ele upd_ele e_callDown e_callUp callCar floor].
  rewrite assign_insert by (rewrite L3; flia). reflexivity.
Qed.

(** C5. On a well-formed state with one call entry per floor and the car at
    a floor of the building, [executeChangeOfState] returns; it sets the step
    to E2 and schedules E3 immediately through ELEV1, first on the WAIT
    list and due now.  If the direction is GOINGUP and no floor above has a
    call, the direction becomes GOINGDOWN when a floor below has a call and
    NEUTRAL when none has, and the three calls of the current floor are
    cleared; the same with the directions exchanged if the direction is
    GOINGDOWN and no floor below has a call; in every other case the
    direction and the three call slices are as before.  Nothing else of the
    elevator changes: the floor is as before, and an assignment at the index
    of the current floor leaves the entries of the other floors alone. *)
Theorem executeChangeOfState_cases s :
  waitOK s -> callsSized (ele s) -> 0 <= floor (ele s) < floors ->
  let e := ele s in
  let f := Z.to_nat (floor e) in
  exists st cu cd cc,
    executeChangeOfState s
    = Some (placed Elev1
              ((alloc s, newWaitElement (time s) wf_executeOpenDoors)
               :: delete (elev1 e) (wait s))
              (upd_ele (fun e => e_callCar cc (e_callDown cd (e_callUp cu
                          (e_state st (e_step stepChangeOfState e))))) s)) /\
    (state e = stateGoingUp -> ~ callAbove e ->
     (callBelow e -> st = stateGoingDown) /\ (~ callBelow e -> st = stateNeutral) /\
     cu = <[f := false]> (callUp e) /\ cd = <[f := false]> (callDown e) /\
     cc = <[f := false]> (callCar e)) /\
    (state e = stateGoingDown -> ~ callBelow e ->
     (callAbove e -> st = stateGoingUp) /\ (~ callAbove e -> st = stateNeutral) /\
     cu = <[f := false]> (callUp e) /\ cd = <[f := false]> (callDown e) /\
     cc = <[f := false]> (callCar e)) /\
    (~ (state e = stateGoingUp /\ ~ callAbove e) ->
     ~ (state e = stateGoingDown /\ ~ callBelow e) ->
     st = state e /\ cu = callUp e /\ cd = callDown e /\ cc = callCar e) /\
    (forall (a : list bool) j, j <> floor e -> 0 <= j ->
       pressed (<[f := false]> a) j = pressed a j).
Proof.
  intros Hw Hc Hf. cbv zeta.
  set (s0 := upd_ele (e_step stepChangeOfState) s).
  assert (Hc0 : callsSized (ele s0)) by exact Hc.
  assert (Hf0 : 0 <= floor (ele s0) < floors) by exact Hf.
  destruct (isAllCallsAboveFalse_eq s0 Hc0 Hf0) as (ba & Ea & Ha).
  destruct (isAllCallsBelowFalse_eq s0 Hc0 Hf0) as (bb & Eb & Hb).
  change (callAbove (ele s0)) with (callAbove (ele s)) in Ha.
  change (callBelow (ele s0)) with (callBelow (ele s)) in Hb.
  assert (Hframe : forall (a : list bool) j, j <> floor (ele s) -> 0 <= j ->
            pressed (<[Z.to_nat (floor (ele s)) := false]> a) j = pressed a j).
  { intros a j Hj H0. unfold pressed, index.
    destruct (j <? 0); [done|]. rewrite list_lookup_insert_ne; [done|]. lia. }
  unfold executeChangeOfState. fold s0. unfold changeOfState.
  change (state (ele s0)) with (state (ele s)). rewrite Ea, Eb.
  assert (Hclr : forall st,
    clearCallsHere (upd_ele (e_state st) s0)
    = Some (upd_ele (fun e =>
        e_callCar (<[Z.to_nat (floor (ele s)) := false]> (callCar (ele s)))
          (e_callDown (<[Z.to_nat (floor (ele s)) := false]> (callDown (ele s)))
             (e_callUp (<[Z.to_nat (floor (ele s)) := false]> (callUp (ele s)))
                (e_state st (e_step stepChangeOfState e))))) s)).
  { intros st. by rewrite clearCallsHere_eq. }
  assert (Hsame : forall st (r : list wnode), st = state (ele s) ->
    Some (upd_ele (setSlot Elev1 (Some (alloc s0)))
            (set_alloc (S (alloc s0)) (set_wait r s0)))
    = Some (placed Elev1 r
              (upd_ele (fun e => e_callCar (callCar (ele s))
                          (e_callDown (callDown (ele s)) (e_callUp (callUp (ele s))
                             (e_state st (e_step stepChangeOfState e))))) s))).
  { intros st r ->. unfold placed, s0. by destruct s as [? ? []]. }
  destruct (state (ele s)) eqn:Est.
  - (* going up *)
    rewrite bool_decide_eq_true_2 by done. rewrite andM_Some. cbn [andb].
    destruct ba.
    + destruct bb.
      * rewrite Hclr. rewrite scheduleElevatorImmediately_eq.
        eexists stateNeutral, _, _, _. split; [reflexivity|].
        split_and!; try done. intros H. by destruct H.
      * rewrite Hclr. rewrite scheduleElevatorImmediately_eq.
        eexists stateGoingDown, _, _, _. split; [reflexivity|].
        split_and!; try done. intros H. by destruct H.
    + rewrite bool_decide_eq_false_2 by done. rewrite andM_Some. cbn [andb].
      rewrite scheduleElevatorImmediately_eq.
      exists stateGoingUp, (callUp (ele s)), (callDown (ele s)), (callCar (ele s)).
      split; [by apply Hsame|]. split_and!; try done.
  - (* going down *)
    rewrite bool_decide_eq_false_2 by done. rewrite andM_Some. cbn [andb].
    rewrite bool_decide_eq_true_2 by done. rewrite andM_Some. cbn [andb].
    destruct bb.
    + destruct ba.
      * rewrite Hclr. rewrite scheduleElevatorImmediately_eq.
        eexists stateNeutral, _, _, _. split; [reflexivity|].
        split_and!; try done. intros _ H. by destruct H.
      * rewrite Hclr. rewrite scheduleElevatorImmediately_eq.
        eexists stateGoingUp, _, _, _. split; [reflexivity|].
        split_and!; try done. intros _ H. by destruct H.
    + rewrite scheduleElevatorImmediately_eq.
      exists stateGoingDown, (callUp (ele s)), (callDown (ele s)), (callCar (ele s)).
      split; [by apply Hsame|]. split_and!; try done.
  - rewrite bool_decide_eq_false_2 by done. rewrite andM_Some. cbn [andb].
    rewrite bool_decide_eq_false_2 by done. rewrite andM_Some. cbn [andb].
    rewrite scheduleElevatorImmediately_eq.
    exists stateNeutral, (callUp (ele s)), (callDown (ele s)), (callCar (ele s)).
    split; [by apply Hsame|]. split_and!; try done.
Qed.

Lemma executeChangeOfState_cases_sample :
  waitOK (popped (stateOf (sampleRun 7))) /\
  callsSized (ele (popped (stateOf (sampleRun 7)))) /\
  0 <= floor (ele (popped (stateOf (sampleRun 7)))) < floors /\
  exists s', executeChangeOfState (popped (stateOf (sampleRun 7))) = Some s'.
Proof.
  pose proof (sampleRun_state 7 ltac:(vm_compute; reflexivity)) as Hr.
  pose proof (popped_waitOK _ Hr) as Hw.
  pose proof (popped_callsSized _ Hr) as Hc.
  pose proof (popped_floor _ Hr) as Hf.
  split; [exact Hw|]. split; [exact Hc|]. split; [exact Hf|].
  destruct (executeChangeOfState_cases _ Hw Hc Hf) as (st & cu & cd & cc & E & _).
  eexists. exact E.
Defined.

(** * E7 and E8 *)

(** The test of E7 after the wait, as a boolean. *)
Lemma goUp_test s :
  callsSized (ele s) -> 0 <= floor (ele s) < floors ->
  exists c : bool,
    s_callCar s (floor (ele s)) ||| s_callUp s (floor (ele s))
    ||| ((Some (floor (ele s) =? 2) ||| s_callDown s (floor (ele s)))
         &&& isAllCallsAboveFalse s) = Some c /\
    (c = true <->
     pressed (callCar (ele s)) (floor (ele s)) = true \/
     pressed (callUp (ele s)) (floor (ele s)) = true \/
     ((floor (ele s) = floorHome \/ pressed (callDown (ele s)) (floor (ele s)) = true) /\
      ~ callAbove (ele s))).
Proof.
  intros Hc Hf.
  destruct (isAllCallsAboveFalse_eq s Hc Hf) as (ba & -> & Ha).
  rewrite s_callCar_eq, s_callUp_eq, s_callDown_eq by done. boolM.
  eexists. split; [reflexivity|].
  rewrite !orb_true_iff, andb_true_iff, orb_true_iff, Z.eqb_eq.
  unfold floorHome, floorFirst.
  destruct ba; [|split; [intros [[?|?]|[_ ?]]; [tauto|tauto|done]|tauto]].
  tauto.
Qed.

Lemma goDown_test s :
  callsSized (ele s) -> 0 <= floor (ele s) < floors ->
  exists c : bool,
    s_callCar s (floor (ele s)) ||| s_callDown s (floor (ele s))
    ||| ((Some (floor (ele s) =? 2) ||| s_callUp s (floor (ele s)))
         &&& isAllCallsBelowFalse s) = Some c /\
    (c = true <->
     pressed (callCar (ele s)) (floor (ele s)) = true \/
     pressed (callDown (ele s)) (floor (ele s)) = true \/
     ((floor (ele s) = floorHome \/ pressed (callUp (ele s)) (floor (ele s)) = true) /\
      ~ callBelow (ele s))).
Proof.
  intros Hc Hf.
  destruct (isAllCallsBelowFalse_eq s Hc Hf) as (bb & -> & Hb).
  rewrite s_callCar_eq, s_callUp_eq, s_callDown_eq by done. boolM.
  eexists. split; [reflexivity|].
  rewrite !orb_true_iff, andb_true_iff, orb_true_iff, Z.eqb_eq.
  unfold floorHome, floorFirst.
  destruct bb; [|split; [intros [[?|?]|[_ ?]]; [tauto|tauto|done]|tauto]].
  tauto.
Qed.

(** C6. On a well-formed state, [executeGoUpAFloor] returns, having set
    the step to E7, added one to the floor and scheduled the second half of
    E7 through ELEV1 at [time + 51].  That second half, run with one call
    entry per floor and the car at a floor of the building, schedules E2
    through ELEV1 at [time + 14] if the floor has a car call or an up call,
    or if it is the home floor or has a down call while no floor above has
    any call; if not, it schedules E7 again, immediately.  E8 is the same
    with up and down, above and below exchanged, and with 61 and 23 for 51
    and 14. *)
Theorem moving_a_floor s :
  waitOK s -> callsSized (ele s) ->
  let e := ele s in
  let f := floor e in
  let rest := delete (elev1 e) (wait s) in
  (exists r,
     executeGoUpAFloor s
     = Some (placed Elev1 r (upd_ele (e_floor (f + 1)) (upd_ele (e_step stepGoUpAFloor) s))) /\
     inserted (alloc s, newWaitElement (time s + 51) wf_executeGoUpAFloor2) rest r) /\
  (exists r,
     executeGoDownAFloor s
     = Some (placed Elev1 r (upd_ele (e_floor (f - 1)) (upd_ele (e_step stepGoDownAFloor) s))) /\
     inserted (alloc s, newWaitElement (time s + 61) wf_executeGoDownAFloor2) rest r) /\
  (0 <= f < floors ->
   let stop :=
     pressed (callCar e) f = true \/ pressed (callUp e) f = true \/
     ((f = floorHome \/ pressed (callDown e) f = true) /\ ~ callAbove e) in
   (stop -> exists r, executeGoUpAFloor2 s = Some (placed Elev1 r s) /\
      inserted (alloc s, newWaitElement (time s + 14) wf_executeChangeOfState) rest r) /\
   (~ stop -> executeGoUpAFloor2 s
      = Some (placed Elev1 ((alloc s, newWaitElement (time s) wf_executeGoUpAFloor) :: rest) s))) /\
  (0 <= f < floors ->
   let stop :=
     pressed (callCar e) f = true \/ pressed (callDown e) f = true \/
     ((f = floorHome \/ pressed (callUp e) f = true) /\ ~ callBelow e) in
   (stop -> exists r, executeGoDownAFloor2 s = Some (placed Elev1 r s) /\
      inserted (alloc s, newWaitElement (time s + 23) wf_executeChangeOfState) rest r) /\
   (~ stop -> executeGoDownAFloor2 s
      = Some (placed Elev1 ((alloc s, newWaitElement (time s) wf_executeGoDownAFloor) :: rest) s))).
Proof.
  intros Hw Hc. cbv zeta. split_and!.
  - unfold executeGoUpAFloor.
    destruct (scheduleElevator_inserted Elev1 51 wf_executeGoUpAFloor2
                (upd_ele (e_floor (floor (ele s) + 1)) (upd_ele (e_step stepGoUpAFloor) s)))
      as (r & E & Hi & _); [repeat (apply waitOK_upd; [by intros []|]); done|lia|].
    exists r. split; [exact E|exact Hi].
  - unfold executeGoDownAFloor.
    destruct (scheduleElevator_inserted Elev1 61 wf_executeGoDownAFloor2
                (upd_ele (e_floor (floor (ele s) - 1)) (upd_ele (e_step stepGoDownAFloor) s)))
      as (r & E & Hi & _); [repeat (apply waitOK_upd; [by intros []|]); done|lia|].
    exists r. split; [exact E|exact Hi].
  - intros Hf. unfold executeGoUpAFloor2. cbv zeta.
    destruct (goUp_test s Hc Hf) as (c & -> & Hstop). split.
    + intros H. apply Hstop in H as ->.
      destruct (scheduleElevator_inserted Elev1 14 wf_executeChangeOfState s Hw)
        as (r & E & Hi & _); [lia|]. by exists r.
    + intros H. destruct c; [destruct H; by apply Hstop|].
      by rewrite scheduleElevatorImmediately_eq.
  - intros Hf. unfold executeGoDownAFloor2. cbv zeta.
    destruct (goDown_test s Hc Hf) as (c & -> & Hstop). split.
    + intros H. apply Hstop in H as ->.
      destruct (scheduleElevator_inserted Elev1 23 wf_executeChangeOfState s Hw)
        as (r & E & Hi & _); [lia|]. by exists r.
    + intros H. destruct c; [destruct H; by apply Hstop|].
      by rewrite scheduleElevatorImmediately_eq.
Qed.

Lemma moving_a_floor_sample :
  waitOK (popped (stateOf (sampleRun 23))) /\
  callsSized (ele (popped (stateOf (sampleRun 23)))) /\
  exists r s', executeGoUpAFloor (popped (stateOf (sampleRun 23)))
               = Some (placed Elev1 r s').
Proof.
  pose proof (sampleRun_state 23 ltac:(vm_compute; reflexivity)) as Hr.
  pose proof (popped_waitOK _ Hr) as Hw.
  pose proof (popped_callsSized _ Hr) as Hc.
  split; [exact Hw|]. split; [exact Hc|].
  destruct (moving_a_floor _ Hw Hc) as ((r & E & _) & _).
  exists r. eexists. exact E.
Defined.

(** * E4 *)

Lemma find_none_Forall {A} (f : A -> bool) l :
  Forall (fun x => f x = false) l -> List.find f l = None.
Proof. induction 1 as [|x l Hx _ IH]; simpl; [done|]. by rewrite Hx. Qed.

Lemma find_skip {A} (f : A -> bool) l1 x l2 :
  Forall (fun y => f y = false) l1 -> f x = true ->
  List.find f (l1 ++ x :: l2) = Some x.
Proof.
  intros H Hx. induction H as [|y l Hy _ IH]; simpl.
  - by rewrite Hx.
  - by rewrite Hy.
Qed.

(** The search of E4 through the stack, from the last node back. *)
Lemma find_last_match (f : Z) (st1 st2 : list unode) p :
  out (snd p) = f -> Forall (fun q : unode => out (snd q) <> f) st2 ->
  List.find (fun q : unode => out (snd q) =? f) (rev (st1 ++ p :: st2)) = Some p.
Proof.
  intros Hp H2. rewrite rev_app_distr. simpl. rewrite <- app_assoc. simpl.
  apply find_skip; [|by apply Z.eqb_eq].
  apply List.Forall_forall. intros q Hq%in_rev. apply Z.eqb_neq.
  rewrite List.Forall_forall in H2. by apply H2.
Qed.

Lemma find_no_match (f : Z) (st : list unode) :
  Forall (fun q : unode => out (snd q) <> f) st ->
  List.find (fun q : unode => out (snd q) =? f) (rev st) = None.
Proof.
  intros H. apply find_none_Forall, List.Forall_forall.
  intros q Hq%in_rev. apply Z.eqb_neq. rewrite List.Forall_forall in H. by apply H.
Qed.

Lemma inserted_behind p x l r :
  inserted p (x :: l) r -> timeOf x <= timeOf p ->
  exists r', r = x :: r' /\ inserted p l r'.
Proof.
  intros (l1 & l2 & E & -> & H1 & H2) Hx. destruct l1 as [|y l1]; simpl in E.
  - subst l2. inversion H2; subst. lia.
  - injection E as <- ->. inversion H1; subst.
    exists (l1 ++ p :: l2). split; [done|]. by exists l1, l2.
Qed.

(** After an immediate insertion without a handle, E4 schedules itself
    again: the node just inserted stays first. *)
Lemma repeat_after_immed a s :
  waitOK s ->
  let s0 := upd_ele (e_step stepLetPeopleOutIn) s in
  exists r,
    scheduleElevator Elev1 25 wf_executeLetPeopleOutIn
      (snd (waitImmed (newWaitElement (time s0) a) s0))
    = Some (placed Elev1 ((alloc s, newWaitElement (time s) a) :: r)
              (set_alloc (S (alloc s)) s0)) /\
    inserted (S (alloc s), newWaitElement (time s + 25) wf_executeLetPeopleOutIn)
      (delete (elev1 (ele s)) (wait s)) r.
Proof.
  intros Hw s0.
  assert (Hne : elev1 (ele s) <> Some (alloc s)).
  { intros E. pose proof (w_alloc _ _ _ _ Hw Elev1 _ E). lia. }
  set (x := (alloc s, newWaitElement (time s) a)).
  assert (Hd : delete (elev1 (ele s)) (x :: wait s) = x :: delete (elev1 (ele s)) (wait s)).
  { destruct (elev1 (ele s)) as [n|] eqn:E; [|done].
    unfold delete, unlink, x. cbn [List.filter fst].
    destruct (Nat.eqb_spec (alloc s) n) as [Hn|]; [|done].
    destruct Hne. by rewrite Hn. }
  destruct (sortIn_inserted (x :: delete (elev1 (ele s)) (wait s)) (S (alloc s))
              (newWaitElement (time s + 25) wf_executeLetPeopleOutIn))
    as (r & Er & Hi & _).
  { apply ordered_cons. split; [apply (agendaOK_delete _ _ _ _ _ Hw)|].
    eapply Forall_impl; [apply (w_future _ _ _ _ (agendaOK_delete _ _ (elev1 (ele s)) _ _ Hw))|].
    intros q Hq. exact Hq. }
  { simpl. pose proof (w_time _ _ _ _ Hw). lia. }
  apply inserted_behind in Hi as (r' & -> & Hi); [|unfold timeOf; simpl; lia].
  exists r'. split; [|done].
  unfold scheduleElevator, waitSortIn, waitImmed, waitDelete, immed, insertRight.
  cbn [snd fst ele wait set_wait set_alloc upd_ele getSlot time alloc e_step elev1].
  change (elev1 (ele s0)) with (elev1 (ele s)).
  change (alloc s0) with (alloc s). change (time s0) with (time s).
  change (wait s0) with (wait s). fold x. rewrite Hd, Er. reflexivity.
Qed.

(** What U5 and U3 do to the stack and to the queue when they return. *)
Lemma userGetIn_stack u t t' n :
  userGetIn u t = Some t' -> listNode t !! id_ u = Some n ->
  stack (ele t') = delete (Some n) (stack (ele t)) ++ [(n, u)].
Proof.
  intros E Hn. unfold userGetIn in E. cbv zeta in E.
  cbn [listNode listDelete waitDelete upd_ele set_wait] in E. rewrite Hn in E.
  destruct (assign _ _ _) as [a|]; [|done].
  destruct (bool_decide _).
  - apply scheduleElevator_Some in E as (r & ->). by destruct (out u >? in_ u).
  - by injection E as <-.
Qed.

Lemma userEnterQueue_queue u t t' q :
  userEnterQueue u t = Some t' ->
  index (queue (ele t)) (in_ u) = Some q ->
  index (queue (ele t')) (in_ u) = Some (q ++ [(alloc t, u)]).
Proof.
  intros E Hq'. unfold userEnterQueue in E. cbv zeta in E.
  cbn [ele upd_ele set_listNode set_alloc queue] in E. rewrite Hq' in E.
  destruct (assign (queue (ele t)) (in_ u) _) as [qs|] eqn:Ea; [|done].
  unfold waitSortIn in E. destruct (sortIn _ _ _) as [l|]; [|done].
  injection E as <-. cbn. by apply (index_assign_eq _ _ _ _ Ea).
Qed.

(** U5 and U3 return: U5 when the car calls have an entry for OUT, U3 when
    there is a queue for IN and the user's patience is not negative, the
    clock not being negative. *)
Lemma userGetIn_Some u s b :
  0 <= time s -> index (callCar (ele s)) (out u) = Some b ->
  is_Some (userGetIn u s).
Proof.
  intros Ht Hb. unfold userGetIn. cbv zeta.
  set (s0 := match listNode _ !! id_ u with Some _ => _ | None => _ end).
  assert (H0 : callCar (ele s0) = callCar (ele s) /\ time s0 = time s).
  { unfold s0. simpl. by destruct (listNode s !! id_ u). }
  destruct H0 as [H0 H1]. clearbody s0.
  unfold assign. rewrite H0, Hb. simpl.
  destruct (bool_decide _); [|done].
  unfold scheduleElevator, waitSortIn.
  set (s1 := waitDelete _ _). set (w := newWaitElement _ _).
  destruct (sortIn_Some (wait s1) (alloc s1) w) as [r Hr].
  { unfold w, s1. simpl. destruct (out u >? in_ u); simpl; lia. }
  rewrite Hr. done.
Qed.

Lemma userEnterQueue_returns u s q :
  0 <= time s -> 0 <= giveUpTime u ->
  index (queue (ele s)) (in_ u) = Some q ->
  is_Some (userEnterQueue u s).
Proof.
  intros Ht Hg Hq. unfold userEnterQueue. cbv zeta.
  cbn [ele upd_ele set_listNode set_alloc queue]. rewrite Hq.
  unfold assign. rewrite Hq. simpl. unfold waitSortIn.
  match goal with |- context [sortIn ?l ?n ?w] =>
    destruct (sortIn_Some l n w) as [r Hr]; [simpl; lia|rewrite Hr] end.
  done.
Qed.

(** C7. On a well-formed state with one queue per floor and the car at a
    floor of the building, [executeLetPeopleOutIn] sets the step to E4 and
    then: if the stack holds a user whose floor [out] is the current one,
    it takes the last such node of the stack, puts U6 of that user first on
    the WAIT list, due now, and schedules E4 through ELEV1 at [time + 25];
    if the stack holds none and the queue of the floor is not empty, it
    does the same with U5 of the first user of that queue; if both fail it
    clears D1, sets D3 and leaves the WAIT list as it is.  The last node of
    the stack is the user who got in last and the first node of a queue the
    user who came first: [userGetIn], which returns whenever the car calls
    have an entry for the user's floor [out], puts its node at the end of
    the stack, and [userEnterQueue], which returns whenever there is a queue
    for the user's floor [in], puts its node at the end of that queue. *)
Theorem executeLetPeopleOutIn_cases s :
  waitOK s -> length (queue (ele s)) = Z.to_nat floors ->
  0 <= floor (ele s) < floors ->
  let e := ele s in
  let f := floor e in
  let s0 := upd_ele (e_step stepLetPeopleOutIn) s in
  let rest := delete (elev1 e) (wait s) in
  let again := (S (alloc s), newWaitElement (time s + 25) wf_executeLetPeopleOutIn) in
  (forall st1 n u st2,
     stack e = st1 ++ (n, u) :: st2 -> out u = f ->
     Forall (fun p : unode => out (snd p) <> f) st2 ->
     exists r,
       executeLetPeopleOutIn s
       = Some (placed Elev1 ((alloc s, newWaitElement (time s) (wf_userGetOut u)) :: r)
                 (set_alloc (S (alloc s)) s0)) /\
       inserted again rest r) /\
  (Forall (fun p : unode => out (snd p) <> f) (stack e) ->
   forall n u q, index (queue e) f = Some ((n, u) :: q) ->
     exists r,
       executeLetPeopleOutIn s
       = Some (placed Elev1 ((alloc s, newWaitElement (time s) (wf_userGetIn u)) :: r)
                 (set_alloc (S (alloc s)) s0)) /\
       inserted again rest r) /\
  (Forall (fun p : unode => out (snd p) <> f) (stack e) ->
   index (queue e) f = Some [] ->
   executeLetPeopleOutIn s = Some (upd_ele (e_d3 true) (upd_ele (e_d1 false) s0))) /\
  (forall u t t' n, userGetIn u t = Some t' -> listNode t !! id_ u = Some n ->
     stack (ele t') = delete (Some n) (stack (ele t)) ++ [(n, u)]) /\
  (forall u t t' q, userEnterQueue u t = Some t' ->
     index (queue (ele t)) (in_ u) = Some q ->
     index (queue (ele t')) (in_ u) = Some (q ++ [(alloc t, u)])) /\
  (forall u t n b, 0 <= time t -> listNode t !! id_ u = Some n ->
     index (callCar (ele t)) (out u) = Some b ->
     exists t', userGetIn u t = Some t' /\
       stack (ele t') = delete (Some n) (stack (ele t)) ++ [(n, u)]) /\
  (forall u t q, 0 <= time t -> 0 <= giveUpTime u ->
     index (queue (ele t)) (in_ u) = Some q ->
     exists t', userEnterQueue u t = Some t' /\
       index (queue (ele t')) (in_ u) = Some (q ++ [(alloc t, u)])).
Proof.
  intros Hw Hq Hf. cbv zeta. split_and!.
  - intros st1 n u st2 Est Hu H2. unfold executeLetPeopleOutIn. cbv zeta.
    cbn [ele upd_ele e_step stack floor]. rewrite Est.
    pose proof (find_last_match (floor (ele s)) st1 st2 (n, u) Hu H2) as Hfind.
    unfold unode in *. rewrite Hfind.
    destruct (repeat_after_immed (wf_userGetOut u) s Hw) as (r & E & Hi).
    exists r. split; [|done]. rewrite <- E.
    by destruct (waitImmed _ _).
  - intros Hst n u q Eq. unfold executeLetPeopleOutIn. cbv zeta.
    cbn [ele upd_ele e_step stack floor queue].
    pose proof (find_no_match _ _ Hst) as Hfind.
    unfold unode in *. rewrite Hfind, Eq.
    destruct (repeat_after_immed (wf_userGetIn u) s Hw) as (r & E & Hi).
    exists r. split; [|done]. rewrite <- E.
    by destruct (waitImmed _ _).
  - intros Hst Eq. unfold executeLetPeopleOutIn. cbv zeta.
    cbn [ele upd_ele e_step stack floor queue].
    pose proof (find_no_match _ _ Hst) as Hfind.
    unfold unode in *. by rewrite Hfind, Eq.
  - intros u t t' n. apply userGetIn_stack.
  - intros u t t' q. apply userEnterQueue_queue.
  - intros u t n b Ht Hn Hb. destruct (userGetIn_Some u t b Ht Hb) as [t' E].
    exists t'. split; [done|]. by apply userGetIn_stack.
  - intros u t q Ht Hg Hq'. destruct (userEnterQueue_returns u t q Ht Hg Hq') as [t' E].
    exists t'. split; [done|]. by apply userEnterQueue_queue.
Qed.

(** In the sample run: E4 of turn 9 finds the car empty at floor 0 and
    sends the user at the front of the queue in; E4 of turn 18 finds this
    user in the car at floor 1, the user's destination, and sends the user
    out. *)
Lemma executeLetPeopleOutIn_cases_sample :
  (waitOK (popped (stateOf (sampleRun 9))) /\
   length (queue (ele (popped (stateOf (sampleRun 9))))) = Z.to_nat floors /\
   0 <= floor (ele (popped (stateOf (sampleRun 9)))) < floors /\
   stack (ele (popped (stateOf (sampleRun 9)))) = [] /\
   index (queue (ele (popped (stateOf (sampleRun 9)))))
     (floor (ele (popped (stateOf (sampleRun 9)))))
   = Some [(4%nat, newUser 1 0 1 300)] /\
   exists r,
     executeLetPeopleOutIn (popped (stateOf (sampleRun 9)))
     = Some (placed Elev1
               ((alloc (popped (stateOf (sampleRun 9))),
                 newWaitElement (time (popped (stateOf (sampleRun 9))))
                   (wf_userGetIn (newUser 1 0 1 300))) :: r)
               (set_alloc (S (alloc (popped (stateOf (sampleRun 9)))))
                  (upd_ele (e_step stepLetPeopleOutIn) (popped (stateOf (sampleRun 9))))))) /\
  (waitOK (popped (stateOf (sampleRun 18))) /\
   length (queue (ele (popped (stateOf (sampleRun 18))))) = Z.to_nat floors /\
   0 <= floor (ele (popped (stateOf (sampleRun 18)))) < floors /\
   stack (ele (popped (stateOf (sampleRun 18)))) = [(4%nat, newUser 1 0 1 300)] /\
   out (newUser 1 0 1 300) = floor (ele (popped (stateOf (sampleRun 18)))) /\
   exists r,
     executeLetPeopleOutIn (popped (stateOf (sampleRun 18)))
     = Some (placed Elev1
               ((alloc (popped (stateOf (sampleRun 18))),
                 newWaitElement (time (popped (stateOf (sampleRun 18))))
                   (wf_userGetOut (newUser 1 0 1 300))) :: r)
               (set_alloc (S (alloc (popped (stateOf (sampleRun 18)))))
                  (upd_ele (e_step stepLetPeopleOutIn) (popped (stateOf (sampleRun 18))))))).
Proof.
  split.
  - pose proof (sampleRun_state 9 ltac:(vm_compute; reflexivity)) as Hr.
    pose proof (popped_waitOK _ Hr) as Hw.
    pose proof (popped_floor _ Hr) as Hf.
    assert (Hq : length (queue (ele (popped (stateOf (sampleRun 9))))) = Z.to_nat floors)
      by (vm_compute; reflexivity).
    assert (Hs : stack (ele (popped (stateOf (sampleRun 9)))) = [])
      by (vm_compute; reflexivity).
    assert (Hi : index (queue (ele (popped (stateOf (sampleRun 9)))))
                   (floor (ele (popped (stateOf (sampleRun 9)))))
                 = Some [(4%nat, newUser 1 0 1 300)]) by (vm_compute; reflexivity).
    split; [exact Hw|]. split; [exact Hq|]. split; [exact Hf|]. split; [exact Hs|].
    split; [exact Hi|].
    destruct (proj1 (proj2 (executeLetPeopleOutIn_cases _ Hw Hq Hf))
                ltac:(rewrite Hs; constructor) _ _ _ Hi) as (r & E & _).
    exists r. exact E.
  - pose proof (sampleRun_state 18 ltac:(vm_compute; reflexivity)) as Hr.
    pose proof (popped_waitOK _ Hr) as Hw.
    pose proof (popped_floor _ Hr) as Hf.
    assert (Hq : length (queue (ele (popped (stateOf (sampleRun 18))))) = Z.to_nat floors)
      by (vm_compute; reflexivity).
    assert (Hs : stack (ele (popped (stateOf (sampleRun 18)))) = [(4%nat, newUser 1 0 1 300)])
      by (vm_compute; reflexivity).
    assert (Ho : out (newUser 1 0 1 300) = floor (ele (popped (stateOf (sampleRun 18)))))
      by (vm_compute; reflexivity).
    split; [exact Hw|]. split; [exact Hq|]. split; [exact Hf|]. split; [exact Hs|].
    split; [exact Ho|].
    destruct (proj1 (executeLetPeopleOutIn_cases _ Hw Hq Hf)
                [] 4%nat (newUser 1 0 1 300) [] Hs Ho ltac:(constructor)) as (r & E & _).
    exists r. exact E.
Defined.

(** * The floor stays in the building *)

Lemma pressed_all_false n j : pressed (replicate n false) j = false.
Proof.
  unfold pressed, index. destruct (j <? 0); [done|].
  destruct (replicate n false !! Z.to_nat j) as [b|] eqn:E; [|done].
  by apply lookup_replicate in E as [-> _].
Qed.

(** The reason the text of C8 gives for the bound fails: in the sample run,
    after 23 turns, the car stands at floor 1 with no call on any floor, and
    E7 is scheduled all the same: DECISION, called by E6 with no call
    anywhere, has aimed the car at the home floor. *)
Lemma going_up_without_a_call :
  reachable (stateOf (sampleRun 23)) /\
  pend (stateOf (sampleRun 23)) wf_executeGoUpAFloor /\
  floor (ele (stateOf (sampleRun 23))) = 1 /\
  (forall j, hasCall (ele (stateOf (sampleRun 23))) j = false) /\
  ~ callAbove (ele (stateOf (sampleRun 23))).
Proof.
  assert (Hall : forall j, hasCall (ele (stateOf (sampleRun 23))) j = false).
  { intros j. unfold hasCall.
    replace (callUp (ele (stateOf (sampleRun 23)))) with (replicate 5 false)
      by (vm_compute; reflexivity).
    replace (callDown (ele (stateOf (sampleRun 23)))) with (replicate 5 false)
      by (vm_compute; reflexivity).
    replace (callCar (ele (stateOf (sampleRun 23)))) with (replicate 5 false)
      by (vm_compute; reflexivity).
    by rewrite !pressed_all_false. }
  split_and!.
  - apply (sampleRun_state 23). vm_compute. reflexivity.
  - vm_compute. by left.
  - vm_compute. reflexivity.
  - exact Hall.
  - intros (j & _ & Hj). by rewrite Hall in Hj.
Qed.

(** C8, amended.  In every state in which [main] stands at the top of its
    loop the floor is one of 0..4 and the three call slices and the slice of
    queues have five entries, so that the entries at the index of the floor
    exist; the turn from there, and any number of turns, never ends in a
    failed access.  E7 is scheduled only when a floor above has a call or
    the car is below the home floor, hence below floor 4; E8 only when a
    floor below has a call or the car is above the home floor, hence above
    floor 0; and when the second half of E7 finds the car at floor 4, or the
    second half of E8 finds it at floor 0, its test to stop succeeds. *)
Theorem floor_in_range s :
  reachable s ->
  let e := ele s in
  let f := floor e in
  0 <= f < floors /\
  length (callUp e) = Z.to_nat floors /\ length (callDown e) = Z.to_nat floors /\
  length (callCar e) = Z.to_nat floors /\ length (queue e) = Z.to_nat floors /\
  is_Some (index (callUp e) f) /\ is_Some (index (callDown e) f) /\
  is_Some (index (callCar e) f) /\ is_Some (index (queue e) f) /\
  (pend s wf_executeGoUpAFloor ->
   (callAbove e \/ f < floorHome) /\ f + 1 < floors) /\
  (pend s wf_executeGoDownAFloor ->
   (callBelow e \/ floorHome < f) /\ 0 <= f - 1) /\
  (pend s wf_executeGoUpAFloor2 -> f = floors - 1 ->
   pressed (callCar e) f = true \/ pressed (callUp e) f = true \/
   ((f = floorHome \/ pressed (callDown e) f = true) /\ ~ callAbove e)) /\
  (pend s wf_executeGoDownAFloor2 -> f = 0 ->
   pressed (callCar e) f = true \/ pressed (callDown e) f = true \/
   ((f = floorHome \/ pressed (callUp e) f = true) /\ ~ callBelow e)) /\
  (forall r, match mainIteration r s with Failed _ => False | _ => True end) /\
  (forall fuel rnd k,
     match mainLoop fuel rnd k s with Failed _ => False | _ => True end).
Proof.
  intros Hs. cbv zeta. pose proof (reachable_Inv s Hs) as HI.
  pose proof (reachable_stateOK s Hs) as He.
  pose proof (l_floor _ _ He) as Hf.
  assert (Hidx : forall A (a : list A), length a = Z.to_nat floors ->
            is_Some (index a (floor (ele s)))).
  { intros A a Ha. destruct (index_Some a (floor (ele s))) as [x Hx]; [|by exists x].
    rewrite Ha. flia. }
  split_and!; try apply He; try (apply Hidx; apply He).
  - intros H. pose proof (l_up _ _ He H) as Hup. split; [done|].
    destruct Hup as [(j & Hj & _)|]; flia.
  - intros H. pose proof (l_down _ _ He H) as Hdn. split; [done|].
    destruct Hdn as [(j & Hj & _)|]; flia.
  - intros H Htop.
    assert (Hno : ~ callAbove (ele s)) by (intros (j & Hj & _); flia).
    destruct (l_up2 _ _ He H) as [?|[Hc|?]]; [done| |flia].
    unfold hasCall in Hc. apply orb_true_iff in Hc as [Hc|Hc];
      [apply orb_true_iff in Hc as [Hc|Hc]|]; auto.
  - intros H Hbot.
    assert (Hno : ~ callBelow (ele s)) by (intros (j & Hj & _); flia).
    destruct (l_down2 _ _ He H) as [?|[Hc|?]]; [done| |flia].
    unfold hasCall in Hc. apply orb_true_iff in Hc as [Hc|Hc];
      [apply orb_true_iff in Hc as [Hc|Hc]|]; auto.
  - intros r. pose proof (mainIteration_Inv r s HI) as H.
    by destruct (mainIteration r s).
  - intros fuel rnd k. pose proof (mainLoop_Inv fuel rnd k s HI) as H.
    by destruct (mainLoop fuel rnd k s).
Qed.

Lemma floor_in_range_sample :
  0 <= floor (ele (stateOf (sampleRun 23))) < floors.
Proof.
  exact (proj1 (floor_in_range _ (sampleRun_state 23 ltac:(vm_compute; reflexivity)))).
Defined.

(** * The empty WAIT list *)

Lemma mainLoop_app fuel more rnd k s :
  mainLoop (fuel + more) rnd k s =
  match mainLoop fuel rnd k s with
  | Continue s' => mainLoop more rnd (fuel + k) s'
  | o => o
  end.
Proof.
  revert k s. induction fuel as [|fuel IH]; intros k s; simpl; [done|].
  destruct (mainIteration (rnd k) s); try done.
  rewrite IH. by replace (fuel + S k)%nat with (S (fuel + k)) by lia.
Qed.

(** C9. A turn of the loop of [main] that finds the WAIT list empty takes
    no node off and runs no listener: it reports the message and the loop
    stops, however many turns were still to come, and also when the list
    became empty after some turns of a run.  The message is reported in no
    other case. *)
Theorem empty_wait_list_stops s :
  wait s = [] ->
  (forall r, mainIteration r s = WaitQueueEmpty emptyMessage) /\
  (forall fuel rnd k, mainLoop (S fuel) rnd k s = WaitQueueEmpty emptyMessage) /\
  (forall fuel more rnd k s0,
     mainLoop fuel rnd k s0 = Continue s ->
     mainLoop (fuel + S more) rnd k s0 = WaitQueueEmpty emptyMessage) /\
  (forall r t m, mainIteration r t = WaitQueueEmpty m -> wait t = []).
Proof.
  intros Hs.
  assert (H1 : forall r, mainIteration r s = WaitQueueEmpty emptyMessage).
  { intros r. unfold mainIteration. by rewrite Hs. }
  split_and!.
  - exact H1.
  - intros fuel rnd k. simpl. by rewrite H1.
  - intros fuel more rnd k s0 E. rewrite mainLoop_app, E. simpl. by rewrite H1.
  - intros r t m. unfold mainIteration. destruct (wait t) as [|[n w] rest]; [done|].
    destruct (_ >=? _); [done|]. by destruct (execute _ _ _).
Qed.

Lemma empty_wait_list_stops_sample :
  wait newSimulator = [] /\
  mainLoop 3 (fun _ => sampleDraws) 0 newSimulator = WaitQueueEmpty emptyMessage.
Proof.
  split; [reflexivity|].
  exact (proj1 (proj2 (empty_wait_list_stops newSimulator eq_refl)) 2%nat _ 0%nat).
Defined.

(** * E9 *)



(** * What holds all along a run *)

Lemma NoDup_fst_eq {A} (l : list (node * A)) p q :
  NoDup (map fst l) -> In p l -> In q l -> fst p = fst q -> p = q.
Proof.
  induction l as [|x l IH]; [done|]. simpl. rewrite NoDup_cons.
  intros [Hx Hl] [->|Hp] [->|Hq] E; try done.
  - destruct Hx. apply list_elem_of_In, in_map_iff. exists q. by split.
  - destruct Hx. apply list_elem_of_In, in_map_iff. exists p. by split.
  - by apply IH.
Qed.

(** X1. At every turn of the loop of [main], two nodes of the WAIT list
    whose listeners are scheduled through the same handle are one node, the
    one the handle refers to: the elevator coroutine has at most one step
    scheduled (ELEV1), and there is at most one E5 (ELEV2) and at most one E9
    (ELEV3) on the list. *)
Theorem one_node_per_handle s :
  reachable s ->
  forall sl p q, In p (wait s) -> In q (wait s) ->
    slotOf (instOf p) = Some sl -> slotOf (instOf q) = Some sl ->
    p = q /\ getSlot sl (ele s) = Some (fst p).
Proof.
  intros Hs sl p q Hp Hq Ep Eq. pose proof (reachable_waitOK s Hs) as Hw.
  pose proof (w_handle _ _ _ _ Hw p sl Hp Ep) as E1.
  pose proof (w_handle _ _ _ _ Hw q sl Hq Eq) as E2.
  split; [|done].
  apply (NoDup_fst_eq (wait s)); [apply Hw|done|done|]. simpl in *. congruence.
Qed.

Lemma one_node_per_handle_sample :
  reachable (stateOf (sampleRun 8)) /\
  getSlot Elev1 (ele (stateOf (sampleRun 8))) = Some 11%nat.
Proof.
  pose proof (sampleRun_state 8 ltac:(vm_compute; reflexivity)) as Hr.
  split; [exact Hr|].
  refine (proj2 (one_node_per_handle _ Hr Elev1
            (11%nat, newWaitElement 180 wf_executeOpenDoors)
            (11%nat, newWaitElement 180 wf_executeOpenDoors) _ _ eq_refl eq_refl));
    vm_compute; left; reflexivity.
Defined.

(** X2. At every turn of the loop of [main], while a step of the elevator
    coroutine during which the doors are shut is scheduled (E1, E2, E6, or
    either half of E7 or E8), D3 is off, no E5 is scheduled and no user is
    about to get in; the same holds while the step is E1. *)
Theorem doors_shut_on_the_way s :
  reachable s ->
  (forall a, pend s a -> doorsShut a = true -> quiet (pend s) (ele s)) /\
  (step (ele s) = stepWaitForCall -> quiet (pend s) (ele s)).
Proof.
  intros Hs. pose proof (reachable_stateOK s Hs) as He. split.
  - apply (l_shut _ _ He).
  - apply (l_dormant _ _ He).
Qed.

Lemma doors_shut_on_the_way_sample :
  reachable (stateOf (sampleRun 23)) /\
  d3 (ele (stateOf (sampleRun 23))) = false.
Proof.
  pose proof (sampleRun_state 23 ltac:(vm_compute; reflexivity)) as Hr.
  split; [exact Hr|].
  refine (proj1 (proj1 (doors_shut_on_the_way _ Hr) wf_executeGoUpAFloor _ eq_refl)).
  vm_compute. left. reflexivity.
Defined.

(** X3. At every turn of the loop of [main], unless a step between leaving
    a floor and the change of state on arrival is scheduled (E2 or a half
    of E7 or E8), the direction has a reason: GOINGUP only with a call on a
    floor above or with the car below the home floor, GOINGDOWN only with a
    call on a floor below or with the car above the home floor. *)
Theorem direction_has_a_reason s :
  reachable s ->
  (forall a, pend s a -> inFlight a = false) ->
  (state (ele s) = stateGoingUp -> callAbove (ele s) \/ floor (ele s) < floorHome) /\
  (state (ele s) = stateGoingDown -> callBelow (ele s) \/ floorHome < floor (ele s)).
Proof.
  intros Hs Hno. destruct (reachable_Inv s Hs) as (_ & [_ [Hd|(a & Ha & Hf)]] & _).
  - exact Hd.
  - rewrite (Hno a Ha) in Hf. done.
Qed.

Lemma sample13_pending a :
  pend (stateOf (sampleRun 13)) a -> inFlight a = false.
Proof.
  unfold pend, pendIn.
  replace (map instOf (wait (stateOf (sampleRun 13))))
    with [wf_executePrepareToMove; wf_executeSetInactionIndicator;
          wf_userEnterPrepareForSuccessor] by (vm_compute; reflexivity).
  intros [<-|[<-|[<-|[]]]]; reflexivity.
Qed.

Lemma direction_has_a_reason_sample :
  reachable (stateOf (sampleRun 13)) /\
  (state (ele (stateOf (sampleRun 13))) = stateGoingUp ->
   callAbove (ele (stateOf (sampleRun 13))) \/
   floor (ele (stateOf (sampleRun 13))) < floorHome).
Proof.
  pose proof (sampleRun_state 13 ltac:(vm_compute; reflexivity)) as Hr.
  split; [exact Hr|].
  exact (proj1 (direction_has_a_reason _ Hr sample13_pending)).
Defined.

(** X4. At every turn of the loop of [main], every user standing in the
    queue of a floor entered on that floor and wants to go to another floor
    of the building, and a user about to get in (a scheduled U5) entered on
    the floor where the car is. *)
Theorem users_where_they_belong s :
  reachable s ->
  (forall f q p, index (queue (ele s)) f = Some q -> In p q ->
     in_ (snd p) = f /\ 0 <= f < floors /\ 0 <= out (snd p) < floors /\
     out (snd p) <> in_ (snd p)) /\
  (forall u, pend s (wf_userGetIn u) ->
     in_ u = floor (ele s) /\ 0 <= out u < floors /\ out u <> in_ u).
Proof.
  intros Hs. pose proof (reachable_stateOK s Hs) as He. split.
  - intros f q p Hq Hp.
    destruct (l_queue _ _ He f q p Hq Hp) as [(H1 & H2 & H3 & _) H4].
    rewrite H4 in *. done.
  - intros u Hu. destruct (l_getin _ _ He u Hu) as [(H1 & H2 & H3 & _) H4]. done.
Qed.

Lemma users_where_they_belong_sample :
  reachable (stateOf (sampleRun 10)) /\
  in_ (newUser 1 0 1 300) = floor (ele (stateOf (sampleRun 10))).
Proof.
  pose proof (sampleRun_state 10 ltac:(vm_compute; reflexivity)) as Hr.
  split; [exact Hr|].
  refine (proj1 (proj2 (users_where_they_belong _ Hr) (newUser 1 0 1 300) _)).
  vm_compute. left. reflexivity.
Defined.

(** * The clock *)

Lemma waitSortIn_time w s n s' :
  waitSortIn w s = Some (n, s') -> time s' = time s.
Proof.
  unfold waitSortIn. destruct (sortIn _ _ _); [|done]. by intros [= _ <-].
Qed.

Lemma scheduleElevator_time sl d a s s' :
  scheduleElevator sl d a s = Some s' -> time s' = time s.
Proof. by intros (r & ->)%scheduleElevator_Some. Qed.

Lemma decision_time s s' : decision s = Some s' -> time s' = time s.
Proof.
  assert (HD4 : forall j, decisionD4 j s = Some s' -> time s' = time s).
  { intros j. rewrite decisionD4_eq. destruct (_ && _).
    - by intros ->%scheduleElevator_time.
    - by intros [= <-]. }
  unfold decision. destruct (negb _); [by intros [= <-]|].
  destruct (_ &&& _) as [[]|]; [| |done].
  - apply scheduleElevator_time.
  - destruct (decisionScan _ _ _) as [[j|]|]; [apply HD4| |done].
    destruct (bool_decide _); [apply HD4|by intros [= <-]].
Qed.

Lemma clearCallsHere_time s s' : clearCallsHere s = Some s' -> time s' = time s.
Proof.
  unfold clearCallsHere.
  repeat (destruct (assign _ _ _); [|done]; cbn [ele upd_ele]).
  by intros [= <-].
Qed.

Lemma changeOfState_time s s' : changeOfState s = Some s' -> time s' = time s.
Proof.
  unfold changeOfState.
  destruct (_ &&& _) as [[]|]; [| |done].
  - destruct (isAllCallsBelowFalse s) as [[]|]; [| |done];
      by intros ->%clearCallsHere_time.
  - destruct (_ &&& _) as [[]|]; [| |done].
    + destruct (isAllCallsAboveFalse s) as [[]|]; [| |done];
        by intros ->%clearCallsHere_time.
    + by intros [= <-].
Qed.

Lemma clearCallsOnLeaving_time s s' :
  clearCallsOnLeaving s = Some s' -> time s' = time s.
Proof.
  unfold clearCallsOnLeaving.
  destruct (assign _ _ _); [|done]. cbn [ele upd_ele e_callCar state].
  destruct (negb _).
  - destruct (assign _ _ _); [|done]. cbn [ele upd_ele e_callUp state].
    destruct (negb _); [|by intros [= <-]].
    destruct (assign _ _ _); [|done]. by intros [= <-].
  - destruct (negb _); [|by intros [= <-]].
    destruct (assign _ _ _); [|done]. by intros [= <-].
Qed.

(** No listener touches the clock. *)
Lemma execute_time a r s s' : execute a r s = Some s' -> time s' = time s.
Proof.
  destruct a; simpl.
  - (* U1 *) unfold userEnterPrepareForSuccessor. cbv zeta.
    destruct (waitSortIn _ _) as [[n t]|] eqn:E; [|done].
    apply waitSortIn_time in E. unfold waitImmed. by intros [= <-].
  - (* U2 *) unfold userSignalAndWait.
    match goal with |- context [let? s1 := ?X in _] => destruct X as [t|] eqn:E end;
      [|done].
    unfold waitImmed. intros [= <-]. cbn.
    destruct (_ && _); [by injection E as <-|].
    destruct (_ && _); [by injection E as <-|].
    destruct (out u >? in_ u);
      (destruct (assign _ _ _); [|done]); cbn [ele upd_ele d2 step] in E;
      (destruct (_ || _); [by apply decision_time in E|by injection E as <-]).
  - (* U3 *) unfold userEnterQueue. cbv zeta.
    destruct (index _ _); [|done]. destruct (assign _ _ _); [|done].
    destruct (waitSortIn _ _) as [[n t]|] eqn:E; [|done].
    apply waitSortIn_time in E. by intros [= <-].
  - (* U4 *) unfold userGiveUp. destruct (_ || _); by intros [= <-].
  - (* U5 *) unfold userGetIn. cbv zeta.
    destruct (assign _ _ _); [|done].
    destruct (bool_decide _); [|intros [= <-]; cbn; by destruct (_ !! _)].
    intros ->%scheduleElevator_time.
    destruct (out u >? in_ u); cbn; by destruct (_ !! _).
  - (* U6 *) unfold userGetOut. by intros [= <-].
  - (* E1 *) unfold executeWaitForCall. by intros [= <-].
  - (* E2 *) unfold executeChangeOfState. cbv zeta.
    destruct (changeOfState _) as [t|] eqn:E; [|done].
    apply changeOfState_time in E. by intros [= <-].
  - (* E3 *) unfold executeOpenDoors. cbv zeta.
    destruct (scheduleElevator Elev3 _ _ _) as [t1|] eqn:E1; [|done].
    destruct (scheduleElevator Elev2 _ _ _) as [t2|] eqn:E2; [|done].
    intros E3. apply scheduleElevator_time in E1, E2, E3. by rewrite E3, E2, E1.
  - (* E4 *) unfold executeLetPeopleOutIn. cbv zeta.
    destruct (List.find _ _) as [[n u]|].
    + unfold waitImmed. by intros ->%scheduleElevator_time.
    + destruct (index _ _) as [[|[n u] q]|]; [| |done].
      * by intros [= <-].
      * unfold waitImmed. by intros ->%scheduleElevator_time.
  - (* E5 *) unfold executeCloseDoors. cbv zeta.
    destruct (d1 _); by intros ->%scheduleElevator_time.
  - (* E6 *) unfold executePrepareToMove. cbv zeta.
    destruct (clearCallsOnLeaving _) as [t1|] eqn:E1; [|done].
    destruct (decision t1) as [t2|] eqn:E2; [|done].
    apply clearCallsOnLeaving_time in E1. apply decision_time in E2.
    cbn [time upd_ele] in E1.
    destruct (bool_decide (state (ele t2) = stateNeutral)).
    + intros [= <-]. rewrite scheduleElevatorImmediately_eq. cbn. congruence.
    + destruct (bool_decide _); intros ->%scheduleElevator_time;
        destruct (d2 (ele t2)); cbn; congruence.
  - (* E7 *) unfold executeGoUpAFloor. by intros ->%scheduleElevator_time.
  - (* E7, second half *) unfold executeGoUpAFloor2. cbv zeta.
    destruct (_ ||| _) as [[]|]; [| |done].
    + by intros ->%scheduleElevator_time.
    + intros [= <-]. by rewrite scheduleElevatorImmediately_eq.
  - (* E8 *) unfold executeGoDownAFloor. by intros ->%scheduleElevator_time.
  - (* E8, second half *) unfold executeGoDownAFloor2. cbv zeta.
    destruct (_ ||| _) as [[]|]; [| |done].
    + by intros ->%scheduleElevator_time.
    + intros [= <-]. by rewrite scheduleElevatorImmediately_eq.
  - (* E9 *) unfold executeSetInactionIndicator. by intros ->%decision_time.
Qed.

Lemma mainIteration_time r s :
  waitOK s ->
  match mainIteration r s with
  | Continue s' =>
      time s <= time s' < maxTime /\
      exists n w rest, wait s = (n, w) :: rest /\ time s' = nextTime w
  | TimeIsUp s' => time s <= time s' /\ maxTime <= time s'
  | WaitQueueEmpty _ => wait s = []
  | Failed _ => True
  end.
Proof.
  intros Hw. unfold mainIteration.
  destruct (wait s) as [|[n w] rest] eqn:Ew; [done|].
  assert (Hle : time s <= nextTime w).
  { pose proof (w_future _ _ _ _ Hw) as Hf. rewrite Ew in Hf. by inversion Hf. }
  cbv zeta. cbn [time popFirst set_time].
  destruct (Z.geb_spec (nextTime w) maxTime) as [Hm|Hm]; [done|].
  destruct (execute _ _ _) as [s'|] eqn:E; [|done].
  apply execute_time in E. cbn [time popFirst set_time] in E.
  split; [lia|]. by exists n, w, rest.
Qed.

(** X5. The clock never runs back and no listener runs at [maxTime] or
    later: a turn of the loop of [main] that runs a listener leaves the clock
    at the time the first node of the WAIT list was due, which is not before
    the clock it found and is before [maxTime]; a turn that stops the loop
    for the time has found a node due at [maxTime] or later; and after any
    number of turns the clock is not before where it was. *)
Theorem clock_never_runs_back s :
  reachable s ->
  (forall r,
     match mainIteration r s with
     | Continue s' =>
         time s <= time s' < maxTime /\
         exists n w rest, wait s = (n, w) :: rest /\ time s' = nextTime w
     | TimeIsUp s' => time s <= time s' /\ maxTime <= time s'
     | WaitQueueEmpty _ => wait s = []
     | Failed _ => False
     end) /\
  (forall fuel rnd k s', mainLoop fuel rnd k s = Continue s' -> time s <= time s').
Proof.
  intros Hs. split.
  - intros r. pose proof (mainIteration_time r s (reachable_waitOK s Hs)) as H.
    pose proof (mainIteration_Inv r s (reachable_Inv s Hs)) as H'.
    by destruct (mainIteration r s).
  - intros fuel. revert s Hs. induction fuel as [|fuel IH]; intros s Hs rnd k s'; simpl.
    + intros [= <-]. lia.
    + pose proof (mainIteration_time (rnd k) s (reachable_waitOK s Hs)) as H.
      destruct (mainIteration (rnd k) s) as [s1| | |] eqn:E; try done.
      intros E'. apply IH in E'; [lia|]. by apply (reachable_turn (rnd k) s).
Qed.

Lemma clock_never_runs_back_sample :
  reachable (stateOf (sampleRun 3)) /\
  time (stateOf (sampleRun 3)) <= time (stateOf (sampleRun 23)).
Proof.
  pose proof (sampleRun_state 3 ltac:(vm_compute; reflexivity)) as Hr.
  split; [exact Hr|].
  refine (proj2 (clock_never_runs_back _ Hr) 20%nat (fun _ => sampleDraws) 3%nat _ _).
  vm_compute. reflexivity.
Defined.

(** * When SORTIN does not come back *)

Lemma sortInWalk_None p back :
  sortInWalk p back = None <->
  nextTime (snd p) < 0 /\ Forall (fun x => nextTime (snd p) < timeOf x) back.
Proof.
  induction back as [|x back IH]; simpl.
  - destruct (Z.geb_spec (nextTime (snd p)) 0) as [H|H].
    + split; [done|]. intros [? _]. lia.
    + split; [|done]. intros _. split; [lia|constructor].
  - destruct (Z.geb_spec (nextTime (snd p)) (nextTime (snd x))) as [H|H].
    + split; [done|]. intros [_ Hf]. inversion Hf; subst. unfold timeOf in *. lia.
    + destruct (sortInWalk p back) as [r|] eqn:E.
      * split; [done|]. intros [H0 Hf]. inversion Hf; subst.
        assert (Some r = None) by (apply IH; done). done.
      * split; [|done]. intros _. destruct (proj1 IH eq_refl) as [H0 Hf].
        split; [done|]. constructor; [exact H|done].
Qed.

(** X6. [sortIn] walks the list from its last node back and stops at the
    first node, or at the list head, which counts as due at time 0, that is
    due no later than the new entry.  So it fails to return exactly when the
    new entry is due at a negative time and every node of the list is due
    later than it: the walk then goes round the list for ever.  When it
    returns, the old nodes are in their old order, the new node stands
    before all the nodes due later than it and next behind a node due no
    later than it, or first if its time is not negative. *)
Theorem sortIn_returns l n w :
  (sortIn l n w = None <->
   nextTime w < 0 /\ Forall (fun p => nextTime w < timeOf p) l) /\
  (forall r, sortIn l n w = Some r ->
     exists l1 l2, l = l1 ++ l2 /\ r = l1 ++ (n, w) :: l2 /\
       Forall (fun p => nextTime w < timeOf p) l2 /\
       match last l1 with
       | Some x => timeOf x <= nextTime w
       | None => 0 <= nextTime w
       end).
Proof.
  split.
  - unfold sortIn.
    destruct (sortInWalk (n, w) (rev l)) as [r|] eqn:E.
    + split; [done|]. intros [H0 Hf].
      assert (sortInWalk (n, w) (rev l) = None); [|congruence].
      apply sortInWalk_None. split; [done|].
      apply List.Forall_forall. intros x Hx%in_rev.
      rewrite List.Forall_forall in Hf. by apply Hf.
    + split; [|done]. intros _. apply sortInWalk_None in E as [H0 Hf].
      split; [done|]. apply List.Forall_forall. intros x Hx%in_rev.
      rewrite List.Forall_forall in Hf. by apply Hf.
  - intros r Hr. destruct (sortIn_spec _ _ _ _ Hr) as (l1 & l2 & -> & -> & H2 & H1).
    by exists l1, l2.
Qed.

(** * U1 *)

(** X7. On a well-formed state, whatever the four random draws are,
    [userEnterPrepareForSuccessor] returns: it adds one to the user counter
    and makes a user with this number who enters on one of the floors 0..4,
    wants to go to another of them and will wait for at least
    [minGiveUpTime] and less than [maxGiveUpTime]; it puts a node for the
    next U1 on the WAIT list, in its place by time, due at least
    [minInterTime] and less than [maxInterTime] from now, and then a node
    for U2 of the new user first on the list, due now.  The elevator is not
    touched. *)
Theorem userEnterPrepareForSuccessor_spec r s :
  waitOK s ->
  exists u d rest,
    userEnterPrepareForSuccessor r s
    = Some (set_alloc (S (S (alloc s)))
              (set_wait ((S (alloc s), newWaitElement (time s) (wf_userSignalAndWait u))
                         :: rest)
                 (set_userID (userID s + 1) s))) /\
    id_ u = userID s + 1 /\
    0 <= in_ u < floors /\ 0 <= out u < floors /\ out u <> in_ u /\
    minGiveUpTime <= giveUpTime u < maxGiveUpTime /\
    minInterTime <= d < maxInterTime /\
    inserted (alloc s, newWaitElement (time s + d) wf_userEnterPrepareForSuccessor)
      (wait s) rest.
Proof.
  intros Hw.
  pose proof (Int31n_range (r_in r) floors eq_refl) as Hi.
  pose proof (Int31n_range (r_out r) (floors - 1) eq_refl) as Ho.
  pose proof (Int31n_range (r_giveUp r) (maxGiveUpTime - minGiveUpTime) eq_refl) as Hg.
  pose proof (Int31n_range (r_inter r) (maxInterTime - minInterTime) eq_refl) as Ht.
  set (d := minInterTime + Int31n (r_inter r) (maxInterTime - minInterTime)).
  destruct (sortIn_inserted (wait s) (alloc s)
              (newWaitElement (time s + d) wf_userEnterPrepareForSuccessor))
    as (rest & Er & Hins & _).
  { apply Hw. }
  { simpl. pose proof (w_time _ _ _ _ Hw). unfold d, minInterTime in *. lia. }
  eexists _, d, rest. split.
  - unfold userEnterPrepareForSuccessor, waitSortIn, waitImmed, immed, insertRight.
    cbv zeta. cbn [time wait alloc set_userID set_wait set_alloc userID].
    fold d. rewrite Er. reflexivity.
  - cbn [id_ in_ out giveUpTime]. clear Er.
    unfold d, minInterTime, maxInterTime, minGiveUpTime, maxGiveUpTime in *.
    destruct (Z.geb_spec (Int31n (r_out r) (floors - 1)) (Int31n (r_in r) floors));
      split_and!; try done; flia.
Qed.

Lemma userEnterPrepareForSuccessor_spec_sample :
  waitOK newSimulator /\
  exists s', userEnterPrepareForSuccessor sampleDraws newSimulator = Some s'.
Proof.
  assert (Hw : waitOK newSimulator) by apply Mid_newSimulator.
  split; [exact Hw|].
  destruct (userEnterPrepareForSuccessor_spec sampleDraws newSimulator Hw)
    as (u & d & rest & E & _).
  eexists. exact E.
Defined.

(** * E6 *)

Lemma pressed_insert_eq (a : list bool) j v :
  0 <= j < Z.of_nat (length a) -> pressed (<[Z.to_nat j := v]> a) j = v.
Proof.
  intros H. unfold pressed, index. destruct (Z.ltb_spec j 0); [lia|].
  rewrite list_lookup_insert_eq; [done|lia].
Qed.

Lemma pressed_insert_ne (a : list bool) j k v :
  k <> j -> 0 <= j -> pressed (<[Z.to_nat j := v]> a) k = pressed a k.
Proof.
  intros Hk Hj. unfold pressed, index. destruct (Z.ltb_spec k 0); [done|].
  rewrite list_lookup_insert_ne; [done|lia].
Qed.

Lemma pressed_outside (a : list bool) j :
  ~ 0 <= j < Z.of_nat (length a) -> pressed a j = false.
Proof.
  intros H. unfold pressed, index. destruct (Z.ltb_spec j 0); [done|].
  rewrite lookup_ge_None_2; [done|lia].
Qed.

Lemma clearCallsOnLeaving_eq s :
  callsSized (ele s) -> 0 <= floor (ele s) < floors ->
  let f := Z.to_nat (floor (ele s)) in
  clearCallsOnLeaving s =
  Some (upd_ele (fun e =>
          e_callDown (if bool_decide (state (ele s) = stateGoingUp)
                      then callDown (ele s) else <[f := false]> (callDown (ele s)))
            (e_callUp (if bool_decide (state (ele s) = stateGoingDown)
                       then callUp (ele s) else <[f := false]> (callUp (ele s)))
               (e_callCar (<[f := false]> (callCar (ele s))) e))) s).
Proof.
  intros (L1 & L2 & L3) Hf. cbv zeta. unfold clearCallsOnLeaving.
  rewrite assign_insert by (rewrite L3; flia). simpl.
  destruct (bool_decide (state (ele s) = stateGoingDown)) eqn:Ed; simpl.
  - destruct (bool_decide (state (ele s) = stateGoingUp)) eqn:Eu; simpl.
    + apply bool_decide_eq_true in Ed, Eu. congruence.
    + rewrite assign_insert by (rewrite L2; flia). by destruct s as [? ? []].
  - rewrite assign_insert by (rewrite L1; flia). simpl.
    destruct (bool_decide (state (ele s) = stateGoingUp)) eqn:Eu; simpl.
    + by destruct s as [? ? []].
    + rewrite assign_insert by (rewrite L2; flia). reflexivity.
Qed.

(** DECISION as E6 calls it: it sets the direction at most. *)
Lemma decision_in_E6 s :
  callsSized (ele s) -> step (ele s) = stepPrepareToMove ->
  exists st,
    decision s = Some (upd_ele (e_state st) s) /\
    (state (ele s) <> stateNeutral -> st = state (ele s)) /\
    (st = stateNeutral ->
     state (ele s) = stateNeutral /\ floor (ele s) = floorHome /\
     forall j, 0 <= j < floors -> j <> floor (ele s) -> hasCall (ele s) j = false).
Proof.
  intros Hc H6.
  destruct (decide (state (ele s) = stateNeutral)) as [Hn|Hn].
  - destruct (decision_scan s Hc Hn) as (o & Ho & E).
    { intros [H1 _]. congruence. }
    rewrite E. unfold target. rewrite bool_decide_eq_true_2 by done.
    assert (HD : forall j, decisionD4 j s
              = Some (upd_ele (e_state (heading (floor (ele s)) j stateNeutral)) s)).
    { intros j. rewrite decisionD4_eq, Hn.
      rewrite (bool_decide_eq_false_2 (step (ele s) = stepWaitForCall)) by congruence.
      done. }
    destruct o as [j|]; rewrite HD; eexists; (split; [reflexivity|]); (split; [done|]).
    + destruct Ho as (Hj & Hjf & _). unfold heading.
      destruct (Z.gtb_spec (floor (ele s)) j); [done|].
      destruct (Z.ltb_spec (floor (ele s)) j); [done|]. lia.
    + unfold heading.
      destruct (Z.gtb_spec (floor (ele s)) floorHome); [done|].
      destruct (Z.ltb_spec (floor (ele s)) floorHome); [done|].
      intros _. split; [done|]. split; [lia|]. exact Ho.
  - exists (state (ele s)). rewrite decision_moving by done.
    split; [by rewrite upd_state_same|]. split; [done|]. by intros E.
Qed.

Lemma executePrepareToMove_Some s :
  waitOK s -> callsSized (ele s) -> 0 <= floor (ele s) < floors ->
  let e := ele s in
  let f := floor e in
  exists s',
    executePrepareToMove s = Some s' /\
    step (ele s') = stepPrepareToMove /\ floor (ele s') = f /\ time s' = time s /\
    pressed (callCar (ele s')) f = false /\
    (state e <> stateGoingDown -> pressed (callUp (ele s')) f = false) /\
    (state e <> stateGoingUp -> pressed (callDown (ele s')) f = false) /\
    (forall j, j <> f -> hasCall (ele s') j = hasCall e j) /\
    (state e <> stateNeutral -> state (ele s') = state e) /\
    (state (ele s') = stateNeutral ->
     state e = stateNeutral /\ f = floorHome /\
     (forall j, hasCall (ele s') j = false) /\
     head (wait s') = Some (alloc s, newWaitElement (time s) wf_executeWaitForCall)) /\
    (state (ele s') = stateGoingUp ->
     In (alloc s, newWaitElement (time s + 15) wf_executeGoUpAFloor) (wait s') /\
     (d2 e = true -> ~ pend s' wf_executeSetInactionIndicator)) /\
    (state (ele s') = stateGoingDown ->
     In (alloc s, newWaitElement (time s + 15) wf_executeGoDownAFloor) (wait s') /\
     (d2 e = true -> ~ pend s' wf_executeSetInactionIndicator)) /\
    (pend s' wf_executeWaitForCall -> state (ele s') = stateNeutral).
Proof.
  intros Hw Hc Hf. cbv zeta.
  pose proof Hc as (L1 & L2 & L3).
  unfold executePrepareToMove. cbv zeta.
  rewrite (clearCallsOnLeaving_eq (upd_ele (e_step stepPrepareToMove) s) Hc Hf).
  cbv zeta. cbn [ele upd_ele e_step state floor callUp callDown callCar].
  set (cu := if bool_decide (state (ele s) = stateGoingDown) then callUp (ele s)
             else <[Z.to_nat (floor (ele s)) := false]> (callUp (ele s))).
  set (cd := if bool_decide (state (ele s) = stateGoingUp) then callDown (ele s)
             else <[Z.to_nat (floor (ele s)) := false]> (callDown (ele s))).
  set (cc := <[Z.to_nat (floor (ele s)) := false]> (callCar (ele s))).
  set (s1 := upd_ele _ (upd_ele (e_step stepPrepareToMove) s)).
  assert (Hcu : length cu = Z.to_nat floors /\
            (state (ele s) <> stateGoingDown -> pressed cu (floor (ele s)) = false) /\
            forall j, j <> floor (ele s) -> pressed cu j = pressed (callUp (ele s)) j).
  { unfold cu. destruct (decide (state (ele s) = stateGoingDown)) as [E|E].
    - rewrite bool_decide_eq_true_2 by done. done.
    - rewrite bool_decide_eq_false_2 by done. rewrite length_insert.
      split; [done|]. split.
      + intros _. apply pressed_insert_eq. rewrite L1. flia.
      + intros j Hj. apply pressed_insert_ne; [done|lia]. }
  assert (Hcd : length cd = Z.to_nat floors /\
            (state (ele s) <> stateGoingUp -> pressed cd (floor (ele s)) = false) /\
            forall j, j <> floor (ele s) -> pressed cd j = pressed (callDown (ele s)) j).
  { unfold cd. destruct (decide (state (ele s) = stateGoingUp)) as [E|E].
    - rewrite bool_decide_eq_true_2 by done. done.
    - rewrite bool_decide_eq_false_2 by done. rewrite length_insert.
      split; [done|]. split.
      + intros _. apply pressed_insert_eq. rewrite L2. flia.
      + intros j Hj. apply pressed_insert_ne; [done|lia]. }
  assert (Hcc : length cc = Z.to_nat floors /\ pressed cc (floor (ele s)) = false /\
            forall j, j <> floor (ele s) -> pressed cc j = pressed (callCar (ele s)) j).
  { unfold cc. rewrite length_insert. split; [done|]. split.
    - apply pressed_insert_eq. rewrite L3. flia.
    - intros j Hj. apply pressed_insert_ne; [done|lia]. }
  destruct Hcu as (Lu & Hu0 & Hu). destruct Hcd as (Ld & Hd0 & Hd).
  destruct Hcc as (Lc & Hc0 & Hcj).
  clearbody cu cd cc.
  assert (Hw1 : waitOK s1) by (unfold s1; repeat (apply waitOK_upd; [by intros []|]); done).
  assert (Hc1 : callsSized (ele s1)) by done.
  destruct (decision_in_E6 s1 Hc1 eq_refl) as (st & -> & Hkeep & Hneutral).
  cbn [ele upd_ele e_state state d2 elev3].
  set (s2 := upd_ele (e_state st) s1).
  assert (Hw2 : waitOK s2) by (apply waitOK_upd; [by intros []|done]).
  assert (Hsame : forall j, j <> floor (ele s) -> hasCall (ele s2) j = hasCall (ele s) j).
  { intros j Hj. unfold hasCall. simpl. by rewrite Hu, Hd, Hcj. }
  set (sd := if d2 (ele s1) then waitDelete (elev3 (ele s1)) s2 else s2).
  assert (Hsd : waitOK sd /\ ele sd = ele s2 /\ time sd = time s /\ alloc sd = alloc s /\
            (d2 (ele s) = true -> ~ pend sd wf_executeSetInactionIndicator)).
  { unfold sd. simpl. destruct (d2 (ele s)).
    - split; [by apply waitOK_waitDelete|]. split_and!; try done.
      intros _ Hx. unfold pend, waitDelete in Hx. simpl in Hx.
      by apply (pendIn_handle_deleted (time s2) (wait s2) (alloc s2)
                  (fun k => getSlot k (ele s2)) Elev3 _ Hw2) in Hx as [_ Hx].
    - split_and!; done. }
  clearbody sd. destruct Hsd as (Hwd & Hed & Htd & Had & Hno).
  rewrite Hed. change (state (ele s2)) with st.
  assert (Hup : forall a, slotOf a = Some Elev1 -> a <> wf_executeWaitForCall ->
            exists s', scheduleElevator Elev1 15 a sd = Some s' /\
              ele s' = setSlot Elev1 (Some (alloc sd)) (ele s2) /\ time s' = time s /\
              In (alloc s, newWaitElement (time s + 15) a) (wait s') /\
              (d2 (ele s) = true -> ~ pend s' wf_executeSetInactionIndicator) /\
              ~ pend s' wf_executeWaitForCall).
  { intros a Ha Hst.
    destruct (scheduleElevator_spec Elev1 15 a sd Hwd)
      as (s' & E & Hw' & Hele & Ht & _ & _ & _ & HP); [lia|done|].
    destruct (scheduleElevator_inserted Elev1 15 a sd Hwd)
      as (r & E' & Hins & _); [lia|].
    exists s'. split; [done|]. split; [by rewrite Hele, Hed|].
    split; [by rewrite Ht|]. split.
    - rewrite E in E'. injection E' as ->. simpl.
      apply (inserted_In _ _ _ _ Hins). left. by rewrite Had, Htd.
    - split.
      + intros H2 Hx. apply HP in Hx as [Hx|[Hx _]]; [by subst a|]. by apply Hno.
      + intros Hx. apply HP in Hx as [Hx|[_ Hx]]; [by subst a|done]. }
  destruct st.
  - (* going up *)
    rewrite (bool_decide_eq_false_2 (stateGoingUp = stateNeutral)) by done.
    rewrite (bool_decide_eq_true_2 (stateGoingUp = stateGoingUp)) by done.
    destruct (Hup wf_executeGoUpAFloor eq_refl) as (s' & E & Hele & Ht & Hin & H9 & H1); [done|].
    exists s'. split; [done|]. rewrite Hele. simpl.
    split_and!; try done; auto.
  - (* going down *)
    rewrite (bool_decide_eq_false_2 (stateGoingDown = stateNeutral)) by done.
    rewrite (bool_decide_eq_false_2 (stateGoingDown = stateGoingUp)) by done.
    destruct (Hup wf_executeGoDownAFloor eq_refl) as (s' & E & Hele & Ht & Hin & H9 & H1); [done|].
    exists s'. split; [done|]. rewrite Hele. simpl.
    split_and!; try done; auto.
  - (* neutral *)
    rewrite (bool_decide_eq_true_2 (stateNeutral = stateNeutral)) by done.
    destruct (Hneutral eq_refl) as (Hn & Hh & Hnone). simpl in Hn, Hh, Hnone.
    eexists. split; [reflexivity|]. rewrite scheduleElevatorImmediately_eq. simpl.
    split_and!; try done; auto.
    intros _. split_and!; try done.
    intros j. destruct (decide (j = floor (ele s))) as [->|Hj].
    + unfold hasCall. simpl. rewrite Hu0, Hd0, Hc0 by congruence. done.
    + destruct (decide (0 <= j < floors)) as [Hr|Hr]; [by apply Hnone|].
      unfold hasCall. simpl.
      rewrite !pressed_outside; [done|rewrite ?Lc, ?Ld, ?Lu; unfold floors in *; lia..].
Qed.

(** DECISION as E6 calls it, with the direction it sets. *)
Lemma decision_in_E6_exact s :
  callsSized (ele s) -> step (ele s) = stepPrepareToMove ->
  exists st,
    decision s = Some (upd_ele (e_state st) s) /\
    (state (ele s) <> stateNeutral -> st = state (ele s)) /\
    (state (ele s) = stateNeutral ->
     exists o, firstCall (ele s) o /\
       st = heading (floor (ele s)) (default floorHome o) stateNeutral).
Proof.
  intros Hc H6.
  destruct (decide (state (ele s) = stateNeutral)) as [Hn|Hn].
  - destruct (decision_scan s Hc Hn) as (o & Ho & E).
    { intros [H1 _]. congruence. }
    rewrite E. unfold target. rewrite bool_decide_eq_true_2 by done.
    assert (HD : forall j, decisionD4 j s
              = Some (upd_ele (e_state (heading (floor (ele s)) j stateNeutral)) s)).
    { intros j. rewrite decisionD4_eq, Hn.
      rewrite (bool_decide_eq_false_2 (step (ele s) = stepWaitForCall)) by congruence.
      done. }
    exists (heading (floor (ele s)) (default floorHome o) stateNeutral).
    split; [by destruct o; rewrite HD|]. split; [done|]. intros _. by exists o.
  - exists (state (ele s)). rewrite decision_moving by done.
    split; [by rewrite upd_state_same|]. split; [done|]. by intros E.
Qed.

(** The state E6 leaves, field by field. *)
Lemma executePrepareToMove_exact s :
  waitOK s -> callsSized (ele s) -> 0 <= floor (ele s) < floors ->
  let e := ele s in
  let f := floor e in
  let cc := <[Z.to_nat f := false]> (callCar e) in
  let cu := if bool_decide (state e = stateGoingDown) then callUp e
            else <[Z.to_nat f := false]> (callUp e) in
  let cd := if bool_decide (state e = stateGoingUp) then callDown e
            else <[Z.to_nat f := false]> (callDown e) in
  let e1 := e_callDown cd (e_callUp cu (e_callCar cc (e_step stepPrepareToMove e))) in
  let old := if d2 e then delete (elev3 e) (wait s) else wait s in
  exists s' st,
    executePrepareToMove s = Some s' /\
    ele s' = e_elev1 (Some (alloc s)) (e_state st e1) /\
    time s' = time s /\ alloc s' = S (alloc s) /\ userID s' = userID s /\
    listNode s' = listNode s /\ giveUp s' = giveUp s /\
    (state e <> stateNeutral -> st = state e) /\
    (state e = stateNeutral ->
     exists o, firstCall e1 o /\ st = heading f (default floorHome o) stateNeutral) /\
    (st = stateNeutral ->
     wait s' = (alloc s, newWaitElement (time s) wf_executeWaitForCall)
               :: delete (elev1 e) (wait s)) /\
    (st = stateGoingUp ->
     inserted (alloc s, newWaitElement (time s + 15) wf_executeGoUpAFloor)
       (delete (elev1 e) old) (wait s')) /\
    (st = stateGoingDown ->
     inserted (alloc s, newWaitElement (time s + 15) wf_executeGoDownAFloor)
       (delete (elev1 e) old) (wait s')).
Proof.
  intros Hw Hc Hf. cbv zeta.
  unfold executePrepareToMove. cbv zeta.
  rewrite (clearCallsOnLeaving_eq (upd_ele (e_step stepPrepareToMove) s) Hc Hf).
  cbv zeta. cbn [ele upd_ele e_step state floor callUp callDown callCar].
  set (cu := if bool_decide (state (ele s) = stateGoingDown) then callUp (ele s)
             else <[Z.to_nat (floor (ele s)) := false]> (callUp (ele s))).
  set (cd := if bool_decide (state (ele s) = stateGoingUp) then callDown (ele s)
             else <[Z.to_nat (floor (ele s)) := false]> (callDown (ele s))).
  set (cc := <[Z.to_nat (floor (ele s)) := false]> (callCar (ele s))).
  set (s1 := upd_ele _ (upd_ele (e_step stepPrepareToMove) s)).
  assert (Hc1 : callsSized (ele s1)).
  { destruct Hc as (L1 & L2 & L3). unfold s1, cu, cd, cc.
    split_and!; cbn [ele upd_ele callUp callDown callCar e_callDown e_callUp e_callCar e_step].
    - destruct (bool_decide (state (ele s) = stateGoingDown)); [exact L1|].
      rewrite length_insert. exact L1.
    - destruct (bool_decide (state (ele s) = stateGoingUp)); [exact L2|].
      rewrite length_insert. exact L2.
    - rewrite length_insert. exact L3. }
  assert (Hw1 : waitOK s1) by (unfold s1; repeat (apply waitOK_upd; [by intros []|]); done).
  destruct (decision_in_E6_exact s1 Hc1 eq_refl) as (st & -> & Hkeep & Hscan).
  cbn [ele upd_ele e_state state d2 elev3].
  set (s2 := upd_ele (e_state st) s1).
  assert (Hw2 : waitOK s2) by (apply waitOK_upd; [by intros []|done]).
  set (sd := if d2 (ele s1) then waitDelete (elev3 (ele s1)) s2 else s2).
  assert (Hsd : waitOK sd /\ ele sd = ele s2 /\ time sd = time s /\ alloc sd = alloc s /\
            userID sd = userID s /\ listNode sd = listNode s /\ giveUp sd = giveUp s /\
            wait sd = if d2 (ele s) then delete (elev3 (ele s)) (wait s) else wait s).
  { unfold sd. simpl. destruct (d2 (ele s)).
    - split; [by apply waitOK_waitDelete|]. split_and!; done.
    - split_and!; done. }
  clearbody sd. destruct Hsd as (Hwd & Hed & Htd & Had & Hud & Hld & Hgd & Hwait).
  rewrite Hed. change (state (ele s2)) with st.
  assert (Hmove : forall a,
            exists s', scheduleElevator Elev1 15 a sd = Some s' /\
              ele s' = e_elev1 (Some (alloc s)) (ele s2) /\
              time s' = time s /\ alloc s' = S (alloc s) /\ userID s' = userID s /\
              listNode s' = listNode s /\ giveUp s' = giveUp s /\
              inserted (alloc s, newWaitElement (time s + 15) a)
                (delete (elev1 (ele s))
                   (if d2 (ele s) then delete (elev3 (ele s)) (wait s) else wait s))
                (wait s')).
  { intros a.
    destruct (scheduleElevator_inserted Elev1 15 a sd Hwd) as (r & E & Hins & _); [lia|].
    eexists. split; [exact E|]. simpl.
    rewrite Hed, Htd, Had, Hud, Hld, Hgd. split_and!; try done.
    rewrite Hed, Hwait, Had, Htd in Hins. exact Hins. }
  destruct st.
  - rewrite (bool_decide_eq_false_2 (stateGoingUp = stateNeutral)) by done.
    rewrite (bool_decide_eq_true_2 (stateGoingUp = stateGoingUp)) by done.
    destruct (Hmove wf_executeGoUpAFloor) as (s' & E & He & Ht & Ha & Hu & Hl & Hg & Hi).
    exists s', stateGoingUp. split_and!; try done.
  - rewrite (bool_decide_eq_false_2 (stateGoingDown = stateNeutral)) by done.
    rewrite (bool_decide_eq_false_2 (stateGoingDown = stateGoingUp)) by done.
    destruct (Hmove wf_executeGoDownAFloor) as (s' & E & He & Ht & Ha & Hu & Hl & Hg & Hi).
    exists s', stateGoingDown. split_and!; try done.
  - rewrite (bool_decide_eq_true_2 (stateNeutral = stateNeutral)) by done.
    eexists _, stateNeutral. split; [reflexivity|].
    rewrite scheduleElevatorImmediately_eq. simpl. split_and!; try done.
Qed.

(** X12. On a well-formed state with one call entry per floor and the car
    at a floor of the building, [executePrepareToMove] returns, and the state
    it leaves is this.  The step is E6.  The car call of the floor is off;
    the up call of the floor is off unless the direction was GOINGDOWN, and
    then the up calls are as they were; the down call of the floor is off
    unless the direction was GOINGUP, and then the down calls are as they
    were; the calls of the other floors, D1, D2, D3, the floor, the users,
    ELEV2, ELEV3 and the clock are as they were.  A direction other than
    NEUTRAL stays; from NEUTRAL the direction becomes that towards the
    lowest other floor with a call left, or towards the home floor if there
    is none, and stays NEUTRAL if that is the floor of the car.  ELEV1 refers
    to the one node allocated.  If the direction is NEUTRAL at the end, that
    node holds E1, due now, and is first on the WAIT list, behind it the old
    list without the node ELEV1 referred to; the car is then at the home
    floor and no floor has a call left.  If it is GOINGUP the node holds E7,
    if GOINGDOWN E8, due 15 units from now and put in its place by time
    into the old list without the node ELEV1 referred to and, if D2 was on,
    without the node ELEV3 referred to, so that no E9 is scheduled any
    more; no E1 is scheduled then. *)
Theorem executePrepareToMove_spec s :
  waitOK s -> callsSized (ele s) -> 0 <= floor (ele s) < floors ->
  let e := ele s in
  let f := floor e in
  let cc := <[Z.to_nat f := false]> (callCar e) in
  let cu := if bool_decide (state e = stateGoingDown) then callUp e
            else <[Z.to_nat f := false]> (callUp e) in
  let cd := if bool_decide (state e = stateGoingUp) then callDown e
            else <[Z.to_nat f := false]> (callDown e) in
  let e1 := e_callDown cd (e_callUp cu (e_callCar cc (e_step stepPrepareToMove e))) in
  let old := if d2 e then delete (elev3 e) (wait s) else wait s in
  exists s' st,
    executePrepareToMove s = Some s' /\
    ele s' = e_elev1 (Some (alloc s)) (e_state st e1) /\
    time s' = time s /\ alloc s' = S (alloc s) /\ userID s' = userID s /\
    listNode s' = listNode s /\ giveUp s' = giveUp s /\
    (state e <> stateNeutral -> st = state e) /\
    (state e = stateNeutral ->
     exists o, firstCall e1 o /\ st = heading f (default floorHome o) stateNeutral) /\
    (st = stateNeutral ->
     wait s' = (alloc s, newWaitElement (time s) wf_executeWaitForCall)
               :: delete (elev1 e) (wait s)) /\
    (st = stateGoingUp ->
     inserted (alloc s, newWaitElement (time s + 15) wf_executeGoUpAFloor)
       (delete (elev1 e) old) (wait s')) /\
    (st = stateGoingDown ->
     inserted (alloc s, newWaitElement (time s + 15) wf_executeGoDownAFloor)
       (delete (elev1 e) old) (wait s')) /\
    step (ele s') = stepPrepareToMove /\ floor (ele s') = f /\
    pressed (callCar (ele s')) f = false /\
    (state e <> stateGoingDown -> pressed (callUp (ele s')) f = false) /\
    (state e = stateGoingDown -> callUp (ele s') = callUp e) /\
    (state e <> stateGoingUp -> pressed (callDown (ele s')) f = false) /\
    (state e = stateGoingUp -> callDown (ele s') = callDown e) /\
    (forall j, j <> f ->
       pressed (callCar (ele s')) j = pressed (callCar e) j /\
       pressed (callUp (ele s')) j = pressed (callUp e) j /\
       pressed (callDown (ele s')) j = pressed (callDown e) j) /\
    (forall j, j <> f -> hasCall (ele s') j = hasCall e j) /\
    (state (ele s') = stateNeutral ->
     state e = stateNeutral /\ f = floorHome /\
     (forall j, hasCall (ele s') j = false) /\
     head (wait s') = Some (alloc s, newWaitElement (time s) wf_executeWaitForCall)) /\
    (state (ele s') = stateGoingUp ->
     In (alloc s, newWaitElement (time s + 15) wf_executeGoUpAFloor) (wait s') /\
     (d2 e = true -> ~ pend s' wf_executeSetInactionIndicator)) /\
    (state (ele s') = stateGoingDown ->
     In (alloc s, newWaitElement (time s + 15) wf_executeGoDownAFloor) (wait s') /\
     (d2 e = true -> ~ pend s' wf_executeSetInactionIndicator)) /\
    (pend s' wf_executeWaitForCall -> state (ele s') = stateNeutral).
Proof.
  intros Hw Hc Hf. cbv zeta.
  destruct (executePrepareToMove_exact s Hw Hc Hf)
    as (s' & st & E & He & Ht & Ha & Hu & Hl & Hg & Hkeep & Hscan & H1 & H7 & H8).
  destruct (executePrepareToMove_Some s Hw Hc Hf)
    as (s2 & E2 & K6 & Kf & _ & Kc & Ku & Kd & Kh & _ & Kn & K7 & K8 & K1).
  rewrite E in E2. injection E2 as <-.
  exists s', st. split_and!; try done.
  - intros Ed. rewrite He. simpl. by rewrite bool_decide_eq_true_2.
  - intros Eu. rewrite He. simpl. by rewrite bool_decide_eq_true_2.
  - intros j Hj. rewrite He. simpl. split_and!.
    + apply pressed_insert_ne; [done|lia].
    + destruct (bool_decide (state (ele s) = stateGoingDown)); [done|].
      apply pressed_insert_ne; [done|lia].
    + destruct (bool_decide (state (ele s) = stateGoingUp)); [done|].
      apply pressed_insert_ne; [done|lia].
Qed.

(** E6 of turn 13 of the sample run: the user has got in at floor 0 and
    the direction is GOINGUP. *)
Lemma executePrepareToMove_spec_sample :
  waitOK (popped (stateOf (sampleRun 13))) /\
  callsSized (ele (popped (stateOf (sampleRun 13)))) /\
  0 <= floor (ele (popped (stateOf (sampleRun 13)))) < floors /\
  state (ele (popped (stateOf (sampleRun 13)))) = stateGoingUp /\
  exists s', executePrepareToMove (popped (stateOf (sampleRun 13))) = Some s' /\
    step (ele s') = stepPrepareToMove /\ state (ele s') = stateGoingUp /\
    callDown (ele s') = callDown (ele (popped (stateOf (sampleRun 13)))) /\
    pressed (callCar (ele s')) (floor (ele (popped (stateOf (sampleRun 13))))) = false /\
    In (alloc (popped (stateOf (sampleRun 13))),
        newWaitElement (time (popped (stateOf (sampleRun 13))) + 15) wf_executeGoUpAFloor)
       (wait s').
Proof.
  pose proof (sampleRun_state 13 ltac:(vm_compute; reflexivity)) as Hr.
  pose proof (popped_waitOK _ Hr) as Hw.
  pose proof (popped_callsSized _ Hr) as Hc.
  pose proof (popped_floor _ Hr) as Hf.
  assert (Hu : state (ele (popped (stateOf (sampleRun 13)))) = stateGoingUp)
    by (vm_compute; reflexivity).
  split; [exact Hw|]. split; [exact Hc|]. split; [exact Hf|]. split; [exact Hu|].
  destruct (executePrepareToMove_spec _ Hw Hc Hf)
    as (s' & st & E & He & _ & _ & _ & _ & _ & Hkeep & _ & _ & _ & _ & H6 & _ & Hcar
        & _ & _ & _ & Hdown & _ & _ & _ & H7 & _).
  assert (Est : state (ele s') = stateGoingUp).
  { rewrite He. cbn [state e_elev1 e_state]. rewrite Hkeep; [exact Hu|].
    rewrite Hu. discriminate. }
  exists s'. split; [exact E|]. split; [exact H6|]. split; [exact Est|].
  split; [exact (Hdown Hu)|]. split; [exact Hcar|]. exact (proj1 (H7 Est)).
Defined.

(** * The linked lists: chains *)

Lemma chain_frame h h' a l b :
  (forall y, In y (a :: l) -> DLL.rlink h' !! y = DLL.rlink h !! y) ->
  (forall y, In y (l ++ [b]) -> DLL.llink h' !! y = DLL.llink h !! y) ->
  DLL.chain h a l b -> DLL.chain h' a l b.
Proof.
  revert a. induction l as [|x l IH]; intros a Hr Hl; simpl.
  - intros [H1 H2]. rewrite Hr, Hl; [done| |]; simpl; auto.
  - intros (H1 & H2 & H3). rewrite Hr, Hl; [|simpl; auto..].
    split; [done|]. split; [done|]. apply IH; [| |done].
    + intros y Hy. apply Hr. by right.
    + intros y Hy. apply Hl. by right.
Qed.

Lemma chain_app h a l1 x l2 b :
  DLL.chain h a (l1 ++ x :: l2) b <-> DLL.chain h a l1 x /\ DLL.chain h x l2 b.
Proof.
  revert a. induction l1 as [|y l1 IH]; intros a; simpl.
  - tauto.
  - rewrite IH. tauto.
Qed.

Lemma last_default (a b x : node) l : List.last (x :: l) a = List.last (x :: l) b.
Proof.
  revert x. induction l as [|y l IH]; intros x; [done|].
  change (List.last (y :: l) a = List.last (y :: l) b). apply IH.
Qed.

Lemma lastOf_cons a x l : DLL.lastOf a (x :: l) = DLL.lastOf x l.
Proof.
  unfold DLL.lastOf. destruct l as [|y l]; [done|].
  change (List.last (y :: l) a = List.last (y :: l) x). apply last_default.
Qed.

(** The link to the right of the last node before a cut and the link to
    the left of the first node after it. *)
Lemma chain_cut h a l1 l2 b :
  DLL.chain h a (l1 ++ l2) b ->
  DLL.rlink h !! DLL.lastOf a l1 = Some (DLL.firstOf l2 b) /\
  DLL.llink h !! DLL.firstOf l2 b = Some (DLL.lastOf a l1).
Proof.
  revert a. induction l1 as [|y l1 IH]; intros a.
  - unfold DLL.lastOf, DLL.firstOf. destruct l2 as [|z l2]; simpl; tauto.
  - intros (_ & _ & H). rewrite lastOf_cons. by apply IH.
Qed.

Lemma lastOf_In a l : In (DLL.lastOf a l) (a :: l).
Proof.
  revert a. induction l as [|x l IH]; intros a; [by left|].
  rewrite lastOf_cons. right. apply IH.
Qed.

Lemma firstOf_In l b : In (DLL.firstOf l b) (l ++ [b]).
Proof. destruct l; simpl; auto. Qed.

(** Putting [p] between the last node of [l1] and the first of [l2]. *)
Lemma chain_insert h h' a l1 l2 b p :
  NoDup (a :: l1 ++ l2) -> ~ In b (l1 ++ l2) ->
  ~ In p (a :: l1 ++ l2) -> p <> b ->
  DLL.rlink h' = <[DLL.lastOf a l1 := p]> (<[p := DLL.firstOf l2 b]> (DLL.rlink h)) ->
  DLL.llink h' = <[DLL.firstOf l2 b := p]> (<[p := DLL.lastOf a l1]> (DLL.llink h)) ->
  DLL.chain h a (l1 ++ l2) b -> DLL.chain h' a (l1 ++ p :: l2) b.
Proof.
  revert a. induction l1 as [|y l1 IH]; intros a Hnd Hb Hp Hpb Hr Hl.
  - simpl in *. change (DLL.lastOf a []) with a in *.
    intros Hc. apply NoDup_cons in Hnd as [Ha Hnd]. rewrite list_elem_of_In in Ha.
    assert (Hpa : p <> a) by (intros ->; apply Hp; by left).
    assert (Hpl : ~ In p l2) by (intros ?; apply Hp; by right).
    assert (Hfp : DLL.firstOf l2 b <> p).
    { intros E. pose proof (firstOf_In l2 b) as Hin. rewrite E in Hin.
      apply in_app_iff in Hin as [?|[?|[]]]; [done|]. by apply Hpb. }
    split; [by rewrite Hr, lookup_insert_eq|].
    split; [rewrite Hl, lookup_insert_ne, lookup_insert_eq; done|].
    destruct l2 as [|s l2]; simpl in *.
    + split.
      * rewrite Hr, lookup_insert_ne, lookup_insert_eq; done.
      * by rewrite Hl, lookup_insert_eq.
    + destruct Hc as (H1 & H2 & H3).
      apply NoDup_cons in Hnd as [Hs Hnd]. rewrite list_elem_of_In in Hs.
      split; [rewrite Hr, lookup_insert_ne, lookup_insert_eq; done|].
      split; [by rewrite Hl, lookup_insert_eq|].
      apply (chain_frame h); [| |done].
      * intros y Hy. rewrite Hr, !lookup_insert_ne; [done|..].
        -- intros <-. apply Hp. right. exact Hy.
        -- intros <-. apply Ha. exact Hy.
      * intros y Hy. rewrite Hl, !lookup_insert_ne; [done|..].
        -- intros <-. apply in_app_iff in Hy as [?|[?|[]]]; [|done].
           apply Hp. right. by right.
        -- intros <-. apply in_app_iff in Hy as [?|[<-|[]]]; [done|].
           apply Hb. by left.
  - simpl in Hnd, Hb, Hp. rewrite lastOf_cons in Hr, Hl.
    simpl. intros (H1 & H2 & H3).
    pose proof Hnd as Hnd'. apply NoDup_cons in Hnd' as [Ha Hnd'].
    rewrite list_elem_of_In in Ha.
    assert (Hlast : In (DLL.lastOf y l1) (y :: l1 ++ l2)).
    { pose proof (lastOf_In y l1) as [?|?]; [by left|]. right.
      apply in_app_iff. by left. }
    assert (Hfirst : In (DLL.firstOf l2 b) (l2 ++ [b])) by apply firstOf_In.
    split; [|split].
    + rewrite Hr, !lookup_insert_ne; [done|..].
      * intros <-. apply Hp. by left.
      * intros E. apply Ha. by rewrite <- E.
    + rewrite Hl, !lookup_insert_ne; [done|..].
      * intros <-. apply Hp. right. by left.
      * intros E. rewrite E in Hfirst.
        apply in_app_iff in Hfirst as [Hy|[<-|[]]].
        -- apply NoDup_cons in Hnd' as [Hy' _]. apply Hy'.
           apply list_elem_of_In, in_app_iff. by right.
        -- apply Hb. by left.
    + apply IH; try done.
      * intros Hb'. apply Hb. by right.
      * intros [<-|Hp']; apply Hp; [right; by left|right; by right].
Qed.

(** Taking [x] out from between the last node of [l1] and the first of
    [l2]. *)
Lemma chain_delete h h' a l1 x l2 b :
  NoDup (a :: l1 ++ x :: l2) -> ~ In b (l1 ++ x :: l2) ->
  DLL.rlink h' = <[x := x]> (<[DLL.lastOf a l1 := DLL.firstOf l2 b]> (DLL.rlink h)) ->
  DLL.llink h' = <[x := x]> (<[DLL.firstOf l2 b := DLL.lastOf a l1]> (DLL.llink h)) ->
  DLL.chain h a (l1 ++ x :: l2) b -> DLL.chain h' a (l1 ++ l2) b.
Proof.
  revert a. induction l1 as [|y l1 IH]; intros a Hnd Hb Hr Hl.
  - simpl in *. change (DLL.lastOf a []) with a in *.
    intros (H1 & H2 & H3).
    apply NoDup_cons in Hnd as [Ha Hnd]. rewrite list_elem_of_In in Ha.
    apply NoDup_cons in Hnd as [Hx Hnd]. rewrite list_elem_of_In in Hx.
    assert (Hax : a <> x) by (intros ->; apply Ha; by left).
    assert (Hbx : b <> x) by (intros ->; apply Hb; by left).
    destruct l2 as [|s l2]; simpl in *.
    + split.
      * rewrite Hr, lookup_insert_ne, lookup_insert_eq; done.
      * rewrite Hl, lookup_insert_ne, lookup_insert_eq; done.
    + destruct H3 as (H3 & H4 & H5).
      apply NoDup_cons in Hnd as [Hs Hnd]. rewrite list_elem_of_In in Hs.
      assert (Hsx : s <> x) by (intros ->; apply Hx; by left).
      split; [rewrite Hr, lookup_insert_ne, lookup_insert_eq; done|].
      split; [rewrite Hl, lookup_insert_ne, lookup_insert_eq; done|].
      apply (chain_frame h); [| |done].
      * intros y Hy. rewrite Hr, !lookup_insert_ne; [done|..].
        -- intros <-. apply Ha. right. exact Hy.
        -- intros <-. apply Hx. exact Hy.
      * intros y Hy. rewrite Hl, !lookup_insert_ne; [done|..].
        -- intros <-. apply in_app_iff in Hy as [?|[<-|[]]]; [done|].
           apply Hb. right. by left.
        -- intros <-. apply in_app_iff in Hy as [?|[<-|[]]]; [|done].
           apply Hx. by right.
  - simpl in Hnd, Hb. rewrite lastOf_cons in Hr, Hl.
    simpl. intros (H1 & H2 & H3).
    pose proof Hnd as Hnd'. apply NoDup_cons in Hnd' as [Ha Hnd'].
    rewrite list_elem_of_In in Ha.
    pose proof Hnd' as Hnd''. apply NoDup_cons in Hnd'' as [Hy _].
    rewrite list_elem_of_In in Hy.
    assert (Hlast : In (DLL.lastOf y l1) (y :: l1 ++ x :: l2)).
    { pose proof (lastOf_In y l1) as [?|?]; [by left|]. right.
      apply in_app_iff. by left. }
    assert (Hfirst : In (DLL.firstOf l2 b) (l2 ++ [b])) by apply firstOf_In.
    assert (Hxin : In x (l1 ++ x :: l2)) by (apply in_app_iff; right; by left).
    split; [|split].
    + rewrite Hr, !lookup_insert_ne; [done|..].
      * intros E. apply Ha. by rewrite <- E.
      * intros <-. apply Ha. right. exact Hxin.
    + rewrite Hl, !lookup_insert_ne; [done|..].
      * intros E. rewrite E in Hfirst.
        apply in_app_iff in Hfirst as [Hy'|[<-|[]]].
        -- apply Hy. apply in_app_iff. right. by right.
        -- apply Hb. by left.
      * intros <-. apply Hy. exact Hxin.
    + apply IH; try done. intros Hb'. apply Hb. by right.
Qed.

(** * The linked lists: the methods on a circular list *)

Lemma ring_frame h h' hd l :
  (forall y, In y (hd :: l) -> DLL.rlink h' !! y = DLL.rlink h !! y) ->
  (forall y, In y (hd :: l) -> DLL.llink h' !! y = DLL.llink h !! y) ->
  DLL.ring h hd l -> DLL.ring h' hd l.
Proof.
  intros Hr Hl [Hnd Hc]. split; [done|]. apply (chain_frame h); [done| |done].
  intros y Hy. apply Hl. apply in_app_iff in Hy as [?|[<-|[]]]; [by right|by left].
Qed.

Lemma ring_new n h : DLL.ring (DLL.newDoublyLinkedList n h) n [].
Proof.
  split; [apply NoDup_singleton|]. simpl. by rewrite !lookup_insert_eq.
Qed.

(** [x.insertRight(p)] for [x] the last node of [hd :: l1]. *)
Lemma ring_insertRight h hd l1 l2 p :
  DLL.ring h hd (l1 ++ l2) -> ~ In p (hd :: l1 ++ l2) ->
  exists h',
    DLL.insertRight (Some (DLL.lastOf hd l1)) (Some p) h = Some h' /\
    DLL.ring h' hd (l1 ++ p :: l2) /\
    DLL.rlink h' = <[DLL.lastOf hd l1 := p]> (<[p := DLL.firstOf l2 hd]> (DLL.rlink h)) /\
    DLL.llink h' = <[DLL.firstOf l2 hd := p]> (<[p := DLL.lastOf hd l1]> (DLL.llink h)).
Proof.
  intros [Hnd Hc] Hp.
  destruct (chain_cut _ _ _ _ _ Hc) as [Hr Hl].
  assert (Hpx : p <> DLL.lastOf hd l1).
  { intros ->. apply Hp. pose proof (lastOf_In hd l1) as [?|?]; [by left|].
    right. apply in_app_iff. by left. }
  assert (Hph : p <> hd) by (intros ->; apply Hp; by left).
  unfold DLL.insertRight. cbn [DLL.setL DLL.setR DLL.rlink DLL.llink].
  rewrite Hr. cbn [DLL.rlink DLL.llink].
  rewrite lookup_insert_ne by done. rewrite Hr.
  eexists. split; [reflexivity|]. split; [|done].
  split.
  - apply NoDup_cons in Hnd as [Hh Hnd]. rewrite list_elem_of_In in Hh.
    apply NoDup_cons. split.
    + rewrite list_elem_of_In, in_app_iff. simpl. intros [?|[?|?]].
      * apply Hh, in_app_iff. by left.
      * by apply Hph.
      * apply Hh, in_app_iff. by right.
    + apply NoDup_app in Hnd as (H1 & H2 & H3). apply NoDup_app. split_and!; [done| |].
      * intros y Hy1 Hy2. apply list_elem_of_In in Hy2 as [<-|Hy2].
        -- apply Hp. right. apply in_app_iff. left. by apply list_elem_of_In.
        -- by apply (H2 y Hy1), list_elem_of_In.
      * apply NoDup_cons. split; [|done]. rewrite list_elem_of_In.
        intros ?. apply Hp. right. apply in_app_iff. by right.
  - apply (chain_insert h); try done.
    apply NoDup_cons in Hnd as [Hh _]. by rewrite list_elem_of_In in Hh.
Qed.

Lemma lastOf_snoc a l x : DLL.lastOf a (l ++ [x]) = x.
Proof. unfold DLL.lastOf. apply last_last. Qed.

(** [x.insertLeft(p)] for [x] the first node of [l2 ++ [hd]] does what
    [insertRight] does on the node before [x]. *)
Lemma ring_insertLeft h hd l1 l2 p :
  DLL.ring h hd (l1 ++ l2) -> ~ In p (hd :: l1 ++ l2) ->
  DLL.insertLeft (Some (DLL.firstOf l2 hd)) (Some p) h
  = DLL.insertRight (Some (DLL.lastOf hd l1)) (Some p) h.
Proof.
  intros [Hnd Hc] Hp.
  destruct (chain_cut _ _ _ _ _ Hc) as [Hr Hl].
  assert (Hpx : p <> DLL.lastOf hd l1).
  { intros ->. apply Hp. pose proof (lastOf_In hd l1) as [?|?]; [by left|].
    right. apply in_app_iff. by left. }
  assert (Hpf : p <> DLL.firstOf l2 hd).
  { intros ->. apply Hp. pose proof (firstOf_In l2 hd) as Hin.
    apply in_app_iff in Hin as [?|[<-|[]]]; [|by left].
    right. apply in_app_iff. by right. }
  unfold DLL.insertLeft, DLL.insertRight.
  cbn [DLL.setL DLL.setR DLL.rlink DLL.llink].
  rewrite Hr, Hl. cbn [DLL.rlink DLL.llink].
  rewrite !lookup_insert_ne by done. by rewrite Hr, Hl.
Qed.

(** [x.delete()] for a node of the list. *)
Lemma ring_delete h hd l1 x l2 :
  DLL.ring h hd (l1 ++ x :: l2) ->
  exists h',
    DLL.delete (Some x) h = Some h' /\
    DLL.ring h' hd (l1 ++ l2) /\
    DLL.rlink h'
    = <[x := x]> (<[DLL.lastOf hd l1 := DLL.firstOf l2 hd]> (DLL.rlink h)) /\
    DLL.llink h'
    = <[x := x]> (<[DLL.firstOf l2 hd := DLL.lastOf hd l1]> (DLL.llink h)).
Proof.
  intros [Hnd Hc].
  destruct (chain_cut _ _ _ _ _ Hc) as [_ Hl].
  change (DLL.firstOf (x :: l2) hd) with x in Hl.
  pose proof Hc as Hc'.
  replace (l1 ++ x :: l2) with ((l1 ++ [x]) ++ l2) in Hc' by by rewrite <- app_assoc.
  destruct (chain_cut _ _ _ _ _ Hc') as [Hr _]. rewrite lastOf_snoc in Hr.
  assert (Hxin : In x (l1 ++ x :: l2)) by (apply in_app_iff; right; by left).
  pose proof Hnd as Hnd'. apply NoDup_cons in Hnd' as [Hh Hnd'].
  rewrite list_elem_of_In in Hh.
  assert (Hlx : DLL.lastOf hd l1 <> x).
  { intros E. pose proof (lastOf_In hd l1) as [E'|Hin]; rewrite E in *.
    - apply Hh. by rewrite E'.
    - apply NoDup_app in Hnd' as (_ & H2 & _).
      apply (H2 x); [by apply list_elem_of_In|]. apply list_elem_of_In. by left. }
  unfold DLL.delete. cbn [DLL.setL DLL.setR DLL.rlink DLL.llink].
  rewrite Hl, Hr. cbn [DLL.rlink DLL.llink].
  rewrite lookup_insert_ne by done. rewrite Hr.
  eexists. split; [reflexivity|]. split; [|done]. split.
  - apply NoDup_cons. split.
    + rewrite list_elem_of_In. intros Hin. apply Hh.
      apply in_app_iff in Hin as [?|?]; apply in_app_iff; [by left|right; by right].
    + apply NoDup_app in Hnd' as (H1 & H2 & H3). apply NoDup_cons in H3 as [_ H3].
      apply NoDup_app. split_and!; [done| |done].
      intros y Hy1 Hy2. apply (H2 y Hy1). apply list_elem_of_In. right.
      by apply list_elem_of_In.
  - apply (chain_delete h _ hd l1 x l2 hd); try done.
Qed.

(** [x.delete()] for a node taken off its list before. *)
Lemma delete_again h x :
  DLL.llink h !! x = Some x -> DLL.rlink h !! x = Some x ->
  DLL.delete (Some x) h = Some h.
Proof.
  intros Hl Hr. unfold DLL.delete. cbn [DLL.setL DLL.setR DLL.rlink DLL.llink].
  rewrite Hl, Hr. cbn [DLL.rlink DLL.llink]. rewrite lookup_insert_eq.
  destruct h as [ll rr]. cbn [DLL.rlink DLL.llink] in *.
  f_equal. unfold DLL.setL, DLL.setR. cbn [DLL.rlink DLL.llink].
  rewrite !insert_insert_eq. by rewrite !insert_id.
Qed.

(** [x.delete()] for a node made by [newNode] and linked nowhere. *)
Lemma delete_unlinked h x :
  DLL.llink h !! x = None \/ DLL.rlink h !! x = None ->
  DLL.delete (Some x) h = None.
Proof.
  intros [E|E]; unfold DLL.delete; rewrite E; [done|].
  by destruct (DLL.llink h !! x).
Qed.

(** * The linked lists: the walk of SORTIN *)

Lemma ring_llink h hd l1 z l2 :
  DLL.ring h hd (l1 ++ z :: l2) -> DLL.llink h !! z = Some (DLL.lastOf hd l1).
Proof. intros [_ Hc]. by destruct (chain_cut _ _ _ _ _ Hc) as [_ Hl]. Qed.

Lemma ring_llink_head h hd l :
  DLL.ring h hd l -> DLL.llink h !! hd = Some (DLL.lastOf hd l).
Proof.
  intros [_ Hc]. rewrite <- (app_nil_r l) in Hc.
  by destruct (chain_cut _ _ _ _ _ Hc) as [_ Hl].
Qed.

Lemma ring_llink_in h hd l x :
  DLL.ring h hd l -> In x (hd :: l) ->
  exists x', DLL.llink h !! x = Some x' /\ In x' (hd :: l).
Proof.
  intros Hr [<-|Hx].
  - exists (DLL.lastOf hd l). split; [by apply ring_llink_head|apply lastOf_In].
  - apply in_split in Hx as (l1 & l2 & ->).
    exists (DLL.lastOf hd l1). split; [by apply (ring_llink h hd l1 x l2)|].
    pose proof (lastOf_In hd l1) as [?|?]; [by left|right].
    apply in_app_iff. by left.
Qed.

(** The walk goes back over the nodes due later than [t] and stops on the
    first node due no later. *)
Lemma sortIn_walk times t n h hd l1 tx l2 :
  times !! DLL.lastOf hd l1 = Some tx -> tx <= t ->
  forall b fuel,
    (forall l2a z l2b, l2 = l2a ++ z :: l2b ->
       DLL.llink h !! z = Some (DLL.lastOf hd (l1 ++ l2a))) ->
    DLL.llink h !! b = Some (DLL.lastOf hd (l1 ++ l2)) ->
    Forall (fun y => exists ty, times !! y = Some ty /\ t < ty) l2 ->
    (length l2 < fuel)%nat ->
    DLL.sortIn fuel times b t n h
    = DLL.insertRight (Some (DLL.lastOf hd l1)) (Some n) h.
Proof.
  intros Htx Hle. induction l2 as [|z l2 IH] using rev_ind; intros b fuel Hmid Hb Hall Hfuel.
  - rewrite app_nil_r in Hb. destruct fuel as [|fuel]; [simpl in Hfuel; lia|].
    simpl. rewrite Hb, Htx.
    destruct (Z.geb_spec t tx); [done|lia].
  - rewrite length_app in Hfuel. simpl in Hfuel.
    destruct fuel as [|fuel]; [lia|].
    rewrite app_assoc, lastOf_snoc in Hb.
    apply Forall_app in Hall as [Hall Hz]. inversion Hz as [|? ? (tz & Etz & Hlt) _]; subst.
    simpl. rewrite Hb, Etz.
    destruct (Z.geb_spec t tz); [lia|].
    apply IH; [| |done|lia].
    + intros l2a y l2b ->. apply (Hmid l2a y (l2b ++ [z])). by rewrite <- app_assoc.
    + apply (Hmid l2 z []). done.
Qed.

(** With every node, the list head too, due later than [t], the walk goes
    on for ever. *)
Lemma sortIn_round times t n h hd l :
  DLL.ring h hd l ->
  (forall y, In y (hd :: l) -> exists ty, times !! y = Some ty /\ t < ty) ->
  forall fuel x, In x (hd :: l) -> DLL.sortIn fuel times x t n h = None.
Proof.
  intros Hr Hall. induction fuel as [|fuel IH]; intros x Hx; [done|].
  destruct (ring_llink_in h hd l x Hr Hx) as (x' & E & Hx').
  destruct (Hall x' Hx') as (tx & Etx & Hlt).
  simpl. rewrite E, Etx. destruct (Z.geb_spec t tx); [lia|]. by apply IH.
Qed.

(** * The lists of the model are the linked lists of the program *)

Lemma ring_twoList : DLL.ring twoList 0 [1%nat; 2%nat].
Proof.
  split.
  - apply NoDup_cons. split; [intros [H|[H|[]]]%list_elem_of_In; discriminate H|].
    apply NoDup_cons. split; [intros [H|[]]%list_elem_of_In; discriminate H|].
    apply NoDup_singleton.
  - simpl. split_and!; reflexivity.
Qed.

Lemma unlink_middle {A} (l1 l2 : list (node * A)) n a :
  NoDup (map fst (l1 ++ (n, a) :: l2)) ->
  unlink n (l1 ++ (n, a) :: l2) = l1 ++ l2.
Proof.
  intros Hnd. rewrite map_app in Hnd. simpl in Hnd.
  apply NoDup_app in Hnd as (H1 & H2 & H3). apply NoDup_cons in H3 as [H3 H4].
  unfold unlink. rewrite List.filter_app. simpl. rewrite Nat.eqb_refl. simpl.
  f_equal.
  - apply unlink_absent. intros Hin. apply (H2 n); [by apply list_elem_of_In|].
    apply list_elem_of_In. by left.
  - apply unlink_absent. intros Hin. apply H3. by apply list_elem_of_In.
Qed.

Lemma lastOf_firstOf_in hd l1 l2 (y : node) :
  ~ In y (hd :: l1 ++ l2) -> y <> DLL.lastOf hd l1 /\ y <> DLL.firstOf l2 hd.
Proof.
  intros Hy. split; intros ->; apply Hy.
  - pose proof (lastOf_In hd l1) as [?|?]; [by left|right]. apply in_app_iff. by left.
  - pose proof (firstOf_In l2 hd) as Hin.
    apply in_app_iff in Hin as [?|[<-|[]]]; [right|by left]. apply in_app_iff. by right.
Qed.

(** X8. On links that hold a circular list headed by [hd], with [p] a
    node that is not on it: [hd.insertRight(p)] makes [p] the first node and
    [hd.insertLeft(p)] makes it the last one, as [insertRight] and
    [insertLeft] of the model do on the list of the nodes, and neither
    touches the links of a node that is not on the list and is not [p].
    [insertRight] on a node whose [rlink] is [nil] panics. *)
Theorem linked_list_insert {A} h hd (l : list (node * A)) p (a : A) :
  DLL.ring h hd (map fst l) -> ~ In p (hd :: map fst l) ->
  (exists h', DLL.insertRight (Some hd) (Some p) h = Some h' /\
     DLL.ring h' hd (map fst (insertRight l (p, a))) /\
     forall y, ~ In y (p :: hd :: map fst l) ->
       DLL.llink h' !! y = DLL.llink h !! y /\ DLL.rlink h' !! y = DLL.rlink h !! y) /\
  (exists h', DLL.insertLeft (Some hd) (Some p) h = Some h' /\
     DLL.ring h' hd (map fst (insertLeft l (p, a))) /\
     forall y, ~ In y (p :: hd :: map fst l) ->
       DLL.llink h' !! y = DLL.llink h !! y /\ DLL.rlink h' !! y = DLL.rlink h !! y) /\
  (forall x q g, DLL.rlink g !! x = None -> DLL.insertRight (Some x) (Some q) g = None).
Proof.
  intros Hr Hp. split_and!.
  - destruct (ring_insertRight h hd [] (map fst l) p Hr Hp) as (h' & E & Hr' & Er & El).
    exists h'. split; [exact E|]. split; [exact Hr'|].
    intros y Hy.
    assert (Hyp : y <> p) by (intros ->; apply Hy; by left).
    destruct (lastOf_firstOf_in hd [] (map fst l) y) as [H1 H2];
      [intros ?; apply Hy; by right|].
    by rewrite El, Er, !lookup_insert_ne.
  - assert (Hr0 : DLL.ring h hd (map fst l ++ [])) by by rewrite app_nil_r.
    assert (Hp0 : ~ In p (hd :: map fst l ++ [])) by by rewrite app_nil_r.
    destruct (ring_insertRight h hd (map fst l) [] p Hr0 Hp0) as (h' & E & Hr' & Er & El).
    exists h'. split; [|split].
    + rewrite <- E. apply (ring_insertLeft h hd (map fst l) [] p Hr0 Hp0).
    + unfold insertLeft. by rewrite map_app.
    + intros y Hy.
      assert (Hyp : y <> p) by (intros ->; apply Hy; by left).
      destruct (lastOf_firstOf_in hd (map fst l) [] y) as [H1 H2].
      { rewrite app_nil_r. intros ?; apply Hy; by right. }
      by rewrite El, Er, !lookup_insert_ne.
  - intros x q g E. unfold DLL.insertRight. cbn [DLL.setL DLL.rlink]. by rewrite E.
Qed.

Lemma linked_list_insert_sample :
  DLL.ring emptyList 0 (map fst (@nil (node * Z))) /\
  exists h', DLL.insertRight (Some 0%nat) (Some 1%nat) emptyList = Some h' /\
    DLL.ring h' 0 [1%nat].
Proof.
  assert (Hr : DLL.ring emptyList 0 (map fst (@nil (node * Z)))) by apply ring_new.
  split; [exact Hr|].
  destruct (linked_list_insert emptyList 0%nat [] 1%nat 7 Hr) as ((h' & E & Hr' & _) & _).
  - intros [H|[]]. discriminate H.
  - exists h'. split; [exact E|exact Hr'].
Defined.

(** X9. [x.delete()] on links that hold a circular list headed by [hd]:
    for [x] a node of the list it returns, the list is the old one without
    [x], as [delete] of the model gives it, [x] is left linked to itself,
    no link of a node outside the list is touched, and deleting [x] once
    more changes nothing.  For [x = nil] it does nothing.  For a node both
    of whose links lead to itself, and which is then not on the list, it
    changes nothing and the model's [delete] leaves the list as it is.  For
    a node with a [nil] link, as [newNode] makes them, it panics. *)
Theorem linked_list_delete {A} h hd (l : list (node * A)) :
  DLL.ring h hd (map fst l) ->
  (forall n, In n (map fst l) ->
     exists h', DLL.delete (Some n) h = Some h' /\
       DLL.ring h' hd (map fst (delete (Some n) l)) /\
       DLL.llink h' !! n = Some n /\ DLL.rlink h' !! n = Some n /\
       DLL.delete (Some n) h' = Some h' /\
       forall y, ~ In y (hd :: map fst l) ->
         DLL.llink h' !! y = DLL.llink h !! y /\ DLL.rlink h' !! y = DLL.rlink h !! y) /\
  DLL.delete None h = Some h /\ delete None l = l /\
  (forall n, DLL.llink h !! n = Some n -> DLL.rlink h !! n = Some n ->
     DLL.delete (Some n) h = Some h /\ delete (Some n) l = l) /\
  (forall n, DLL.llink h !! n = None \/ DLL.rlink h !! n = None ->
     DLL.delete (Some n) h = None).
Proof.
  intros Hr. split_and!; try done.
  - intros n Hn. apply in_map_iff in Hn as ([n' a] & E & Hin). simpl in E. subst n'.
    apply in_split in Hin as (l1 & l2 & ->).
    pose proof Hr as [Hnd _]. apply NoDup_cons in Hnd as [Hh Hnd].
    rewrite list_elem_of_In in Hh.
    assert (Hr' : DLL.ring h hd (map fst l1 ++ n :: map fst l2)).
    { by rewrite map_app in Hr. }
    destruct (ring_delete h hd (map fst l1) n (map fst l2) Hr') as (h' & E & Hr2 & Er & El).
    exists h'. split; [exact E|]. split_and!.
    + unfold delete. rewrite (unlink_middle l1 l2 n a Hnd). by rewrite map_app.
    + by rewrite El, lookup_insert_eq.
    + by rewrite Er, lookup_insert_eq.
    + apply delete_again; [by rewrite El, lookup_insert_eq|by rewrite Er, lookup_insert_eq].
    + intros y Hy.
      assert (Hyn : y <> n).
      { intros ->. apply Hy. right. rewrite map_app. apply in_app_iff. right. by left. }
      destruct (lastOf_firstOf_in hd (map fst l1) (map fst l2) y) as [H1 H2].
      { intros [?|Hin]; apply Hy; [by left|right]. rewrite map_app.
        apply in_app_iff in Hin as [?|?]; apply in_app_iff; [by left|right; by right]. }
      by rewrite El, Er, !lookup_insert_ne.
  - intros n Hl Hrr. split; [by apply delete_again|].
    apply unlink_absent. intros Hin.
    apply in_split in Hin as (l1 & l2 & E). rewrite E in Hr.
    pose proof (ring_llink h hd l1 n l2 Hr) as E'. rewrite Hl in E'.
    injection E' as E'.
    destruct Hr as [Hnd _]. apply NoDup_cons in Hnd as [Hh Hnd].
    rewrite list_elem_of_In in Hh.
    pose proof (lastOf_In hd l1) as [E2|Hin]; rewrite <- E' in *.
    + apply Hh. rewrite E2. apply in_app_iff. right. by left.
    + apply NoDup_app in Hnd as (_ & H2 & _).
      apply (H2 n); [by apply list_elem_of_In|]. apply list_elem_of_In. by left.
  - apply delete_unlinked.
Qed.

Lemma linked_list_delete_sample :
  DLL.ring twoList 0 (map fst [(1%nat, 10); (2%nat, 20)]) /\
  exists h',
    DLL.delete (Some 1%nat) twoList = Some h' /\
    DLL.ring h' 0 [2%nat] /\
    DLL.llink h' !! 1%nat = Some 1%nat /\ DLL.rlink h' !! 1%nat = Some 1%nat /\
    DLL.delete (Some 1%nat) h' = Some h'.
Proof.
  assert (Hr : DLL.ring twoList 0 (map fst [(1%nat, 10); (2%nat, 20)]))
    by exact ring_twoList.
  split; [exact Hr|].
  destruct (proj1 (linked_list_delete twoList 0%nat [(1%nat, 10); (2%nat, 20)] Hr) 1%nat)
    as (h' & E & Hr' & Hl & Hrr & E2 & _).
  - left. reflexivity.
  - exists h'. split; [exact E|]. split; [exact Hr'|]. split; [exact Hl|].
    split; [exact Hrr|exact E2].
Defined.

(** X10. Putting a new node into a circular list, behind any node [x] of
    it or behind the head, and deleting it again gives the old list back:
    the links of every node but the new one are as before, and the new node
    is linked to itself. *)
Theorem linked_list_insert_delete h hd l1 l2 p :
  DLL.ring h hd (l1 ++ l2) -> ~ In p (hd :: l1 ++ l2) ->
  exists h1 h2,
    DLL.insertRight (Some (DLL.lastOf hd l1)) (Some p) h = Some h1 /\
    DLL.ring h1 hd (l1 ++ p :: l2) /\
    DLL.delete (Some p) h1 = Some h2 /\
    DLL.ring h2 hd (l1 ++ l2) /\
    DLL.llink h2 !! p = Some p /\ DLL.rlink h2 !! p = Some p /\
    forall y, y <> p ->
      DLL.llink h2 !! y = DLL.llink h !! y /\ DLL.rlink h2 !! y = DLL.rlink h !! y.
Proof.
  intros Hr Hp.
  destruct (ring_insertRight h hd l1 l2 p Hr Hp) as (h1 & E1 & Hr1 & Er1 & El1).
  destruct (ring_delete h1 hd l1 p l2 Hr1) as (h2 & E2 & Hr2 & Er2 & El2).
  exists h1, h2. split_and!; try done.
  - by rewrite El2, lookup_insert_eq.
  - by rewrite Er2, lookup_insert_eq.
  - intros y Hy. destruct Hr as [_ Hc].
    destruct (chain_cut _ _ _ _ _ Hc) as [Hcr Hcl].
    rewrite El2, Er2, El1, Er1. rewrite !(lookup_insert_ne _ p y) by done. split.
    + destruct (decide (DLL.firstOf l2 hd = y)) as [<-|Hne].
      * by rewrite lookup_insert_eq.
      * by rewrite !lookup_insert_ne.
    + destruct (decide (DLL.lastOf hd l1 = y)) as [<-|Hne].
      * by rewrite lookup_insert_eq.
      * by rewrite !lookup_insert_ne.
Qed.

Lemma linked_list_insert_delete_sample :
  DLL.ring emptyList 0 ([] ++ []) /\
  exists h1 h2,
    DLL.insertRight (Some 0%nat) (Some 1%nat) emptyList = Some h1 /\
    DLL.delete (Some 1%nat) h1 = Some h2 /\ DLL.ring h2 0 [].
Proof.
  assert (Hr : DLL.ring emptyList 0 ([] ++ [])) by apply ring_new.
  split; [exact Hr|].
  destruct (linked_list_insert_delete emptyList 0%nat [] [] 1%nat Hr)
    as (h1 & h2 & E1 & _ & E2 & Hr2 & _).
  - intros [H|[]]. discriminate H.
  - exists h1, h2. split; [exact E1|]. split; [exact E2|exact Hr2].
Defined.

(** * SORTIN and IMMED on the linked list *)

Lemma sortIn_None l n w :
  sortIn l n w = None ->
  nextTime w < 0 /\ Forall (fun p => nextTime w < timeOf p) l.
Proof.
  unfold sortIn. destruct (sortInWalk (n, w) (rev l)) as [r|] eqn:E; [done|].
  intros _. apply sortInWalk_None in E as [H0 Hf]. split; [done|].
  apply List.Forall_forall. intros x Hx%in_rev.
  rewrite List.Forall_forall in Hf. by apply Hf.
Qed.

Lemma lastOf_map_fst hd (l : list wnode) :
  DLL.lastOf hd (map fst l) = match last l with Some x => fst x | None => hd end.
Proof.
  induction l as [|x l IH] using rev_ind; [done|].
  rewrite map_app. simpl. by rewrite lastOf_snoc, last_snoc.
Qed.

(** X11. The loop of [sortIn], run on links that hold the WAIT list as a
    circular list headed by [hd], with the times of its nodes and time 0 for
    the head, does what [sortIn] of the model does on the list of the nodes:
    when the model returns a list, the loop stops, with any bound above the
    length of the list on its turns, and leaves a circular list of the nodes
    of that list in its order; when the model does not return, the loop
    stops after no number of turns.  [immed] puts the new node first. *)
Theorem linked_list_sortIn h hd (times : gmap node Z) (l : list wnode) n w :
  DLL.ring h hd (map fst l) -> ~ In n (hd :: map fst l) ->
  times !! hd = Some 0 ->
  (forall p, In p l -> times !! fst p = Some (timeOf p)) ->
  match sortIn l n w with
  | Some r =>
      forall fuel, (length l < fuel)%nat ->
        exists h', DLL.sortIn fuel times hd (nextTime w) n h = Some h' /\
          DLL.ring h' hd (map fst r)
  | None => forall fuel, DLL.sortIn fuel times hd (nextTime w) n h = None
  end /\
  exists h', DLL.immed hd n h = Some h' /\ DLL.ring h' hd (map fst (immed l n w)).
Proof.
  intros Hr Hn Hhd Htimes. split.
  - destruct (sortIn l n w) as [r|] eqn:E.
    + intros fuel Hfuel.
      destruct (sortIn_spec _ _ _ _ E) as (l1 & l2 & -> & -> & H2 & H1).
      rewrite map_app in Hr, Hn.
      destruct (ring_insertRight h hd (map fst l1) (map fst l2) n Hr Hn)
        as (h' & E' & Hr' & _).
      exists h'. split; [|by rewrite map_app].
      rewrite <- E'.
      assert (Hlast : exists tx, times !! DLL.lastOf hd (map fst l1) = Some tx /\
                                 tx <= nextTime w).
      { rewrite lastOf_map_fst. destruct (last l1) as [x|] eqn:El.
        - exists (timeOf x). split; [|done]. apply Htimes.
          apply in_app_iff. left. apply last_Some in El as (l' & ->).
          apply in_app_iff. right. by left.
        - by exists 0. }
      destruct Hlast as (tx & Etx & Hle).
      apply (sortIn_walk times (nextTime w) n h hd (map fst l1) tx (map fst l2) Etx Hle).
      * intros l2a z l2b E2. unfold wnode in *. rewrite E2 in Hr.
        rewrite app_assoc in Hr. by apply (ring_llink h hd _ z l2b).
      * rewrite <- map_app. rewrite <- map_app in Hr. by apply ring_llink_head.
      * apply List.Forall_forall. intros y (p & <- & Hp)%in_map_iff.
        exists (timeOf p). split.
        -- apply Htimes. apply in_app_iff. by right.
        -- rewrite List.Forall_forall in H2. by apply H2.
      * rewrite length_map. rewrite length_app in Hfuel. unfold wnode in *. lia.
    + intros fuel. apply sortIn_None in E as [H0 Hall].
      apply (sortIn_round times (nextTime w) n h hd (map fst l) Hr); [|by left].
      intros y [<-|(p & <- & Hp)%in_map_iff].
      * exists 0. split; [done|lia].
      * exists (timeOf p). split; [by apply Htimes|].
        rewrite List.Forall_forall in Hall. by apply Hall.
  - destruct (ring_insertRight h hd [] (map fst l) n Hr Hn) as (h' & E' & Hr' & _).
    exists h'. split; [exact E'|exact Hr'].
Qed.

Lemma linked_list_sortIn_sample :
  DLL.ring twoList 0 (map fst twoWait) /\
  sortIn twoWait 3 (newWaitElement 15 wf_userEnterPrepareForSuccessor)
  = Some [(1%nat, newWaitElement 10 wf_executeLetPeopleOutIn);
          (3%nat, newWaitElement 15 wf_userEnterPrepareForSuccessor);
          (2%nat, newWaitElement 20 wf_executeCloseDoors)] /\
  exists h',
    DLL.sortIn 3 twoTimes 0 15 3 twoList = Some h' /\
    DLL.ring h' 0 [1%nat; 3%nat; 2%nat].
Proof.
  assert (Hr : DLL.ring twoList 0 (map fst twoWait)) by exact ring_twoList.
  assert (E : sortIn twoWait 3 (newWaitElement 15 wf_userEnterPrepareForSuccessor)
              = Some [(1%nat, newWaitElement 10 wf_executeLetPeopleOutIn);
                      (3%nat, newWaitElement 15 wf_userEnterPrepareForSuccessor);
                      (2%nat, newWaitElement 20 wf_executeCloseDoors)])
    by (vm_compute; reflexivity).
  split; [exact Hr|]. split; [exact E|].
  assert (Hn : ~ In 3%nat (0%nat :: map fst twoWait)).
  { intros [H|[H|[H|[]]]]; discriminate H. }
  assert (Ht : forall p, In p twoWait -> twoTimes !! fst p = Some (timeOf p)).
  { intros p [<-|[<-|[]]]; reflexivity. }
  pose proof (proj1 (linked_list_sortIn twoList 0%nat twoTimes twoWait 3%nat
                       (newWaitElement 15 wf_userEnterPrepareForSuccessor)
                       Hr Hn eq_refl Ht)) as H.
  destruct (H 3%nat) as (h' & E' & Hr'); [simpl; lia|].
  exists h'. split; [exact E'|exact Hr'].
Defined.

(** * The scans for calls, and E3 and E5 *)

(** What [scheduleElevator] does to the nodes of the WAIT list. *)
Lemma scheduleElevator_nodes sl d a s :
  waitOK s -> 0 <= d -> slotOf a = Some sl ->
  exists s', scheduleElevator sl d a s = Some s' /\ waitOK s' /\
    ele s' = setSlot sl (Some (alloc s)) (ele s) /\
    time s' = time s /\ alloc s' = S (alloc s) /\
    listNode s' = listNode s /\ giveUp s' = giveUp s /\
    (forall p, In p (wait s') <->
       p = (alloc s, newWaitElement (time s + d) a) \/
       (In p (wait s) /\ Some (fst p) <> getSlot sl (ele s))) /\
    (forall x, pend s' x -> x = a \/ (pend s x /\ slotOf x <> Some sl)).
Proof.
  intros Hw Hd Ha.
  destruct (scheduleElevator_spec sl d a s Hw Hd Ha)
    as (s' & E & Hw' & Hele & Ht & Hl & Hg & _ & HP).
  destruct (scheduleElevator_inserted sl d a s Hw Hd) as (r & E' & Hins & _).
  exists s'. split_and!; try done.
  - rewrite E in E'. by injection E' as ->.
  - intros p. rewrite E in E'. injection E' as ->. simpl.
    pose proof (inserted_In _ _ _ p Hins) as H1.
    pose proof (in_delete_iff (getSlot sl (ele s)) (wait s) p) as H2.
    simpl in H1, H2. tauto.
Qed.

(** X13. With one call entry per floor and the car at a floor of the
    building, the two scans return: [isAllCallsAboveFalse] answers true
    exactly when no floor above the car has a call of any kind, and
    [isAllCallsBelowFalse] exactly when no floor below has one.  At the top
    floor the first, at the bottom floor the second, reads no entry and
    answers true. *)
Theorem call_scans s :
  callsSized (ele s) -> 0 <= floor (ele s) < floors ->
  (isAllCallsAboveFalse s = Some true <-> ~ callAbove (ele s)) /\
  (isAllCallsAboveFalse s = Some false <-> callAbove (ele s)) /\
  (isAllCallsBelowFalse s = Some true <-> ~ callBelow (ele s)) /\
  (isAllCallsBelowFalse s = Some false <-> callBelow (ele s)) /\
  (floor (ele s) = floors - 1 -> isAllCallsAboveFalse s = Some true) /\
  (floor (ele s) = 0 -> isAllCallsBelowFalse s = Some true).
Proof.
  intros Hc Hf.
  destruct (isAllCallsAboveFalse_eq s Hc Hf) as (a & Ha & HA).
  destruct (isAllCallsBelowFalse_eq s Hc Hf) as (b & Hb & HB).
  rewrite Ha, Hb. split_and!.
  - destruct a; intuition congruence.
  - destruct a; intuition congruence.
  - destruct b; intuition congruence.
  - destruct b; intuition congruence.
  - intros E. destruct a; [done|]. destruct HA as (j & Hj & _). lia.
  - intros E. destruct b; [done|]. destruct HB as (j & Hj & _). lia.
Qed.

Lemma call_scans_sample :
  callsSized (ele (stateOf (sampleRun 23))) /\
  0 <= floor (ele (stateOf (sampleRun 23))) < floors /\
  ~ callAbove (ele (stateOf (sampleRun 23))).
Proof.
  pose proof (sampleRun_state 23 ltac:(vm_compute; reflexivity)) as Hr.
  pose proof (stateOK_callsSized _ _ (reachable_stateOK _ Hr)) as Hc.
  pose proof (l_floor _ _ (reachable_stateOK _ Hr)) as Hf.
  split; [exact Hc|]. split; [exact Hf|].
  apply (proj1 (call_scans _ Hc Hf)). vm_compute. reflexivity.
Defined.

(** X14. On a well-formed state [executeOpenDoors] returns: the step is
    E3, D1 and D2 are on, and E9 is on the WAIT list 300 units from now, E5
    76 units from now and E4 20 units from now, in the three nodes it
    allocates, to which ELEV3, ELEV2 and ELEV1 refer.  Whatever these handles
    referred to before is off the list: every listener still scheduled is one
    of the three or was scheduled before without a handle.  The floor, the
    direction, D3, the calls, the users and the clock stay. *)
Theorem executeOpenDoors_spec s :
  waitOK s ->
  let a := alloc s in
  exists s',
    executeOpenDoors s = Some s' /\ waitOK s' /\
    step (ele s') = stepOpenDoors /\ d1 (ele s') = true /\ d2 (ele s') = true /\
    floor (ele s') = floor (ele s) /\ state (ele s') = state (ele s) /\
    d3 (ele s') = d3 (ele s) /\ time s' = time s /\
    callUp (ele s') = callUp (ele s) /\ callDown (ele s') = callDown (ele s) /\
    callCar (ele s') = callCar (ele s) /\
    stack (ele s') = stack (ele s) /\ queue (ele s') = queue (ele s) /\
    elev3 (ele s') = Some a /\ elev2 (ele s') = Some (S a) /\
    elev1 (ele s') = Some (S (S a)) /\ alloc s' = S (S (S a)) /\
    In (a, newWaitElement (time s + 300) wf_executeSetInactionIndicator) (wait s') /\
    In (S a, newWaitElement (time s + 76) wf_executeCloseDoors) (wait s') /\
    In (S (S a), newWaitElement (time s + 20) wf_executeLetPeopleOutIn) (wait s') /\
    (forall x, pend s' x ->
       x = wf_executeSetInactionIndicator \/ x = wf_executeCloseDoors \/
       x = wf_executeLetPeopleOutIn \/ (pend s x /\ slotOf x = None)).
Proof.
  intros Hw. cbv zeta. unfold executeOpenDoors. cbv zeta.
  set (s0 := upd_ele (e_d2 true) (upd_ele (e_d1 true) (upd_ele (e_step stepOpenDoors) s))).
  assert (Hw0 : waitOK s0)
    by (unfold s0; repeat (apply waitOK_upd; [by intros []|]); done).
  destruct (scheduleElevator_nodes Elev3 300 wf_executeSetInactionIndicator s0 Hw0)
    as (s1 & E1 & Hw1 & He1 & Ht1 & Ha1 & _ & _ & Hn1 & Hp1); [lia|done|].
  destruct (scheduleElevator_nodes Elev2 76 wf_executeCloseDoors s1 Hw1)
    as (s2 & E2 & Hw2 & He2 & Ht2 & Ha2 & _ & _ & Hn2 & Hp2); [lia|done|].
  destruct (scheduleElevator_nodes Elev1 20 wf_executeLetPeopleOutIn s2 Hw2)
    as (s3 & E3 & Hw3 & He3 & Ht3 & Ha3 & _ & _ & Hn3 & Hp3); [lia|done|].
  rewrite E1. simpl. rewrite E2. simpl. rewrite E3.
  exists s3. split; [done|]. split; [done|].
  rewrite He3, He2, He1, Ha3, Ha2, Ha1, Ht3, Ht2, Ht1. simpl.
  split_and!; try done.
  - apply Hn3. right. split.
    + apply Hn2. right. split; [apply Hn1; by left|].
      rewrite He1. simpl. intros H.
      pose proof (w_alloc _ _ _ _ Hw0 Elev2 _ (eq_sym H)). simpl in *. lia.
    + rewrite He2, He1. simpl. intros H.
      pose proof (w_alloc _ _ _ _ Hw0 Elev1 _ (eq_sym H)). simpl in *. lia.
  - apply Hn3. right. split.
    + apply Hn2. left. by rewrite Ha1, Ht1.
    + rewrite He2, He1. simpl. intros H.
      pose proof (w_alloc _ _ _ _ Hw0 Elev1 _ (eq_sym H)). simpl in *. lia.
  - apply Hn3. left. by rewrite Ha2, Ha1, Ht2, Ht1.
  - intros x Hx. apply Hp3 in Hx as [->|[Hx N1]]; [auto|].
    apply Hp2 in Hx as [->|[Hx N2]]; [auto|].
    apply Hp1 in Hx as [->|[Hx N3]]; [auto|].
    right; right; right. split; [done|].
    destruct (slotOf x) as [[]|]; done.
Qed.

Lemma executeOpenDoors_spec_sample :
  waitOK (popped (stateOf (sampleRun 8))) /\
  exists s', executeOpenDoors (popped (stateOf (sampleRun 8))) = Some s' /\
             d1 (ele s') = true.
Proof.
  pose proof (sampleRun_state 8 ltac:(vm_compute; reflexivity)) as Hr.
  pose proof (popped_waitOK _ Hr) as Hw.
  split; [exact Hw|].
  destruct (executeOpenDoors_spec _ Hw) as (s' & E & _ & _ & H1 & _).
  exists s'. split; [exact E|exact H1].
Defined.

(** X15. On a well-formed state [executeCloseDoors] returns, and the state
    it leaves is this.  The step is E5; one node is allocated; the clock,
    the user counter and the users' handles are as they were.  While D1 is
    on, nothing else of the elevator changes but ELEV2, which refers to the
    new node: this node holds E5, due 40 units from now, and is put in its
    place by time into the old WAIT list without the node ELEV2 referred to,
    so that E5 only schedules itself again.  With D1 off, nothing else of
    the elevator changes but D3, which is off, and ELEV1, which refers to
    the new node: this node holds E6, due 20 units from now, and is put in
    its place by time into the old list without the node ELEV1 referred to,
    so that E6 is then the only step of the elevator coroutine on the WAIT
    list. *)
Theorem executeCloseDoors_spec s :
  waitOK s ->
  let a := alloc s in
  let e := ele s in
  exists s',
    executeCloseDoors s = Some s' /\ waitOK s' /\
    step (ele s') = stepCloseDoors /\ floor (ele s') = floor e /\
    state (ele s') = state e /\ d1 (ele s') = d1 e /\
    d2 (ele s') = d2 e /\ time s' = time s /\
    alloc s' = S a /\ userID s' = userID s /\
    listNode s' = listNode s /\ giveUp s' = giveUp s /\
    (d1 e = true ->
     ele s' = e_elev2 (Some a) (e_step stepCloseDoors e) /\
     inserted (a, newWaitElement (time s + 40) wf_executeCloseDoors)
       (delete (elev2 e) (wait s)) (wait s') /\
     d3 (ele s') = d3 e /\ elev1 (ele s') = elev1 e /\
     elev2 (ele s') = Some a /\
     In (a, newWaitElement (time s + 40) wf_executeCloseDoors) (wait s') /\
     forall x, pend s' x -> slotOf x = Some Elev1 -> pend s x) /\
    (d1 e = false ->
     ele s' = e_elev1 (Some a) (e_d3 false (e_step stepCloseDoors e)) /\
     inserted (a, newWaitElement (time s + 20) wf_executePrepareToMove)
       (delete (elev1 e) (wait s)) (wait s') /\
     d3 (ele s') = false /\ elev2 (ele s') = elev2 e /\
     elev1 (ele s') = Some a /\
     In (a, newWaitElement (time s + 20) wf_executePrepareToMove) (wait s') /\
     forall x, pend s' x -> slotOf x = Some Elev1 -> x = wf_executePrepareToMove).
Proof.
  intros Hw. cbv zeta. unfold executeCloseDoors. cbv zeta.
  cbn [ele upd_ele e_step d1].
  destruct (d1 (ele s)) eqn:D1.
  - set (s0 := upd_ele (e_step stepCloseDoors) s).
    assert (Hw0 : waitOK s0) by (apply waitOK_upd; [by intros []|done]).
    destruct (scheduleElevator_nodes Elev2 40 wf_executeCloseDoors s0 Hw0)
      as (s1 & E1 & Hw1 & He1 & Ht1 & Ha1 & Hl1 & Hg1 & Hn1 & Hp1); [lia|done|].
    destruct (scheduleElevator_inserted Elev2 40 wf_executeCloseDoors s0 Hw0)
      as (r & Er & Hi & _); [lia|].
    rewrite E1 in Er. injection Er as Er.
    exists s1. split; [done|]. split; [done|]. rewrite He1. simpl.
    split_and!; try done; [by rewrite Er|]. intros _. split_and!; try done.
    + rewrite Er. exact Hi.
    + apply Hn1. by left.
    + intros x Hx Hs. apply Hp1 in Hx as [->|[Hx _]]; done.
  - set (s0 := upd_ele (e_d3 false) (upd_ele (e_step stepCloseDoors) s)).
    assert (Hw0 : waitOK s0)
      by (unfold s0; repeat (apply waitOK_upd; [by intros []|]); done).
    destruct (scheduleElevator_nodes Elev1 20 wf_executePrepareToMove s0 Hw0)
      as (s1 & E1 & Hw1 & He1 & Ht1 & Ha1 & Hl1 & Hg1 & Hn1 & Hp1); [lia|done|].
    destruct (scheduleElevator_inserted Elev1 20 wf_executePrepareToMove s0 Hw0)
      as (r & Er & Hi & _); [lia|].
    rewrite E1 in Er. injection Er as Er.
    exists s1. split; [done|]. split; [done|]. rewrite He1. simpl.
    split_and!; try done; [by rewrite Er|]. intros _. split_and!; try done.
    + rewrite Er. exact Hi.
    + apply Hn1. by left.
    + intros x Hx Hs. apply Hp1 in Hx as [->|[_ Hx]]; done.
Qed.

(** E5 of turn 12 of the sample run: the user is in and D1 is off. *)
Lemma executeCloseDoors_spec_sample :
  waitOK (popped (stateOf (sampleRun 12))) /\
  d1 (ele (popped (stateOf (sampleRun 12)))) = false /\
  exists s', executeCloseDoors (popped (stateOf (sampleRun 12))) = Some s' /\
    step (ele s') = stepCloseDoors /\ d3 (ele s') = false /\
    In (alloc (popped (stateOf (sampleRun 12))),
        newWaitElement (time (popped (stateOf (sampleRun 12))) + 20) wf_executePrepareToMove)
       (wait s').
Proof.
  pose proof (sampleRun_state 12 ltac:(vm_compute; reflexivity)) as Hr.
  pose proof (popped_waitOK _ Hr) as Hw.
  assert (Hd : d1 (ele (popped (stateOf (sampleRun 12)))) = false)
    by (vm_compute; reflexivity).
  split; [exact Hw|]. split; [exact Hd|].
  destruct (executeCloseDoors_spec _ Hw)
    as (s' & E & _ & H1 & _ & _ & _ & _ & _ & _ & _ & _ & _ & _ & Hoff).
  destruct (Hoff Hd) as (_ & _ & H3 & _ & _ & Hin & _).
  exists s'. split; [exact E|]. split; [exact H1|]. split; [exact H3|exact Hin].
Defined.

(** * The users in the queues and in the car: U3, U4, U5, U6 *)

Lemma waitSortIn_nodes d a s :
  waitOK s -> 0 <= d -> slotOf a = None ->
  exists s', waitSortIn (newWaitElement (time s + d) a) s = Some (alloc s, s') /\
    waitOK s' /\ ele s' = ele s /\ time s' = time s /\ alloc s' = S (alloc s) /\
    listNode s' = listNode s /\ giveUp s' = giveUp s /\
    inserted (alloc s, newWaitElement (time s + d) a) (wait s) (wait s').
Proof.
  intros Hw Hd Ha.
  destruct (waitSortIn_spec d a s Hw Hd Ha) as (s' & E & Hw' & He & Ht & Hl & Hg & _).
  destruct (sortIn_inserted (wait s) (alloc s) (newWaitElement (time s + d) a))
    as (r & Hr & Hi & _).
  { apply Hw. }
  { simpl. pose proof (w_time _ _ _ _ Hw). lia. }
  exists s'. rewrite (waitSortIn_eq _ _ _ Hr) in E. injection E as <-.
  split; [by rewrite (waitSortIn_eq _ _ _ Hr)|]. split_and!; done.
Qed.

Lemma userEnterQueue_Some u s q :
  waitOK s -> 0 <= giveUpTime u ->
  index (queue (ele s)) (in_ u) = Some q ->
  exists s',
    userEnterQueue u s = Some s' /\ waitOK s' /\
    ele s' = e_queue (<[Z.to_nat (in_ u) := q ++ [(alloc s, u)]]> (queue (ele s))) (ele s) /\
    index (queue (ele s')) (in_ u) = Some (q ++ [(alloc s, u)]) /\
    (forall j, j <> in_ u -> index (queue (ele s')) j = index (queue (ele s)) j) /\
    inserted (S (alloc s), newWaitElement (time s + giveUpTime u) (wf_userGiveUp u))
      (wait s) (wait s') /\
    listNode s' = <[id_ u := alloc s]> (listNode s) /\
    giveUp s' = <[id_ u := S (alloc s)]> (giveUp s) /\
    alloc s' = S (S (alloc s)) /\ time s' = time s.
Proof.
  intros Hw Hg Hq. unfold userEnterQueue. cbv zeta. simpl. rewrite Hq.
  assert (Hqs : assign (queue (ele s)) (in_ u) (insertLeft q (alloc s, u))
            = Some (<[Z.to_nat (in_ u) := q ++ [(alloc s, u)]]> (queue (ele s)))).
  { unfold assign. by rewrite Hq. }
  rewrite Hqs. simpl.
  set (s0 := upd_ele _ (set_listNode _ (set_alloc _ s))).
  assert (Hw0 : waitOK s0).
  { unfold waitOK, s0. simpl. destruct Hw as [H1 H2 H3 H4 H5 H6 H7].
    split; try done.
    - eapply Forall_impl; [exact H5|]. simpl. intros; lia.
    - intros sl n Hn. specialize (H7 sl n Hn). lia. }
  destruct (waitSortIn_nodes (giveUpTime u) (wf_userGiveUp u) s0 Hw0 Hg eq_refl)
    as (s1 & E & Hw1 & He & Ht & Ha & Hl & Hgu & Hi).
  change (time s0) with (time s) in *. rewrite E. simpl.
  eexists. split; [reflexivity|]. simpl. rewrite He, Ha, Hl, Hgu, Ht.
  split_and!; try done.
  - apply (index_assign_eq _ _ _ _ Hqs).
  - intros j Hj. by apply (index_assign_ne _ _ _ _ _ Hqs).
Qed.

(** X16. [userEnterQueue] on a well-formed state, for a user whose
    patience is not negative: without a queue at index IN the access fails;
    otherwise it returns, the user's new node is the last of QUEUE[IN], the
    rest of the elevator stays, U4 of this user is put on the WAIT list
    GIVEUPTIME from now, behind the nodes due no later and before those due
    later, and the user's two handles refer to the two nodes allocated. *)
Theorem userEnterQueue_spec u s :
  waitOK s -> 0 <= giveUpTime u ->
  (index (queue (ele s)) (in_ u) = None -> userEnterQueue u s = None) /\
  (forall q, index (queue (ele s)) (in_ u) = Some q ->
   exists s',
     userEnterQueue u s = Some s' /\ waitOK s' /\
     ele s' = e_queue (<[Z.to_nat (in_ u) := q ++ [(alloc s, u)]]> (queue (ele s))) (ele s) /\
     index (queue (ele s')) (in_ u) = Some (q ++ [(alloc s, u)]) /\
     (forall j, j <> in_ u -> index (queue (ele s')) j = index (queue (ele s)) j) /\
     inserted (S (alloc s), newWaitElement (time s + giveUpTime u) (wf_userGiveUp u))
       (wait s) (wait s') /\
     listNode s' = <[id_ u := alloc s]> (listNode s) /\
     giveUp s' = <[id_ u := S (alloc s)]> (giveUp s) /\
     alloc s' = S (S (alloc s)) /\ time s' = time s).
Proof.
  intros Hw Hg. split.
  - intros E. unfold userEnterQueue. cbv zeta. simpl. by rewrite E.
  - intros q Hq. by apply userEnterQueue_Some.
Qed.

Lemma userEnterQueue_spec_sample :
  waitOK (popped (stateOf (sampleRun 1))) /\
  0 <= giveUpTime (newUser 1 0 1 300) /\
  exists s', userEnterQueue (newUser 1 0 1 300) (popped (stateOf (sampleRun 1))) = Some s' /\
             index (queue (ele s')) 0 = Some [(4%nat, newUser 1 0 1 300)].
Proof.
  pose proof (sampleRun_state 1 ltac:(vm_compute; reflexivity)) as Hr.
  pose proof (popped_waitOK _ Hr) as Hw.
  assert (Hg : 0 <= giveUpTime (newUser 1 0 1 300)) by (simpl; lia).
  split; [exact Hw|]. split; [exact Hg|].
  destruct (proj2 (userEnterQueue_spec _ _ Hw Hg) [])
    as (s' & E & _ & _ & Hq & _); [vm_compute; reflexivity|].
  exists s'. split; [exact E|].
  replace (alloc (popped (stateOf (sampleRun 1)))) with 4%nat in Hq
    by (vm_compute; reflexivity).
  exact Hq.
Defined.

Lemma map_delete_None {A} (l : list (list (node * A))) : map (delete None) l = l.
Proof. induction l as [|x l IH]; [done|]. simpl. by rewrite IH. Qed.

Lemma listDelete_None s : listDelete None s = s.
Proof.
  unfold listDelete, upd_ele, e_queue, e_stack. destruct s as [t i e w a ln g].
  simpl. rewrite map_delete_None. by destruct e.
Qed.

(** X17. [userGiveUp] always returns and leaves the WAIT list, the clock
    and the calls alone.  With the car at the user's floor and D1 on it
    changes nothing, and so it does for a user who has no node.  Otherwise
    the user's node is taken out of the queues and of the car: afterwards
    it is in none of them, and the other nodes are where they were, in
    the same order. *)
Theorem userGiveUp_spec u s :
  exists s',
    userGiveUp u s = Some s' /\
    wait s' = wait s /\ time s' = time s /\ alloc s' = alloc s /\
    listNode s' = listNode s /\ giveUp s' = giveUp s /\
    callUp (ele s') = callUp (ele s) /\ callDown (ele s') = callDown (ele s) /\
    callCar (ele s') = callCar (ele s) /\ floor (ele s') = floor (ele s) /\
    (floor (ele s) = in_ u /\ d1 (ele s) = true -> s' = s) /\
    (listNode s !! id_ u = None -> s' = s) /\
    (floor (ele s) <> in_ u \/ d1 (ele s) = false ->
     forall n, listNode s !! id_ u = Some n ->
       stack (ele s') = List.filter (fun p => negb (Nat.eqb (fst p) n)) (stack (ele s)) /\
       (forall p, In p (stack (ele s')) <-> In p (stack (ele s)) /\ fst p <> n) /\
       length (queue (ele s')) = length (queue (ele s)) /\
       forall f q, index (queue (ele s)) f = Some q ->
         index (queue (ele s')) f
           = Some (List.filter (fun p => negb (Nat.eqb (fst p) n)) q) /\
         forall p, In p (List.filter (fun p => negb (Nat.eqb (fst p) n)) q)
                   <-> In p q /\ fst p <> n).
Proof.
  unfold userGiveUp.
  destruct (floor (ele s) =? in_ u) eqn:Ef; destruct (d1 (ele s)) eqn:Ed; simpl;
    eexists; (split; [reflexivity|]); simpl; split_and!; try done;
    try (intros [H1 H2]; apply Z.eqb_neq in Ef; done);
    try (intros [H1 H2]; done);
    try (intros ->; apply listDelete_None).
  all: try (intros [H|H]; [apply Z.eqb_eq in Ef; done|done]).
  all: intros _ n ->; simpl; split; [done|]; split; [intros p; apply in_unlink|];
    split; [by rewrite length_map|];
    intros f q Hq; unfold unode in *; rewrite index_map, Hq; split; [done|];
    intros p; apply (in_unlink n q p).
Qed.

Lemma unlink_fresh {A} (a : node) (l : list (node * A)) :
  Forall (fun p => (fst p < a)%nat) l -> unlink a l = l.
Proof.
  intros H. apply unlink_absent. intros (p & E & Hp)%in_map_iff.
  rewrite Forall_forall in H. apply list_elem_of_In, H in Hp. lia.
Qed.

Lemma unlink_app {A} (a : node) (l1 l2 : list (node * A)) :
  unlink a (l1 ++ l2) = unlink a l1 ++ unlink a l2.
Proof. unfold unlink. apply List.filter_app. Qed.

Lemma unlink_one {A} (a : node) (x : A) : unlink a [(a, x)] = [].
Proof. unfold unlink. simpl. by rewrite Nat.eqb_refl. Qed.

(** Taking the node just put at the rear of one queue out of all queues. *)
Lemma unlink_entered (a : node) (u : user) (qs : list (list unode)) (i : nat) q :
  Forall (Forall (fun p : unode => (fst p < a)%nat)) qs ->
  qs !! i = Some q ->
  map (delete (Some a)) (<[i := q ++ [(a, u)]]> qs) = qs.
Proof.
  unfold unode in *. intros Hf Hq. apply list_eq. intros k.
  change (map ?f ?l) with (f <$> l). rewrite list_lookup_fmap.
  destruct (decide (k = i)) as [->|Hk].
  - rewrite list_lookup_insert_eq by (by eapply lookup_lt_Some).
    rewrite Hq. simpl. unfold delete. rewrite unlink_app, unlink_one, app_nil_r. f_equal.
    apply unlink_fresh. rewrite Forall_forall in Hf.
    apply Hf. by eapply list_elem_of_lookup_2.
  - rewrite list_lookup_insert_ne by done.
    destruct (qs !! k) as [q'|] eqn:E; [|done]. simpl. f_equal.
    unfold delete. apply unlink_fresh. rewrite Forall_forall in Hf.
    apply Hf. by eapply list_elem_of_lookup_2.
Qed.

(** What a call of [userEnterQueue] that returns has done. *)
Lemma userEnterQueue_inv u s s1 :
  userEnterQueue u s = Some s1 ->
  exists q, index (queue (ele s)) (in_ u) = Some q /\
    ele s1 = e_queue (<[Z.to_nat (in_ u) := q ++ [(alloc s, u)]]> (queue (ele s))) (ele s) /\
    listNode s1 = <[id_ u := alloc s]> (listNode s) /\
    giveUp s1 = <[id_ u := S (alloc s)]> (giveUp s) /\
    alloc s1 = S (S (alloc s)) /\ time s1 = time s /\
    sortIn (wait s) (S (alloc s))
      (newWaitElement (time s + giveUpTime u) (wf_userGiveUp u)) = Some (wait s1).
Proof.
  unfold userEnterQueue. cbv zeta. simpl.
  destruct (index (queue (ele s)) (in_ u)) as [q|] eqn:Hq; [|done]. simpl.
  unfold assign. rewrite Hq. simpl. unfold waitSortIn. simpl.
  destruct (sortIn _ _ _) as [r|] eqn:Hr; [|done]. simpl.
  intros [= <-]. exists q. simpl. split_and!; done.
Qed.

(** X18. A user who enters the queue and gives up at once leaves the
    elevator as it was: if the nodes in the queues and in the car are older
    than the next node to be allocated, and the car is at another floor or
    D1 is off, [userGiveUp] after [userEnterQueue] restores the queues and
    changes nothing else of the elevator; the U4 scheduled by U3 is the only
    node the WAIT list has gained. *)
Theorem enter_then_give_up u s s1 :
  usersFresh s ->
  userEnterQueue u s = Some s1 ->
  floor (ele s) <> in_ u \/ d1 (ele s) = false ->
  exists s2,
    userGiveUp u s1 = Some s2 /\ ele s2 = ele s /\
    forall p, In p (wait s2) <->
      p = (S (alloc s), newWaitElement (time s + giveUpTime u) (wf_userGiveUp u)) \/
      In p (wait s).
Proof.
  intros [Hs Hq] E Hc.
  destruct (userEnterQueue_inv u s s1 E) as (q & Eq & He & Hl & _ & _ & _ & Hr).
  assert (Hb : negb (floor (ele s) =? in_ u) || negb (d1 (ele s)) = true).
  { destruct Hc as [Hc| ->]; [|by rewrite orb_true_r].
    apply Z.eqb_neq in Hc. by rewrite Hc. }
  unfold userGiveUp. rewrite He. simpl. rewrite Hb.
  eexists. split; [reflexivity|]. split.
  - rewrite Hl, lookup_insert_eq. unfold listDelete. simpl. rewrite He. simpl.
    unfold index in Eq. destruct (in_ u <? 0); [done|].
    unfold delete at 2. rewrite (unlink_entered _ _ _ _ _ Hq Eq), (unlink_fresh _ _ Hs).
    by destruct (ele s).
  - intros p. simpl. apply (sortIn_In _ _ _ _ p Hr).
Qed.

Lemma enter_then_give_up_sample :
  usersFresh (popped (stateOf (sampleRun 1))) /\
  (exists s1, userEnterQueue (newUser 1 0 1 300) (popped (stateOf (sampleRun 1))) = Some s1 /\
     exists s2, userGiveUp (newUser 1 0 1 300) s1 = Some s2 /\
                ele s2 = ele (popped (stateOf (sampleRun 1)))) /\
  floor (ele (popped (stateOf (sampleRun 1)))) <> 0.
Proof.
  assert (Hf : usersFresh (popped (stateOf (sampleRun 1)))).
  { vm_compute. split; repeat constructor. }
  assert (Hc : floor (ele (popped (stateOf (sampleRun 1)))) <> 0).
  { vm_compute. discriminate. }
  split; [exact Hf|]. split; [|exact Hc].
  pose proof (sampleRun_state 1 ltac:(vm_compute; reflexivity)) as Hr.
  destruct (userEnterQueue_Some (newUser 1 0 1 300) _ [] (popped_waitOK _ Hr))
    as (s1 & E & _); [simpl; lia|vm_compute; reflexivity|].
  exists s1. split; [exact E|].
  destruct (enter_then_give_up _ _ _ Hf E (or_introl Hc)) as (s2 & E2 & He & _).
  exists s2. split; [exact E2|exact He].
Defined.

(** What a call of [scheduleElevator] that returns has done. *)
Lemma scheduleElevator_inv sl d a s s' :
  scheduleElevator sl d a s = Some s' ->
  exists r, sortIn (delete (getSlot sl (ele s)) (wait s)) (alloc s)
              (newWaitElement (time s + d) a) = Some r /\
            s' = placed sl r s.
Proof.
  unfold scheduleElevator, waitSortIn. simpl.
  destruct (sortIn _ _ _) as [r|] eqn:Hr; [|done]. simpl.
  intros [= <-]. by exists r.
Qed.

(** What a call of [userGetIn] that returns has done, for a user with the
    node [n]. *)
Lemma userGetIn_inv u s s' n :
  listNode s !! id_ u = Some n ->
  userGetIn u s = Some s' ->
  is_Some (index (callCar (ele s)) (out u)) /\
  stack (ele s') = unlink n (stack (ele s)) ++ [(n, u)] /\
  queue (ele s') = map (delete (Some n)) (queue (ele s)) /\
  callCar (ele s') = <[Z.to_nat (out u) := true]> (callCar (ele s)) /\
  callUp (ele s') = callUp (ele s) /\ callDown (ele s') = callDown (ele s) /\
  floor (ele s') = floor (ele s) /\ step (ele s') = step (ele s) /\
  d1 (ele s') = d1 (ele s) /\ d2 (ele s') = d2 (ele s) /\ d3 (ele s') = d3 (ele s) /\
  time s' = time s /\ listNode s' = listNode s /\ giveUp s' = giveUp s /\
  (state (ele s) <> stateNeutral ->
   state (ele s') = state (ele s) /\ alloc s' = alloc s /\
   elev2 (ele s') = elev2 (ele s) /\
   wait s' = delete (giveUp s !! id_ u) (wait s)) /\
  (state (ele s) = stateNeutral ->
   state (ele s') = wayOf u /\ alloc s' = S (alloc s) /\
   elev2 (ele s') = Some (alloc s) /\
   sortIn (delete (elev2 (ele s)) (delete (giveUp s !! id_ u) (wait s))) (alloc s)
     (newWaitElement (time s + 25) wf_executeCloseDoors) = Some (wait s')).
Proof.
  intros Hn. unfold userGetIn. cbv zeta. simpl. rewrite Hn. simpl.
  unfold assign. destruct (index (callCar (ele s)) (out u)) as [b|] eqn:Ec; [|done].
  simpl. destruct (decide (state (ele s) = stateNeutral)) as [En|En].
  - rewrite bool_decide_eq_true_2 by done.
    intros E. apply scheduleElevator_inv in E as (r & Hr & ->).
    unfold wayOf. destruct (out u >? in_ u); simpl in *;
      (split_and!; try done; by eauto).
  - rewrite bool_decide_eq_false_2 by done. intros [= <-]. simpl.
    split_and!; try done; by eauto.
Qed.

(** X19. [userGetIn] for a user with the node [n], the clock not being
    negative: without an entry for OUT in the car calls the access fails;
    otherwise it returns, the node is out of every queue and is the last of
    the ELEVATOR list, the car call of OUT is on, and the node of the
    user's U4 is off the WAIT list.  In NEUTRAL state the direction becomes
    that from IN to OUT and E5 is scheduled 25 units from now through ELEV2;
    in another state the direction stays and nothing is scheduled. *)
Theorem userGetIn_spec u s n :
  0 <= time s -> listNode s !! id_ u = Some n ->
  (index (callCar (ele s)) (out u) = None -> userGetIn u s = None) /\
  (is_Some (index (callCar (ele s)) (out u)) ->
   exists s',
     userGetIn u s = Some s' /\
     stack (ele s') = List.filter (fun p => negb (Nat.eqb (fst p) n)) (stack (ele s))
                      ++ [(n, u)] /\
     length (queue (ele s')) = length (queue (ele s)) /\
     (forall f q, index (queue (ele s)) f = Some q ->
        index (queue (ele s')) f
          = Some (List.filter (fun p => negb (Nat.eqb (fst p) n)) q)) /\
     (forall f q p, index (queue (ele s')) f = Some q -> In p q -> fst p <> n) /\
     pressed (callCar (ele s')) (out u) = true /\
     (forall j, j <> out u -> pressed (callCar (ele s')) j = pressed (callCar (ele s)) j) /\
     time s' = time s /\ floor (ele s') = floor (ele s) /\
     (state (ele s) <> stateNeutral ->
      state (ele s') = state (ele s) /\
      forall p, In p (wait s') <-> In p (wait s) /\ Some (fst p) <> giveUp s !! id_ u) /\
     (state (ele s) = stateNeutral ->
      state (ele s') = wayOf u /\ elev2 (ele s') = Some (alloc s) /\
      forall p, In p (wait s') <->
        p = (alloc s, newWaitElement (time s + 25) wf_executeCloseDoors) \/
        (In p (wait s) /\ Some (fst p) <> giveUp s !! id_ u /\
         Some (fst p) <> elev2 (ele s)))).
Proof.
  intros Ht Hn. split.
  - intros E. unfold userGetIn. cbv zeta. simpl. rewrite Hn. simpl.
    unfold assign. by rewrite E.
  - intros [b Hb]. destruct (userGetIn_Some u s b Ht Hb) as [s' E].
    exists s'. split; [done|].
    destruct (userGetIn_inv u s s' n Hn E)
      as (_ & Hst & Hq & Hc & _ & _ & Hf & _ & _ & _ & _ & Htm & _ & _ & Hk & Hz).
    apply index_range in Hb.
    rewrite Hst, Hq, Hc, Htm, Hf. split_and!; try done.
    + by rewrite length_map.
    + intros f q Eq. unfold unode in *. by rewrite index_map, Eq.
    + intros f q p Eq Hp. unfold unode in *. rewrite index_map in Eq.
      destruct (index _ f) as [q0|]; simpl in Eq; [|done].
      injection Eq as <-.
      by apply (in_unlink n q0 p) in Hp as [_ Hp].
    + apply pressed_insert_eq. lia.
    + intros j Hj. apply pressed_insert_ne; [done|lia].
    + intros Hs. destruct (Hk Hs) as (H1 & _ & _ & H4). split; [done|].
      intros p. rewrite H4. apply in_delete_iff.
    + intros Hs. destruct (Hz Hs) as (H1 & _ & H3 & H4). split; [done|].
      split; [done|]. intros p. rewrite (sortIn_In _ _ _ _ p H4).
      unfold wnode in *. rewrite !in_delete_iff. tauto.
Qed.

Lemma userGetIn_spec_sample :
  0 <= time (popped (stateOf (sampleRun 10))) /\
  listNode (popped (stateOf (sampleRun 10))) !! id_ (newUser 1 0 1 300) = Some 4%nat /\
  exists s', userGetIn (newUser 1 0 1 300) (popped (stateOf (sampleRun 10))) = Some s' /\
             pressed (callCar (ele s')) 1 = true.
Proof.
  assert (Ht : 0 <= time (popped (stateOf (sampleRun 10)))).
  { replace (time (popped (stateOf (sampleRun 10)))) with 200
      by (vm_compute; reflexivity). lia. }
  assert (Hn : listNode (popped (stateOf (sampleRun 10))) !! id_ (newUser 1 0 1 300)
               = Some 4%nat) by (vm_compute; reflexivity).
  split; [exact Ht|]. split; [exact Hn|].
  destruct (proj2 (userGetIn_spec _ _ _ Ht Hn)) as (s' & E & _ & _ & _ & _ & Hp & _).
  { exists false. vm_compute. reflexivity. }
  exists s'. split; [exact E|exact Hp].
Defined.

Lemma map_delete_fresh (a : node) (qs : list (list unode)) :
  Forall (Forall (fun p : unode => (fst p < a)%nat)) qs ->
  map (delete (Some a)) qs = qs.
Proof.
  induction 1 as [|q qs Hq _ IH]; [done|]. simpl. rewrite IH. f_equal.
  unfold delete. by apply unlink_fresh.
Qed.

(** X20. A ride leaves no trace in the lists: if the nodes in the queues
    and in the car are older than the next node to be allocated, then after
    [userEnterQueue] and [userGetIn] of a user the queues are as before and
    the user's node is the last of the ELEVATOR list, which is otherwise as
    before; and [userGetOut] then returns with the queues and the ELEVATOR
    list as they were at the start, the car call of OUT still being on. *)
Theorem ride_round_trip u s s1 s2 :
  usersFresh s ->
  userEnterQueue u s = Some s1 ->
  userGetIn u s1 = Some s2 ->
  queue (ele s2) = queue (ele s) /\
  stack (ele s2) = stack (ele s) ++ [(alloc s, u)] /\
  exists s3,
    userGetOut u s2 = Some s3 /\
    queue (ele s3) = queue (ele s) /\ stack (ele s3) = stack (ele s) /\
    pressed (callCar (ele s3)) (out u) = true /\
    wait s3 = wait s2 /\ time s3 = time s.
Proof.
  intros [Hs Hq] E1 E2.
  destruct (userEnterQueue_inv u s s1 E1) as (q & Eq & He & Hl & _ & _ & Ht & _).
  assert (Hn : listNode s1 !! id_ u = Some (alloc s)) by (by rewrite Hl, lookup_insert_eq).
  destruct (userGetIn_inv u s1 s2 (alloc s) Hn E2)
    as ([b Hb] & Hst & Hqu & Hc & _ & _ & _ & _ & _ & _ & _ & Htm & Hl2 & _).
  rewrite He in Hst, Hqu. simpl in Hst, Hqu.
  assert (Hi : (Z.to_nat (in_ u) < length (queue (ele s)))%nat /\
               queue (ele s) !! Z.to_nat (in_ u) = Some q).
  { unfold index in Eq. destruct (in_ u <? 0); [done|].
    split; [by eapply lookup_lt_Some|done]. }
  destruct Hi as [_ Hi].
  rewrite (unlink_entered _ _ _ _ _ Hq Hi) in Hqu.
  rewrite (unlink_fresh _ _ Hs) in Hst.
  split; [done|]. split; [done|].
  unfold userGetOut. eexists. split; [reflexivity|].
  rewrite Hl2, Hn. unfold listDelete. simpl. rewrite Hqu, Hst, Hc.
  split_and!; try done.
  - by apply map_delete_fresh.
  - unfold delete. rewrite unlink_app, unlink_one, app_nil_r. by apply unlink_fresh.
  - apply pressed_insert_eq. apply index_range in Hb. lia.
  - by rewrite Htm.
Qed.

Lemma ride_round_trip_sample :
  usersFresh (popped (stateOf (sampleRun 1))) /\
  exists s1 s2,
    userEnterQueue (newUser 1 0 1 300) (popped (stateOf (sampleRun 1))) = Some s1 /\
    userGetIn (newUser 1 0 1 300) s1 = Some s2 /\
    queue (ele s2) = queue (ele (popped (stateOf (sampleRun 1)))).
Proof.
  assert (Hf : usersFresh (popped (stateOf (sampleRun 1)))).
  { vm_compute. split; repeat constructor. }
  split; [exact Hf|].
  pose proof (sampleRun_state 1 ltac:(vm_compute; reflexivity)) as Hr.
  destruct (userEnterQueue_Some (newUser 1 0 1 300) _ [] (popped_waitOK _ Hr))
    as (s1 & E1 & _ & He & _ & _ & _ & _ & _ & _ & Ht); [simpl; lia|vm_compute; reflexivity|].
  destruct (userGetIn_Some (newUser 1 0 1 300) s1 false) as [s2 E2].
  { rewrite Ht. replace (time (popped (stateOf (sampleRun 1)))) with 0
      by (vm_compute; reflexivity). lia. }
  { rewrite He. vm_compute. reflexivity. }
  exists s1, s2. split; [exact E1|]. split; [exact E2|].
  exact (proj1 (ride_round_trip _ _ _ _ Hf E1 E2)).
Defined.

(** * Properties kept by every listener *)

Section Closure.
Variable P : simulator -> Prop.
(** The updates of the elevator and the listeners to schedule that [P]
    stands. *)
Variable F : (elevator -> elevator) -> Prop.
Variable A : listener -> Prop.
Hypothesis P_plain : forall f s, plain f -> F f -> P s -> P (upd_ele f s).
Hypothesis P_userID : forall i s, P s -> P (set_userID i s).
Hypothesis P_sortIn :
  forall w s n s', A (nextInst w) -> P s -> waitSortIn w s = Some (n, s') -> P s'.
Hypothesis P_immed : forall w s, A (nextInst w) -> P s -> P (snd (waitImmed w s)).
Hypothesis P_delete3 : forall s, P s -> P (waitDelete (elev3 (ele s)) s).
Hypothesis P_sched :
  forall sl d a s s', A a -> P s -> scheduleElevator sl d a s = Some s' -> P s'.
Hypothesis P_schedI :
  forall sl a s, A a -> P s -> P (scheduleElevatorImmediately sl a s).
Hypothesis P_listDelete : forall i s, P s -> P (listDelete (listNode s !! i) s).
Hypothesis P_U3 : forall u s s', P s -> userEnterQueue u s = Some s' -> P s'.
Hypothesis P_U5 : forall u s s', P s -> userGetIn u s = Some s' -> P s'.
(** What the listeners write and schedule, E1, E6, E7 and E8 apart. *)
Hypothesis F_step : forall k, k <> stepWaitForCall -> F (e_step k).
Hypothesis F_state : forall v, F (e_state v).
Hypothesis F_d1 : forall v, F (e_d1 v).
Hypothesis F_d2 : forall v, F (e_d2 v).
Hypothesis F_d3 : forall v, F (e_d3 v).
Hypothesis F_callUp : forall v, F (e_callUp v).
Hypothesis F_callDown : forall v, F (e_callDown v).
Hypothesis F_callCar : forall v, F (e_callCar v).
Hypothesis A_other : forall a, a <> wf_executeWaitForCall -> A a.

Ltac plainly :=
  apply P_plain;
  [by intros []
  |by (apply F_step || apply F_state || apply F_d1 || apply F_d2 || apply F_d3
       || apply F_callUp || apply F_callDown || apply F_callCar)
  |].
Ltac otherListener := apply A_other; simpl; done.
Ltac closeSched := apply P_sched; [otherListener|].
Ltac closeSchedI := apply P_schedI; [otherListener|].

Lemma decisionD4_closed j s s' : P s -> decisionD4 j s = Some s' -> P s'.
Proof.
  intros Hs. unfold decisionD4.
  set (s0 := if floor (ele s) >? j then _ else _).
  assert (H0 : P s0).
  { unfold s0. destruct (_ >? _); [by plainly|]. destruct (_ <? _); [by plainly|done]. }
  clearbody s0. destruct (_ && _); [by closeSched|]. by intros [= <-].
Qed.

Lemma decision_closed s s' : P s -> decision s = Some s' -> P s'.
Proof.
  intros Hs. unfold decision.
  destruct (negb _); [by intros [= <-]|].
  destruct (_ &&& _) as [[]|]; [by closeSched| |done].
  destruct (decisionScan _ _ _) as [[j|]|]; [by apply decisionD4_closed| |done].
  destruct (bool_decide _); [by apply decisionD4_closed|by intros [= <-]].
Qed.

Lemma clearCallsHere_closed s s' : P s -> clearCallsHere s = Some s' -> P s'.
Proof.
  intros Hs. unfold clearCallsHere.
  destruct (assign (callUp _) _ _) as [a|]; [|done]. simpl.
  destruct (assign (callDown _) _ _) as [b|]; [|done]. simpl.
  destruct (assign (callCar _) _ _) as [c|]; [|done]. intros [= <-].
  by repeat plainly.
Qed.

Lemma changeOfState_closed s s' : P s -> changeOfState s = Some s' -> P s'.
Proof.
  intros Hs. unfold changeOfState.
  destruct (_ &&& _) as [[]|]; [| |done].
  - destruct (isAllCallsBelowFalse s) as [[]|]; [| |done];
      apply clearCallsHere_closed; by plainly.
  - destruct (_ &&& _) as [[]|]; [| |done].
    + destruct (isAllCallsAboveFalse s) as [[]|]; [| |done];
        apply clearCallsHere_closed; by plainly.
    + by intros [= <-].
Qed.

Lemma clearCallsOnLeaving_closed s s' :
  P s -> clearCallsOnLeaving s = Some s' -> P s'.
Proof.
  intros Hs. unfold clearCallsOnLeaving.
  destruct (assign (callCar _) _ _) as [a|]; [|done]. simpl.
  set (s0 := upd_ele (e_callCar a) s). assert (H0 : P s0) by by plainly.
  clearbody s0.
  set (o := if negb _ then _ else Some s0).
  assert (H1 : forall s1, o = Some s1 -> P s1).
  { unfold o. intros s1. destruct (negb _); [|by intros [= <-]].
    destruct (assign _ _ _); [|done]. intros [= <-]. by plainly. }
  destruct o as [s1|]; [|done]. specialize (H1 s1 eq_refl).
  destruct (negb _); [|by intros [= <-]].
  destruct (assign _ _ _); [|done]. intros [= <-]. by plainly.
Qed.

(** Every listener keeps [P]: E1 if [P] stands the step being set to E1,
    E6 if it stands E1 being scheduled, and E7 and E8 if it stands the
    floor being changed. *)
Lemma execute_closed a r s s' :
  (a = wf_executeWaitForCall -> F (e_step stepWaitForCall)) ->
  (a = wf_executePrepareToMove -> A wf_executeWaitForCall) ->
  (a = wf_executeGoUpAFloor \/ a = wf_executeGoDownAFloor -> forall v, F (e_floor v)) ->
  P s -> execute a r s = Some s' -> P s'.
Proof.
  intros HE1 HE6 HE7 Hs. destruct a; simpl.
  - (* U1 *)
    unfold userEnterPrepareForSuccessor. cbv zeta.
    destruct (waitSortIn _ _) as [[n s1]|] eqn:E; [|done].
    apply P_sortIn in E; [|otherListener|by apply P_userID].
    pose proof (P_immed (newWaitElement (time s1)
      (wf_userSignalAndWait (newUser (userID (set_userID (userID s + 1) s))
         (Int31n (r_in r) floors)
         (if Int31n (r_out r) (floors - 1) >=? Int31n (r_in r) floors
          then Int31n (r_out r) (floors - 1) + 1 else Int31n (r_out r) (floors - 1))
         (minGiveUpTime + Int31n (r_giveUp r) (maxGiveUpTime - minGiveUpTime)))))
      s1 ltac:(otherListener) E) as H.
    destruct (waitImmed _ s1) as [m s2]. by intros [= <-].
  - (* U2 *)
    unfold userSignalAndWait.
    set (o := if _ && _ then _ else _).
    assert (H1 : forall s1, o = Some s1 -> P s1).
    { unfold o. intros s1. destruct (_ && bool_decide _).
      { intros [= <-]. by closeSchedI. }
      destruct (_ && d3 _).
      { intros [= <-]. closeSchedI. by repeat plainly. }
      set (o2 := if out u >? in_ u then _ else _).
      assert (H2 : forall s2, o2 = Some s2 -> P s2).
      { unfold o2. intros s2. destruct (_ >? _);
          (destruct (assign _ _ _); [|done]); intros [= <-]; by plainly. }
      destruct o2 as [s2|]; [|done]. specialize (H2 s2 eq_refl).
      destruct (_ || _); [by apply decision_closed|by intros [= <-]]. }
    destruct o as [s1|]; [|done]. specialize (H1 s1 eq_refl).
    pose proof (P_immed (newWaitElement (time s1) (wf_userEnterQueue u)) s1
                  ltac:(otherListener) H1) as H.
    destruct (waitImmed _ s1) as [m s2]. by intros [= <-].
  - (* U3 *) by apply P_U3.
  - (* U4 *)
    unfold userGiveUp. destruct (_ || _); intros [= <-]; [by apply P_listDelete|done].
  - (* U5 *) by apply P_U5.
  - (* U6 *) unfold userGetOut. intros [= <-]. by apply P_listDelete.
  - (* E1 *)
    unfold executeWaitForCall. intros [= <-].
    apply P_plain; [by intros []|by apply HE1|done].
  - (* E2 *)
    unfold executeChangeOfState. cbv zeta.
    destruct (changeOfState _) as [s1|] eqn:E; [|done]. intros [= <-].
    closeSchedI. apply changeOfState_closed in E; [done|by plainly].
  - (* E3 *)
    unfold executeOpenDoors. cbv zeta.
    destruct (scheduleElevator Elev3 _ _ _) as [s1|] eqn:E1; [|done].
    destruct (scheduleElevator Elev2 _ _ _) as [s2|] eqn:E2; [|done].
    closeSched. apply P_sched in E2; [done|otherListener|].
    apply P_sched in E1; [done|otherListener|]. by repeat plainly.
  - (* E4 *)
    unfold executeLetPeopleOutIn. cbv zeta.
    set (s0 := upd_ele (e_step stepLetPeopleOutIn) s).
    assert (H0 : P s0) by by plainly. clearbody s0.
    destruct (find _ _) as [[k u]|].
    + pose proof (P_immed (newWaitElement (time s0) (wf_userGetOut u)) s0
                    ltac:(otherListener) H0) as H.
      destruct (waitImmed _ s0) as [m s2]. by closeSched.
    + destruct (index _ _) as [[|[k u] q]|]; [| |done].
      * intros [= <-]. by repeat plainly.
      * pose proof (P_immed (newWaitElement (time s0) (wf_userGetIn u)) s0
                      ltac:(otherListener) H0) as H.
        destruct (waitImmed _ s0) as [m s2]. by closeSched.
  - (* E5 *)
    unfold executeCloseDoors. cbv zeta. destruct (d1 _); closeSched; by repeat plainly.
  - (* E6 *)
    unfold executePrepareToMove. cbv zeta.
    destruct (clearCallsOnLeaving _) as [s1|] eqn:E1; [|done].
    apply clearCallsOnLeaving_closed in E1; [|by plainly].
    destruct (decision s1) as [s2|] eqn:E2; [|done].
    apply decision_closed in E2; [|done].
    destruct (bool_decide _); [intros [= <-]; apply P_schedI; [by apply HE6|done]|].
    set (s3 := if d2 (ele s2) then _ else s2).
    assert (H3 : P s3) by (unfold s3; destruct (d2 _); [by apply P_delete3|done]).
    clearbody s3. destruct (bool_decide _); by closeSched.
  - (* E7 *)
    unfold executeGoUpAFloor. cbv zeta. closeSched.
    apply P_plain; [by intros []|apply HE7; by left|]. by plainly.
  - unfold executeGoUpAFloor2. cbv zeta.
    destruct (_ ||| _) as [[]|]; [by closeSched| |done].
    intros [= <-]. by closeSchedI.
  - (* E8 *)
    unfold executeGoDownAFloor. cbv zeta. closeSched.
    apply P_plain; [by intros []|apply HE7; by right|]. by plainly.
  - unfold executeGoDownAFloor2. cbv zeta.
    destruct (_ ||| _) as [[]|]; [by closeSched| |done].
    intros [= <-]. by closeSchedI.
  - (* E9 *)
    unfold executeSetInactionIndicator. cbv zeta. apply decision_closed. by plainly.
Qed.
End Closure.

(** * The next user is always scheduled *)

Lemma keeps_upd o f s :
  (forall e sl, getSlot sl (f e) = getSlot sl e) -> keeps o s -> keeps o (upd_ele f s).
Proof.
  intros Hf [[H1 H2] H3]. split; [split|].
  - intros sl m. simpl. rewrite Hf. apply H1.
  - done.
  - destruct o as [p|]; [|done]. destruct H3 as (K1 & K2 & K3 & K4).
    split_and!; try done. intros sl. simpl. rewrite Hf. apply K3.
Qed.

Lemma keeps_plain o f s : plain f -> keeps o s -> keeps o (upd_ele f s).
Proof.
  intros Hf. apply keeps_upd. intros e sl.
  destruct (Hf e) as (H1 & H2 & H3 & _). by destruct sl.
Qed.

Lemma keeps_userID o i s : keeps o s -> keeps o (set_userID i s).
Proof. done. Qed.

(** The WAIT list replaced by a list with all the nodes no handle refers
    to, one node allocated. *)
Lemma keeps_grow o r s :
  (forall p, In p (wait s) -> In p r) ->
  keeps o s -> keeps o (set_alloc (S (alloc s)) (set_wait r s)).
Proof.
  intros Hr [[H1 H2] H3]. split; [split|].
  - intros sl m Hm. specialize (H1 sl m Hm). simpl. lia.
  - intros i m Hm. specialize (H2 i m Hm). simpl. lia.
  - destruct o as [p|]; [|done]. destruct H3 as (K1 & K2 & K3 & K4).
    split_and!; try done; [by apply Hr|simpl; lia].
Qed.

Lemma keeps_sortIn o w s n s' :
  keeps o s -> waitSortIn w s = Some (n, s') -> keeps o s'.
Proof.
  intros Hs. unfold waitSortIn.
  destruct (sortIn _ _ _) as [r|] eqn:Hr; [|done]. intros [= <- <-].
  apply keeps_grow; [|done]. intros p Hp. apply (sortIn_In _ _ _ _ p Hr). by right.
Qed.

Lemma keeps_immed o w s : keeps o s -> keeps o (snd (waitImmed w s)).
Proof.
  intros Hs. unfold waitImmed. simpl. apply keeps_grow; [|done].
  intros p Hp. by right.
Qed.

Lemma keeps_waitDelete o x s :
  (forall p, o = Some p -> x <> Some (fst p)) ->
  keeps o s -> keeps o (waitDelete x s).
Proof.
  intros Hx [H1 H2]. split; [done|].
  destruct o as [p|]; [|done]. destruct H2 as (K1 & K2 & K3 & K4).
  split_and!; try done. simpl. apply in_delete_iff. split; [done|].
  intros E. by apply (Hx p eq_refl).
Qed.

Lemma keeps_delete3 o s : keeps o s -> keeps o (waitDelete (elev3 (ele s)) s).
Proof.
  intros Hs. apply keeps_waitDelete; [|done]. intros p -> E.
  destruct Hs as (_ & _ & _ & K3 & _). by apply (K3 Elev3).
Qed.

Lemma slot_eq_dec (k sl : slot) : {k = sl} + {k <> sl}.
Proof. decide equality. Defined.

Lemma keeps_placed o sl r s :
  (forall p, In p (delete (getSlot sl (ele s)) (wait s)) -> In p r) ->
  keeps o s -> keeps o (placed sl r s).
Proof.
  intros Hr [[H1 H2] H3]. split; [split|].
  - intros k m. destruct (slot_eq_dec k sl) as [->|Hk].
    + rewrite getSlot_placed. intros [= <-]. simpl. lia.
    + rewrite getSlot_placed_other by done. intros Hm. specialize (H1 k m Hm).
      simpl. lia.
  - intros i m Hm. specialize (H2 i m Hm). simpl. lia.
  - destruct o as [p|]; [|done]. destruct H3 as (K1 & K2 & K3 & K4).
    split_and!.
    + apply Hr. apply in_delete_iff. split; [done|]. intros E. by apply (K3 sl).
    + simpl. lia.
    + intros k. destruct (slot_eq_dec k sl) as [->|Hk].
      * rewrite getSlot_placed. intros [= E]. lia.
      * rewrite getSlot_placed_other by done. apply K3.
    + done.
Qed.

Lemma keeps_sched o sl d a s s' :
  keeps o s -> scheduleElevator sl d a s = Some s' -> keeps o s'.
Proof.
  intros Hs (r & Hr & ->)%scheduleElevator_inv.
  apply keeps_placed; [|done]. intros p Hp. apply (sortIn_In _ _ _ _ p Hr). by right.
Qed.

Lemma keeps_schedI o sl a s : keeps o s -> keeps o (scheduleElevatorImmediately sl a s).
Proof.
  intros Hs. rewrite scheduleElevatorImmediately_eq.
  apply (keeps_placed o sl (immed _ _ _) s); [|done]. intros p Hp. by right.
Qed.

Lemma keeps_listDelete o i s : keeps o s -> keeps o (listDelete (listNode s !! i) s).
Proof. intros Hs. apply keeps_upd; [|done]. by intros e []. Qed.

Lemma keeps_U3 o u s s' : keeps o s -> userEnterQueue u s = Some s' -> keeps o s'.
Proof.
  intros [[H1 H2] H3] E.
  destruct (userEnterQueue_inv u s s' E) as (q & _ & He & _ & Hg & Ha & _ & Hr).
  assert (Hsl : forall sl, getSlot sl (ele s') = getSlot sl (ele s))
    by (intros sl; rewrite He; by destruct sl).
  split; [split|].
  - intros sl m. rewrite Hsl, Ha. intros Hm. specialize (H1 sl m Hm). lia.
  - intros i m. rewrite Hg, Ha. destruct (decide (i = id_ u)) as [->|Hi].
    + rewrite lookup_insert_eq. intros [= <-]. lia.
    + rewrite lookup_insert_ne by done. intros Hm. specialize (H2 i m Hm). lia.
  - destruct o as [p|]; [|done]. destruct H3 as (K1 & K2 & K3 & K4).
    split_and!.
    + apply (sortIn_In _ _ _ _ p Hr). by right.
    + rewrite Ha. lia.
    + intros sl. rewrite Hsl. apply K3.
    + intros i. rewrite Hg. destruct (decide (i = id_ u)) as [->|Hi].
      * rewrite lookup_insert_eq. intros [= E']. lia.
      * rewrite lookup_insert_ne by done. apply K4.
Qed.

Lemma keeps_U5 o u s s' : keeps o s -> userGetIn u s = Some s' -> keeps o s'.
Proof.
  intros Hs. unfold userGetIn. cbv zeta.
  set (s0 := waitDelete _ (listDelete _ s)).
  assert (H0 : keeps o s0).
  { apply keeps_waitDelete; [|by apply keeps_listDelete].
    intros p -> E. simpl in E. destruct Hs as (_ & _ & _ & _ & K4). by apply (K4 (id_ u)). }
  clearbody s0.
  set (s1 := match listNode s0 !! id_ u with Some _ => _ | None => s0 end).
  assert (H1 : keeps o s1).
  { unfold s1. destruct (listNode s0 !! id_ u); [|done].
    apply keeps_upd; [|done]. by intros e []. }
  clearbody s1. destruct (assign _ _ _) as [a|]; [|done].
  destruct (bool_decide _); [|intros [= <-]; by apply keeps_plain].
  apply keeps_sched. destruct (_ >? _); by repeat (apply keeps_plain; [by intros []|]).
Qed.

(** Every listener leaves a node to which no handle refers on the list. *)
Lemma execute_keeps o a r s s' : keeps o s -> execute a r s = Some s' -> keeps o s'.
Proof.
  apply (execute_closed (keeps o) (fun _ => True) (fun _ => True)); try done;
    intros;
    eauto using keeps_plain, keeps_userID, keeps_sortIn, keeps_immed, keeps_delete3,
      keeps_sched, keeps_schedI, keeps_listDelete, keeps_U3, keeps_U5.
Qed.

(** U1 schedules its successor in a node to which no handle refers. *)
Lemma U1_keeps r s s' :
  keeps None s -> userEnterPrepareForSuccessor r s = Some s' ->
  exists p, instOf p = wf_userEnterPrepareForSuccessor /\ keeps (Some p) s'.
Proof.
  intros Hs. unfold userEnterPrepareForSuccessor. cbv zeta.
  destruct (waitSortIn _ _) as [[n s1]|] eqn:E; [|done].
  set (w := newWaitElement _ wf_userEnterPrepareForSuccessor) in E.
  assert (H1 : keeps (Some (alloc s, w)) s1).
  { pose proof (keeps_sortIn None _ _ _ _ (keeps_userID None (userID s + 1) s Hs) E)
      as [Hf _].
    split; [done|]. unfold waitSortIn in E. simpl in E.
    destruct (sortIn _ _ _) as [l|] eqn:Hl; [|done]. injection E as <- <-.
    destruct Hs as [[F1 F2] _]. split_and!; simpl.
    - apply (sortIn_In _ _ _ _ _ Hl). by left.
    - lia.
    - intros sl Hm. specialize (F1 sl _ Hm). lia.
    - intros i Hm. specialize (F2 i _ Hm). lia. }
  match goal with |- context [waitImmed ?x s1] =>
    pose proof (keeps_immed _ x s1 H1) as H end.
  destruct (waitImmed _ s1) as [m s2]. intros [= <-].
  by exists (alloc s, w).
Qed.

Lemma keeps_newSimulator : keeps None newSimulator.
Proof. split; [split|done]; [by intros []|done]. Qed.

Lemma reachable_keeps s :
  reachable s -> exists p, instOf p = wf_userEnterPrepareForSuccessor /\ keeps (Some p) s.
Proof.
  induction 1 as [r s E|r s s' Hs IH E].
  - apply (U1_keeps r newSimulator s keeps_newSimulator E).
  - destruct IH as (p & Hp & Hk). unfold mainIteration in E.
    destruct (wait s) as [|[m w0] rest] eqn:Ew; [done|]. cbv zeta in E.
    destruct (_ >=? _); [done|].
    destruct (execute _ _ _) as [s1|] eqn:Ex; [|done]. injection E as <-.
    destruct Hk as [Hf (K1 & K2 & K3 & K4)]. rewrite Ew in K1.
    assert (H0 : keeps None (popFirst w0 rest s)) by done.
    destruct K1 as [<-|K1].
    + unfold instOf in Hp. simpl in Hp. rewrite Hp in Ex. simpl in Ex.
      by apply (U1_keeps r _ _ H0).
    + exists p. split; [done|].
      eapply (execute_keeps (Some p)); [|exact Ex].
      split; [done|]. split_and!; done.
Qed.

Lemma mainIteration_goes_on r s :
  reachable s ->
  match mainIteration r s with
  | Continue s' => reachable s'
  | TimeIsUp _ => True
  | _ => False
  end.
Proof.
  intros Hs. pose proof (mainIteration_Inv r s (reachable_Inv s Hs)) as H.
  destruct (mainIteration r s) as [s'| | |] eqn:E; try done.
  - by apply (reachable_turn r s).
  - destruct (reachable_keeps s Hs) as (p & _ & _ & K1 & _). by rewrite H in K1.
Qed.

(** X21. The next user is always scheduled: at every turn of the loop of
    [main] a U1 is on the WAIT list, in a node to which no handle of the
    elevator and no GIVEUP handle of a user refers.  Hence
    the list is never found empty, and the loop, for whatever random
    draws and however long it runs, either is still running or has stopped
    because the time is up; it never stops for an empty list or a failed
    access. *)
Theorem next_user_always_scheduled s :
  reachable s ->
  (exists n w, In (n, w) (wait s) /\ nextInst w = wf_userEnterPrepareForSuccessor /\
     (forall sl, getSlot sl (ele s) <> Some n) /\
     (forall i, giveUp s !! i <> Some n)) /\
  pend s wf_userEnterPrepareForSuccessor /\
  wait s <> [] /\
  (forall r, exists s',
     mainIteration r s = Continue s' \/ mainIteration r s = TimeIsUp s') /\
  (forall fuel rnd k, exists s',
     mainLoop fuel rnd k s = Continue s' \/ mainLoop fuel rnd k s = TimeIsUp s').
Proof.
  intros Hs. destruct (reachable_keeps s Hs) as ([n w] & Hp & _ & K1 & _ & K3 & K4).
  split_and!.
  - by exists n, w.
  - apply pendIn_In. by exists (n, w).
  - intros E. by rewrite E in K1.
  - intros r. pose proof (mainIteration_goes_on r s Hs) as H.
    destruct (mainIteration r s) as [s'| |s'|]; try done; exists s'; auto.
  - intros fuel. clear n w Hp K1 K3 K4. revert s Hs.
    induction fuel as [|fuel IH]; intros s Hs rnd k; simpl; [by exists s; left|].
    pose proof (mainIteration_goes_on (rnd k) s Hs) as H.
    destruct (mainIteration (rnd k) s) as [s'| |s'|]; try done.
    + by apply IH.
    + exists s'. by right.
Qed.

Lemma next_user_always_scheduled_sample :
  reachable (stateOf (sampleRun 20)) /\
  pend (stateOf (sampleRun 20)) wf_userEnterPrepareForSuccessor.
Proof.
  pose proof (sampleRun_state 20 ltac:(vm_compute; reflexivity)) as Hr.
  split; [exact Hr|].
  exact (proj1 (proj2 (next_user_always_scheduled _ Hr))).
Defined.

(** * A node is on one list of users at most *)

Lemma NoDup_lfilter {A} (f : A -> bool) (l : list A) :
  NoDup l -> NoDup (List.filter f l).
Proof.
  induction 1 as [|x l Hx _ IH]; simpl; [apply NoDup_nil_2|].
  destruct (f x); [|done]. apply NoDup_cons. split; [|done].
  intros Hin. apply Hx. apply list_elem_of_In. apply list_elem_of_In in Hin.
  by apply filter_In in Hin as [Hin _].
Qed.

Lemma map_fst_unlink {A} (n : node) (l : list (node * A)) :
  map fst (unlink n l) = List.filter (fun m => negb (Nat.eqb m n)) (map fst l).
Proof.
  unfold unlink. induction l as [|p l IH]; [done|]. simpl.
  destruct (negb _); simpl; by rewrite IH.
Qed.

Lemma concat_unlink (n : node) (qs : list (list unode)) :
  concat (map (fun q : list unode => map fst q) (map (delete (Some n)) qs))
  = List.filter (fun m => negb (Nat.eqb m n))
      (concat (map (fun q : list unode => map fst q) qs)).
Proof.
  induction qs as [|q qs IH]; [done|]. simpl.
  rewrite List.filter_app, IH. f_equal. unfold delete. apply map_fst_unlink.
Qed.

Lemma userNodes_delete n e :
  userNodes (e_queue (map (delete (Some n)) (queue e)) (e_stack (delete (Some n) (stack e)) e))
  = List.filter (fun m => negb (Nat.eqb m n)) (userNodes e).
Proof.
  unfold userNodes. simpl. rewrite List.filter_app, concat_unlink. f_equal.
  unfold delete. apply map_fst_unlink.
Qed.

Lemma concat_insert (qs : list (list unode)) i q x :
  qs !! i = Some q ->
  concat (map (fun q : list unode => map fst q) (<[i := q ++ [x]]> qs))
  ≡ₚ fst x :: concat (map (fun q : list unode => map fst q) qs).
Proof.
  intros Hq. rewrite insert_take_drop by (by eapply lookup_lt_Some).
  rewrite <- (take_drop_middle qs i q Hq) at 3.
  rewrite !map_app, !concat_app. simpl. rewrite map_app. simpl.
  rewrite <- !app_assoc. simpl.
  rewrite (Permutation_middle _ _ (fst x)).
  apply Permutation_app_head. rewrite Permutation_middle. done.
Qed.

Lemma usersOK_same s s' :
  userNodes (ele s') = userNodes (ele s) -> listNode s' = listNode s ->
  (alloc s <= alloc s')%nat -> usersOK s -> usersOK s'.
Proof.
  intros He Hl Ha (H1 & H2 & H3). unfold usersOK. rewrite He, Hl.
  split_and!; [done| |].
  - eapply Forall_impl; [exact H2|]. simpl. intros; lia.
  - intros i m Hm. specialize (H3 i m Hm). lia.
Qed.

Lemma usersOK_plain f s : plain f -> usersOK s -> usersOK (upd_ele f s).
Proof.
  intros Hf. apply usersOK_same; [|done..].
  destruct (Hf (ele s)) as (_ & _ & _ & H1 & H2). unfold userNodes. simpl.
  by rewrite H1, H2.
Qed.

Lemma usersOK_sortIn w s n s' :
  usersOK s -> waitSortIn w s = Some (n, s') -> usersOK s'.
Proof.
  intros Hs. unfold waitSortIn. destruct (sortIn _ _ _); [|done].
  intros [= <- <-]. revert Hs. apply usersOK_same; simpl; (done || lia).
Qed.

Lemma usersOK_immed w s : usersOK s -> usersOK (snd (waitImmed w s)).
Proof. apply usersOK_same; simpl; (done || lia). Qed.

Lemma usersOK_placed sl r s : usersOK s -> usersOK (placed sl r s).
Proof. apply usersOK_same; simpl; [by destruct sl|done|lia]. Qed.

Lemma usersOK_sched sl d a s s' :
  usersOK s -> scheduleElevator sl d a s = Some s' -> usersOK s'.
Proof. intros Hs (r & _ & ->)%scheduleElevator_inv. by apply usersOK_placed. Qed.

Lemma usersOK_schedI sl a s : usersOK s -> usersOK (scheduleElevatorImmediately sl a s).
Proof.
  rewrite scheduleElevatorImmediately_eq. apply (usersOK_placed sl (immed _ _ _) s).
Qed.

Lemma usersOK_listDelete x s : usersOK s -> usersOK (listDelete x s).
Proof.
  destruct x as [n|]; [|by rewrite listDelete_None].
  intros (H1 & H2 & H3). unfold usersOK, listDelete. simpl.
  rewrite userNodes_delete. split_and!; [| |done].
  - by apply NoDup_lfilter.
  - apply Forall_forall. intros m Hm. rewrite Forall_forall in H2. apply H2.
    apply list_elem_of_In in Hm. apply list_elem_of_In.
    by apply filter_In in Hm as [Hm _].
Qed.

Lemma usersOK_U3 u s s' : usersOK s -> userEnterQueue u s = Some s' -> usersOK s'.
Proof.
  intros (H1 & H2 & H3) E.
  destruct (userEnterQueue_inv u s s' E) as (q & Eq & He & Hl & _ & Ha & _ & _).
  assert (Hi : queue (ele s) !! Z.to_nat (in_ u) = Some q).
  { unfold index in Eq. by destruct (in_ u <? 0). }
  assert (Hp : userNodes (ele s') ≡ₚ alloc s :: userNodes (ele s)).
  { rewrite He. unfold userNodes. simpl.
    rewrite (concat_insert _ _ _ (alloc s, u) Hi). simpl.
    by rewrite Permutation_middle. }
  unfold usersOK. rewrite Hp, Hl, Ha. split_and!.
  - apply NoDup_cons. split; [|done]. intros Hin.
    rewrite Forall_forall in H2. specialize (H2 _ Hin). lia.
  - apply Forall_cons. split; [lia|].
    eapply Forall_impl; [exact H2|]. simpl. intros; lia.
  - intros i m. destruct (decide (i = id_ u)) as [->|Hne].
    + rewrite lookup_insert_eq. intros [= <-]. lia.
    + rewrite lookup_insert_ne by done. intros Hm. specialize (H3 i m Hm). lia.
Qed.

Lemma usersOK_U5 u s s' : usersOK s -> userGetIn u s = Some s' -> usersOK s'.
Proof.
  intros Hs. destruct (listNode s !! id_ u) as [n|] eqn:Hn.
  - intros E.
    destruct (userGetIn_inv u s s' n Hn E)
      as (_ & Hst & Hq & _ & _ & _ & _ & _ & _ & _ & _ & _ & Hl & _ & Hk & Hz).
    assert (Ha : (alloc s <= alloc s')%nat).
    { destruct (decide (state (ele s) = stateNeutral)) as [En|En].
      - destruct (Hz En) as (_ & -> & _). lia.
      - destruct (Hk En) as (_ & -> & _). lia. }
    destruct Hs as (H1 & H2 & H3).
    assert (Hp : userNodes (ele s')
                 ≡ₚ n :: List.filter (fun m => negb (Nat.eqb m n)) (userNodes (ele s))).
    { unfold userNodes. rewrite Hst, Hq, concat_unlink, map_app, map_fst_unlink,
        List.filter_app. simpl. rewrite <- app_assoc. simpl.
      by rewrite Permutation_middle. }
    unfold usersOK. rewrite Hp, Hl. split_and!.
    + apply NoDup_cons. split; [|by apply NoDup_lfilter].
      intros Hin. apply list_elem_of_In, filter_In in Hin as [_ Hin].
      by rewrite Nat.eqb_refl in Hin.
    + apply Forall_cons. split; [specialize (H3 _ _ Hn); lia|].
      apply Forall_forall. intros m Hm. rewrite Forall_forall in H2.
      apply list_elem_of_In, filter_In in Hm as [Hm _].
      apply list_elem_of_In, H2 in Hm. lia.
    + intros i m Hm. specialize (H3 i m Hm). lia.
  - unfold userGetIn. cbv zeta. simpl. rewrite Hn. simpl.
    rewrite listDelete_None.
    destruct (assign _ _ _) as [a|]; [|done]. simpl.
    destruct (bool_decide _).
    + apply usersOK_sched. destruct (_ >? _);
        repeat (apply usersOK_plain; [by intros []|]);
        revert Hs; by apply usersOK_same.
    + intros [= <-]. apply usersOK_plain; [by intros []|].
      revert Hs. by apply usersOK_same.
Qed.

Lemma usersOK_userID i s : usersOK s -> usersOK (set_userID i s).
Proof. by apply usersOK_same. Qed.

Lemma usersOK_delete3 s : usersOK s -> usersOK (waitDelete (elev3 (ele s)) s).
Proof. by apply usersOK_same. Qed.

Lemma execute_usersOK a r s s' : usersOK s -> execute a r s = Some s' -> usersOK s'.
Proof.
  apply (execute_closed usersOK (fun _ => True) (fun _ => True)); try done;
    intros;
    eauto using usersOK_plain, usersOK_userID, usersOK_sortIn, usersOK_immed,
      usersOK_delete3, usersOK_sched, usersOK_schedI, usersOK_listDelete,
      usersOK_U3, usersOK_U5.
Qed.

Lemma usersOK_newSimulator : usersOK newSimulator.
Proof. split_and!; [apply NoDup_nil_2|by apply Forall_nil|done]. Qed.

Lemma reachable_usersOK s : reachable s -> usersOK s /\ usersOK (popped s).
Proof.
  assert (Hpop : forall s, usersOK s -> usersOK (popped s)).
  { intros s0. unfold popped. destruct (wait s0) as [|[m w0] rest]; [done|].
    by apply usersOK_same. }
  intros H. split; [|apply Hpop]; induction H as [r s E|r s s' Hs IH E].
  1,3: by apply (execute_usersOK wf_userEnterPrepareForSuccessor r newSimulator s
                   usersOK_newSimulator).
  all: unfold mainIteration in E;
    destruct (wait s) as [|[m w0] rest] eqn:Ew; [done|]; cbv zeta in E;
    destruct (_ >=? _); [done|];
    destruct (execute _ _ _) as [s1|] eqn:Ex; [|done]; injection E as <-;
    apply (execute_usersOK _ _ _ _) in Ex; [done|]; revert IH; by apply usersOK_same.
Qed.

Lemma userNodes_fresh s : usersOK s -> usersFresh s.
Proof.
  intros (_ & H & _). unfold userNodes in H. apply Forall_app in H as [H1 H2].
  split.
  - apply Forall_forall. intros p Hp. rewrite Forall_forall in H1. apply H1.
    apply list_elem_of_In, in_map_iff. exists p. split; [done|].
    by apply list_elem_of_In.
  - apply Forall_forall. intros q Hq. apply Forall_forall. intros p Hp.
    rewrite Forall_forall in H2. apply H2. apply list_elem_of_In, in_concat.
    exists (map fst q). split.
    + apply in_map_iff. exists q. split; [done|]. by apply list_elem_of_In.
    + apply in_map_iff. exists p. split; [done|]. by apply list_elem_of_In.
Qed.

(** X22. A node is on one list of users at most: at every turn of the
    loop of [main] no node occurs twice among the nodes of the ELEVATOR list
    and of the queues of the floors, so that a node in the queue of a floor
    is not on the ELEVATOR list and in the queue of no other floor.  These
    nodes, and the nodes the users refer to, are older than the next node to
    be allocated, also when the first node of the WAIT list has been taken
    off: the node a user gets on entering a queue is on no list yet. *)
Theorem users_in_one_place s :
  reachable s ->
  NoDup (map fst (stack (ele s))
         ++ concat (map (fun q : list unode => map fst q) (queue (ele s)))) /\
  usersFresh s /\ usersFresh (popped s) /\
  (forall i m, listNode s !! i = Some m -> (m < alloc s)%nat) /\
  (forall f q p, index (queue (ele s)) f = Some q -> In p q ->
     ~ In (fst p) (map fst (stack (ele s))) /\
     forall f' q', f' <> f -> index (queue (ele s)) f' = Some q' ->
       ~ In (fst p) (map fst q')).
Proof.
  intros Hs. destruct (reachable_usersOK s Hs) as [H Hp].
  pose proof H as (H1 & H2 & H3).
  split_and!; [done|by apply userNodes_fresh|by apply userNodes_fresh|done|].
  intros f q p Hq Hin. unfold userNodes in H1.
  apply NoDup_app in H1 as (_ & Hdis & Hnd).
  assert (Hc : In (fst p) (concat (map (fun q : list unode => map fst q) (queue (ele s))))).
  { apply in_concat. exists (map fst q). split; [|by apply in_map].
    apply in_map_iff. exists q. split; [done|].
    unfold index in Hq. destruct (f <? 0); [done|].
    apply list_elem_of_In. by eapply list_elem_of_lookup_2. }
  split.
  - intros Hst. apply list_elem_of_In in Hst. apply (Hdis _ Hst). by apply list_elem_of_In.
  - intros f' q' Hf Hq' Hin'.
    unfold index in Hq, Hq'.
    destruct (Z.ltb_spec f 0); [done|]. destruct (Z.ltb_spec f' 0); [done|].
    assert (Hne : Z.to_nat f <> Z.to_nat f') by lia.
    clear Hc Hdis. revert Hnd Hq Hq' Hne.
    generalize (Z.to_nat f) (Z.to_nat f') (queue (ele s)).
    intros i j qs. revert i j. induction qs as [|q0 qs IH]; intros i j; [done|].
    simpl. intros Hnd. apply NoDup_app in Hnd as (_ & Hd & Hn).
    destruct i as [|i], j as [|j]; simpl; try done.
    + intros [= ->] Hj _. apply (Hd (fst p)).
      * apply list_elem_of_In. by apply in_map.
      * apply list_elem_of_In, in_concat. exists (map fst q'). split; [|done].
        apply in_map_iff. exists q'. split; [done|].
        apply list_elem_of_In. by eapply list_elem_of_lookup_2.
    + intros Hi [= ->] _. apply (Hd (fst p)).
      * by apply list_elem_of_In.
      * apply list_elem_of_In, in_concat. exists (map fst q). split; [|by apply in_map].
        apply in_map_iff. exists q. split; [done|].
        apply list_elem_of_In. by eapply list_elem_of_lookup_2.
    + intros Hi Hj Hne. apply (IH i j Hn Hi Hj). lia.
Qed.

Lemma users_in_one_place_sample :
  reachable (stateOf (sampleRun 10)) /\
  usersFresh (stateOf (sampleRun 10)).
Proof.
  pose proof (sampleRun_state 10 ltac:(vm_compute; reflexivity)) as Hr.
  split; [exact Hr|].
  exact (proj1 (proj2 (users_in_one_place _ Hr))).
Defined.

(** * IMMED against SORTIN *)

(** X23. [immed] puts the new node first whatever its time is: the list
    is in order afterwards exactly when it was in order and no node is due
    before the new one.  [sortIn] makes the same list when every node is due
    later than the new one, whose time is not negative; but when the first
    node, another node than the new one, is due at the same time as the
    new one, [sortIn] does not make the list that [immed] makes. *)
Theorem immed_against_sortIn l n w :
  head (immed l n w) = Some (n, w) /\ tail (immed l n w) = l /\
  (ordered (immed l n w) <->
   ordered l /\ Forall (fun p => nextTime w <= timeOf p) l) /\
  (0 <= nextTime w -> Forall (fun p => nextTime w < timeOf p) l ->
   sortIn l n w = Some (immed l n w)) /\
  (forall p rest, l = p :: rest -> timeOf p = nextTime w -> fst p <> n ->
   sortIn l n w <> Some (immed l n w)).
Proof.
  split_and!; try done.
  - unfold immed, insertRight. rewrite ordered_cons. done.
  - intros H0 Hl. destruct (sortIn_Some l n w H0) as [r Hr]. rewrite Hr. f_equal.
    destruct (sortIn_spec _ _ _ _ Hr) as (l1 & l2 & -> & -> & _ & Hlast).
    destruct (last l1) as [x|] eqn:El.
    + apply last_Some in El as [l' ->]. rewrite Forall_app in Hl.
      destruct Hl as [Hl _]. rewrite Forall_app in Hl. destruct Hl as [_ Hl].
      inversion Hl; subst. lia.
    + apply last_None in El. by subst.
  - intros p rest -> Hp Hn Hr.
    destruct (sortIn_spec _ _ _ _ Hr) as (l1 & l2 & E1 & E2 & H2 & _).
    unfold immed, insertRight in E2. destruct l1 as [|q l1].
    + simpl in *. subst l2. inversion H2; subst. unfold timeOf in *. lia.
    + simpl in *. injection E1 as <- E1. injection E2 as E2 E3.
      apply Hn. by rewrite <- E2.
Qed.

(** * The car is dormant at the home floor only *)

Lemma still_next s0 s s' :
  floor (ele s') = floor (ele s) ->
  (step (ele s') = stepWaitForCall -> step (ele s) = stepWaitForCall) ->
  (pend s' wf_executeWaitForCall -> pend s wf_executeWaitForCall) ->
  still s0 s -> still s0 s'.
Proof.
  intros H1 H2 H3 (K1 & K2 & K3). split_and!; [congruence|tauto|tauto].
Qed.

Lemma still_upd s0 f s : steady f -> still s0 s -> still s0 (upd_ele f s).
Proof.
  intros Hf. destruct (Hf (ele s)) as [H1 H2]. by apply still_next.
Qed.

Lemma still_sortIn s0 w s n s' :
  nextInst w <> wf_executeWaitForCall ->
  still s0 s -> waitSortIn w s = Some (n, s') -> still s0 s'.
Proof.
  intros Hw Hs. unfold waitSortIn.
  destruct (sortIn _ _ _) as [r|] eqn:Hr; [|done]. intros [= <- <-].
  revert Hs. apply still_next; try done. unfold pend. simpl.
  intros [Hx|Hx]%(pendIn_sortIn _ _ _ _ _ Hr); [by rewrite Hx in Hw|done].
Qed.

Lemma still_immed s0 w s :
  nextInst w <> wf_executeWaitForCall ->
  still s0 s -> still s0 (snd (waitImmed w s)).
Proof.
  intros Hw. apply still_next; try done. unfold pend. simpl.
  intros [Hx|Hx]%pendIn_immed; [by rewrite Hx in Hw|done].
Qed.

Lemma still_waitDelete s0 x s : still s0 s -> still s0 (waitDelete x s).
Proof. apply still_next; try done. apply pend_waitDelete. Qed.

Lemma still_placed s0 sl r s :
  (pendIn r wf_executeWaitForCall -> pend s wf_executeWaitForCall) ->
  still s0 s -> still s0 (placed sl r s).
Proof. intros Hr. apply still_next; try done; by destruct sl. Qed.

Lemma still_sched s0 sl d a s s' :
  a <> wf_executeWaitForCall ->
  still s0 s -> scheduleElevator sl d a s = Some s' -> still s0 s'.
Proof.
  intros Ha Hs (r & Hr & ->)%scheduleElevator_inv. apply still_placed; [|done].
  intros [Hx|Hx]%(pendIn_sortIn _ _ _ _ _ Hr); [by rewrite Hx in Ha|].
  by apply pendIn_delete in Hx.
Qed.

Lemma still_schedI s0 sl a s :
  a <> wf_executeWaitForCall ->
  still s0 s -> still s0 (scheduleElevatorImmediately sl a s).
Proof.
  intros Ha. rewrite scheduleElevatorImmediately_eq.
  apply (still_placed s0 sl (immed _ _ _) s).
  intros [Hx|Hx]%pendIn_immed; [by rewrite Hx in Ha|].
  by apply pendIn_delete in Hx.
Qed.

Lemma still_listDelete s0 x s : still s0 s -> still s0 (listDelete x s).
Proof. by apply still_next. Qed.

Lemma still_U3 s0 u s s' : still s0 s -> userEnterQueue u s = Some s' -> still s0 s'.
Proof.
  intros Hs E.
  destruct (userEnterQueue_inv u s s' E) as (q & _ & He & _ & _ & _ & _ & Hr).
  revert Hs. apply still_next; try (by rewrite He).
  unfold pend. by intros [Hx|Hx]%(pendIn_sortIn _ _ _ _ _ Hr).
Qed.

Lemma still_U5 s0 u s s' : still s0 s -> userGetIn u s = Some s' -> still s0 s'.
Proof.
  intros Hs. unfold userGetIn. cbv zeta.
  set (s1 := waitDelete _ (listDelete _ s)).
  assert (H1 : still s0 s1) by by apply still_waitDelete, still_listDelete.
  clearbody s1.
  set (s2 := match listNode s1 !! id_ u with Some _ => _ | None => s1 end).
  assert (H2 : still s0 s2).
  { unfold s2. destruct (listNode s1 !! id_ u); [|done]. by apply still_upd. }
  clearbody s2. destruct (assign _ _ _) as [a|]; [|done].
  destruct (bool_decide _); [|intros [= <-]; by apply still_upd].
  apply still_sched; [done|]. destruct (_ >? _); by repeat apply still_upd.
Qed.

(** Every listener but E1, E6, E7 and E8 leaves the floor alone, does not
    set the step to E1 and does not schedule E1. *)
Lemma execute_still a r s s' :
  a <> wf_executeWaitForCall -> a <> wf_executePrepareToMove ->
  a <> wf_executeGoUpAFloor -> a <> wf_executeGoDownAFloor ->
  execute a r s = Some s' -> still s s'.
Proof.
  intros N1 N6 N7 N8.
  apply (execute_closed (still s) steady (fun x => x <> wf_executeWaitForCall));
    try done; try (by intros []); intros;
    eauto using still_upd, still_sortIn, still_immed, still_waitDelete,
      still_sched, still_schedI, still_listDelete, still_U3, still_U5.
Qed.

Lemma listener_cases a :
  a = wf_executeWaitForCall \/ a = wf_executePrepareToMove \/
  a = wf_executeGoUpAFloor \/ a = wf_executeGoDownAFloor \/
  (a <> wf_executeWaitForCall /\ a <> wf_executePrepareToMove /\
   a <> wf_executeGoUpAFloor /\ a <> wf_executeGoDownAFloor).
Proof. destruct a; auto 10; by repeat right. Qed.

(** What one listener does to the floor, to the step E1 and to a
    scheduled E1. *)
Lemma execute_effects a r s s' :
  waitOK s -> callsSized (ele s) -> 0 <= floor (ele s) < floors ->
  execute a r s = Some s' ->
  (floor (ele s') <> floor (ele s) ->
   a = wf_executeGoUpAFloor \/ a = wf_executeGoDownAFloor) /\
  (step (ele s') = stepWaitForCall ->
   a = wf_executeWaitForCall \/ step (ele s) = stepWaitForCall) /\
  (pend s' wf_executeWaitForCall ->
   (a = wf_executePrepareToMove /\ floor (ele s') = floorHome) \/
   pend s wf_executeWaitForCall) /\
  (a = wf_executeGoUpAFloor \/ a = wf_executeGoDownAFloor ->
   step (ele s') <> stepWaitForCall /\ ~ pend s' wf_executeWaitForCall).
Proof.
  intros Hw Hc Hf Ex.
  assert (Hmove : forall d b k v,
            b <> wf_executeWaitForCall -> slotOf b = Some Elev1 -> 0 <= d ->
            k <> stepWaitForCall ->
            scheduleElevator Elev1 d b (upd_ele (e_floor v) (upd_ele (e_step k) s))
            = Some s' ->
            step (ele s') <> stepWaitForCall /\ ~ pend s' wf_executeWaitForCall).
  { intros d b k v Hb Hsl Hd Hk E.
    destruct (scheduleElevator_spec Elev1 d b (upd_ele (e_floor v) (upd_ele (e_step k) s)))
      as (s2 & E2 & _ & He & _ & _ & _ & _ & HP); [|done|done|].
    { repeat (apply waitOK_upd; [by intros []|]). done. }
    rewrite E2 in E. injection E as <-. rewrite He. split; [done|].
    intros Hx. apply HP in Hx as [Hx|[_ Hx]]; [by rewrite Hx in Hb|done]. }
  destruct (listener_cases a) as [->|[->|[->|[->|(N1 & N6 & N7 & N8)]]]].
  - injection Ex as <-. simpl. split_and!; try done; auto. by intros [|].
  - simpl in Ex.
    destruct (executePrepareToMove_Some s Hw Hc Hf)
      as (s2 & E2 & H6 & Hfl & _ & _ & _ & _ & _ & _ & Hn & _ & _ & H1).
    rewrite E2 in Ex. injection Ex as <-. rewrite Hfl, H6.
    split_and!; try done.
    + intros Hx. left. split; [done|]. by apply Hn, H1.
    + by intros [|].
  - simpl in Ex. unfold executeGoUpAFloor in Ex. cbv zeta in Ex.
    apply Hmove in Ex as [H1 H2]; [|done|done|lia|done].
    split_and!; try done; auto.
  - simpl in Ex. unfold executeGoDownAFloor in Ex. cbv zeta in Ex.
    apply Hmove in Ex as [H1 H2]; [|done|done|lia|done].
    split_and!; try done; auto.
  - apply (execute_still _ _ _ _ N1 N6 N7 N8) in Ex as (K1 & K2 & K3).
    split_and!; try done; auto. by intros [|].
Qed.

(** A turn of the loop from a reachable state: the state in which the
    listener runs is well formed. *)
Lemma turn_inv r s s' :
  reachable s -> mainIteration r s = Continue s' ->
  exists m w0 rest,
    wait s = (m, w0) :: rest /\
    execute (nextInst w0) r (popFirst w0 rest s) = Some s' /\
    waitOK (popFirst w0 rest s) /\ callsSized (ele s) /\ 0 <= floor (ele s) < floors.
Proof.
  intros Hs E.
  pose proof (popped_waitOK s Hs) as Hw. pose proof (popped_callsSized s Hs) as Hc.
  pose proof (popped_floor s Hs) as Hf.
  unfold mainIteration in E. unfold popped in Hw, Hc, Hf.
  destruct (wait s) as [|[m w0] rest] eqn:Ew; [done|]. cbv zeta in E.
  destruct (_ >=? _); [done|].
  destruct (execute _ _ _) as [s1|] eqn:Ex; [|done]. injection E as <-.
  by exists m, w0, rest.
Qed.

Lemma reachable_dormant s :
  reachable s ->
  step (ele s) = stepWaitForCall \/ pend s wf_executeWaitForCall ->
  floor (ele s) = floorHome.
Proof.
  induction 1 as [r s E|r s s' Hs IH E].
  - intros _.
    apply (execute_still wf_userEnterPrepareForSuccessor r newSimulator s) in E
      as (-> & _); done.
  - destruct (turn_inv r s s' Hs E) as (m & w0 & rest & Ew & Ex & Hw & Hc & Hf).
    destruct (execute_effects _ _ _ _ Hw Hc Hf Ex) as (K1 & K2 & K3 & K4).
    simpl in K1, K2, K3.
    assert (Hp : pend (popFirst w0 rest s) wf_executeWaitForCall ->
                 pend s wf_executeWaitForCall).
    { intros Hx. unfold pend. rewrite Ew. apply pendIn_cons. by right. }
    assert (Ha : pend s (nextInst w0)).
    { unfold pend. rewrite Ew. apply pendIn_cons. by left. }
    intros Hd.
    destruct (decide (floor (ele s') = floor (ele s))) as [Ef|Ef].
    + destruct Hd as [Hd|Hd].
      * rewrite Ef. apply IH.
        destruct (K2 Hd) as [E1|E1]; [right; by rewrite <- E1|by left].
      * destruct (K3 Hd) as [[E6 Hh]|Hx]; [done|].
        rewrite Ef. apply IH. right. by apply Hp.
    + destruct (K4 (K1 Ef)) as [N1 N2]. by destruct Hd.
Qed.

(** X24. The elevator is dormant at the home floor only: at every turn
    of the loop of [main], if the step of the elevator is E1, or E1 is on the
    WAIT list, the car is at floor 2.  For in a turn of the loop the floor is
    changed by E7 and E8 only, which set the step and leave no E1 scheduled;
    E1 comes onto the list through E6 only, with the car at the home floor;
    and the step becomes E1 through E1 only. *)
Theorem dormant_at_home s :
  reachable s ->
  (step (ele s) = stepWaitForCall -> floor (ele s) = 2) /\
  (pend s wf_executeWaitForCall -> floor (ele s) = 2) /\
  (forall a r s', nextListener s = Some a -> mainIteration r s = Continue s' ->
     (floor (ele s') <> floor (ele s) ->
      (a = wf_executeGoUpAFloor \/ a = wf_executeGoDownAFloor) /\
      step (ele s') <> stepWaitForCall /\ ~ pend s' wf_executeWaitForCall) /\
     (pend s' wf_executeWaitForCall ->
      a = wf_executePrepareToMove \/ pend s wf_executeWaitForCall) /\
     (step (ele s') = stepWaitForCall ->
      a = wf_executeWaitForCall \/ step (ele s) = stepWaitForCall)).
Proof.
  intros Hs. split; [|split].
  - intros H. apply (reachable_dormant s Hs). by left.
  - intros H. apply (reachable_dormant s Hs). by right.
  - intros a r s' Ha E.
    destruct (turn_inv r s s' Hs E) as (m & w0 & rest & Ew & Ex & Hw & Hc & Hf).
    unfold nextListener in Ha. rewrite Ew in Ha. injection Ha as <-.
    destruct (execute_effects _ _ _ _ Hw Hc Hf Ex) as (K1 & K2 & K3 & K4).
    simpl in K1, K2, K3. split_and!.
    + intros Ef. split; [by apply K1|]. by apply K4, K1.
    + intros Hx. destruct (K3 Hx) as [[E6 _]|Hp]; [by left|right].
      unfold pend. rewrite Ew. apply pendIn_cons. by right.
    + exact K2.
Qed.

Lemma sample30_pending : pend (stateOf (sampleRun 30)) wf_executeWaitForCall.
Proof.
  unfold pend, pendIn.
  replace (map instOf (wait (stateOf (sampleRun 30))))
    with [wf_executeWaitForCall; wf_executeSetInactionIndicator;
          wf_userEnterPrepareForSuccessor] by (vm_compute; reflexivity).
  by left.
Qed.

Lemma dormant_at_home_sample :
  reachable (stateOf (sampleRun 30)) /\ floor (ele (stateOf (sampleRun 30))) = 2.
Proof.
  pose proof (sampleRun_state 30 ltac:(vm_compute; reflexivity)) as Hr.
  split; [exact Hr|].
  exact (proj1 (proj2 (dormant_at_home _ Hr)) sample30_pending).
Defined.
